(* ===== verification/_CoqProject ===== *)
-Q . S2P
Prelude.v
Goroutines.v
Guarded.v
GoNet.v
GoNetFacts.v
GoText.v
GoTextFacts.v
Ipam.v
IpamFacts.v
IpamSpec.v
MapStore.v
IpamThreads.v
IpamThreadsFacts.v
MacCache.v
MacThreads.v
Leases.v
Metrics.v
Dhcp.v
DhcpFacts.v
DhcpThreads.v
Server.v
Api.v
Heap.v
DeepCopy.v
Util.v
UtilFacts.v
Agent.v
Webhook.v
Fakes.v
WebhookFacts.v
AgentFacts.v
Kube.v
FakeKube.v
Image.v
VmNetCfg.v
VmNetCfgFacts.v
IpPool.v
IpPoolFacts.v
Admission.v
IpPoolAgentFacts.v
Vm.v
VmFacts.v
StatusHandler.v
System.v
Interleaving.v
HandlerCalls.v
HandlerCallsFacts.v
PoolServer.v
Durability.v
EndToEnd.v
AgentLoop.v
Process.v
ProcessFacts.v
Assets.v
Startup.v
Lifecycle.v
