(* ===== verification/Prelude.v ===== *)
(** * vm-dhcp-controller, verified

    The program gives virtual machines on Harvester their IP addresses.  It is three
    programs that meet in two custom resources:

    - the controller ([src/cmd/controller]) derives a VirtualMachineNetworkConfig from
      every VirtualMachine, takes an address for each of its interfaces from the IPPool
      of the interface's network, and keeps one agent pod per pool;
    - the agent ([src/cmd/agent]) watches its IPPool and answers DHCP requests from the
      leases recorded in the pool's status;
    - the webhooks ([src/pkg/webhook]) complete and check the resources on admission.

    Inside the controller process three controllers share one IP allocator, one MAC
    cache and the metrics ([config.Management]); what must outlive the process is in
    the status of the IPPools.

    ** How the code is modelled

    A Go function becomes a definition of the same name with the code's branches in the
    code's order.  Code that reads and writes shared state is a [GoM S A] (this file): a
    function from a state to the state left behind and a result, which is a value, a
    panic, or no result because a loop does not end; the state is there on every path,
    error returns and panics included.  [(T, error)] is a pair with an [option error] or,
    where the value beside an error is not used, a sum.  A loop over a Go map visits it in
    the order an instance of [MapRange] chooses for that execution ([seed]); theorems
    hold for every instance.  Machine integers are [Z] with the wrap-around written out
    where it can occur ([Dhcp.int64]); addresses are byte lists ([net.IP]) or integers with
    a family ([netip.Addr]).  Third-party libraries are type classes with their documented
    laws: [PromLib] (Prometheus), [ConditionLib], [KvLib], [SemanticEq] (wrangler and
    apimachinery), [RetryLib] and [Kube] (client-go: clients, informer caches), [WorkQueue]
    and [KeyLib] (client-go's queue and store keys), [PoolServer] (the API server's and the
    informers' contract, where a theorem needs one), [MuxLib] (gorilla/mux), [ErrGroup]
    (golang.org/x/sync), [LeaderLib] (wrangler's leader election) and [DHCPOptions];
    [Fakes], [FakeKube], [PoolServer], [DhcpFacts], [Server], [AgentLoop] and
    [ProcessFacts] hold instances, so that no hypothesis is empty.

    ** The files

    - [Prelude]: errors, effects with their reasoning rules ([wp], [ends]), map iteration,
      automation ([go] hints, [solve_ends]).
    - [GoNet], [GoNetFacts], [GoText], [GoTextFacts]: Go's net, net/netip, strings, strconv,
      encoding/json and crypto/sha256, as far as used.
    - [Ipam], [IpamFacts], [IpamSpec]: [pkg/ipam].  The contract is the abstract pool of
      free and used addresses ([represents], [alloc_step]).
    - [Goroutines]: code as single accesses to shared memory and to a [sync.RWMutex], the
      threads that run it, races.  [Guarded]: the interface of an object whose methods hold
      its mutex, and what follows from it (linearizability, no race, no deadlock).
      [MapStore]: tables whose entries refer to maps, in shared memory.
    - [IpamThreads], [IpamThreadsFacts], [MacThreads], [DhcpThreads]: the methods of the
      three allocators as such code.  Each is shown to do, when it runs alone, what its
      sequential model in [Ipam], [MacCache] and [Dhcp] does.
    - [MacCache]: [pkg/cache].  [Leases]: both together, the lease table; [coherent] is the
      invariant all controllers rely on.
    - [Metrics]: [pkg/metrics].  [Util], [UtilFacts]: [pkg/util] and [pkg/indexer].
    - [Dhcp], [DhcpFacts]: [pkg/dhcp], lease store and packet handler.
    - [Server]: [pkg/server], the routes and handlers of both programs' HTTP servers.
    - [Api]: the custom resources of [pkg/apis].  [Heap], [DeepCopy]: the same resources in
      memory, with their pointers, slices and maps, and their generated deep copies.
    - [Agent], [AgentFacts]: [pkg/agent], from the work queue to the lease store.
    - [Webhook], [WebhookFacts]: [pkg/webhook], mutator and validators.
    - [Kube]: the API as the controllers see it and [Management], the state of
      [pkg/config/context.go]; [leases_ok], [grew], [quiet] speak of its lease table.
      [FakeKube]: an instance, an API server in memory for the witnesses and for runs that
      show a flaw ([mark_cleared_forever]).  [Image]: container image references.
    - [PoolServer]: what the theorems on recorded leases rely on of any API server, with
      informer caches that lag behind, and an instance whose caches never catch up.
    - [Admission]: from the webhooks to the pool controller and the IPAM.
    - [VmNetCfg], [VmNetCfgFacts]: [pkg/controller/vmnetcfg].
    - [IpPool], [IpPoolFacts], [IpPoolAgentFacts]: [pkg/controller/ippool].
    - [Vm], [VmFacts]: [pkg/controller/vm].
    - [StatusHandler]: the generated handlers of [pkg/generated/controllers].
    - [System]: what every [Register] registers, and the process as a transition system
      whose steps are whole handlers.
    - [Interleaving]: handlers as trees of their calls ([prog]), run by workers in turns;
      what a worker may rely on between two of its calls ([claim], [psafe]).
      [HandlerCalls]: the handlers of [System] in this form, with the code's branches in
      the code's order once more.  [HandlerCallsFacts]: they do what those of [System] do,
      and keep their claims.
    - [Durability], [EndToEnd], [Lifecycle]: the parts composed.  [AgentLoop]: the agent's
      informer, queue and worker as goroutines, composed with its DHCP server.
    - [Process], [ProcessFacts]: [run] of [cmd/controller] and [cmd/agent] with [Agent.Run]:
      the goroutines of a program, its errgroups, cleanups, signals and panics.
    - [Assets]: [pkg/data] and [generateObjects] of [pkg/crd].  [Startup]: the calls that start
      the controller and the webhook ([pkg/config], [cmd/controller], [cmd/webhook], each
      [Register]).

    ** What the theorems show

    - Addresses: the allocator refines the abstract pool, never hands an address out twice
      and serves every free one ([AllocateIP_refines], [no_double_allocation],
      [allocate_until_exhausted], [NewIPSubnet_spec]).
    - The lease table: [Allocate], [cleanup], [Sync] and [BuildCache] keep it coherent on
      every path and do exactly what they should to it; [system_coherent] lifts this to any
      sequence of handler runs, API changes and restarts of the whole process.  Records
      that are released must be accurate, and [paused_release_frees_others_address] shows
      that the code does not ensure it for paused objects.
    - Persistence: [BuildCache_recovers]; [leases_survive_restart] over any [PoolServer], and
      [stale_cache_lease_not_recorded] where a lagging cache breaks it.
    - Service: [agent_converges], [dhcpHandler_spec], [lease_lifecycle], and
      [allocated_address_is_served] from the allocation to the packet (for MACs in the
      canonical notation: [noncanonical_lease_never_served]); [agent_follows_pool] for the
      running agent and pools whose addresses do not change hands, and [restarted_agent_serves_nobody] for one that has just
      started.
    - Concurrency: calls of the allocators under their mutex, interleaved access by access,
      are sequences of whole calls of the sequential models (the eight mutexed methods of
      the IPAM: [ipam_linearizable],
      then [cache_linearizable], [lease_store_linearizable]); so no address is granted twice
      while the network is not made anew ([concurrent_no_double_allocation]) and a client with a lease is served whatever
      happens to others ([leased_client_always_served]).  The calls that take no mutex race
      with all others ([subnet_changes_race], [macset_changes_race]).
    - Workers: the handlers are trees of calls ([registered_handlers_run]); interleaved call
      by call they keep the lease table in order if nobody changes a network somebody else
      is half way through changing ([interleaved_leases_unique]; [BuildCache] on IPv4 pools
      with usable record keys only), which the program does not ensure:
      [rebuild_frees_taken_address] shows from any state how a rebuild in the middle of an
      allocation gives the address away twice, [unlocked_rebuild_double_allocates] one run.
    - Sharing: a deep copy and its original share nothing ([deepcopy_isolates]), which is
      why the handlers may be modelled on values.
    - Admission: [validate_pool_iff], [ensureServerIP_spec], [admitted_pool_initializes], and
      [admitted_pool_serves] up to the addresses the IPAM grants.  The rules of the CRD
      itself, by which most of a pool's spec cannot be changed, are not modelled.
    - Processes: [processes_stop] (without leader election), [exit_status] and
      [early_stop_crashes]: that the programs end, what [run] returns when it does, and when
      the cleanup crashes them instead.  [startup_order]: nothing is
      served before everything is registered.  [asset_tree_agrees]: the embedded files.
    - Debugging: [debug_listings], what the HTTP servers print reads back as the tables.
    - Agents: [DeployAgent_spec], [MonitorAgent_spec], [agent_pod_watched].
    - Reconciliation: [sync_reports], [vm_OnChange_requests], [mac_change_completes].
    - Flaws, each with the run that shows it: [mark_cleared_forever], [vm_order_flaps],
      [existing_agent_is_forgotten], [mac_change_keeps_old_lease],
      [update_errors_not_retried], [noncanonical_lease_never_served], [exit_code_misleads],
      [paused_release_frees_others_address], [stale_cache_lease_not_recorded].

    ** Bounds and fuel

    Loops that are not structural carry fuel computed from their input: [expand_fuel] is
    the number of addresses of the range ([expand_range_v4] shows it suffices for every
    ordered IPv4 range, and [NewIPSubnet_spec] that the call returns), [assign_fuel] one
    more than the excluded addresses ([ensureServerIP_spec]); parsers and printers use the
    length of the text.  A process without leader election takes at most 25 turns
    ([processes_stop]); nothing else bounds it.  [retry.RetryOnConflict] makes some finite number of attempts, which
    the theorems leave open.

    ** Not modelled, and why

    - Finer interleavings of handlers than call by call: single calls of the allocators are
      shown to be atomic ([Guarded]); two calls that do not touch them, such as the reading
      and the writing of a pool in one retry, may be one step ([ensureNADLabels],
      [remove_record]).  Memory is sequentially consistent, which Go guarantees to programs
      without data races; the theorems show that the calls under a mutex have none.
    - Sockets, flags, environment variables, logging and the event recorder: I/O.  Leader
      election runs the controller's callback inside a library; in [Process] it is a
      parameter, and [Startup] has the controller without it.  In [Process] a panic inside a
      handler of the controllers is not followed.  What the agent's informer does once [Controller.Stop] has closed its
      channel is not followed.
    - Writing the embedded files to a directory ([RestoreAsset] of [src/pkg/data]), which
      nothing calls, and the generators [src/pkg/bindata] and [src/pkg/codegen].
    - Generated clients and informers ([src/pkg/generated/clientset]) and the test doubles of
      [src/pkg/util/fakeclient].  The handlers work on values; where the code depends on
      sharing ([Sync], [DeployAgent], the agent's [filterExcludedAndReserved]) the model of
      the handler says so. *)

From stdpp Require Export base tactics strings gmap fin_maps fin_map_dom list sorting relations pretty.
From Stdlib Require Export ZArith Lia.
From Stdlib Require Import Ascii.

#[export] Set Default Goal Selector "!".

(** ** Go errors as data *)

(** The classes of Kubernetes API errors the code tells apart. *)
Inductive StatusReason : Type :=
| NotFound
| AlreadyExists
| Conflict
| OtherReason.

#[export] Instance StatusReason_eq_dec : EqDecision StatusReason.
Proof. solve_decision. Defined.

(** A Go [error].  [Errorf] keeps the format string and the printed arguments
    apart, [Wrapf] is [fmt.Errorf] with a trailing [%w]. *)
Inductive error : Type :=
| Errorf (format : string) (args : list string)
| Wrapf (format : string) (args : list string) (cause : error)
| ParseError (typ text : string)
| AddrParseError (text : string)
| JSONError (text : string)
| StatusError (reason : StatusReason) (message : string)
| OtherError (message : string).

#[export] Instance error_eq_dec : EqDecision error.
Proof. solve_decision. Defined.

(** [apierrors.ReasonForError] looks through wrapped errors. *)
Fixpoint ReasonForError (e : error) : option StatusReason :=
  match e with
  | StatusError r _ => Some r
  | Wrapf _ _ c => ReasonForError c
  | _ => None
  end.

Definition IsNotFound (e : error) : bool := bool_decide (ReasonForError e = Some NotFound).
Definition IsAlreadyExists (e : error) : bool :=
  bool_decide (ReasonForError e = Some AlreadyExists).
Definition IsConflict (e : error) : bool := bool_decide (ReasonForError e = Some Conflict).

(** ** Effects *)

(** What running a piece of Go code yields: a value, a run-time panic (nil
    dereference, index out of range, an explicit [panic]), or nothing because a
    loop does not finish within its bound. *)
Inductive res (A : Type) : Type :=
| Val (a : A)
| Panic (why : string)
| Diverge.
Arguments Val {_} _.
Arguments Panic {_} _.
Arguments Diverge {_}.

Definition res_bind {A B} (m : res A) (f : A → res B) : res B :=
  match m with
  | Val a => f a
  | Panic w => Panic w
  | Diverge => Diverge
  end.
#[export] Instance res_MRet : MRet res := @Val.
#[export] Instance res_MBind : MBind res := λ A B f m, res_bind m f.

(** Code that reads and writes a shared state [S].  A Go function with results
    [(T, error)] is a [GoM S (T * option error)]: the state it leaves behind is
    there on every path, error paths and panics included. *)
Definition GoM (S A : Type) : Type := S → S * res A.

#[export] Instance GoM_ret {S} : MRet (GoM S) := λ A a s, (s, Val a).
#[export] Instance GoM_bind {S} : MBind (GoM S) := λ A B f m s,
  match m s with
  | (s', Val a) => f a s'
  | (s', Panic w) => (s', Panic w)
  | (s', Diverge) => (s', Diverge)
  end.

Definition go_get {S} : GoM S S := λ s, (s, Val s).
Definition go_gets {S A} (f : S → A) : GoM S A := λ s, (s, Val (f s)).
Definition go_modify {S} (f : S → S) : GoM S unit := λ s, (f s, Val tt).
Definition go_panic {S A} (why : string) : GoM S A := λ s, (s, Panic why).
Definition go_state {S A} (f : S → S * A) : GoM S A := λ s, let '(s', a) := f s in (s', Val a).

(** A value computed without touching the state that may panic. *)
Definition go_pure {S A} (r : res A) : GoM S A := λ s, (s, r).

Declare Scope go_scope.
Delimit Scope go_scope with go.

(** [x, err := m; if err != nil { r }; k] *)
Notation "'let!' x := m 'orelse' e => r 'in' k" :=
  (mbind (λ p, match p with (x, None) => k | (_, Some e) => r end) m)
  (at level 10, x pattern at level 0, m at level 200, e name, r at level 200, k at level 200,
   format "'[v' 'let!'  x  :=  m  'orelse'  e  =>  r  'in'  '/' k ']'") : go_scope.

(** [if err := m; err != nil { r }; k] *)
Notation "'do!' m 'orelse' e => r 'in' k" :=
  (mbind (λ p, match p with None => k | Some e => r end) m)
  (at level 10, m at level 200, e name, r at level 200, k at level 200,
   format "'[v' 'do!'  m  'orelse'  e  =>  r  'in'  '/' k ']'") : go_scope.

(** A call that returns either a value or an error, as a sum; the value Go returns
    beside an error is not used by any caller. *)
Definition result (A : Type) : Type := (A + error)%type.
#[export] Instance result_MRet : MRet result := λ A a, inl a.
#[export] Instance result_MBind : MBind result := λ A B f m,
  match m with inl a => f a | inr e => inr e end.

(** [x, err := m; if err != nil { r }; k] for such a call. *)
Notation "'try!' x := m 'catch' e => r 'in' k" :=
  (mbind (λ p, match p with inl x => k | inr e => r end) m)
  (at level 10, x pattern at level 0, m at level 200, e name, r at level 200, k at level 200,
   format "'[v' 'try!'  x  :=  m  'catch'  e  =>  r  'in'  '/' k ']'") : go_scope.

(** [for _, x := range xs { body }]: the body continues with the loop-carried
    variables ([inl]) or returns from the enclosing function ([inr]). *)
Fixpoint for_range {S X A R} (xs : list X) (body : X → A → GoM S (A + R)) (acc : A)
  : GoM S (A + R) :=
  match xs with
  | [] => mret (inl acc)
  | x :: xs' =>
      r ← body x acc;
      match r with
      | inl acc' => for_range xs' body acc'
      | inr ret => mret (inr ret)
      end
  end.

(** Running code of a part of the state: [get] and [set] are the part's lens. *)
Definition go_zoom {S T A} (get : S → T) (set : T → S → S) (m : GoM T A) : GoM S A := λ s,
  let '(t', r) := m (get s) in (set t' s, r).

(** ** Reasoning about effects *)

Section wp.
Context {S : Type}.
Implicit Types s : S.

(** Running [m] from [s] ends in [Q] with a value, or in [E] without one. *)
Definition wp {A} (m : GoM S A) (Q : A → S → Prop) (E : S → Prop) s : Prop :=
  match m s with
  | (s', Val a) => Q a s'
  | (s', _) => E s'
  end.

Lemma wp_ret {A} (a : A) Q E s : Q a s → wp (mret a) Q E s.
Proof. done. Qed.

Lemma wp_bind {A B} (m : GoM S A) (f : A → GoM S B) Q E s :
  wp m (λ a s', wp (f a) Q E s') E s → wp (m ≫= f) Q E s.
Proof. unfold wp, mbind, GoM_bind. by destruct (m s) as [s' [a|w|]]. Qed.

Lemma wp_mono {A} (m : GoM S A) (Q Q' : A → S → Prop) (E E' : S → Prop) s :
  (∀ a s', Q a s' → Q' a s') → (∀ s', E s' → E' s') → wp m Q E s → wp m Q' E' s.
Proof. unfold wp. destruct (m s) as [s' [a|w|]]; naive_solver. Qed.

Lemma wp_gets {A} (f : S → A) Q E s : Q (f s) s → wp (go_gets f) Q E s.
Proof. done. Qed.

Lemma wp_modify (f : S → S) Q E s : Q tt (f s) → wp (go_modify f) Q E s.
Proof. done. Qed.

Lemma wp_state {A} (f : S → S * A) Q E s :
  Q (f s).2 (f s).1 → wp (go_state f) Q E s.
Proof. unfold wp, go_state. by destruct (f s). Qed.

(** Loop rule: an invariant over the elements already visited. *)
Lemma wp_for_range {X A R} (body : X → A → GoM S (A + R)) (I : list X → A → S → Prop)
    (Q : R → S → Prop) (E : S → Prop) (xs : list X) (acc : A) s :
  (∀ pre x post a s', xs = pre ++ x :: post → I pre a s' →
     wp (body x a) (λ r s'', match r with
                              | inl a' => I (pre ++ [x]) a' s''
                              | inr ret => Q ret s''
                              end) E s') →
  I [] acc s →
  wp (for_range xs body acc)
     (λ r s', match r with
               | inl a' => I xs a' s'
               | inr ret => Q ret s'
               end) E s.
Proof.
  intros Hbody HI.
  assert (Hgen : ∀ done todo acc s, xs = done ++ todo → I done acc s →
    wp (for_range todo body acc) (λ r s', match r with inl a' => I xs a' s' | inr ret => Q ret s' end) E s).
  { clear acc s HI. intros pre todo. revert pre. induction todo as [|x todo IH]; intros pre acc s Hxs HI; simpl.
    { apply wp_ret. subst xs. by rewrite app_nil_r. }
    apply wp_bind. eapply wp_mono; [| |by eapply Hbody]; [|done].
    intros [a'|ret] s' Hr; simpl; [|by apply wp_ret].
    apply (IH (pre ++ [x])); [|done]. by rewrite Hxs, <-app_assoc. }
  by apply (Hgen [] xs).
Qed.

(** [m] ends: its loops finish within their bounds. *)
Definition ends {A} (m : GoM S A) : Prop := ∀ s, (m s).2 ≠ Diverge.

Lemma ends_ret {A} (a : A) : ends (mret a).
Proof. by intros s. Qed.

Lemma ends_bind {A B} (m : GoM S A) (f : A → GoM S B) : ends m → (∀ a, ends (f a)) → ends (m ≫= f).
Proof.
  intros Hm Hf s. unfold mbind, GoM_bind. specialize (Hm s). destruct (m s) as [s' [a|w|]]; [apply Hf|done..].
Qed.

Lemma ends_gets {A} (f : S → A) : ends (go_gets f).
Proof. by intros s. Qed.

Lemma ends_modify (f : S → S) : ends (go_modify f).
Proof. by intros s. Qed.

Lemma ends_state {A} (f : S → S * A) : ends (go_state f).
Proof. intros s. unfold go_state. by destruct (f s). Qed.

Lemma ends_panic {A} w : ends (go_panic w : GoM S A).
Proof. by intros s. Qed.

Lemma ends_for_range {X A R} (body : X → A → GoM S (A + R)) xs acc :
  (∀ x a, ends (body x a)) → ends (for_range xs body acc).
Proof.
  intros Hb. revert acc. induction xs as [|x xs IH]; intros acc; [apply ends_ret|].
  cbn [for_range]. apply ends_bind; [apply Hb|]. intros [a|r]; [apply IH|apply ends_ret].
Qed.

(** Running the first call of a sequence. *)
Lemma bind_run {A B} (m : GoM S A) (f : A → GoM S B) s s' a : m s = (s', Val a) → (m ≫= f) s = f a s'.
Proof. unfold mbind, GoM_bind. by intros ->. Qed.

(** From [wp] to the run itself, when it cannot fail. *)
Lemma wp_run {A} (m : GoM S A) (Q : A → S → Prop) s :
  wp m Q (λ _, False) s → ∃ s' a, m s = (s', Val a) ∧ Q a s'.
Proof. unfold wp. destruct (m s) as [s' [a|w|]]; [|done..]. by exists s', a. Qed.
End wp.

(** ** Iterating over Go maps *)

(** The order in which [range] visits a Go map is unspecified and may differ
    from one loop to the next.  An instance gives, for every execution of a loop
    (named by [seed]) and every map, some order; theorems hold for all of them. *)
Class MapRange := {
  range : ∀ {V : Type}, nat → gmap string V → list (string * V);
  range_perm : ∀ V seed (m : gmap string V), range seed m ≡ₚ map_to_list m;
}.

Section map_range.
Context `{MapRange}.

Lemma elem_of_range {V} seed (m : gmap string V) k v :
  (k, v) ∈ range seed m ↔ m !! k = Some v.
Proof. by rewrite range_perm, elem_of_map_to_list. Qed.

Lemma NoDup_fst_range {V} seed (m : gmap string V) : NoDup (range seed m).*1.
Proof. rewrite range_perm. apply NoDup_fst_map_to_list. Qed.

Lemma range_empty {V} seed : range seed (∅ : gmap string V) = [].
Proof. apply Permutation_nil_r. by rewrite range_perm, map_to_list_empty. Qed.

Lemma range_singleton {V} seed k (v : V) : range seed {[ k := v ]} = [(k, v)].
Proof. apply Permutation_singleton_r. by rewrite range_perm, map_to_list_singleton. Qed.

Lemma list_to_map_range {V} seed (m : gmap string V) : list_to_map (range seed m) = m.
Proof.
  rewrite (list_to_map_proper (range seed m) (map_to_list m)); [|apply NoDup_fst_range|apply range_perm].
  apply list_to_map_to_list.
Qed.

Lemma length_range {V} seed (m : gmap string V) : length (range seed m) = size m.
Proof. by rewrite range_perm, length_map_to_list. Qed.
End map_range.

(** Copying a map entry by entry. *)
Lemma foldl_copy {V B} (f : V → B) (es : list (string * V)) (m : gmap string B) :
  NoDup es.*1 → (∀ k, k ∈ es.*1 → m !! k = None) →
  foldl (λ m '(k, v), <[k := f v]> m) m es = (f <$> list_to_map es) ∪ m.
Proof.
  revert m. induction es as [|[k v] es IH]; intros m Hnd Hm; simpl.
  - by rewrite fmap_empty, (left_id_L ∅ (∪)).
  - apply NoDup_cons in Hnd as [Hk Hnd]. rewrite IH; [|done|].
    + rewrite fmap_insert, <-insert_union_l, insert_union_r; [done|].
      rewrite lookup_fmap. rewrite (not_elem_of_list_to_map_1 (M := gmap string) es k Hk). done.
    + intros k' Hk'. rewrite lookup_insert_ne by (intros ->; done). apply Hm. by right.
Qed.

(** Copying a map into a new one. *)
Lemma map_fold_insert_id {V} (m : gmap string V) : map_fold (λ k v out, <[k := v]> out) ∅ m = m.
Proof.
  apply (map_fold_weak_ind (λ out m, out = m)); [done|]. by intros k v m' out _ ->.
Qed.

(** The instance used by concrete evaluations: the order of [map_to_list]. *)
Definition canonical_range : MapRange.
Proof. refine {| range V seed m := map_to_list m |}. done. Defined.

(** ** Automation shared by the components *)

Create HintDb go.
Create Rewrite HintDb go_map.

#[export] Hint Resolve wp_ret wp_gets wp_modify : go.
#[export] Hint Resolve ends_ret ends_gets ends_modify ends_state ends_panic ends_for_range : go.

(** Termination of handlers: through binds, loops and branches. *)
Ltac solve_ends :=
  repeat first
    [ progress intros
    | solve [eauto with go nocore]
    | apply ends_bind
    | apply ends_for_range
    | case_match ].

#[export] Hint Rewrite @lookup_insert_eq @lookup_delete_eq @lookup_empty : go_map.
#[export] Hint Rewrite @lookup_insert_ne @lookup_delete_ne using done : go_map.

(** Split a match or an if in the goal or in a hypothesis, keep the equation,
    and simplify what follows from it. *)
Ltac go_case := case_match; simplify_eq/=.
Ltac go_cases := repeat go_case.

(** ** Lists *)

Lemma Forall2_elem_r {A B} (P : A → B → Prop) l k y :
  Forall2 P l k → y ∈ k → ∃ x, x ∈ l ∧ P x y.
Proof.
  intros Hall (i & Hi)%list_elem_of_lookup. destruct (Forall2_lookup_r _ _ _ _ _ Hall Hi) as (x & Hx & Hp).
  exists x. split; [|done]. by eapply list_elem_of_lookup_2.
Qed.

Lemma filter_all {A} (P : A → Prop) `{∀ x, Decision (P x)} (l : list A) :
  (∀ x, x ∈ l → P x) → filter P l = l.
Proof.
  induction l as [|x l IH]; intros Hall; [done|]. rewrite filter_cons_True by (apply Hall; by left).
  f_equal. apply IH. intros y ?. apply Hall. by right.
Qed.

(** ** Strings *)

Lemma string_app_cons c a b : String c a +:+ b = String c (a +:+ b).
Proof. done. Qed.

Lemma string_app_nil_l a : EmptyString +:+ a = a.
Proof. done. Qed.

Lemma string_app_assoc (a b c : string) : (a +:+ b) +:+ c = a +:+ (b +:+ c).
Proof. induction a as [|x a IH]; [done|]. by rewrite !string_app_cons, IH. Qed.

Lemma string_app_nil_r (a : string) : a +:+ EmptyString = a.
Proof. induction a as [|x a IH]; [done|]. by rewrite string_app_cons, IH. Qed.

Create Rewrite HintDb go_string.
#[export] Hint Rewrite string_app_assoc string_app_nil_l string_app_nil_r string_app_cons
  : go_string.
