(* ===== verification/Goroutines.v ===== *)
(** * Goroutines, [sync.RWMutex] and shared memory

    The code of a method as the sequence of its accesses to shared memory and to the
    mutex of its receiver, a scheduler that interleaves any number of calls one access
    at a time, and data races.
    [Guarded] has the contract under which the executions are those of an atomic
    object. *)

From S2P Require Import Prelude.

(** ** Code *)

Section code.
Context {M Loc : Type}.

(** One access per step: reading what [m] holds, or changing it.  [k] is what the
    goroutine does next. *)
Inductive code (R : Type) : Type :=
| Ret (r : R)
| Lock (k : code R)
| Unlock (k : code R)
| RLock (k : code R)
| RUnlock (k : code R)
| Read (m : Loc) (k : M → code R)
| Write (m : Loc) (f : M → M) (k : code R).
Arguments Ret {_} _.
Arguments Lock {_} _.
Arguments Unlock {_} _.
Arguments RLock {_} _.
Arguments RUnlock {_} _.
Arguments Read {_} _ _.
Arguments Write {_} _ _ _.

(** [c], then [f] on its result. *)
Fixpoint followed_by {A B} (c : code A) (f : A → code B) : code B :=
  match c with
  | Ret r => f r
  | Lock k => Lock (followed_by k f)
  | Unlock k => Unlock (followed_by k f)
  | RLock k => RLock (followed_by k f)
  | RUnlock k => RUnlock (followed_by k f)
  | Read m k => Read m (λ s, followed_by (k s) f)
  | Write m g k => Write m g (followed_by k f)
  end.

(** [mutex.Lock(); defer mutex.Unlock()] around a body, or the read lock. *)
Definition release {R} (w : bool) (r : R) : code R := if w then Unlock (Ret r) else RUnlock (Ret r).
Definition critical {R} (w : bool) (body : code R) : code R :=
  let k := followed_by body (release w) in if w then Lock k else RLock k.

(** Running code on its own. *)
Fixpoint run {R} (c : code R) (s : M) : M * R :=
  match c with
  | Ret r => (s, r)
  | Lock k | Unlock k | RLock k | RUnlock k => run k s
  | Read _ k => run (k s) s
  | Write _ f k => run k (f s)
  end.

Lemma run_followed_by {A B} (c : code A) (f : A → code B) s :
  run (followed_by c f) s = run (f (run c s).2) (run c s).1.
Proof. revert s. induction c as [r|k IH|k IH|k IH|k IH|m k IH|m g k IH]; intros s; simpl; auto. Qed.

Lemma run_release {R} w (r : R) s : run (release w r) s = (s, r).
Proof. by destruct w. Qed.

Lemma run_section {R} w (c : code R) s : run (followed_by c (release w)) s = run c s.
Proof. rewrite run_followed_by, run_release. by destruct (run c s). Qed.

(** The body of a critical section: accesses only, and writes under the write lock only. *)
Fixpoint within {R} (w : bool) (c : code R) : Prop :=
  match c with
  | Ret _ => True
  | Read _ k => ∀ s, within w (k s)
  | Write _ _ k => w = true ∧ within w k
  | _ => False
  end.

Lemma within_followed_by {A B} w (c : code A) (f : A → code B) :
  within w c → (∀ r, within w (f r)) → within w (followed_by c f).
Proof.
  intros Hc Hf. induction c as [r|k IH|k IH|k IH|k IH|m k IH|m g k IH]; simpl in *; naive_solver.
Qed.

Lemma within_reads {R} (c : code R) s : within false c → (run c s).1 = s.
Proof. revert s. induction c as [r|k IH|k IH|k IH|k IH|m k IH|m g k IH]; simpl; naive_solver. Qed.

(** What is left of a critical section. *)
Definition held {R} (w : bool) (c : code R) : Prop :=
  ∃ body, within w body ∧ c = followed_by body (release w).

Lemma run_held_reads {R} (c : code R) s : held false c → (run c s).1 = s.
Proof. intros (body & Hb & ->). rewrite run_section. by apply within_reads. Qed.

(** ** Shared state *)

Record shared : Type := mkShared {
  memory : M;
  writer : bool;
  readers : nat;
}.

(** One step of a goroutine; [Lock] and [RLock] wait. *)
Inductive access {R} : shared → code R → shared → code R → Prop :=
| access_Lock s k : access (mkShared s false 0) (Lock k) (mkShared s true 0) k
| access_Unlock s n k : access (mkShared s true n) (Unlock k) (mkShared s false n) k
| access_RLock s n k : access (mkShared s false n) (RLock k) (mkShared s false (S n)) k
| access_RUnlock s w n k : access (mkShared s w (S n)) (RUnlock k) (mkShared s w n) k
| access_Read s w n m k : access (mkShared s w n) (Read m k) (mkShared s w n) (k s)
| access_Write s w n m f k : access (mkShared s w n) (Write m f k) (mkShared (f s) w n) k.

(** The access a goroutine makes next, and whether it writes. *)
Definition next_access {R} (c : code R) : option (Loc * bool) :=
  match c with
  | Read m _ => Some (m, false)
  | Write m _ _ => Some (m, true)
  | _ => None
  end.
End code.
Arguments code : clear implicits.
Arguments shared : clear implicits.
Arguments Ret {_ _ _} _.
Arguments Lock {_ _ _} _.
Arguments Unlock {_ _ _} _.
Arguments RLock {_ _ _} _.
Arguments RUnlock {_ _ _} _.
Arguments Read {_ _ _} _ _.
Arguments Write {_ _ _} _ _ _.

(** Go code: a panic ends it, deferred calls aside. *)
#[export] Instance code_MRet {M Loc} : MRet (λ A, code M Loc (res A)) := λ A a, Ret (Val a).
#[export] Instance code_MBind {M Loc} : MBind (λ A, code M Loc (res A)) := λ A B f c,
  followed_by c (λ r, match r with Val a => f a | Panic w => Ret (Panic w) | Diverge => Ret Diverge end).

(** ** Traces *)

Inductive event (Op R : Type) : Type :=
| Invoke (t : nat) (op : Op)
| Respond (t : nat) (r : R).
Arguments Invoke {_ _} _ _.
Arguments Respond {_ _} _ _.

(** The calls that have returned, each with its result, and those that have not. *)
Definition observe {Op R} (p : gmap nat Op * list (Op * R)) (e : event Op R) : gmap nat Op * list (Op * R) :=
  match e with
  | Invoke t op => (<[t := op]> p.1, p.2)
  | Respond t r =>
      match p.1 !! t with
      | Some op => (delete t p.1, p.2 ++ [(op, r)])
      | None => p
      end
  end.
Definition observed {Op R} (tr : list (event Op R)) : gmap nat Op * list (Op * R) := foldl observe (∅, []) tr.
Definition completed {Op R} (tr : list (event Op R)) : list (Op * R) := (observed tr).2.

Lemma observed_snoc {Op R} (tr : list (event Op R)) e : observed (tr ++ [e]) = observe (observed tr) e.
Proof. unfold observed. by rewrite foldl_snoc. Qed.

(** The executions of a transition system with visible events. *)
Inductive exec {S Ev : Type} (step : S → option Ev → S → Prop) : S → list Ev → S → Prop :=
| exec_nil σ : exec step σ [] σ
| exec_snoc σ tr σ' l σ'' :
    exec step σ tr σ' → step σ' l σ'' → exec step σ (tr ++ option_list l) σ''.

Lemma exec_trans {S Ev} (step : S → option Ev → S → Prop) σ tr σ' l σ'' :
  exec step σ tr σ' → exec step σ' l σ'' → exec step σ (tr ++ l) σ''.
Proof.
  intros H1 H2. induction H2 as [|σ' tr' σ2 l σ3 _ IH Hs]; [by rewrite app_nil_r|].
  rewrite app_assoc. econstructor; eauto.
Qed.

(** An invariant of the steps is one of the executions. *)
Lemma exec_ind_inv {S Ev} (step : S → option Ev → S → Prop) (I : list Ev → S → Prop) σ tr σ' :
  I [] σ → (∀ tr σ l σ', I tr σ → step σ l σ' → I (tr ++ option_list l) σ') →
  exec step σ tr σ' → I tr σ'.
Proof. intros H0 Hs He. induction He; eauto. Qed.

(** ** The scheduler *)

Section scheduler.
Context {M Loc Op R : Type} (method : Op → code M Loc R).

(** The goroutines that are in a call, by name. *)
Record system : Type := mkSystem {
  sys_shared : shared M;
  threads : gmap nat (code M Loc R);
}.

(** Any goroutine may call any method at any time; calls run interleaved. *)
Inductive sys_step : system → option (event Op R) → system → Prop :=
| sys_invoke σ t op : threads σ !! t = None →
    sys_step σ (Some (Invoke t op)) (mkSystem (sys_shared σ) (<[t := method op]> (threads σ)))
| sys_access σ t c s' c' : threads σ !! t = Some c → access (sys_shared σ) c s' c' →
    sys_step σ None (mkSystem s' (<[t := c']> (threads σ)))
| sys_respond σ t r : threads σ !! t = Some (Ret r) →
    sys_step σ (Some (Respond t r)) (mkSystem (sys_shared σ) (delete t (threads σ))).

Definition sys_start (s : M) : system := mkSystem (mkShared s false 0) ∅.

(** Two goroutines about to access the same memory, one of them to write it. *)
Definition racy (σ : system) : Prop :=
  ∃ t1 t2 c1 c2 m b, t1 ≠ t2 ∧ threads σ !! t1 = Some c1 ∧ threads σ !! t2 = Some c2 ∧
    next_access c1 = Some (m, true) ∧ next_access c2 = Some (m, b).
(** A call that writes [m] without the mutex can meet any call that reads [m] first under
    it. *)
Lemma unguarded_race s o1 o2 w m k f k' :
  method o1 = critical w (Read m k) → method o2 = Write m f k' →
  ∃ σ, exec sys_step (sys_start s) [Invoke 1 o1; Invoke 2 o2] σ ∧ racy σ.
Proof using Type.
  intros H1 H2. set (rest := followed_by (Read m k) (release w)).
  eexists (mkSystem (if w then mkShared s true 0 else mkShared s false 1)
    (<[1%nat := rest]> (<[2%nat := method o2]> (<[1%nat := method o1]> ∅)))).
  split.
  - eapply (exec_snoc _ _ [Invoke 1 o1; Invoke 2 o2] _ None).
    + eapply (exec_snoc _ _ [Invoke 1 o1] _ (Some _)); [eapply (exec_snoc _ _ [] _ (Some _)); [constructor|]|].
      * by apply sys_invoke.
      * by apply sys_invoke.
    + eapply sys_access; cbn [threads sys_shared sys_start];
        [rewrite lookup_insert_ne, lookup_insert_eq by done; by rewrite H1|].
      unfold critical. destruct w; constructor.
  - exists 2%nat, 1%nat, (method o2), rest, m, false. split; [done|]. simpl.
    rewrite lookup_insert_eq, lookup_insert_ne, lookup_insert_eq by done. split; [done|]. split; [done|].
    by rewrite H2.
Qed.

(** Schedules that can be run: goroutine [t] calls a method, makes up to [n] accesses,
    returns. *)
Definition access_of (s : shared M) (c : code M Loc R) : option (shared M * code M Loc R) :=
  match c with
  | Ret _ => None
  | Lock k => if writer s || negb (readers s =? 0)%nat then None else Some (mkShared (memory s) true 0, k)
  | Unlock k => if writer s then Some (mkShared (memory s) false (readers s), k) else None
  | RLock k => if writer s then None else Some (mkShared (memory s) false (S (readers s)), k)
  | RUnlock k => match readers s with O => None | S n => Some (mkShared (memory s) (writer s) n, k) end
  | Read _ k => Some (s, k (memory s))
  | Write _ f k => Some (mkShared (f (memory s)) (writer s) (readers s), k)
  end.

Lemma access_of_access s c s' c' : access_of s c = Some (s', c') → access s c s' c'.
Proof using Type.
  destruct s as [s [] [|n]], c; simpl; intros [= <- <-]; constructor.
Qed.

Inductive move : Type :=
| Begin (t : nat) (op : Op)
| Proceed (t : nat) (n : nat)
| Finish (t : nat).

Fixpoint proceed (t n : nat) (σ : system) : system :=
  match n with
  | O => σ
  | S n' =>
      match threads σ !! t ≫= access_of (sys_shared σ) with
      | Some (s', c') => proceed t n' (mkSystem s' (<[t := c']> (threads σ)))
      | None => σ
      end
  end.

Fixpoint play (ms : list move) (tr : list (event Op R)) (σ : system) : option (list (event Op R) * system) :=
  match ms with
  | [] => Some (tr, σ)
  | Begin t op :: ms' =>
      match threads σ !! t with
      | None => play ms' (tr ++ [Invoke t op]) (mkSystem (sys_shared σ) (<[t := method op]> (threads σ)))
      | Some _ => None
      end
  | Proceed t n :: ms' => play ms' tr (proceed t n σ)
  | Finish t :: ms' =>
      match threads σ !! t with
      | Some (Ret r) => play ms' (tr ++ [Respond t r]) (mkSystem (sys_shared σ) (delete t (threads σ)))
      | _ => None
      end
  end.

Lemma proceed_exec σ0 tr t n σ : exec sys_step σ0 tr σ → exec sys_step σ0 tr (proceed t n σ).
Proof using Type.
  revert σ. induction n as [|n IH]; intros σ He; [done|]. simpl.
  destruct (threads σ !! t ≫= access_of (sys_shared σ)) as [[s' c']|] eqn:Ha; [|done].
  apply bind_Some in Ha as (c & Hc & Ha). apply IH. rewrite <-(app_nil_r tr).
  eapply (exec_snoc _ _ _ _ None); [done|]. by eapply sys_access, access_of_access.
Qed.

Lemma play_exec σ0 ms tr σ tr' σ' :
  exec sys_step σ0 tr σ → play ms tr σ = Some (tr', σ') → exec sys_step σ0 tr' σ'.
Proof using Type.
  revert tr σ. induction ms as [|[t op|t n|t] ms IH]; intros tr σ He; simpl.
  - by intros [= -> ->].
  - destruct (threads σ !! t) eqn:Ht; [done|]. apply IH. by eapply (exec_snoc _ _ _ _ (Some _)), sys_invoke.
  - by apply IH, proceed_exec.
  - destruct (threads σ !! t) as [[]|] eqn:Ht; try done. apply IH. by eapply (exec_snoc _ _ _ _ (Some _)), sys_respond.
Qed.

(** A schedule that runs gives an execution with the trace it shows. *)
Lemma play_trace ms s tr : fst <$> play ms [] (sys_start s) = Some tr → ∃ σ, exec sys_step (sys_start s) tr σ.
Proof using Type.
  intros ([tr' σ] & Hp & ->)%fmap_Some. exists σ. eapply play_exec; [constructor|done].
Qed.
End scheduler.
Arguments system : clear implicits.
Arguments Begin {_} _ _.
Arguments Proceed {_} _ _.
Arguments Finish {_} _.
