(* ===== verification/Guarded.v ===== *)
(** * Stores guarded by their mutex

    The contract between a store and its callers: a store discharges [Guarded] when every
    method is one critical section that writes under [Lock] only, and does to the memory
    what the method of the sequential model does to the store.  Then every execution has a
    trace of calls and returns that the atomic object has too, without data race and
    without deadlock ([guarded_correct]); what holds of the atomic object's calls holds of
    the goroutines' ([atomic_completed]). *)

From S2P Require Import Prelude Goroutines.

(** ** Stores guarded by their mutex *)

(** The contract of a store: [apply] is the sequential model of its methods, [view] how
    memory represents the store. *)
Class Guarded (M Loc A Op R : Type) := {
  writes : Op → bool;                    (* [Lock] or [RLock] *)
  body : Op → code M Loc R;
  apply : Op → A → A * R;
  view : M → A → Prop;
  body_within op : within (writes op) (body op);
  body_run op s a : view s a →
    view (run (body op) s).1 (apply op a).1 ∧ (run (body op) s).2 = (apply op a).2;
}.

Section system.
Context {M Loc A Op R : Type} `{!Guarded M Loc A Op R}.
Implicit Types (c : code M Loc R) (t : nat) (σ : system M Loc R).

Definition method (op : Op) : code M Loc R := critical (writes op) (body op).

(** The atomic object: a call takes effect in one step between its invocation and its
    response. *)
Record atomic : Type := mkAtomic {
  object : A;
  calls : gmap nat (Op + R);
}.

Inductive atomic_step : atomic → option (event Op R) → atomic → Prop :=
| atomic_invoke α t op : calls α !! t = None →
    atomic_step α (Some (Invoke t op)) (mkAtomic (object α) (<[t := inl op]> (calls α)))
| atomic_effect α t op : calls α !! t = Some (inl op) →
    atomic_step α None (mkAtomic (apply op (object α)).1 (<[t := inr (apply op (object α)).2]> (calls α)))
| atomic_respond α t r : calls α !! t = Some (inr r) →
    atomic_step α (Some (Respond t r)) (mkAtomic (object α) (delete t (calls α))).

Definition atomic_start (a : A) : atomic := mkAtomic a ∅.

(** ** The simulation *)

(** Where goroutine [t] stands: before its critical section with its effect to come,
    inside with the effect accounted for, or done. *)
Inductive stands (W : option nat) (Rs : gset nat) (s : M) (a : A) (t : nat) : code M Loc R → Op + R → Prop :=
| stands_before op : t ∉ Rs → W ≠ Some t → stands W Rs s a t (method op) (inl op)
| stands_reading c : t ∈ Rs → W ≠ Some t → held false c → stands W Rs s a t c (inr (run c s).2)
| stands_writing c : W = Some t → t ∉ Rs → held true c → view (run c s).1 a →
    stands W Rs s a t c (inr (run c s).2)
| stands_done r : t ∉ Rs → W ≠ Some t → stands W Rs s a t (Ret r) (inr r).

Record simulated (σ : system M Loc R) (α : atomic) (W : option nat) (Rs : gset nat) : Prop := {
  sim_writer : writer (sys_shared σ) = bool_decide (is_Some W);
  sim_readers : readers (sys_shared σ) = size Rs;
  sim_exclusive : is_Some W → Rs = ∅;
  sim_free : W = None → view (memory (sys_shared σ)) (object α);
  sim_thread t : option_relation (stands W Rs (memory (sys_shared σ)) (object α) t)
    (λ _, False) (λ _, False) (threads σ !! t) (calls α !! t);
  sim_holders t : t ∈ Rs ∨ W = Some t → is_Some (threads σ !! t);
}.

Lemma critical_enter (w : bool) (b : code M Loc R) : critical w b =
  if w then Lock (followed_by b (release w)) else RLock (followed_by b (release w)).
Proof using Type. done. Qed.

(** A goroutine inside its section: what its next step may be. *)
Lemma held_inv w c : held w c →
  (∃ r, c = release w r) ∨ (∃ m k, c = Read m k ∧ ∀ s, held w (k s)) ∨
  (∃ m f k, c = Write m f k ∧ w = true ∧ held w k).
Proof using Type.
  intros (b & Hb & ->). destruct b as [r|k|k|k|k|m k|m f k]; simpl in *; try done.
  - left. by exists r.
  - right; left. eexists _, _. split; [done|]. intros s. by exists (k s).
  - right; right. destruct Hb. eexists _, _, _. split; [done|]. split; [done|]. by exists k.
Qed.

Lemma held_release_ret w r : ¬ held w (Ret r : code M Loc R).
Proof using Type.
  intros (b & _ & Hb). destruct b; simpl in *; try done. by destruct w.
Qed.

(** The other goroutines do not notice a step that leaves them their locks and what they
    see under them. *)
Lemma stands_others W Rs s a W' Rs' s' a' t c x :
  (t ∈ Rs ↔ t ∈ Rs') → (W = Some t ↔ W' = Some t) → (t ∈ Rs → s' = s) →
  (W = Some t → s' = s ∧ a' = a) → stands W Rs s a t c x → stands W' Rs' s' a' t c x.
Proof using Type.
  intros HRs HW Hs Ha Hst. destruct Hst as [op| c Ht | c Ht | r].
  - constructor; tauto.
  - rewrite <-(Hs Ht). constructor; tauto.
  - destruct (Ha Ht) as [-> ->]. constructor; tauto.
  - constructor; tauto.
Qed.

(** A step of goroutine [t]: what is left to show. *)
Lemma simulated_step σ α W Rs t s' c' x W' Rs' a' :
  simulated σ α W Rs →
  writer s' = bool_decide (is_Some W') → readers s' = size Rs' → (is_Some W' → Rs' = ∅) →
  (W' = None → view (memory s') a') →
  stands W' Rs' (memory s') a' t c' x →
  (∀ t', t' ≠ t → (t' ∈ Rs ↔ t' ∈ Rs') ∧ (W = Some t' ↔ W' = Some t') ∧
     (t' ∈ Rs → memory s' = memory (sys_shared σ)) ∧
     (W = Some t' → memory s' = memory (sys_shared σ) ∧ a' = object α)) →
  simulated (mkSystem s' (<[t := c']> (threads σ))) (mkAtomic a' (<[t := x]> (calls α))) W' Rs'.
Proof using Type.
  intros Hsim Hw Hr Hex Hfree Ht Hoth. constructor; simpl; [done..| |].
  - intros t'. destruct (decide (t' = t)) as [->|Hne]; [by rewrite !lookup_insert_eq|].
    rewrite !lookup_insert_ne by done. destruct (Hoth t' Hne) as (? & ? & ? & ?).
    pose proof (sim_thread _ _ _ _ Hsim t') as Ht'.
    destruct (threads σ !! t'), (calls α !! t'); simpl in *; try done. by eapply stands_others.
  - intros t' Ht'. destruct (decide (t' = t)) as [->|Hne]; [by rewrite lookup_insert_eq; eauto|].
    rewrite lookup_insert_ne by done. destruct (Hoth t' Hne) as (? & ? & _). eapply (sim_holders _ _ _ _ Hsim).
    tauto.
Qed.

Lemma simulated_thread σ α W Rs t c :
  simulated σ α W Rs → threads σ !! t = Some c →
  ∃ x, calls α !! t = Some x ∧ stands W Rs (memory (sys_shared σ)) (object α) t c x.
Proof using Type.
  intros Hsim Hc. pose proof (sim_thread _ _ _ _ Hsim t) as Ht. rewrite Hc in Ht.
  destruct (calls α !! t) as [x|]; [by exists x|done].
Qed.

Lemma no_writer σ α W Rs : simulated σ α W Rs → writer (sys_shared σ) = false → W = None.
Proof using Type.
  intros Hsim. rewrite (sim_writer _ _ _ _ Hsim). destruct W as [t|]; [|done]. intros H.
  by apply bool_decide_eq_false in H; destruct H.
Qed.

Lemma no_readers σ α W Rs : simulated σ α W Rs → readers (sys_shared σ) = 0%nat → Rs = ∅.
Proof using Type. intros Hsim. rewrite (sim_readers _ _ _ _ Hsim). by intros ?%size_empty_inv%leibniz_equiv. Qed.

Lemma in_method op : followed_by (body op) (release (writes op)) = (match method op with Lock k => k | RLock k => k | c => c end).
Proof using Type. unfold method, critical. by destruct (writes op). Qed.

Lemma sim_lock σ α W Rs t s k :
  simulated σ α W Rs → threads σ !! t = Some (Lock k) → sys_shared σ = mkShared s false 0 →
  ∃ op, calls α !! t = Some (inl op) ∧
    simulated (mkSystem (mkShared s true 0) (<[t := k]> (threads σ)))
      (mkAtomic (apply op (object α)).1 (<[t := inr (apply op (object α)).2]> (calls α))) (Some t) ∅.
Proof using Type.
  intros Hsim Hc Hs. assert (W = None) as -> by (eapply no_writer; [done|by rewrite Hs]).
  assert (Rs = ∅) as -> by (eapply no_readers; [done|by rewrite Hs]).
  destruct (simulated_thread _ _ _ _ _ _ Hsim Hc) as (x & Hx & Hst).
  inversion Hst as [op _ _ Hm|? ? _|? ?|]; subst; [|set_solver|done]. exists op. split; [done|].
  pose proof (body_within op) as Hw. pose proof (in_method op) as Hk. rewrite Hm in Hk. simpl in Hk.
  assert (writes op = true) as Hwr by (unfold method, critical in Hm; by destruct (writes op)).
  pose proof (sim_free _ _ _ _ Hsim eq_refl) as Hv. rewrite Hs in Hv. simpl in Hv.
  destruct (body_run op s (object α) Hv) as [Hview Hres].
  eapply simulated_step; [exact Hsim|done|by rewrite size_empty|done|done| |]; simpl.
  - rewrite <-Hres, <-(run_section (writes op)), Hk. constructor; [done|set_solver| |].
    + exists (body op). by rewrite <-Hwr, Hk.
    + by rewrite <-Hk, run_section.
  - intros t' Hne. set_solver.
Qed.

Lemma sim_rlock σ α W Rs t s n k :
  simulated σ α W Rs → threads σ !! t = Some (RLock k) → sys_shared σ = mkShared s false n →
  ∃ op, calls α !! t = Some (inl op) ∧
    simulated (mkSystem (mkShared s false (S n)) (<[t := k]> (threads σ)))
      (mkAtomic (apply op (object α)).1 (<[t := inr (apply op (object α)).2]> (calls α))) None ({[t]} ∪ Rs).
Proof using Type.
  intros Hsim Hc Hs. assert (W = None) as -> by (eapply no_writer; [done|by rewrite Hs]).
  destruct (simulated_thread _ _ _ _ _ _ Hsim Hc) as (x & Hx & Hst).
  inversion Hst as [op Hnin _ Hm|? ? _ Hh|? ?|]; subst; [|by destruct (held_inv _ _ Hh) as [(?&?)|[(?&?&?&_)|(?&?&?&?&_)]]|done].
  exists op. split; [done|].
  pose proof (body_within op) as Hw. pose proof (in_method op) as Hk. rewrite Hm in Hk. simpl in Hk.
  assert (writes op = false) as Hwr by (unfold method, critical in Hm; by destruct (writes op)).
  pose proof (sim_free _ _ _ _ Hsim eq_refl) as Hv. rewrite Hs in Hv. simpl in Hv.
  destruct (body_run op s (object α) Hv) as [Hview Hres].
  pose proof (sim_readers _ _ _ _ Hsim) as Hn. rewrite Hs in Hn. simpl in Hn.
  eapply simulated_step; [exact Hsim|done| |by intros []| | |]; simpl.
  - rewrite size_union by set_solver. rewrite size_singleton. lia.
  - intros _. by rewrite Hwr in Hw; rewrite (within_reads _ _ Hw) in Hview.
  - rewrite <-Hres, <-(run_section (writes op)), Hk. constructor; [set_solver|done|].
    exists (body op). by rewrite <-Hwr, Hk.
  - intros t' Hne. rewrite Hs. set_solver.
Qed.

(** A goroutine whose next step is a release or an access is inside its section. *)
Lemma inside σ α W Rs t c :
  simulated σ α W Rs → threads σ !! t = Some c →
  (∀ r, c ≠ Ret r) → (∀ k, c ≠ Lock k) → (∀ k, c ≠ RLock k) →
  calls α !! t = Some (inr (run c (memory (sys_shared σ))).2) ∧
  ((t ∈ Rs ∧ W = None ∧ held false c) ∨
   (W = Some t ∧ Rs = ∅ ∧ held true c ∧ view (run c (memory (sys_shared σ))).1 (object α))).
Proof using Type.
  intros Hsim Hc Hr Hl Hrl. destruct (simulated_thread _ _ _ _ _ _ Hsim Hc) as (x & Hx & Hst).
  pose proof (sim_exclusive _ _ _ _ Hsim) as Hex.
  destruct Hst as [op| c Ht HW Hh | c HW Ht Hh Hv| r]; [|split; [done|]..|by destruct (Hr r)].
  - unfold method, critical in *. by destruct (writes op); [destruct (Hl _ eq_refl)|destruct (Hrl _ eq_refl)].
  - left. split; [done|]. split; [|done]. destruct W as [t'|]; [|done]. rewrite Hex in Ht by eauto. set_solver.
  - right. split; [done|]. split; [apply Hex; eauto|done].
Qed.

Lemma sim_unlock σ α W Rs t s n k :
  simulated σ α W Rs → threads σ !! t = Some (Unlock k) → sys_shared σ = mkShared s true n →
  simulated (mkSystem (mkShared s false n) (<[t := k]> (threads σ))) α None Rs.
Proof using Type.
  intros Hsim Hc Hs. destruct (inside _ _ _ _ _ _ Hsim Hc) as (Hx & [(Ht & -> & Hh)|(-> & -> & Hh & Hv)]); [done..| |].
  - pose proof (sim_writer _ _ _ _ Hsim) as Hw. by rewrite Hs in Hw.
  - rewrite Hs in Hx, Hv. destruct (held_inv _ _ Hh) as [(r & [= ->])|[(?&?&?&_)|(?&?&?&?&_)]]; [|done..].
    pose proof (sim_readers _ _ _ _ Hsim) as Hn. rewrite Hs in Hn. destruct α as [a cs]; simpl in *.
    rewrite <-(insert_id cs t _ Hx).
    eapply (simulated_step _ (mkAtomic a cs)); [exact Hsim|done|done|by intros []|done| |]; simpl.
    + constructor; [set_solver|done].
    + intros t' Hne. set_solver.
Qed.

Lemma sim_runlock σ α W Rs t s w n k :
  simulated σ α W Rs → threads σ !! t = Some (RUnlock k) → sys_shared σ = mkShared s w (S n) →
  simulated (mkSystem (mkShared s w n) (<[t := k]> (threads σ))) α W (Rs ∖ {[t]}).
Proof using Type.
  intros Hsim Hc Hs. pose proof (sim_readers _ _ _ _ Hsim) as Hn. rewrite Hs in Hn. simpl in Hn.
  destruct (inside _ _ _ _ _ _ Hsim Hc) as (Hx & [(Ht & -> & Hh)|(-> & -> & Hh & Hv)]); [done..| |by rewrite size_empty in Hn].
  rewrite Hs in Hx. destruct (held_inv _ _ Hh) as [(r & [= ->])|[(?&?&?&_)|(?&?&?&?&_)]]; [|done..].
  pose proof (sim_writer _ _ _ _ Hsim) as Hw. rewrite Hs in Hw.
  pose proof (sim_free _ _ _ _ Hsim eq_refl) as Hv. rewrite Hs in Hv. destruct α as [a cs]; simpl in *.
  rewrite <-(insert_id cs t _ Hx).
  eapply (simulated_step _ (mkAtomic a cs)); [exact Hsim|done| |by intros []|done| |]; simpl.
  - rewrite size_difference by set_solver. rewrite size_singleton. lia.
  - constructor; [set_solver|done].
  - intros t' Hne. rewrite Hs. set_solver.
Qed.

Lemma sim_read σ α W Rs t m k :
  simulated σ α W Rs → threads σ !! t = Some (Read m k) →
  simulated (mkSystem (sys_shared σ) (<[t := k (memory (sys_shared σ))]> (threads σ))) α W Rs.
Proof using Type.
  intros Hsim Hc. destruct (inside _ _ _ _ _ _ Hsim Hc) as (Hx & Hin); [done..|].
  destruct α as [a cs]. simpl in *. rewrite <-(insert_id cs t _ Hx).
  eapply (simulated_step _ (mkAtomic a cs)); [exact Hsim|apply Hsim..| |]; simpl; [|naive_solver].
  destruct Hin as [(Ht & -> & Hh)|(-> & -> & Hh & Hv)];
    (destruct (held_inv _ _ Hh) as [(? & [=])|[(?&?&[= <- <-]&?)|(?&?&?&[=]&_)]]; constructor; set_solver).
Qed.

Lemma sim_write σ α W Rs t s w n m f k :
  simulated σ α W Rs → threads σ !! t = Some (Write m f k) → sys_shared σ = mkShared s w n →
  simulated (mkSystem (mkShared (f s) w n) (<[t := k]> (threads σ))) α W Rs.
Proof using Type.
  intros Hsim Hc Hs. destruct (inside _ _ _ _ _ _ Hsim Hc) as (Hx & Hin); [done..|].
  pose proof (sim_writer _ _ _ _ Hsim) as Hw. pose proof (sim_readers _ _ _ _ Hsim) as Hn.
  rewrite Hs in Hx, Hin, Hw, Hn. destruct α as [a cs]. simpl in *.
  destruct Hin as [(Ht & -> & Hh)|(-> & -> & Hh & Hv)];
    (destruct (held_inv _ _ Hh) as [(? & [=])|[(?&?&[=]&_)|(?&?&?&[= <- <- <-]&Hwr&Hk)]]); [done|].
  rewrite <-(insert_id cs t _ Hx).
  eapply (simulated_step _ (mkAtomic a cs)); [exact Hsim|done|done|done|done| |]; simpl.
  - constructor; [done|set_solver|done|done].
  - intros t' Hne. set_solver.
Qed.

Lemma exec_one (step : atomic → option (event Op R) → atomic → Prop) α l α' :
  step α l α' → exec step α (option_list l) α'.
Proof using Type. intros Hs. change (option_list l) with ([] ++ option_list l). econstructor; [constructor|done]. Qed.

Lemma sim_invoke σ α W Rs t op :
  simulated σ α W Rs → threads σ !! t = None →
  calls α !! t = None ∧
  simulated (mkSystem (sys_shared σ) (<[t := method op]> (threads σ))) (mkAtomic (object α) (<[t := inl op]> (calls α))) W Rs.
Proof using Type.
  intros Hsim Hn. pose proof (sim_thread _ _ _ _ Hsim t) as Ht. rewrite Hn in Ht.
  split; [by destruct (calls α !! t)|]. pose proof (sim_holders _ _ _ _ Hsim t) as Hh. rewrite Hn in Hh.
  eapply simulated_step; [exact Hsim|apply Hsim..| |naive_solver].
  constructor; intros ?; destruct Hh as [? [=]]; auto.
Qed.

Lemma sim_respond σ α W Rs t r :
  simulated σ α W Rs → threads σ !! t = Some (Ret r) →
  calls α !! t = Some (inr r) ∧
  simulated (mkSystem (sys_shared σ) (delete t (threads σ))) (mkAtomic (object α) (delete t (calls α))) W Rs.
Proof using Type.
  intros Hsim Hc. destruct (simulated_thread _ _ _ _ _ _ Hsim Hc) as (x & Hx & Hst).
  inversion Hst as [op _ _ Hm|? _ _ Hh|? _ _ Hh|? Hnin HnW]; subst;
    [by unfold method, critical in Hm; destruct (writes op)|by destruct (held_release_ret _ _ Hh)..|].
  split; [done|]. constructor; simpl; [apply Hsim..| |].
  - intros t'. pose proof (sim_thread _ _ _ _ Hsim t') as Ht. destruct (decide (t' = t)) as [->|Hne].
    + by rewrite !lookup_delete_eq.
    + by rewrite !lookup_delete_ne by done.
  - intros t' Ht'. rewrite lookup_delete_ne by (intros ->; tauto). by apply (sim_holders _ _ _ _ Hsim).
Qed.

Lemma simulation σ l σ' α W Rs :
  sys_step method σ l σ' → simulated σ α W Rs →
  ∃ α' W' Rs', exec atomic_step α (option_list l) α' ∧ simulated σ' α' W' Rs'.
Proof using Type.
  intros Hstep Hsim. destruct Hstep as [σ t op Hn|σ t c s' c' Hc Ha|σ t r Hc].
  - destruct (sim_invoke _ _ _ _ _ op Hsim Hn). eexists _, _, _. split; [|done]. by apply exec_one; constructor.
  - inversion Ha as [s k E|s n k E|s n k E|s w n k E|s w n m k E|s w n m f k E]; subst; symmetry in E.
    + destruct (sim_lock _ _ _ _ _ _ _ Hsim Hc E) as (op & Hop & ?). eexists _, _, _. split; [|done].
      apply (exec_one _ _ None). by constructor.
    + eexists α, _, _. split; [constructor|by eapply sim_unlock].
    + destruct (sim_rlock _ _ _ _ _ _ _ _ Hsim Hc E) as (op & Hop & ?). eexists _, _, _. split; [|done].
      apply (exec_one _ _ None). by constructor.
    + eexists α, _, _. split; [constructor|by eapply sim_runlock].
    + eexists α, _, _. split; [constructor|]. pose proof (sim_read _ _ _ _ _ _ _ Hsim Hc) as H'. by rewrite E in H'.
    + eexists α, _, _. split; [constructor|by eapply sim_write].
  - destruct (sim_respond _ _ _ _ _ _ Hsim Hc). eexists _, _, _. split; [|done]. by apply exec_one; constructor.
Qed.

(** Every execution has the trace of an execution of the atomic object. *)
Lemma linearization s a tr σ :
  view s a → exec (sys_step method) (sys_start s) tr σ →
  ∃ α, exec atomic_step (atomic_start a) tr α ∧ ∃ W Rs, simulated σ α W Rs.
Proof using Type.
  intros Hv. apply (exec_ind_inv _ (λ tr σ, ∃ α, exec atomic_step (atomic_start a) tr α ∧ ∃ W Rs, simulated σ α W Rs)).
  - exists (atomic_start a). split; [constructor|]. exists None, ∅. constructor; simpl; try done.
    intros t [?|?]; set_solver.
  - intros tr' σ1 l σ2 (α & He & W & Rs & Hsim) Hstep.
    destruct (simulation _ _ _ _ _ _ Hstep Hsim) as (α' & W' & Rs' & ? & ?). exists α'. split; [by eapply exec_trans|eauto].
Qed.

Lemma guarded_race_free σ α W Rs : simulated σ α W Rs → ¬ racy σ.
Proof using Type.
  intros Hsim (t1 & t2 & c1 & c2 & m & b & Hne & H1 & H2 & Hn1 & Hn2).
  destruct c1 as [| | | | | |m1 f1 k1]; try done.
  destruct (inside _ _ _ _ _ _ Hsim H1) as (_ & [(_ & _ & Hh)|(-> & -> & _)]); [done..| |].
  { destruct (held_inv _ _ Hh) as [(? & [=])|[(?&?&[=]&_)|(?&?&?&_&[=]&_)]]. }
  assert (∃ c, c2 = c ∧ (∀ r, c ≠ Ret r) ∧ (∀ k, c ≠ Lock k) ∧ (∀ k, c ≠ RLock k)) as (c & -> & ? & ? & ?).
  { exists c2. by destruct c2. }
  destruct (inside _ _ _ _ _ _ Hsim H2) as (_ & [(? & _)|([= ?] & _)]); [done..|set_solver|done].
Qed.

(** A goroutine that holds the mutex can go on. *)
Lemma held_steps w c s n : held w c → (w = false → n ≠ 0%nat) →
  ∃ s' c', access (mkShared s w n) c s' c'.
Proof using Type.
  intros Hh Hn. destruct (held_inv _ _ Hh) as [(r & ->)|[(m & k & -> & _)|(m & f & k & -> & -> & _)]].
  - destruct w; simpl; [by eexists _, _; constructor|]. destruct n as [|n]; [by destruct Hn|by eexists _, _; constructor].
  - by eexists _, _; constructor.
  - by eexists _, _; constructor.
Qed.

(** As long as a call is under way, some goroutine can go on: no deadlock. *)
Lemma guarded_progress σ α W Rs :
  simulated σ α W Rs → threads σ ≠ ∅ →
  ∃ l σ', sys_step method σ l σ' ∧ ∀ t op, l ≠ Some (Invoke t op).
Proof using Type.
  intros Hsim Hne.
  assert (Hgo : ∀ t c s' c', threads σ !! t = Some c → access (sys_shared σ) c s' c' →
    ∃ l σ', sys_step method σ l σ' ∧ ∀ t op, l ≠ Some (Invoke t op)).
  { intros t c s' c' Hc Ha. eexists None, _. split; [by econstructor|done]. }
  assert (∃ s w n, sys_shared σ = mkShared s w n) as (s & w & n & Hs) by (destruct (sys_shared σ); eauto).
  pose proof (sim_writer _ _ _ _ Hsim) as Hw. pose proof (sim_readers _ _ _ _ Hsim) as Hn. rewrite Hs in Hw, Hn, Hgo. simpl in *.
  assert (Hin : ∀ t, t ∈ Rs ∨ W = Some t → ∃ c, threads σ !! t = Some c ∧ held (bool_decide (W = Some t)) c).
  { intros t Ht. destruct (sim_holders _ _ _ _ Hsim t Ht) as [c Hc]. exists c. split; [done|].
    destruct (simulated_thread _ _ _ _ _ _ Hsim Hc) as (x & _ & Hst).
    destruct Hst as [? ? ?|? ? HW ?|? HW ? ?|? ? ?]; [tauto| | |tauto].
    - by rewrite bool_decide_eq_false_2 by done.
    - by rewrite bool_decide_eq_true_2 by done. }
  destruct W as [t|].
  { destruct (Hin t) as (c & Hc & Hh); [by right|]. rewrite bool_decide_eq_true_2 in Hh by done.
    destruct (held_steps _ _ s n Hh) as (s' & c' & Ha); [done|]. rewrite bool_decide_eq_true_2 in Hw by eauto. subst w. by eapply Hgo. }
  rewrite bool_decide_eq_false_2 in Hw by (by intros []). subst w.
  destruct (decide (Rs = ∅)) as [->|[t Ht]%set_choose_L].
  - destruct (map_choose _ Hne) as (t & c & Hc). destruct (simulated_thread _ _ _ _ _ _ Hsim Hc) as (x & _ & Hst).
    rewrite size_empty in Hn. subst n.
    destruct Hst as [op _ _|? ? ? _|? [=] _ _|r _ _]; [|set_solver|].
    + unfold method, critical in Hc. destruct (writes op); (eapply Hgo; [exact Hc|constructor]).
    + eexists (Some _), _. split; [by apply sys_respond|done].
  - destruct (Hin t) as (c & Hc & Hh); [by left|]. rewrite bool_decide_eq_false_2 in Hh by done.
    destruct (held_steps _ _ s n Hh) as (s' & c' & Ha); [|by eapply Hgo].
    intros _ Hz. assert (Rs = ∅) by (by apply leibniz_equiv, size_empty_inv; lia). set_solver.
Qed.

(** What a guarded store gives, on every execution of any calls: the trace is one of the
    atomic object, which the memory represents whenever no call is under way; no two
    goroutines race; and calls under way can always go on. *)
Lemma guarded_correct s a tr σ :
  view s a → exec (sys_step method) (sys_start s) tr σ →
  (∃ α, exec atomic_step (atomic_start a) tr α ∧
     (threads σ = ∅ → view (memory (sys_shared σ)) (object α) ∧ calls α = ∅)) ∧
  ¬ racy σ ∧
  (threads σ ≠ ∅ → ∃ l σ', sys_step method σ l σ' ∧ ∀ t op, l ≠ Some (Invoke t op)).
Proof using Type.
  intros Hv He. destruct (linearization _ _ _ _ Hv He) as (α & Hα & W & Rs & Hsim).
  split; [|split; [by eapply guarded_race_free|by eapply guarded_progress]].
  exists α. split; [done|]. intros Hno. split.
  - apply Hsim. destruct W as [t|]; [|done]. destruct (sim_holders _ _ _ _ Hsim t) as [c Hc]; [by right|].
    by rewrite Hno, lookup_empty in Hc.
  - apply map_eq. intros t. rewrite lookup_empty. pose proof (sim_thread _ _ _ _ Hsim t) as Ht.
    rewrite Hno, lookup_empty in Ht. by destruct (calls α !! t).
Qed.

(** ** Invariants of the atomic object *)

Section invariant.
Context (I : A → Prop) (P : Op → R → Prop) (allowed : Op → Prop).
Context (I_step : ∀ op a, I a → allowed op → I (apply op a).1 ∧ P op (apply op a).2).

Record answered (tr : list (event Op R)) (α : atomic) : Prop := {
  an_object : I (object α);
  an_open t op : calls α !! t = Some (inl op) → allowed op ∧ (observed tr).1 !! t = Some op;
  an_ready t r : calls α !! t = Some (inr r) → ∃ op, (observed tr).1 !! t = Some op ∧ P op r;
  an_completed op r : (op, r) ∈ completed tr → P op r;
}.

Lemma answered_step tr α l α' :
  answered tr α → (∀ t op, l = Some (Invoke t op) → allowed op) → atomic_step α l α' →
  answered (tr ++ option_list l) α'.
Proof using I_step.
  intros [H1 H2 H3 H4] Hl Hstep. destruct Hstep as [α t op Hn|α t op Hop|α t r Hr]; simpl in *.
  - assert (Ho : observed (tr ++ [Invoke t op]) = (<[t := op]> (observed tr).1, (observed tr).2)) by (by rewrite observed_snoc).
    constructor; unfold completed; rewrite ?Ho; simpl; [done| | |done]; intros t' x;
      (destruct (decide (t' = t)) as [->|Hne]; [rewrite !lookup_insert_eq|rewrite !lookup_insert_ne by done]);
      [|by apply H2|done|by apply H3].
    intros [= <-]. split; [by eapply Hl|done].
  - rewrite app_nil_r. destruct (H2 _ _ Hop) as [Hal Hobs]. destruct (I_step op _ H1 Hal) as [HI HP].
    constructor; simpl; [done| | |done]; intros t' x;
      (destruct (decide (t' = t)) as [->|Hne]; [rewrite lookup_insert_eq|rewrite lookup_insert_ne by done]);
      [done|by apply H2| |by apply H3]. intros [= <-]. eauto.
  - destruct (H3 _ _ Hr) as (op & Hobs & HP).
    assert (Ho : observed (tr ++ [Respond t r]) = (delete t (observed tr).1, (observed tr).2 ++ [(op, r)])).
    { rewrite observed_snoc. simpl. by rewrite Hobs. }
    constructor; unfold completed; rewrite ?Ho; simpl; [done| | |].
    + intros t' x [? Hc]%lookup_delete_Some. rewrite lookup_delete_ne by done. by apply H2.
    + intros t' x [? Hc]%lookup_delete_Some. rewrite lookup_delete_ne by done. by apply H3.
    + intros op' r'. rewrite elem_of_app, list_elem_of_singleton. intros [?|[= -> ->]]; auto.
Qed.

(** What every completed call answers, from what every call answers where it takes effect. *)
Lemma atomic_completed a tr α :
  I a → (∀ t op, Invoke t op ∈ tr → allowed op) → exec atomic_step (atomic_start a) tr α →
  I (object α) ∧ ∀ op r, (op, r) ∈ completed tr → P op r.
Proof using I_step.
  intros HI Hal He. enough (answered tr α) as [? _ _ ?] by done.
  remember (atomic_start a) as α0 eqn:Hα0. induction He as [α|α tr α' l α'' He IH Hstep]; subst.
  - constructor; simpl; try done; intros t x; rewrite ?lookup_empty; [done..|]. by intros ?%elem_of_nil.
  - eapply answered_step; [apply IH; [set_solver|done]| |done]. intros t op ->. apply (Hal t). set_solver.
Qed.
End invariant.
End system.
