(* ===== verification/GoNet.v ===== *)
(** * Go's [net] and [net/netip], as far as the program uses them

    Addresses, networks, their parsers and printers, following the standard
    library's source: [net.IP] is a byte slice (here a list of [Z] in 0..255, the
    nil slice is the empty list), [netip.Addr] is a 128-bit integer with an
    address family, [net.HardwareAddr] a byte slice.  Error values keep the
    offending text only. *)

From S2P Require Import Prelude.
From Stdlib Require Import Ascii.
Local Open Scope Z_scope.

(** ** Characters *)

Definition Z_of_ascii (c : ascii) : Z := Z.of_N (N_of_ascii c).
Definition ascii_of_Z (n : Z) : ascii := ascii_of_N (Z.to_N n).

(** The value of a decimal or hexadecimal digit character. *)
Definition dec_val (c : ascii) : option Z :=
  let n := Z_of_ascii c in
  if (48 <=? n) && (n <=? 57) then Some (n - 48) else None.

Definition hex_val (c : ascii) : option Z :=
  let n := Z_of_ascii c in
  if (48 <=? n) && (n <=? 57) then Some (n - 48)
  else if (97 <=? n) && (n <=? 102) then Some (n - 97 + 10)
  else if (65 <=? n) && (n <=? 70) then Some (n - 65 + 10)
  else None.

(** [digits] of the standard library: the character of a value below 16. *)
Definition digit_char (d : Z) : ascii :=
  ascii_of_Z (if d <? 10 then 48 + d else 87 + d).

(** [strings.Cut(s, "c")] for a one-character separator. *)
Fixpoint Cut (s : string) (sep : ascii) : option (string * string) :=
  match s with
  | EmptyString => None
  | String c s' =>
      if ascii_dec c sep then Some (EmptyString, s')
      else match Cut s' sep with
           | Some (b, a) => Some (String c b, a)
           | None => None
           end
  end.

(** ** Bytes *)

(** Big-endian bytes of the low [8 * n] bits of [v], and back. *)
Fixpoint be_bytes (n : nat) (v : Z) : list Z :=
  match n with
  | O => []
  | S n' => Z.land (Z.shiftr v (8 * Z.of_nat n')) 255 :: be_bytes n' v
  end.

Fixpoint be_value (bs : list Z) : Z :=
  match bs with
  | [] => 0
  | b :: bs' => Z.shiftl b (8 * Z.of_nat (length bs')) + be_value bs'
  end.

(** ** netip.Addr *)

Inductive family : Type :=
| z0                      (* the zero Addr *)
| z4
| z6 (zone : string).

Record Addr : Type := mkAddr { addr_bits : Z; addr_z : family }.

#[export] Instance family_eq_dec : EqDecision family.
Proof. solve_decision. Defined.
#[export] Instance Addr_eq_dec : EqDecision Addr.
Proof. solve_decision. Defined.

(** [Addr{}] *)
Definition Addr_zero : Addr := mkAddr 0 z0.

(** Bits 32..47 of a 4-in-6 address, as [netip] stores IPv4 addresses. *)
Definition v4_prefix : Z := 0xffff00000000.

Definition AddrFrom4 (v : Z) : Addr := mkAddr (v4_prefix + v) z4.
Definition AddrFrom16 (v : Z) : Addr := mkAddr v (z6 EmptyString).

Definition IsValid (a : Addr) : bool := match addr_z a with z0 => false | _ => true end.
Definition Is4 (a : Addr) : bool := match addr_z a with z4 => true | _ => false end.
Definition Is6 (a : Addr) : bool := match addr_z a with z6 _ => true | _ => false end.
Definition Is4In6 (a : Addr) : bool := Is6 a && (Z.shiftr (addr_bits a) 32 =? 0xffff).
Definition Zone (a : Addr) : string := match addr_z a with z6 z => z | _ => EmptyString end.

Definition BitLen (a : Addr) : Z :=
  match addr_z a with z0 => 0 | z4 => 32 | z6 _ => 128 end.

Definition Unmap (a : Addr) : Addr := if Is4In6 a then mkAddr (addr_bits a) z4 else a.

Definition WithZone (a : Addr) (zone : string) : Addr :=
  if Is6 a then mkAddr (addr_bits a) (z6 zone) else a.

Definition cmp_int (c : comparison) : Z := match c with Lt => -1 | Eq => 0 | Gt => 1 end.

Definition Compare (a b : Addr) : Z :=
  if BitLen a <? BitLen b then -1
  else if BitLen b <? BitLen a then 1
  else match addr_bits a ?= addr_bits b with
       | Lt => -1
       | Gt => 1
       | Eq => if Is6 a then cmp_int (String.compare (Zone a) (Zone b)) else 0
       end.

Definition pow128 : Z := 2 ^ 128.

Definition Next (a : Addr) : Addr :=
  let v := (addr_bits a + 1) mod pow128 in
  if Is4 a then if Z.land v 0xffffffff =? 0 then Addr_zero else mkAddr v (addr_z a)
  else if v =? 0 then Addr_zero else mkAddr v (addr_z a).

Definition Prev (a : Addr) : Addr :=
  let v := (addr_bits a - 1) mod pow128 in
  if Is4 a then
    if Z.land (addr_bits a) 0xffffffff =? 0 then Addr_zero else mkAddr v (addr_z a)
  else if addr_bits a =? 0 then Addr_zero else mkAddr v (addr_z a).

Definition AddrFromSlice (bs : list Z) : Addr * bool :=
  match length bs with
  | 4%nat => (AddrFrom4 (be_value bs), true)
  | 16%nat => (AddrFrom16 (be_value bs), true)
  | _ => (Addr_zero, false)
  end.

Definition AsSlice (a : Addr) : list Z :=
  match addr_z a with
  | z0 => []
  | z4 => be_bytes 4 (addr_bits a)
  | z6 _ => be_bytes 16 (addr_bits a)
  end.

(** [As4] panics on anything that has no IPv4 form. *)
Definition As4 (a : Addr) : res (list Z) :=
  match addr_z a with
  | z4 => Val (be_bytes 4 (addr_bits a))
  | z0 => Panic "As4 called on IP zero value"
  | z6 _ => if Is4In6 a then Val (be_bytes 4 (addr_bits a))
            else Panic "As4 called on IPv6 address"
  end.

Definition As16 (a : Addr) : list Z := be_bytes 16 (addr_bits a).

(** ** Printing *)

Definition char1 (c : ascii) : string := String c EmptyString.

(** [appendDecimal]: an octet without leading zeros. *)
Definition dec_octet (x : Z) : string :=
  (if 100 <=? x then char1 (digit_char (x / 100)) else EmptyString) +:+
  (if 10 <=? x then char1 (digit_char (x / 10 mod 10)) else EmptyString) +:+
  char1 (digit_char (x mod 10)).

Fixpoint dotted (bs : list Z) : string :=
  match bs with
  | [] => EmptyString
  | [b] => dec_octet b
  | b :: bs' => dec_octet b +:+ "." +:+ dotted bs'
  end.

(** [appendHex]: a 16-bit group without leading zeros. *)
Definition hex_group (x : Z) : string :=
  (if 0x1000 <=? x then char1 (digit_char (Z.shiftr x 12)) else EmptyString) +:+
  (if 0x100 <=? x then char1 (digit_char (Z.land (Z.shiftr x 8) 15)) else EmptyString) +:+
  (if 0x10 <=? x then char1 (digit_char (Z.land (Z.shiftr x 4) 15)) else EmptyString) +:+
  char1 (digit_char (Z.land x 15)).

(** The eight 16-bit groups of a 128-bit address, most significant first. *)
Definition groups16 (v : Z) : list Z :=
  (λ i, Z.land (Z.shiftr v (16 * i)) 0xffff) <$> [7; 6; 5; 4; 3; 2; 1; 0].

Fixpoint zero_run (gs : list Z) : nat :=
  match gs with
  | g :: gs' => if g =? 0 then S (zero_run gs') else 0%nat
  | [] => 0%nat
  end.

(** The first longest run of at least two zero groups: (start, length). *)
Fixpoint best_run (gs : list Z) (i : nat) (best : nat * nat) : nat * nat :=
  match gs with
  | [] => best
  | _ :: gs' =>
      let l := zero_run gs in
      best_run gs' (S i) (if (2 <=? l)%nat && (best.2 <? l)%nat then (i, l) else best)
  end.

Fixpoint colons (gs : list Z) : string :=
  match gs with
  | [] => EmptyString
  | [g] => hex_group g
  | g :: gs' => hex_group g +:+ ":" +:+ colons gs'
  end.

Definition string6 (v : Z) : string :=
  let gs := groups16 v in
  let '(start, len) := best_run gs 0 (0%nat, 0%nat) in
  if (len =? 0)%nat then colons gs
  else colons (take start gs) +:+ "::" +:+ colons (drop (start + len) gs).

Definition zone_suffix (a : Addr) : string :=
  if String.eqb (Zone a) EmptyString then EmptyString else "%" +:+ Zone a.

Definition Addr_String (a : Addr) : string :=
  match addr_z a with
  | z0 => "invalid IP"
  | z4 => dotted (be_bytes 4 (addr_bits a))
  | z6 _ =>
      (if Is4In6 a then "::ffff:" +:+ dotted (be_bytes 4 (addr_bits a))
       else string6 (addr_bits a)) +:+ zone_suffix a
  end.

(** ** Parsing *)

(** [parseIPv4Fields]: [prev] is the character before the current one, [fields]
    the octets read so far, [val] and [digLen] the value and the number of digits
    of the current octet. *)
Fixpoint parseIPv4Fields (s : string) (prev : option ascii) (fields : list Z)
    (val : Z) (digLen : nat) : option (list Z) :=
  match s with
  | EmptyString =>
      if (length fields <? 3)%nat then None else Some (fields ++ [val])
  | String c s' =>
      match dec_val c with
      | Some d =>
          if (digLen =? 1)%nat && (val =? 0) then None
          else if 255 <? val * 10 + d then None
          else parseIPv4Fields s' (Some c) fields (val * 10 + d) (S digLen)
      | None =>
          if ascii_dec c "." then
            if bool_decide (prev = None) || String.eqb s' EmptyString
               || bool_decide (prev = Some "."%char) then None
            else if (length fields =? 3)%nat then None
            else parseIPv4Fields s' (Some c) (fields ++ [val]) 0 0
          else None
      end
  end.

Definition parseIPv4 (s : string) : option Addr :=
  (λ fields, AddrFrom4 (be_value fields)) <$> parseIPv4Fields s None [] 0 0.

(** The leading hexadecimal group of [s]: (digits, value, rest). *)
Fixpoint hex_run (s : string) (off : nat) (acc : Z) : option (nat * Z * string) :=
  match s with
  | EmptyString => Some (off, acc, s)
  | String c s' =>
      match hex_val c with
      | Some d =>
          if (3 <? off)%nat then None
          else if 0xffff <? acc * 16 + d then None
          else hex_run s' (S off) (acc * 16 + d)
      | None => Some (off, acc, s)
      end
  end.

(** The main loop of [parseIPv6]: [k] groups may still be read, [ip] are the
    bytes so far, [ell] the position of the ellipsis. *)
Fixpoint parse6_loop (k : nat) (s : string) (ip : list Z) (ell : option nat)
    : option (string * list Z * option nat) :=
  match k with
  | O => Some (s, ip, ell)
  | S k' =>
      match hex_run s 0 0 with
      | None => None
      | Some (off, acc, rest) =>
          if (off =? 0)%nat then None
          else match rest with
          | String "." _ =>
              if bool_decide (ell = None) && negb (length ip =? 12)%nat then None
              else if (16 <? length ip + 4)%nat then None
              else match parseIPv4Fields s None [] 0 0 with
                   | None => None
                   | Some f => Some (EmptyString, ip ++ f, ell)
                   end
          | _ =>
              let ip' := ip ++ [Z.shiftr acc 8; Z.land acc 255] in
              match rest with
              | EmptyString => Some (EmptyString, ip', ell)
              | String ":" EmptyString => None
              | String ":" (String ":" r2) =>
                  if bool_decide (ell = None) then
                    if String.eqb r2 EmptyString then Some (r2, ip', Some (length ip'))
                    else parse6_loop k' r2 ip' (Some (length ip'))
                  else None
              | String ":" r => parse6_loop k' r ip' ell
              | _ => None
              end
          end
      end
  end.

Definition parseIPv6 (s : string) : option Addr :=
  let split := match Cut s "%" with
               | Some (b, zone) => if String.eqb zone EmptyString then None else Some (b, zone)
               | None => Some (s, EmptyString)
               end in
  match split with
  | None => None
  | Some ("::", zone) => Some (mkAddr 0 (z6 zone))
  | Some (s, zone) =>
      let '(s, ell) := match s with
                       | String ":" (String ":" s') => (s', Some 0%nat)
                       | _ => (s, None)
                       end in
      match parse6_loop 8 s [] ell with
      | Some (EmptyString, ip, ell') =>
          if (length ip <? 16)%nat then
            match ell' with
            | None => None
            | Some e => Some (mkAddr (be_value (take e ip ++ replicate (16 - length ip) 0 ++ drop e ip))
                                (z6 zone))
            end
          else match ell' with
               | Some _ => None
               | None => Some (mkAddr (be_value ip) (z6 zone))
               end
      | _ => None
      end
  end.

(** [netip.ParseAddr]: the first of '.', ':' and '%' decides. *)
Fixpoint ParseAddr_scan (full s : string) : option Addr :=
  match s with
  | EmptyString => None
  | String "." _ => parseIPv4 full
  | String ":" _ => parseIPv6 full
  | String "%" _ => None
  | String _ s' => ParseAddr_scan full s'
  end.

(** [netip.ParseAddr]; the zero address comes with the error. *)
Definition ParseAddr (s : string) : Addr * option error :=
  match ParseAddr_scan s s with
  | Some a => (a, None)
  | None => (Addr_zero, Some (AddrParseError s))
  end.

(** ** net.IP *)

Definition v4InV6Prefix : list Z := [0; 0; 0; 0; 0; 0; 0; 0; 0; 0; 255; 255].

Definition IPv4zero : list Z := v4InV6Prefix ++ [0; 0; 0; 0].
Definition IPv6unspecified : list Z := replicate 16 0.

Definition To4 (ip : list Z) : list Z :=
  if (length ip =? 4)%nat then ip
  else if (length ip =? 16)%nat && bool_decide (take 12 ip = v4InV6Prefix) then drop 12 ip
  else [].

Definition IP_Equal (ip x : list Z) : bool :=
  if (length ip =? length x)%nat then bool_decide (ip = x)
  else if (length ip =? 4)%nat && (length x =? 16)%nat then
    bool_decide (take 12 x = v4InV6Prefix) && bool_decide (ip = drop 12 x)
  else if (length ip =? 16)%nat && (length x =? 4)%nat then
    bool_decide (take 12 ip = v4InV6Prefix) && bool_decide (drop 12 ip = x)
  else false.

Definition IsUnspecified (ip : list Z) : bool :=
  IP_Equal ip IPv4zero || IP_Equal ip IPv6unspecified.

(** [net.IP.String]; lengths other than 0, 4 and 16 are printed in hex by Go and
    never arise from the parsers above. *)
Definition hex_byte (b : Z) : string :=
  char1 (digit_char (Z.shiftr b 4)) +:+ char1 (digit_char (Z.land b 15)).

Definition IP_String (ip : list Z) : string :=
  if (length ip =? 0)%nat then "<nil>"
  else if negb (length ip =? 4)%nat && negb (length ip =? 16)%nat then
    "?" +:+ foldr (λ b s, hex_byte b +:+ s) EmptyString ip
  else match To4 ip with
       | [] => Addr_String (AddrFrom16 (be_value ip))
       | p4 => Addr_String (AddrFrom4 (be_value p4))
       end.

(** [net.ParseIP]: nil on failure or when there is a zone. *)
Definition ParseIP (s : string) : list Z :=
  match ParseAddr s with
  | (a, None) => if String.eqb (Zone a) EmptyString then As16 a else []
  | (_, Some _) => []
  end.

(** ** Networks *)

(** [CIDRMask]: [n] one bits in [l] bytes. *)
Fixpoint mask_bytes (l : nat) (n : Z) : list Z :=
  match l with
  | O => []
  | S l' =>
      if 8 <=? n then 255 :: mask_bytes l' (n - 8)
      else Z.lxor 255 (Z.shiftr 255 n) :: mask_bytes l' 0
  end.

Definition CIDRMask (ones bits : Z) : list Z :=
  if negb (bits =? 32) && negb (bits =? 128) then []
  else if (ones <? 0) || (bits <? ones) then []
  else mask_bytes (Z.to_nat (bits / 8)) ones.

(** Leading one bits of a byte, if the rest of it is zero. *)
Fixpoint leading_ones (fuel : nat) (v : Z) : option Z :=
  match fuel with
  | O => Some 0
  | S fuel' =>
      if Z.testbit v 7 then Z.add 1 <$> leading_ones fuel' (Z.land (Z.shiftl v 1) 255)
      else if v =? 0 then Some 0 else None
  end.

Fixpoint simpleMaskLength (mask : list Z) : option Z :=
  match mask with
  | [] => Some 0
  | v :: rest =>
      if v =? 255 then Z.add 8 <$> simpleMaskLength rest
      else if forallb (Z.eqb 0) rest then leading_ones 8 v else None
  end.

(** [net.IPMask.Size] *)
Definition Mask_Size (mask : list Z) : Z * Z :=
  match simpleMaskLength mask with
  | Some ones => (ones, 8 * Z.of_nat (length mask))
  | None => (0, 0)
  end.

(** [net.IP.Mask] *)
Definition IP_Mask (ip mask : list Z) : list Z :=
  let mask := if (length mask =? 16)%nat && (length ip =? 4)%nat
                 && forallb (Z.eqb 255) (take 12 mask) then drop 12 mask else mask in
  let ip := if (length mask =? 4)%nat && (length ip =? 16)%nat
               && bool_decide (take 12 ip = v4InV6Prefix) then drop 12 ip else ip in
  if (length ip =? length mask)%nat then zip_with Z.land ip mask else [].

Record IPNet : Type := mkIPNet { net_IP : list Z; net_Mask : list Z }.

#[export] Instance IPNet_eq_dec : EqDecision IPNet.
Proof. solve_decision. Defined.

Definition networkNumberAndMask (n : IPNet) : list Z * list Z :=
  let ip := match To4 (net_IP n) with [] => net_IP n | p4 => p4 end in
  if negb (length ip =? 4)%nat && negb (length ip =? 16)%nat then ([], [])
  else match length (net_Mask n) with
       | 4%nat => if (length ip =? 4)%nat then (ip, net_Mask n) else ([], [])
       | 16%nat => if (length ip =? 4)%nat then (ip, drop 12 (net_Mask n)) else (ip, net_Mask n)
       | _ => ([], [])
       end.

(** [net.IPNet.Contains] *)
Definition Contains (n : IPNet) (ip : list Z) : bool :=
  let '(nn, m) := networkNumberAndMask n in
  let ip := match To4 ip with [] => ip | p4 => p4 end in
  (length ip =? length nn)%nat && bool_decide (zip_with Z.land nn m = zip_with Z.land ip m).

(** [dtoi]: a decimal number below 0xFFFFFF that is the whole of [s]. *)
Fixpoint dtoi_loop (s : string) (n : Z) : option Z :=
  match s with
  | EmptyString => Some n
  | String c s' =>
      match dec_val c with
      | Some d => if 0xFFFFFF <=? n * 10 + d then None else dtoi_loop s' (n * 10 + d)
      | None => None
      end
  end.

Definition dtoi (s : string) : option Z :=
  if String.eqb s EmptyString then None else dtoi_loop s 0.

(** [net.ParseCIDR]: the address, and the network it is in. *)
Definition ParseCIDR (s : string) : list Z * IPNet * option error :=
  let fail := ([], mkIPNet [] [], Some (ParseError "CIDR address" s)) in
  match Cut s "/" with
  | None => fail
  | Some (addr, mask) =>
      match ParseAddr addr with
      | (_, Some _) => fail
      | (ipAddr, None) =>
          if negb (String.eqb (Zone ipAddr) EmptyString) then fail
          else match dtoi mask with
               | None => fail
               | Some n =>
                   if BitLen ipAddr <? n then fail
                   else
                     let m := CIDRMask n (BitLen ipAddr) in
                     (As16 ipAddr, mkIPNet (IP_Mask (As16 ipAddr) m) m, None)
               end
      end
  end.
