(* ===== verification/GoNetFacts.v ===== *)
(** * Facts about Go's network values

    Conversions between integers and bytes, the IPv4 text format (parsing a
    printed address gives it back, and an IPv4 text that parses is the printed
    form of its value), and containment in an IPv4 network as an interval. *)

From S2P Require Import Prelude GoNet.
From Stdlib Require Import Ascii.
Local Open Scope Z_scope.

(** ** Bytes *)

Definition is_byte (b : Z) : Prop := 0 ≤ b < 256.
Definition u32 (n : Z) : Prop := 0 ≤ n < 2 ^ 32.

Lemma length_be_bytes n v : length (be_bytes n v) = n.
Proof. induction n; simpl; congruence. Qed.

Lemma be_bytes_bounded n v : Forall is_byte (be_bytes n v).
Proof.
  induction n; simpl; constructor; [|done].
  change 255 with (Z.ones 8). rewrite Z.land_ones by lia. apply Z.mod_pos_bound. lia.
Qed.

Lemma be_value_bound bs : Forall is_byte bs → 0 ≤ be_value bs < 2 ^ (8 * Z.of_nat (length bs)).
Proof.
  induction 1 as [|b bs Hb _ IH]; simpl; [lia|].
  rewrite Z.shiftl_mul_pow2 by lia. unfold is_byte in Hb.
  replace (8 * Z.of_nat (S (length bs))) with (8 + 8 * Z.of_nat (length bs)) by lia.
  rewrite Z.pow_add_r by lia. change (2 ^ 8) with 256. nia.
Qed.

Lemma be_value_be_bytes n v : be_value (be_bytes n v) = v mod 2 ^ (8 * Z.of_nat n).
Proof.
  induction n as [|n IH]; simpl; [by rewrite Z.mod_1_r|].
  rewrite IH, length_be_bytes, Z.shiftl_mul_pow2 by lia.
  change 255 with (Z.ones 8).
  rewrite Z.land_ones, Z.shiftr_div_pow2 by lia.
  replace (8 * Z.of_nat (S n)) with (8 * Z.of_nat n + 8) by lia.
  rewrite Z.pow_add_r by lia.
  rewrite Z.rem_mul_r by (try apply Z.pow_nonzero; lia).
  change (2 ^ 8) with 256. lia.
Qed.

Lemma be_bytes_mod n v w :
  v mod 2 ^ (8 * Z.of_nat n) = w mod 2 ^ (8 * Z.of_nat n) → be_bytes n v = be_bytes n w.
Proof.
  induction n as [|n IH]; simpl; intros Heq; [done|].
  assert (Heq' : v mod 2 ^ (8 * Z.of_nat n) = w mod 2 ^ (8 * Z.of_nat n)).
  { replace (8 * Z.of_nat (S n)) with (8 * Z.of_nat n + 8) in Heq by lia.
    rewrite Z.pow_add_r in Heq by lia.
    rewrite !Z.rem_mul_r in Heq by (try apply Z.pow_nonzero; lia).
    apply (f_equal (λ x, x mod 2 ^ (8 * Z.of_nat n))) in Heq.
    rewrite !(Z.mul_comm (2 ^ (8 * Z.of_nat n))), !Z.mod_add, !Z.mod_mod in Heq
      by (apply Z.pow_nonzero; lia).
    done. }
  f_equal; [|by apply IH].
  change 255 with (Z.ones 8). rewrite !Z.land_ones, !Z.shiftr_div_pow2 by lia.
  replace (8 * Z.of_nat (S n)) with (8 * Z.of_nat n + 8) in Heq by lia.
  rewrite Z.pow_add_r in Heq by lia.
  rewrite !Z.rem_mul_r in Heq by (try apply Z.pow_nonzero; lia).
  assert (0 < 2 ^ (8 * Z.of_nat n)) by (apply Z.pow_pos_nonneg; lia). nia.
Qed.

Lemma be_bytes_be_value bs : Forall is_byte bs → be_bytes (length bs) (be_value bs) = bs.
Proof.
  induction 1 as [|b bs Hb Hbs IH]; simpl; [done|].
  pose proof (be_value_bound bs Hbs) as Hv. unfold is_byte in Hb.
  change 255 with (Z.ones 8). rewrite Z.land_ones, Z.shiftr_div_pow2, Z.shiftl_mul_pow2 by lia.
  f_equal.
  - rewrite Z.div_add_l by lia. rewrite (Z.div_small (be_value bs)) by lia.
    rewrite Z.add_0_r. apply Z.mod_small. lia.
  - etransitivity; [|exact IH]. apply be_bytes_mod.
    rewrite Z.add_comm, Z.mod_add by lia. done.
Qed.

Lemma be_bytes_inj n v w :
  be_bytes n v = be_bytes n w →
  v mod 2 ^ (8 * Z.of_nat n) = w mod 2 ^ (8 * Z.of_nat n).
Proof. intros H%(f_equal be_value). by rewrite !be_value_be_bytes in H. Qed.

Lemma be_bytes4_inj v w : u32 v → u32 w → be_bytes 4 v = be_bytes 4 w → v = w.
Proof.
  unfold u32. intros Hv Hw H%be_bytes_inj. change (8 * Z.of_nat 4) with 32 in H.
  rewrite !Z.mod_small in H by lia. done.
Qed.

Lemma be_value_be_bytes4 v : u32 v → be_value (be_bytes 4 v) = v.
Proof. intros Hv. rewrite be_value_be_bytes. by apply Z.mod_small. Qed.

Lemma zip_land_be_bytes n v w :
  zip_with Z.land (be_bytes n v) (be_bytes n w) = be_bytes n (Z.land v w).
Proof.
  induction n as [|n IH]; simpl; [done|]. f_equal; [|done].
  apply Z.bits_inj'. intros i Hi.
  rewrite !Z.land_spec, !Z.shiftr_spec, !Z.land_spec by lia.
  destruct (Z.testbit v _), (Z.testbit w _), (Z.testbit 255 i); done.
Qed.

#[global] Arguments be_bytes : simpl never.
#[global] Arguments be_value : simpl never.

(** The low 32 bits are all that the four bytes of an IPv4 address keep. *)
Lemma be_bytes4_prefix v : be_bytes 4 (v4_prefix + v) = be_bytes 4 v.
Proof.
  apply be_bytes_mod. change (8 * Z.of_nat 4) with 32.
  replace (v4_prefix + v) with (v + 0xffff * 2 ^ 32) by (unfold v4_prefix; lia).
  by rewrite Z.mod_add.
Qed.

(** The 16-byte form of an IPv4 address. *)
Definition mapped (n : Z) : list Z := v4InV6Prefix ++ be_bytes 4 n.

Lemma be_bytes16_v4 n : u32 n → be_bytes 16 (v4_prefix + n) = mapped n.
Proof.
  intros Hn. unfold mapped.
  change (be_bytes 16 (v4_prefix + n)) with
    (((λ i, Z.land (Z.shiftr (v4_prefix + n) (8 * i)) 255) <$>
       [15; 14; 13; 12; 11; 10; 9; 8; 7; 6; 5; 4]) ++ be_bytes 4 (v4_prefix + n)).
  rewrite be_bytes4_prefix. f_equal.
  assert (H : Z.shiftr (v4_prefix + n) 32 = 0xffff).
  { rewrite Z.shiftr_div_pow2 by lia. unfold v4_prefix, u32 in *.
    symmetry. apply Z.div_unique with n; lia. }
  assert (Hk : ∀ k, 4 ≤ k → Z.shiftr (v4_prefix + n) (8 * k) = Z.shiftr 0xffff (8 * k - 32)).
  { intros k Hk. rewrite <-H, Z.shiftr_shiftr by lia. f_equal. lia. }
  simpl fmap. rewrite !Hk by lia. done.
Qed.

Lemma be_value_mapped n : u32 n → be_value (mapped n) = v4_prefix + n.
Proof.
  intros Hn. rewrite <-be_bytes16_v4 by done. rewrite be_value_be_bytes.
  apply Z.mod_small. unfold v4_prefix, u32 in *. simpl. lia.
Qed.

Lemma length_mapped n : length (mapped n) = 16%nat.
Proof. done. Qed.

Lemma To4_mapped n : To4 (mapped n) = be_bytes 4 n.
Proof. done. Qed.

Lemma mapped_inj v w : u32 v → u32 w → mapped v = mapped w → v = w.
Proof. intros Hv Hw H%(f_equal (drop 12)). by apply be_bytes4_inj. Qed.

(** ** Decimal octets *)

(** Checking a decidable property of a finite range of integers by evaluation. *)
Lemma forall_range (f : Z → bool) (m n : Z) :
  forallb f (seqZ m n) = true → ∀ x, m ≤ x < m + n → f x = true.
Proof. intros H x Hx. rewrite forallb_forall in H. apply H, list_elem_of_In, elem_of_seqZ. lia. Qed.

Lemma forall_range_dec (P : Z → Prop) `{!∀ x, Decision (P x)} (m n : Z) :
  forallb (λ x, bool_decide (P x)) (seqZ m n) = true → ∀ x, m ≤ x < m + n → P x.
Proof.
  intros Hall x Hx. apply (bool_decide_eq_true_1 _). exact (forall_range _ m n Hall x Hx).
Qed.

Lemma dec_val_digit d : 0 ≤ d < 10 → dec_val (digit_char d) = Some d.
Proof.
  exact (forall_range_dec (λ d, dec_val (digit_char d) = Some d) 0 10 eq_refl d).
Qed.

Lemma dec_val_Some c d : dec_val c = Some d → 0 ≤ d < 10 ∧ c = digit_char d.
Proof.
  unfold dec_val. intros H. destruct ((48 <=? _) && _) eqn:E; simplify_eq.
  apply andb_true_iff in E as [E1%Z.leb_le E2%Z.leb_le]. split; [lia|].
  unfold digit_char, ascii_of_Z. destruct (Z.ltb_spec (Z_of_ascii c - 48) 10); [|lia].
  replace (48 + (Z_of_ascii c - 48)) with (Z_of_ascii c) by lia.
  unfold Z_of_ascii. by rewrite N2Z.id, ascii_N_embedding.
Qed.

Lemma dec_val_dot : dec_val "." = None.
Proof. reflexivity. Qed.

Lemma dec_val_not_dot c : dec_val c ≠ None → c ≠ "."%char.
Proof. by intros H ->. Qed.

Lemma dec_octet_small d : 0 ≤ d < 10 → dec_octet d = char1 (digit_char d).
Proof.
  intros Hd. unfold dec_octet.
  destruct (Z.leb_spec 100 d), (Z.leb_spec 10 d); try lia. simpl. by rewrite Z.mod_small.
Qed.

(** Appending a digit to a printed octet. *)
Lemma dec_octet_snoc v d :
  1 ≤ v → 0 ≤ d < 10 → v * 10 + d ≤ 255 →
  dec_octet (v * 10 + d) = dec_octet v +:+ char1 (digit_char d).
Proof.
  intros Hv Hd Hle.
  pose proof (forall_range (λ w, forallb (λ e, bool_decide (dec_octet (w * 10 + e) =
    dec_octet w +:+ char1 (digit_char e))) (seqZ 0 10)) 1 25 eq_refl v ltac:(lia)) as H.
  exact (bool_decide_eq_true_1 _ (forall_range _ 0 10 H d Hd)).
Qed.

(** ** Parsing a dotted quad *)

Lemma parse_digit d s prev fields v k :
  0 ≤ d < 10 → (k = 1%nat → v ≠ 0) → v * 10 + d ≤ 255 →
  parseIPv4Fields (String (digit_char d) s) prev fields v k =
  parseIPv4Fields s (Some (digit_char d)) fields (v * 10 + d) (S k).
Proof.
  intros Hd Hk Hle. simpl. rewrite dec_val_digit by done.
  destruct (Nat.eqb_spec k 1), (Z.eqb_spec v 0); [by destruct Hk|..];
    simpl; (destruct (Z.ltb_spec 255 (v * 10 + d)); [lia|done]).
Qed.

Lemma parse_octet b s prev fields :
  is_byte b →
  ∃ c k, dec_val c ≠ None ∧
    parseIPv4Fields (dec_octet b +:+ s) prev fields 0 0 =
    parseIPv4Fields s (Some c) fields b k.
Proof.
  unfold is_byte. intros Hb. unfold dec_octet.
  assert (H1 : 0 ≤ b mod 10 < 10) by (apply Z.mod_pos_bound; lia).
  assert (H2 : 0 ≤ b / 10 mod 10 < 10) by (apply Z.mod_pos_bound; lia).
  pose proof (Z.div_mod b 10 ltac:(lia)) as Hb10.
  pose proof (Z.div_mod (b / 10) 10 ltac:(lia)) as Hb100.
  rewrite Z.div_div in Hb100 by lia. change (10 * 10) with 100 in Hb100.
  assert (H3 : 0 ≤ b / 100) by (apply Z.div_pos; lia).
  destruct (Z.leb_spec 100 b), (Z.leb_spec 10 b); try lia;
    eexists (digit_char (b mod 10)), _; (split; [by rewrite dec_val_digit|]);
    unfold char1; autorewrite with go_string.
  - assert (1 ≤ b / 100) by (apply Z.div_le_lower_bound; lia).
    do 3 (rewrite parse_digit by lia). do 2 f_equal. lia.
  - assert (b / 100 = 0) by (apply Z.div_small; lia).
    assert (1 ≤ b / 10) by (apply Z.div_le_lower_bound; lia).
    do 2 (rewrite parse_digit by lia). do 2 f_equal. lia.
  - assert (b / 10 = 0) by (apply Z.div_small; lia).
    rewrite parse_digit by lia. do 2 f_equal. lia.
Qed.

Lemma parse_dot c s fields v k :
  dec_val c ≠ None → s ≠ EmptyString → length fields ≠ 3%nat →
  parseIPv4Fields (String "." s) (Some c) fields v k =
  parseIPv4Fields s (Some "."%char) (fields ++ [v]) 0 0.
Proof.
  intros Hc Hs Hf. cbn -[String.eqb bool_decide Nat.eqb].
  rewrite (bool_decide_eq_false_2 (Some c = None)) by done.
  rewrite (bool_decide_eq_false_2 (Some c = Some _))
    by (intros [= ->]; by apply Hc).
  destruct (String.eqb_spec s EmptyString); [done|].
  by destruct (Nat.eqb_spec (length fields) 3).
Qed.

Lemma dec_octet_nonempty b s : dec_octet b +:+ s ≠ EmptyString.
Proof.
  unfold dec_octet, char1. destruct (100 <=? b), (10 <=? b); autorewrite with go_string; done.
Qed.

(** Printing four octets and parsing them. *)
Lemma parse_dotted bs :
  Forall is_byte bs → length bs = 4%nat → parseIPv4Fields (dotted bs) None [] 0 0 = Some bs.
Proof.
  intros Hbs Hlen. destruct bs as [|b1 [|b2 [|b3 [|b4 [|]]]]]; try done.
  rewrite !Forall_cons in Hbs. destruct Hbs as (H1 & H2 & H3 & H4 & _).
  unfold dotted. cbn [app].
  destruct (parse_octet b1 ("." +:+ dec_octet b2 +:+ "." +:+ dec_octet b3 +:+ "." +:+ dec_octet b4)
    None [] H1) as (c1 & k1 & Hc1 & ->).
  rewrite !(string_app_cons "."), !string_app_nil_l.
  rewrite parse_dot by first [done | apply dec_octet_nonempty].
  destruct (parse_octet b2 (String "." (dec_octet b3 +:+ String "." (dec_octet b4)))
    (Some "."%char) ([] ++ [b1]) H2) as (c2 & k2 & Hc2 & ->).
  rewrite parse_dot by first [done | apply dec_octet_nonempty].
  destruct (parse_octet b3 (String "." (dec_octet b4))
    (Some "."%char) (([] ++ [b1]) ++ [b2]) H3) as (c3 & k3 & Hc3 & ->).
  rewrite parse_dot; [|done| |done].
  2: { rewrite <-(string_app_nil_r (dec_octet b4)). apply dec_octet_nonempty. }
  destruct (parse_octet b4 EmptyString (Some "."%char) ((([] ++ [b1]) ++ [b2]) ++ [b3]) H4)
    as (c4 & k4 & Hc4 & Heq).
  rewrite string_app_nil_r in Heq. by rewrite Heq.
Qed.

(** The text of the octets before the current one. *)
Definition prefix_str (fields : list Z) : string :=
  foldr (λ b s, dec_octet b +:+ "." +:+ s) EmptyString fields.

Lemma prefix_str_snoc fields b :
  prefix_str (fields ++ [b]) = prefix_str fields +:+ dec_octet b +:+ ".".
Proof.
  induction fields as [|x fields IH]; simpl; autorewrite with go_string; [done|].
  rewrite IH. by autorewrite with go_string.
Qed.

Lemma dotted_snoc fields b : dotted (fields ++ [b]) = prefix_str fields +:+ dec_octet b.
Proof.
  induction fields as [|x fields IH]; [done|]. simpl app.
  assert (Hcons : dotted (x :: fields ++ [b]) = dec_octet x +:+ "." +:+ dotted (fields ++ [b])).
  { destruct fields; done. }
  rewrite Hcons, IH. simpl. by autorewrite with go_string.
Qed.

(** Whatever the IPv4 parser accepts is the printed form of what it returns. *)
Lemma parse_canonical s prev fields v k out :
  (k = 0%nat → v = 0 ∧ (prev = None ∨ prev = Some "."%char) ∧ (fields = [] ∨ s ≠ EmptyString)) →
  (k ≠ 0%nat → 0 ≤ v ≤ 255 ∧ (k ≠ 1%nat → 1 ≤ v)) →
  Forall is_byte fields → (length fields ≤ 3)%nat →
  parseIPv4Fields s prev fields v k = Some out →
  Forall is_byte out ∧ length out = 4%nat ∧
  dotted out = prefix_str fields +:+ (if (k =? 0)%nat then EmptyString else dec_octet v) +:+ s.
Proof.
  revert prev fields v k. induction s as [|c s IH]; intros prev fields v k H0 Hk Hf Hlen.
  { simpl. destruct (Nat.ltb_spec (length fields) 3); [done|]. intros [= <-].
    destruct (Nat.eqb_spec k 0) as [->|Hk0].
    { destruct (H0 eq_refl) as (_ & _ & [->|?]); [simpl in *; lia|done]. }
    destruct (Hk Hk0) as [Hv _].
    rewrite length_app, dotted_snoc. autorewrite with go_string. split; [|simpl; split; [lia|done]].
    apply Forall_app. split; [done|]. constructor; [unfold is_byte; lia|done]. }
  cbn -[bool_decide Nat.eqb String.eqb ascii_dec]. destruct (dec_val c) as [d|] eqn:Hc.
  - apply dec_val_Some in Hc as [Hd ->].
    destruct ((k =? 1)%nat && (v =? 0)) eqn:Hz; [done|].
    destruct (Z.ltb_spec 255 (v * 10 + d)); [done|]. intros Hout.
    assert (Hv1 : k ≠ 0%nat → 1 ≤ v).
    { intros Hk0. destruct (Hk Hk0) as [? Hv]. destruct (decide (k = 1%nat)) as [->|]; [|by apply Hv].
      simpl in Hz. destruct (Z.eqb_spec v 0); [done|lia]. }
    destruct (IH (Some (digit_char d)) fields (v * 10 + d) (S k)) as (HF & HL & Heq);
      [done|intros _|done..|].
    { destruct (decide (k = 0%nat)) as [->|Hk0]; [destruct (H0 eq_refl) as [-> _]|destruct (Hk Hk0)]; lia. }
    split; [done|]. split; [done|]. rewrite Heq. simpl. f_equal.
    destruct (Nat.eqb_spec k 0) as [->|Hk0].
    + destruct (H0 eq_refl) as [-> _]. rewrite dec_octet_small by lia. by rewrite string_app_nil_l.
    + rewrite dec_octet_snoc by (try apply Hv1; done || lia). unfold char1. by autorewrite with go_string.
  - destruct (ascii_dec c ".") as [->|]; [|done].
    case_bool_decide; [done|]. destruct (String.eqb_spec s EmptyString); [done|].
    case_bool_decide; [done|]. simpl orb. destruct (Nat.eqb_spec (length fields) 3); [done|].
    intros Hout. destruct (Nat.eqb_spec k 0) as [->|Hk0].
    { destruct (H0 eq_refl) as (_ & [?|?] & _); done. }
    destruct (Hk Hk0) as [Hv _].
    destruct (IH (Some "."%char) (fields ++ [v]) 0 0%nat) as (HF & HL & Heq);
      [by eauto|done|apply Forall_app; split; [done|]; repeat constructor; unfold is_byte; lia
      |rewrite length_app; simpl; lia|done|].
    split; [done|]. split; [done|]. rewrite Heq. rewrite prefix_str_snoc. simpl. by autorewrite with go_string.
Qed.

(** ** IPv4 addresses as text *)

(** The dotted-decimal form of a 32-bit value. *)
Definition v4str (n : Z) : string := dotted (be_bytes 4 n).

Lemma parseIPv4_v4str n : u32 n → parseIPv4 (v4str n) = Some (AddrFrom4 n).
Proof.
  intros Hn. unfold parseIPv4, v4str.
  rewrite parse_dotted by (apply be_bytes_bounded || apply length_be_bytes).
  simpl. by rewrite be_value_be_bytes4.
Qed.

Lemma scan_digit full d s :
  0 ≤ d < 10 → ParseAddr_scan full (String (digit_char d) s) = ParseAddr_scan full s.
Proof.
  intros Hd. assert (d = 0 ∨ d = 1 ∨ d = 2 ∨ d = 3 ∨ d = 4 ∨ d = 5 ∨ d = 6 ∨ d = 7 ∨ d = 8 ∨ d = 9)
    as Hcases by lia.
  repeat destruct Hcases as [->|Hcases]; subst; reflexivity.
Qed.

Lemma scan_octet full b s :
  is_byte b → ParseAddr_scan full (dec_octet b +:+ s) = ParseAddr_scan full s.
Proof.
  unfold is_byte. intros Hb. unfold dec_octet, char1.
  assert (0 ≤ b mod 10 < 10) by (apply Z.mod_pos_bound; lia).
  assert (0 ≤ b / 10 mod 10 < 10) by (apply Z.mod_pos_bound; lia).
  assert (0 ≤ b / 100 < 10) by (split; [apply Z.div_pos|apply Z.div_lt_upper_bound]; lia).
  destruct (100 <=? b), (10 <=? b); autorewrite with go_string; by repeat rewrite scan_digit.
Qed.

Lemma v4str_head n : ∃ b s, is_byte b ∧ v4str n = dec_octet b +:+ String "." s.
Proof.
  pose proof (be_bytes_bounded 4 n) as Hb. unfold v4str. unfold be_bytes in *.
  apply Forall_cons in Hb as [Hb _]. by eexists _, _.
Qed.

Lemma ParseAddr_v4str n : u32 n → ParseAddr (v4str n) = (AddrFrom4 n, None).
Proof.
  intros Hn. unfold ParseAddr.
  assert (Hs : ParseAddr_scan (v4str n) (v4str n) = parseIPv4 (v4str n)).
  { generalize (v4str n) at 1 3 as full. intros full.
    destruct (v4str_head n) as (b & s & Hb & ->). by rewrite scan_octet. }
  by rewrite Hs, parseIPv4_v4str.
Qed.

Lemma scan_cases full s a :
  ParseAddr_scan full s = Some a → parseIPv4 full = Some a ∨ parseIPv6 full = Some a.
Proof.
  induction s as [|c s IH]; [done|]. intros H. cbn -[parseIPv4 parseIPv6] in H.
  repeat case_match; simplify_eq; auto.
Qed.

Lemma parseIPv6_Is6 s a : parseIPv6 s = Some a → Is6 a = true.
Proof. unfold parseIPv6. intros H. repeat case_match; by simplify_eq. Qed.

(** An IPv4 text that parses is canonical: it is the printed form of its value. *)
Lemma ParseAddr_Is4 s a :
  ParseAddr s = (a, None) → Is4 a = true → ∃ n, u32 n ∧ a = AddrFrom4 n ∧ s = v4str n.
Proof.
  unfold ParseAddr. destruct (ParseAddr_scan s s) as [a'|] eqn:Hs; [|done]. intros [= ->] H4.
  apply scan_cases in Hs as [Hs|Hs]; [|apply parseIPv6_Is6 in Hs; by destruct a as [? []]].
  unfold parseIPv4 in Hs. apply fmap_Some in Hs as (fields & Hf & ->).
  apply parse_canonical in Hf as (HF & HL & Heq);
    [|intros _; by eauto|done|constructor|simpl; lia].
  exists (be_value fields). split_and!; [|done|].
  - pose proof (be_value_bound fields HF). rewrite HL in H. done.
  - unfold v4str. rewrite <-HL, be_bytes_be_value by done. by rewrite Heq.
Qed.

Lemma v4str_inj v w : u32 v → u32 w → v4str v = v4str w → v = w.
Proof.
  intros Hv Hw H%(f_equal ParseAddr). rewrite !ParseAddr_v4str in H by done.
  injection H. unfold v4_prefix. lia.
Qed.

Lemma ParseIP_v4str n : u32 n → ParseIP (v4str n) = mapped n.
Proof. intros Hn. unfold ParseIP. rewrite ParseAddr_v4str by done. simpl. by apply be_bytes16_v4. Qed.

Lemma IP_String_mapped n : u32 n → IP_String (mapped n) = v4str n.
Proof.
  intros Hn. unfold IP_String. rewrite length_mapped. cbn [Nat.eqb negb andb].
  rewrite To4_mapped. pose proof (length_be_bytes 4 n) as Hlen.
  destruct (be_bytes 4 n) as [|b bs] eqn:Hb; [done|]. rewrite <-Hb.
  rewrite be_value_be_bytes4 by done. unfold Addr_String, AddrFrom4. cbn [addr_z addr_bits].
  by rewrite be_bytes4_prefix.
Qed.

Lemma ParseIP_shape s : ParseIP s = [] ∨ (length (ParseIP s) = 16%nat ∧ Forall is_byte (ParseIP s)).
Proof.
  unfold ParseIP. destruct (ParseAddr s) as [a [e|]]; [by left|].
  case_match; [right|by left]. split; [apply length_be_bytes|apply be_bytes_bounded].
Qed.

(** A parsed address with an IPv4 form is the 16-byte form of some IPv4 value. *)
Lemma ParseIP_To4 s : To4 (ParseIP s) ≠ [] → ∃ n, u32 n ∧ ParseIP s = mapped n.
Proof.
  destruct (ParseIP_shape s) as [->|[Hlen Hb]]; [done|]. unfold To4. rewrite Hlen. simpl.
  case_bool_decide as Hp; [|done]. intros _.
  assert (Hd : length (drop 12 (ParseIP s)) = 4%nat) by (rewrite length_drop; lia).
  assert (HF : Forall is_byte (drop 12 (ParseIP s))) by by apply Forall_drop.
  exists (be_value (drop 12 (ParseIP s))). split.
  - pose proof (be_value_bound _ HF) as H. by rewrite Hd in H.
  - unfold mapped. rewrite <-Hp.
    pose proof (be_bytes_be_value _ HF) as Heq. rewrite Hd in Heq. rewrite Heq.
    by rewrite take_drop.
Qed.

(** ** IPv4 networks *)

(** First and last address of the network of [a] with prefix length [p], the mask
    as an integer, and the network itself as [ParseCIDR] builds it. *)
Definition net_first (a p : Z) : Z := a - a mod 2 ^ (32 - p).
Definition net_last (a p : Z) : Z := net_first a p + 2 ^ (32 - p) - 1.
Definition mask32 (p : Z) : Z := 2 ^ 32 - 2 ^ (32 - p).
Definition v4net (a p : Z) : IPNet :=
  mkIPNet (be_bytes 4 (net_first a p)) (be_bytes 4 (mask32 p)).

Lemma mask_bytes_v4 p : 0 ≤ p ≤ 32 → mask_bytes 4 p = be_bytes 4 (mask32 p).
Proof.
  intros Hp. apply (forall_range_dec (λ p, mask_bytes 4 p = be_bytes 4 (mask32 p)) 0 33); [|lia].
  vm_compute. reflexivity.
Qed.

Lemma CIDRMask_v4 p : 0 ≤ p ≤ 32 → CIDRMask p 32 = be_bytes 4 (mask32 p).
Proof.
  intros Hp. unfold CIDRMask. simpl.
  destruct (Z.ltb_spec p 0), (Z.ltb_spec 32 p); try lia. simpl. by apply mask_bytes_v4.
Qed.

Lemma mask32_shift p : 0 ≤ p ≤ 32 → mask32 p = Z.shiftl (Z.ones p) (32 - p).
Proof.
  intros Hp. unfold mask32. rewrite Z.shiftl_mul_pow2, Z.ones_equiv by lia.
  replace (2 ^ 32) with (2 ^ p * 2 ^ (32 - p)) by (rewrite <-Z.pow_add_r by lia; f_equal; lia).
  lia.
Qed.

Lemma u32_testbit a i : u32 a → 32 ≤ i → Z.testbit a i = false.
Proof.
  unfold u32. intros Ha Hi. rewrite Z.testbit_false by lia.
  rewrite Z.div_small; [done|]. split; [lia|].
  eapply Z.lt_le_trans; [apply Ha|]. by apply Z.pow_le_mono_r.
Qed.

(** Masking keeps the high bits: it rounds down to the start of the block. *)
Lemma land_mask32 a p : u32 a → 0 ≤ p ≤ 32 → Z.land a (mask32 p) = net_first a p.
Proof.
  intros Ha Hp. rewrite mask32_shift by done. unfold net_first.
  transitivity (Z.shiftl (Z.shiftr a (32 - p)) (32 - p)).
  - apply Z.bits_inj'. intros i Hi. rewrite Z.land_spec.
    destruct (decide (i < 32 - p)) as [Hlt|Hge].
    { rewrite !Z.shiftl_spec_low by lia. apply andb_false_r. }
    rewrite !Z.shiftl_spec, Z.shiftr_spec by lia.
    replace (i - (32 - p) + (32 - p)) with i by lia.
    destruct (decide (32 ≤ i)) as [Hi32|Hi32]; [by rewrite (u32_testbit a i)|].
    rewrite Z.ones_spec_low by lia. apply andb_true_r.
  - rewrite Z.shiftl_mul_pow2, Z.shiftr_div_pow2 by lia.
    pose proof (Z.div_mod a (2 ^ (32 - p)) ltac:(apply Z.pow_nonzero; lia)). lia.
Qed.

Lemma pow_block p : 0 ≤ p ≤ 32 → 0 < 2 ^ (32 - p) ≤ 2 ^ 32.
Proof. intros Hp. split; [apply Z.pow_pos_nonneg|apply Z.pow_le_mono_r]; lia. Qed.

Lemma net_first_le a p : 0 ≤ p ≤ 32 → net_first a p ≤ a ≤ net_last a p.
Proof.
  intros Hp. unfold net_last, net_first. pose proof (pow_block p Hp).
  pose proof (Z.mod_pos_bound a (2 ^ (32 - p)) ltac:(lia)). lia.
Qed.

Lemma net_first_u32 a p : u32 a → 0 ≤ p ≤ 32 → u32 (net_first a p).
Proof.
  intros Ha Hp. unfold u32, net_first in *. pose proof (pow_block p Hp).
  pose proof (Z.mod_pos_bound a (2 ^ (32 - p)) ltac:(lia)).
  pose proof (Z.mod_le a (2 ^ (32 - p)) ltac:(lia) ltac:(lia)). lia.
Qed.

Lemma net_last_u32 a p : u32 a → 0 ≤ p ≤ 32 → u32 (net_last a p).
Proof.
  intros Ha Hp. pose proof (net_first_u32 a p Ha Hp). unfold u32, net_last, net_first in *.
  pose proof (pow_block p Hp).
  pose proof (Z.div_mod a (2 ^ (32 - p)) ltac:(lia)) as Hdiv.
  assert (H2 : 2 ^ 32 = 2 ^ p * 2 ^ (32 - p)) by (rewrite <-Z.pow_add_r by lia; f_equal; lia).
  assert (a / 2 ^ (32 - p) < 2 ^ p) by (apply Z.div_lt_upper_bound; lia).
  nia.
Qed.

Lemma net_first_eq a x p :
  0 ≤ p ≤ 32 → net_first a p = net_first x p ↔ net_first a p ≤ x ≤ net_last a p.
Proof.
  intros Hp. unfold net_last, net_first. pose proof (pow_block p Hp) as Hb.
  pose proof (Z.div_mod a (2 ^ (32 - p)) ltac:(lia)) as Ha.
  pose proof (Z.div_mod x (2 ^ (32 - p)) ltac:(lia)) as Hx.
  pose proof (Z.mod_pos_bound a (2 ^ (32 - p)) ltac:(lia)).
  pose proof (Z.mod_pos_bound x (2 ^ (32 - p)) ltac:(lia)).
  split; [lia|]. intros. assert (a / 2 ^ (32 - p) = x / 2 ^ (32 - p)) by nia. lia.
Qed.

Lemma net_first_idem a p : 0 ≤ p ≤ 32 → net_first (net_first a p) p = net_first a p.
Proof.
  intros Hp. symmetry. apply net_first_eq; [done|]. pose proof (net_first_le a p Hp). lia.
Qed.

(** Containment in an IPv4 network is membership in an interval. *)
Lemma Contains_v4net a p x :
  u32 a → 0 ≤ p ≤ 32 → u32 x →
  Contains (v4net a p) (mapped x) = bool_decide (net_first a p ≤ x ≤ net_last a p).
Proof.
  intros Ha Hp Hx.
  assert (Hc : Contains (v4net a p) (mapped x) =
    bool_decide (zip_with Z.land (be_bytes 4 (net_first a p)) (be_bytes 4 (mask32 p)) =
                 zip_with Z.land (be_bytes 4 x) (be_bytes 4 (mask32 p)))) by done.
  rewrite Hc, !zip_land_be_bytes, !land_mask32 by auto using net_first_u32.
  apply bool_decide_ext. rewrite <-net_first_eq by done. rewrite net_first_idem by done.
  split; [|congruence]. intros H%be_bytes4_inj; auto using net_first_u32.
Qed.

(** What an IPv4 network contains, among the texts [ParseIP] is given. *)
Lemma Contains_ParseIP a p s :
  u32 a → 0 ≤ p ≤ 32 → Contains (v4net a p) (ParseIP s) = true →
  ∃ n, u32 n ∧ ParseIP s = mapped n ∧ net_first a p ≤ n ≤ net_last a p.
Proof.
  intros Ha Hp Hc.
  destruct (decide (To4 (ParseIP s) = [])) as [H4|H4].
  - exfalso. destruct (ParseIP_shape s) as [Hnil|[Hlen _]].
    + by rewrite Hnil in Hc.
    + unfold Contains in Hc. change (networkNumberAndMask (v4net a p)) with
        (be_bytes 4 (net_first a p), be_bytes 4 (mask32 p)) in Hc.
      cbn iota beta in Hc. rewrite H4, Hlen, length_be_bytes in Hc. done.
  - apply ParseIP_To4 in H4 as (n & Hn & Heq). exists n. rewrite Heq in Hc |- *.
    rewrite Contains_v4net in Hc by done. by apply bool_decide_eq_true_1 in Hc.
Qed.

(** [ParseCIDR] on an IPv4 block. *)
Lemma dtoi_nonneg s n : dtoi s = Some n → 0 ≤ n.
Proof.
  unfold dtoi. destruct (String.eqb s EmptyString); [done|].
  assert (H : ∀ s acc, 0 ≤ acc → dtoi_loop s acc = Some n → 0 ≤ n).
  { clear s. induction s as [|c s IH]; intros acc Hacc H; simpl in H; [by simplify_eq|].
    destruct (dec_val c) as [d|] eqn:Hd; [|done]. apply dec_val_Some in Hd as [Hd _].
    destruct (0xFFFFFF <=? acc * 10 + d); [done|]. eapply IH; [|done]. lia. }
  by apply H.
Qed.

Lemma ParseAddr_zone_fam s a : ParseAddr s = (a, None) → Is4 a = true ∨ Is6 a = true.
Proof.
  unfold ParseAddr. destruct (ParseAddr_scan s s) as [a'|] eqn:Hs; [|done]. intros [= ->].
  apply scan_cases in Hs as [Hs|Hs]; [left|right; by eapply parseIPv6_Is6].
  unfold parseIPv4 in Hs. by apply fmap_Some in Hs as (f & _ & ->).
Qed.

Lemma length_mask_bytes l n : length (mask_bytes l n) = l.
Proof. revert n. induction l as [|l IH]; intros n; simpl; [done|]. destruct (8 <=? n); simpl; auto. Qed.

Lemma length_CIDRMask_v6 k : 0 ≤ k ≤ 128 → length (CIDRMask k 128) = 16%nat.
Proof.
  intros Hk. unfold CIDRMask.
  rewrite (proj2 (Z.ltb_ge k 0)), (proj2 (Z.ltb_ge 128 k)) by lia. apply length_mask_bytes.
Qed.

Lemma ParseCIDR_v4 s ip n :
  ParseCIDR s = (ip, n, None) → length (net_Mask n) = 4%nat →
  ∃ a p, u32 a ∧ 0 ≤ p ≤ 32 ∧ ip = mapped a ∧ n = v4net a p.
Proof.
  unfold ParseCIDR. destruct (Cut s "/") as [[addr mask]|]; [|done].
  destruct (ParseAddr addr) as [ipAddr [e|]] eqn:HA; [done|].
  destruct (negb _); [done|]. destruct (dtoi mask) as [k|] eqn:Hk; [|done].
  apply dtoi_nonneg in Hk. destruct (Z.ltb_spec (BitLen ipAddr) k); [done|].
  intros [= <- <-] Hlen. cbn [net_Mask] in Hlen.
  destruct (ParseAddr_zone_fam _ _ HA) as [H4|H6].
  - destruct (ParseAddr_Is4 _ _ HA H4) as (a & Ha & -> & _). exists a, k.
    simpl BitLen in *. unfold As16, AddrFrom4. cbn [addr_bits].
    rewrite be_bytes16_v4, CIDRMask_v4 by done.
    split; [done|]. split; [done|]. split; [done|].
    unfold v4net. f_equal. rewrite <-(land_mask32 a k), <-zip_land_be_bytes by done. done.
  - exfalso. destruct ipAddr as [bits [| |z]]; try done. cbn [BitLen addr_z] in *.
    by rewrite length_CIDRMask_v6 in Hlen.
Qed.

(** ** Address arithmetic *)

(** The 16-byte [Addr] of an IPv4 value, as [netip.AddrFromSlice] makes it from
    what [net.ParseIP] returns. *)
Definition addr46 (n : Z) : Addr := AddrFrom16 (v4_prefix + n).

Lemma AddrFromSlice_mapped n : u32 n → AddrFromSlice (mapped n) = (addr46 n, true).
Proof. intros Hn. unfold AddrFromSlice. rewrite length_mapped, be_value_mapped by done. done. Qed.

Lemma string_compare_refl s : String.compare s s = Eq.
Proof. induction s as [|c s IH]; simpl; [done|]. unfold Ascii.compare. by rewrite N.compare_refl. Qed.

Lemma Compare_family a b z : z ≠ z0 → Compare (mkAddr a z) (mkAddr b z) = cmp_int (a ?= b).
Proof.
  intros Hz. unfold Compare, BitLen. cbn [addr_z addr_bits]. rewrite Z.ltb_irrefl.
  destruct (a ?= b); [|done..]. destruct z; [done..|]. cbn. by rewrite string_compare_refl.
Qed.

Lemma cmp_int_gt a b : 0 < cmp_int (a ?= b) ↔ b < a.
Proof. destruct (Z.compare_spec a b); simpl; lia. Qed.

Lemma cmp_int_ge a b : 0 ≤ cmp_int (a ?= b) ↔ b ≤ a.
Proof. destruct (Z.compare_spec a b); simpl; lia. Qed.

Lemma cmp_int_le a b : cmp_int (a ?= b) ≤ 0 ↔ a ≤ b.
Proof. destruct (Z.compare_spec a b); simpl; lia. Qed.

Lemma Prev_addr46 n :
  0 ≤ n ≤ 2 ^ 32 → Prev (addr46 n) = mkAddr (v4_prefix + n - 1) (z6 EmptyString).
Proof.
  intros Hn. unfold Prev, addr46, AddrFrom16, v4_prefix, pow128. cbn.
  destruct (Z.eqb_spec (281470681743360 + n) 0); [lia|]. rewrite Z.mod_small by lia. done.
Qed.

Lemma Next_addr46 n : u32 n → Next (addr46 n) = addr46 (n + 1).
Proof.
  unfold u32. intros Hn. unfold Next, addr46, AddrFrom16, v4_prefix, pow128. cbn.
  rewrite Z.mod_small by lia.
  destruct (Z.eqb_spec (281470681743360 + n + 1) 0); [lia|]. f_equal. lia.
Qed.

Lemma v4_prefix_shiftr n : u32 n → Z.shiftr (v4_prefix + n) 32 = 0xffff.
Proof.
  unfold u32. intros Hn. rewrite Z.shiftr_div_pow2 by lia. unfold v4_prefix.
  symmetry. apply Z.div_unique with n; lia.
Qed.

Lemma Unmap_addr46 n : u32 n → Unmap (addr46 n) = AddrFrom4 n.
Proof.
  intros Hn. unfold Unmap, Is4In6, addr46, AddrFrom16. cbn [addr_bits Is6 addr_z].
  by rewrite v4_prefix_shiftr.
Qed.

Lemma String_AddrFrom4 n : Addr_String (AddrFrom4 n) = v4str n.
Proof. unfold Addr_String, AddrFrom4. cbn [addr_z addr_bits]. by rewrite be_bytes4_prefix. Qed.

Lemma land_prefix n : u32 n → Z.land (v4_prefix + n) 0xffffffff = n.
Proof.
  intros Hn. change 0xffffffff with (Z.ones 32). rewrite Z.land_ones by lia.
  replace (v4_prefix + n) with (n + 0xffff * 2 ^ 32) by (unfold v4_prefix; lia).
  rewrite Z.mod_add by lia. by apply Z.mod_small.
Qed.

Lemma Next_AddrFrom4 n : 0 ≤ n < 2 ^ 32 - 1 → Next (AddrFrom4 n) = AddrFrom4 (n + 1).
Proof.
  intros Hn. unfold Next, AddrFrom4, pow128. cbn [Is4 addr_z addr_bits].
  rewrite Z.mod_small by (unfold v4_prefix; lia).
  replace (v4_prefix + n + 1) with (v4_prefix + (n + 1)) by lia.
  rewrite land_prefix by (unfold u32; lia). destruct (Z.eqb_spec (n + 1) 0); [lia|done].
Qed.

Lemma Next_AddrFrom4_last : Next (AddrFrom4 (2 ^ 32 - 1)) = Addr_zero.
Proof. reflexivity. Qed.

Lemma Prev_AddrFrom4 n : 0 < n < 2 ^ 32 → Prev (AddrFrom4 n) = AddrFrom4 (n - 1).
Proof.
  intros Hn. unfold Prev, AddrFrom4, pow128. cbn [Is4 addr_z addr_bits].
  rewrite land_prefix by (unfold u32; lia). destruct (Z.eqb_spec n 0); [lia|].
  rewrite Z.mod_small by (unfold v4_prefix; lia). f_equal. lia.
Qed.

Lemma AsSlice_AddrFrom4 n : AsSlice (AddrFrom4 n) = be_bytes 4 n.
Proof. unfold AsSlice, AddrFrom4. cbn [addr_z addr_bits]. apply be_bytes4_prefix. Qed.

Lemma As4_AddrFrom4 n : As4 (AddrFrom4 n) = Val (be_bytes 4 n).
Proof. unfold As4, AddrFrom4. cbn [addr_z addr_bits]. by rewrite be_bytes4_prefix. Qed.

Lemma AddrFromSlice_be_bytes4 n : u32 n → AddrFromSlice (be_bytes 4 n) = (AddrFrom4 n, true).
Proof.
  intros Hn. unfold AddrFromSlice. rewrite length_be_bytes. by rewrite be_value_be_bytes4.
Qed.

Lemma AddrFrom4_inj a b : AddrFrom4 a = AddrFrom4 b → a = b.
Proof. unfold AddrFrom4. intros [= H]. lia. Qed.

(** The bitwise or with the complemented mask is the last address of the block. *)
Lemma lor_hostmask a p : u32 a → 0 ≤ p ≤ 32 → Z.lor a (Z.lxor (mask32 p) (Z.ones 32)) = net_last a p.
Proof.
  intros Ha Hp.
  assert (Hx : Z.lxor (mask32 p) (Z.ones 32) = Z.ones (32 - p)).
  { rewrite mask32_shift by done. apply Z.bits_inj'. intros i Hi. rewrite Z.lxor_spec.
    destruct (decide (i < 32 - p)).
    { rewrite Z.shiftl_spec_low, !Z.ones_spec_low by lia. done. }
    rewrite Z.shiftl_spec by lia. rewrite (Z.ones_spec_high (32 - p)) by lia.
    destruct (decide (i < 32)).
    - by rewrite !Z.ones_spec_low by lia.
    - by rewrite !Z.ones_spec_high by lia. }
  rewrite Hx. unfold net_last. rewrite <-land_mask32 by done.
  assert (Hd : Z.land (Z.land a (mask32 p)) (Z.ones (32 - p)) = 0).
  { rewrite mask32_shift by done. apply Z.bits_inj'. intros i Hi.
    rewrite !Z.land_spec, Z.bits_0. destruct (decide (i < 32 - p)).
    - by rewrite Z.shiftl_spec_low, andb_false_r by lia.
    - by rewrite (Z.ones_spec_high (32 - p)), andb_false_r by lia. }
  replace (Z.land a (mask32 p) + 2 ^ (32 - p) - 1) with (Z.land a (mask32 p) + Z.ones (32 - p))
    by (rewrite Z.ones_equiv; lia).
  rewrite Z.add_nocarry_lxor, Z.lxor_lor by done.
  rewrite mask32_shift by done. apply Z.bits_inj'. intros i Hi.
  rewrite !Z.lor_spec, Z.land_spec. destruct (decide (i < 32 - p)).
  - by rewrite Z.ones_spec_low, !orb_true_r by lia.
  - rewrite (Z.ones_spec_high (32 - p)), !orb_false_r, Z.shiftl_spec by lia.
    destruct (decide (i < 32)).
    + by rewrite Z.ones_spec_low, andb_true_r by lia.
    + by rewrite (u32_testbit a i) by (done || lia).
Qed.

(** [octet | ^mask[i]] on four octets is that operation on the 32-bit values. *)
Lemma zip_lor_not_be_bytes v w n :
  (n ≤ 4)%nat →
  zip_with (λ octet m, Z.lor octet (Z.lxor m 255)) (be_bytes n v) (be_bytes n w) =
  be_bytes n (Z.lor v (Z.lxor w (Z.ones 32))).
Proof.
  intros Hn. induction n as [|n IH]; [done|]. unfold be_bytes; fold be_bytes.
  cbn [zip_with]. f_equal; [|apply IH; lia].
  apply Z.bits_inj'. intros i Hi. change 255 with (Z.ones 8).
  rewrite Z.lor_spec, Z.lxor_spec, !Z.land_spec, !Z.shiftr_spec, Z.lor_spec, Z.lxor_spec by lia.
  destruct (decide (i < 8)).
  - rewrite !Z.ones_spec_low by lia. by rewrite !andb_true_r.
  - rewrite (Z.ones_spec_high 8) by lia. by rewrite !andb_false_r.
Qed.

(** The 4-byte and the 16-byte form of an address are in the same networks. *)
Lemma Contains_4_16 n x : Contains n (be_bytes 4 x) = Contains n (mapped x).
Proof. done. Qed.

Create Rewrite HintDb go_net.
#[export] Hint Rewrite AsSlice_AddrFrom4 As4_AddrFrom4 String_AddrFrom4 be_bytes4_prefix : go_net.
#[export] Hint Resolve net_first_u32 net_last_u32 : go.
