(* ===== verification/GoText.v ===== *)
(** * Go's [strings], [strconv], [encoding/json], [encoding/hex] and
      [crypto/sha256], as far as the program uses them *)

From S2P Require Import Prelude GoNet.
From Stdlib Require Import Ascii.
Local Open Scope Z_scope.

(** ** strings *)

(** [strings.Join] *)
Fixpoint Join (elems : list string) (sep : string) : string :=
  match elems with
  | [] => EmptyString
  | [s] => s
  | s :: rest => s +:+ sep +:+ Join rest sep
  end.

(** [s[i:j]] for [i <= j <= len s] *)
Definition slice (s : string) (i j : nat) : string := String.substring i (j - i) s.

(** [strings.Contains] *)
Fixpoint str_contains (s sub : string) : bool :=
  String.prefix sub s ||
  match s with
  | EmptyString => false
  | String _ s' => str_contains s' sub
  end.

(** [strings.LastIndex(s, "c")] as the split around the last occurrence. *)
Fixpoint CutLast (s : string) (sep : ascii) : option (string * string) :=
  match s with
  | EmptyString => None
  | String c s' =>
      match CutLast s' sep with
      | Some (b, a) => Some (String c b, a)
      | None => if ascii_dec c sep then Some (EmptyString, s') else None
      end
  end.

(** [strconv.ParseBool] *)
Definition ParseBool (s : string) : option bool :=
  if existsb (String.eqb s) ["1"; "t"; "T"; "TRUE"; "true"; "True"]%string then Some true
  else if existsb (String.eqb s) ["0"; "f"; "F"; "FALSE"; "false"; "False"]%string then Some false
  else None.

(** ** encoding/json: texts of the types [[]string] and [map[string]string] *)

(** UTF-8 encoding of a rune. *)
Definition utf8 (r : Z) : string :=
  if r <? 0x80 then char1 (ascii_of_Z r)
  else if r <? 0x800 then
    String (ascii_of_Z (Z.lor 0xC0 (Z.shiftr r 6))) (char1 (ascii_of_Z (Z.lor 0x80 (Z.land r 0x3F))))
  else if r <? 0x10000 then
    String (ascii_of_Z (Z.lor 0xE0 (Z.shiftr r 12)))
      (String (ascii_of_Z (Z.lor 0x80 (Z.land (Z.shiftr r 6) 0x3F)))
         (char1 (ascii_of_Z (Z.lor 0x80 (Z.land r 0x3F)))))
  else
    String (ascii_of_Z (Z.lor 0xF0 (Z.shiftr r 18)))
      (String (ascii_of_Z (Z.lor 0x80 (Z.land (Z.shiftr r 12) 0x3F)))
         (String (ascii_of_Z (Z.lor 0x80 (Z.land (Z.shiftr r 6) 0x3F)))
            (char1 (ascii_of_Z (Z.lor 0x80 (Z.land r 0x3F)))))).

(** Four hexadecimal digits. *)
Definition hex4 (a b c d : ascii) : option Z :=
  match hex_val a, hex_val b, hex_val c, hex_val d with
  | Some a, Some b, Some c, Some d => Some (4096 * a + 256 * b + 16 * c + d)
  | _, _, _, _ => None
  end.

Definition quote : ascii := ascii_of_nat 34.
Definition backslash : ascii := ascii_of_nat 92.

Definition json_space (c : ascii) : bool :=
  existsb (Z.eqb (Z_of_ascii c)) [32; 9; 10; 13].

Fixpoint skip_space (s : string) : string :=
  match s with
  | String c s' => if json_space c then skip_space s' else s
  | EmptyString => s
  end.

(** The character of a one-letter escape. *)
Definition json_escape (c : ascii) : option ascii :=
  if ascii_dec c quote then Some quote
  else if ascii_dec c backslash then Some backslash
  else if ascii_dec c "/" then Some "/"%char
  else if ascii_dec c "b" then Some (ascii_of_nat 8)
  else if ascii_dec c "f" then Some (ascii_of_nat 12)
  else if ascii_dec c "n" then Some (ascii_of_nat 10)
  else if ascii_dec c "r" then Some (ascii_of_nat 13)
  else if ascii_dec c "t" then Some (ascii_of_nat 9)
  else None.

(** The rest of a string literal after its opening quote: (contents, what
    follows the closing quote).  A high surrogate waits in [high] for its low
    half; unpaired halves become U+FFFD. *)
Definition pending (high : option Z) : string :=
  match high with Some _ => utf8 0xFFFD | None => EmptyString end.

Fixpoint json_string (s : string) (high : option Z) : option (string * string) :=
  match s with
  | EmptyString => None
  | String c s' =>
      if ascii_dec c quote then Some (pending high, s')
      else if ascii_dec c backslash then
        match s' with
        | String "u" (String a (String b (String c' (String d s'')))) =>
            match hex4 a b c' d with
            | None => None
            | Some r =>
                if (0xD800 <=? r) && (r <? 0xDC00) then
                  match json_string s'' (Some r) with
                  | Some (t, rest) => Some (pending high +:+ t, rest)
                  | None => None
                  end
                else
                  let text := match high with
                              | Some h =>
                                  if (0xDC00 <=? r) && (r <? 0xE000) then
                                    utf8 (0x10000 + 1024 * (h - 0xD800) + (r - 0xDC00))
                                  else utf8 0xFFFD +:+ utf8 r
                              | None =>
                                  if (0xDC00 <=? r) && (r <? 0xE000) then utf8 0xFFFD else utf8 r
                              end in
                  match json_string s'' None with
                  | Some (t, rest) => Some (text +:+ t, rest)
                  | None => None
                  end
            end
        | String e s'' =>
            match json_escape e with
            | Some x =>
                match json_string s'' None with
                | Some (t, rest) => Some (pending high +:+ String x t, rest)
                | None => None
                end
            | None => None
            end
        | EmptyString => None
        end
      else if Z_of_ascii c <? 32 then None
      else match json_string s' None with
           | Some (t, rest) => Some (pending high +:+ String c t, rest)
           | None => None
           end
  end.

(** A string or [null] (which leaves the zero value). *)
Definition json_item (s : string) : option (string * string) :=
  match s with
  | String "n" (String "u" (String "l" (String "l" rest))) => Some (EmptyString, rest)
  | String c rest => if ascii_dec c quote then json_string rest None else None
  | EmptyString => None
  end.

(** Elements of an array after an element is due, up to the end of the text. *)
Fixpoint json_array (fuel : nat) (s : string) : option (list string) :=
  match fuel with
  | O => None
  | S fuel' =>
      match json_item (skip_space s) with
      | None => None
      | Some (x, rest) =>
          match skip_space rest with
          | String "," rest' => cons x <$> json_array fuel' rest'
          | String "]" rest' => if String.eqb (skip_space rest') EmptyString then Some [x] else None
          | _ => None
          end
      end
  end.

(** [json.Unmarshal(text, &[]string)]: every other text is a syntax or a type
    error. *)
Definition Unmarshal_strings (text : string) : option (list string) :=
  match skip_space text with
  | String "[" rest =>
      match skip_space rest with
      | String "]" rest' => if String.eqb (skip_space rest') EmptyString then Some [] else None
      | rest' => json_array (S (String.length text)) rest'
      end
  | String "n" (String "u" (String "l" (String "l" rest))) =>
      if String.eqb (skip_space rest) EmptyString then Some [] else None
  | _ => None
  end.

Fixpoint json_members (fuel : nat) (s : string) (acc : gmap string string)
    : option (gmap string string) :=
  match fuel with
  | O => None
  | S fuel' =>
      match skip_space s with
      | String q rest0 =>
          if ascii_dec q quote then
            match json_string rest0 None with
            | None => None
            | Some (k, rest) =>
                match skip_space rest with
                | String ":" rest1 =>
                    match json_item (skip_space rest1) with
                    | None => None
                    | Some (v, rest2) =>
                        match skip_space rest2 with
                        | String "," rest3 => json_members fuel' rest3 (<[k := v]> acc)
                        | String "}" rest3 =>
                            if String.eqb (skip_space rest3) EmptyString then Some (<[k := v]> acc)
                            else None
                        | _ => None
                        end
                    end
                | _ => None
                end
            end
          else None
      | EmptyString => None
      end
  end.

(** [json.Unmarshal(text, &map[string]string{})]: a later member replaces an
    earlier one of the same key. *)
Definition Unmarshal_map (text : string) : option (gmap string string) :=
  match skip_space text with
  | String "{" rest =>
      match skip_space rest with
      | String "}" rest' => if String.eqb (skip_space rest') EmptyString then Some ∅ else None
      | rest' => json_members (S (String.length text)) rest' ∅
      end
  | String "n" (String "u" (String "l" (String "l" rest))) =>
      if String.eqb (skip_space rest) EmptyString then Some ∅ else None
  | _ => None
  end.

(** ** encoding/json: writing *)

Definition hex_digit (d : Z) : ascii := digit_char d.

(** A string literal, with Go's escapes (HTML-sensitive characters included).
    The text is taken to be valid UTF-8. *)
Fixpoint json_body (s : string) : string :=
  match s with
  | EmptyString => EmptyString
  | String c s' =>
      let n := Z_of_ascii c in
      let u := String backslash ("u00" +:+ String (hex_digit (Z.shiftr n 4)) (char1 (hex_digit (Z.land n 15)))) in
      if (n =? 34) || (n =? 92) then String backslash (String c (json_body s'))
      else if n =? 8 then String backslash (String "b" (json_body s'))
      else if n =? 12 then String backslash (String "f" (json_body s'))
      else if n =? 10 then String backslash (String "n" (json_body s'))
      else if n =? 13 then String backslash (String "r" (json_body s'))
      else if n =? 9 then String backslash (String "t" (json_body s'))
      else if (n <? 32) || (n =? 60) || (n =? 62) || (n =? 38) then u +:+ json_body s'
      else
        match s with
        | String "226" (String "128" (String "168" s'')) =>
            String backslash ("u2028" +:+ json_body s'')
        | String "226" (String "128" (String "169" s'')) =>
            String backslash ("u2029" +:+ json_body s'')
        | _ => String c (json_body s')
        end
  end.

Definition json_quote (s : string) : string := String quote (json_body s +:+ char1 quote).

(** ["key":value] *)
Definition json_field (key value : string) : string := json_quote key +:+ ":" +:+ value.

Definition json_object (fields : list string) : string := "{" +:+ Join fields "," +:+ "}".

(** A map with string values: its members in the order of their keys; a nil map is
    [null]. *)
#[export] Instance key_le_dec : RelDecision (λ e1 e2 : string * string, String.le e1.1 e2.1) :=
  λ e1 e2, decide (String.le e1.1 e2.1).

Definition json_map (m : option (gmap string string)) : string :=
  match m with
  | None => "null"
  | Some m => json_object ((λ e, json_field e.1 (json_quote e.2)) <$>
                merge_sort (λ e1 e2 : string * string, String.le e1.1 e2.1) (map_to_list m))
  end.

(** A slice; nil is [null]. *)
Definition json_list (elems : list string) : string :=
  match elems with
  | [] => "null"
  | _ => "[" +:+ Join elems "," +:+ "]"
  end.

(** Standard base64, as [[]byte] is written. *)
Definition b64_char (n : Z) : ascii :=
  ascii_of_Z (if n <? 26 then 65 + n else if n <? 52 then 97 + (n - 26)
              else if n <? 62 then 48 + (n - 52) else if n =? 62 then 43 else 47).

Fixpoint base64 (fuel : nat) (bs : list Z) : string :=
  match fuel, bs with
  | S fuel', b0 :: b1 :: b2 :: rest =>
      let v := be_value [b0; b1; b2] in
      String (b64_char (Z.shiftr v 18)) (String (b64_char (Z.land (Z.shiftr v 12) 63))
        (String (b64_char (Z.land (Z.shiftr v 6) 63)) (String (b64_char (Z.land v 63)) (base64 fuel' rest))))
  | S _, [b0; b1] =>
      let v := be_value [b0; b1; 0] in
      String (b64_char (Z.shiftr v 18)) (String (b64_char (Z.land (Z.shiftr v 12) 63))
        (String (b64_char (Z.land (Z.shiftr v 6) 63)) "="))
  | S _, [b0] =>
      let v := be_value [b0; 0; 0] in
      String (b64_char (Z.shiftr v 18)) (String (b64_char (Z.land (Z.shiftr v 12) 63)) "==")
  | _, _ => EmptyString
  end.

Definition json_bytes (bs : list Z) : string :=
  match bs with [] => "null" | _ => json_quote (base64 (length bs) bs) end.

Example base64_mask : json_bytes [255; 255; 255; 0] = json_quote "////AA==".
Proof. reflexivity. Qed.

(** ** crypto/sha256 *)

Definition w32 (x : Z) : Z := Z.land x 0xffffffff.
Definition rotr (n x : Z) : Z := Z.lor (Z.shiftr x n) (w32 (Z.shiftl x (32 - n))).

(** The constants are the first 32 bits of the fractional parts of the cube roots,
    and of the square roots, of the first primes. *)
Definition prime (n : Z) : bool :=
  forallb (λ d, negb (n mod d =? 0)) (seqZ 2 (Z.sqrt n - 1)).

Definition first_primes (n : nat) : list Z := take n (filter (λ p, prime p = true) (seqZ 2 400)).

(** The integer cube root, one bit at a time. *)
Fixpoint cbrt (bits : nat) (x r : Z) : Z :=
  match bits with
  | O => r
  | S b => let r' := r + 2 ^ Z.of_nat b in cbrt b x (if r' ^ 3 <=? x then r' else r)
  end.

Definition sha_k : list Z :=
  Eval vm_compute in (λ p, w32 (cbrt 36 (p * 2 ^ 96) 0)) <$> first_primes 64.

Definition sha_init : list Z :=
  Eval vm_compute in (λ p, w32 (Z.sqrt (p * 2 ^ 64))) <$> first_primes 8.

Definition nthz (l : list Z) (i : nat) : Z := nth i l 0.

(** The message schedule, newest word first. *)
Fixpoint sha_schedule (n : nat) (rev_w : list Z) : list Z :=
  match n with
  | O => rev_w
  | S n' =>
      let w15 := nthz rev_w 14 in
      let w2 := nthz rev_w 1 in
      let s0 := Z.lxor (Z.lxor (rotr 7 w15) (rotr 18 w15)) (Z.shiftr w15 3) in
      let s1 := Z.lxor (Z.lxor (rotr 17 w2) (rotr 19 w2)) (Z.shiftr w2 10) in
      sha_schedule n' (w32 (nthz rev_w 15 + s0 + nthz rev_w 6 + s1) :: rev_w)
  end.

Definition sha_round (st : list Z) (kw : Z * Z) : list Z :=
  match st with
  | [a; b; c; d; e; f; g; h] =>
      let S1 := Z.lxor (Z.lxor (rotr 6 e) (rotr 11 e)) (rotr 25 e) in
      let ch := Z.lxor (Z.land e f) (Z.land (Z.lxor e 0xffffffff) g) in
      let t1 := h + S1 + ch + kw.1 + kw.2 in
      let S0 := Z.lxor (Z.lxor (rotr 2 a) (rotr 13 a)) (rotr 22 a) in
      let maj := Z.lxor (Z.lxor (Z.land a b) (Z.land a c)) (Z.land b c) in
      [w32 (t1 + S0 + maj); a; b; c; w32 (d + t1); e; f; g]
  | _ => st
  end.

Fixpoint words (bs : list Z) (fuel : nat) : list Z :=
  match fuel, bs with
  | S fuel', b0 :: b1 :: b2 :: b3 :: rest => be_value [b0; b1; b2; b3] :: words rest fuel'
  | _, _ => []
  end.

Fixpoint sha_blocks (fuel : nat) (bs : list Z) (h : list Z) : list Z :=
  match fuel with
  | O => h
  | S fuel' =>
      if (length bs <? 64)%nat then h
      else
        let w := rev (sha_schedule 48 (rev (words (take 64 bs) 16))) in
        let h' := foldl sha_round h (zip sha_k w) in
        sha_blocks fuel' (drop 64 bs) (zip_with (λ x y, w32 (x + y)) h h')
  end.

(** Padding to a multiple of 64 bytes: 0x80, zeros, the length in bits. *)
Definition sha_pad (bs : list Z) : list Z :=
  let l := length bs in
  bs ++ 128 :: replicate ((119 - l mod 64) mod 64) 0 ++ be_bytes 8 (8 * Z.of_nat l).

Definition bytes_of (s : string) : list Z := Z_of_ascii <$> String.list_ascii_of_string s.

Definition Sum256 (bs : list Z) : list Z :=
  let p := sha_pad bs in
  mjoin (be_bytes 4 <$> sha_blocks (S (length p / 64)) p sha_init).

(** [hex.EncodeToString] *)
Definition EncodeToString (bs : list Z) : string :=
  foldr (λ b s, hex_byte b +:+ s) EmptyString bs.

(** The standard test vector, and a text that needs a second block. *)
Example sha256_abc :
  EncodeToString (Sum256 (bytes_of "abc")) =
  "ba7816bf8f01cfea414140de5dae2223b00361a396177a9cb410ff61f20015ad".
Proof. vm_compute. reflexivity. Qed.

Example sha256_two_blocks :
  EncodeToString (Sum256 (bytes_of "abcdbcdecdefdefgefghfghighijhijkijkljklmklmnlmnomnopnopq")) =
  "248d6a61d20638b8e5c026930c3e6039a33ce45964ff2167f6ecedd419db06c1".
Proof. vm_compute. reflexivity. Qed.
