(* ===== verification/GoTextFacts.v ===== *)
(** * Texts that are written and read back *)

From S2P Require Import Prelude GoNet GoText.
From Stdlib Require Import Ascii.
Local Open Scope Z_scope.

Lemma Z_of_ascii_inj c c' : Z_of_ascii c = Z_of_ascii c' → c = c'.
Proof. unfold Z_of_ascii. intros H%N2Z.inj. by apply (f_equal ascii_of_N) in H; rewrite !ascii_N_embedding in H. Qed.

(** ** Strings *)

Lemma length_string_app a b : String.length (a +:+ b) = (String.length a + String.length b)%nat.
Proof. induction a as [|c a IH]; [done|]. rewrite string_app_cons. simpl. by rewrite IH. Qed.

#[export] Hint Rewrite length_string_app : go_string.

(** ** JSON string literals *)

(** What [json_body] writes for a character that stands alone. *)
Definition json_unit (c : ascii) : string :=
  let n := Z_of_ascii c in
  if (n =? 34) || (n =? 92) then String backslash (char1 c)
  else if n =? 8 then String backslash (char1 "b")
  else if n =? 12 then String backslash (char1 "f")
  else if n =? 10 then String backslash (char1 "n")
  else if n =? 13 then String backslash (char1 "r")
  else if n =? 9 then String backslash (char1 "t")
  else if (n <? 32) || (n =? 60) || (n =? 62) || (n =? 38) then
    String backslash ("u00" +:+ String (hex_digit (Z.shiftr n 4)) (char1 (hex_digit (Z.land n 15))))
  else char1 c.

Definition lead (c : ascii) (o : option (string * string)) : option (string * string) :=
  match o with
  | Some (t, rest) => Some (String c t, rest)
  | None => None
  end.

(** The texts [json_unit] writes with four digits are read as the character. *)
Lemma hex_unit c : Z_of_ascii c < 128 →
  hex4 "0" "0" (hex_digit (Z.shiftr (Z_of_ascii c) 4)) (hex_digit (Z.land (Z_of_ascii c) 15)) = Some (Z_of_ascii c) ∧
  utf8 (Z_of_ascii c) = char1 c.
Proof. destruct c as [[] [] [] [] [] [] [] []]; vm_compute; done. Qed.

(** Reading back one character. *)
Lemma json_string_unit c t : json_string (json_unit c +:+ t) None = lead c (json_string t None).
Proof.
  unfold json_unit.
  assert (Hk : ∀ k, (Z_of_ascii c =? k) = true → c = ascii_of_Z k).
  { intros k <-%Z.eqb_eq. unfold ascii_of_Z, Z_of_ascii. by rewrite N2Z.id, ascii_N_embedding. }
  destruct (Z_of_ascii c =? 34) eqn:E34; [apply Hk in E34 as ->; reflexivity|].
  destruct (Z_of_ascii c =? 92) eqn:E92; [apply Hk in E92 as ->; reflexivity|].
  destruct (Z_of_ascii c =? 8) eqn:E8; [apply Hk in E8 as ->; reflexivity|].
  destruct (Z_of_ascii c =? 12) eqn:E12; [apply Hk in E12 as ->; reflexivity|].
  destruct (Z_of_ascii c =? 10) eqn:E10; [apply Hk in E10 as ->; reflexivity|].
  destruct (Z_of_ascii c =? 13) eqn:E13; [apply Hk in E13 as ->; reflexivity|].
  destruct (Z_of_ascii c =? 9) eqn:E9; [apply Hk in E9 as ->; reflexivity|].
  cbn [orb]. destruct (_ || _) eqn:Hhex.
  - assert (Hc : Z_of_ascii c < 128) by (rewrite !orb_true_iff, Z.ltb_lt, !Z.eqb_eq in Hhex; lia).
    destruct (hex_unit c Hc) as [Hh Hu].
    set (h := hex_digit (Z.shiftr (Z_of_ascii c) 4)) in *. set (l := hex_digit (Z.land (Z_of_ascii c) 15)) in *.
    change (json_string (String backslash (String "u" (String "0" (String "0" (String h (String l t)))))) None
            = lead c (json_string t None)).
    cbn [json_string]. destruct (ascii_dec backslash quote) as [Hq|_]; [by vm_compute in Hq|].
    destruct (ascii_dec backslash backslash) as [_|?]; [|done]. rewrite Hh.
    rewrite (proj2 (Z.leb_gt 0xD800 _)) by lia. rewrite (proj2 (Z.leb_gt 0xDC00 _)) by lia.
    cbn [andb]. rewrite Hu. by destruct (json_string t None) as [[? ?]|].
  - rewrite !orb_false_iff in Hhex. destruct Hhex as [[[H32 _] _] _].
    change (char1 c +:+ t) with (String c t). cbn [json_string].
    destruct (ascii_dec c quote) as [->|_]; [by vm_compute in E34|].
    destruct (ascii_dec c backslash) as [->|_]; [by vm_compute in E92|].
    rewrite H32. by destruct (json_string t None) as [[? ?]|].
Qed.

(** A text is written character by character, but for the two separators of lines that
    JavaScript knows. *)
Lemma json_body_cons c s :
  json_body (String c s) = json_unit c +:+ json_body s ∨
  ∃ d s', (d = "168"%char ∨ d = "169"%char) ∧ String c s = String "226" (String "128" (String d s')).
Proof.
  destruct c as [[] [] [] [] [] [] [] []]; try (left; reflexivity).
  destruct s as [|[[] [] [] [] [] [] [] []] s]; try (left; reflexivity).
  destruct s as [|[[] [] [] [] [] [] [] []] s]; try (left; reflexivity); right; eauto.
Qed.

Lemma json_string_separator d s t : d = "168"%char ∨ d = "169"%char →
  json_string (json_body (String "226" (String "128" (String d s))) +:+ t) None =
  lead "226" (lead "128" (lead d (json_string (json_body s +:+ t) None))).
Proof.
  intros [-> | ->].
  - change (json_string (String backslash (String "u" (String "2" (String "0" (String "2" (String "8" (json_body s +:+ t)))))))
              None = lead "226" (lead "128" (lead "168" (json_string (json_body s +:+ t) None)))).
    set (r := json_body s +:+ t). clearbody r. cbn [json_string].
    change (match json_string r None with Some (t, rest) => Some (utf8 0x2028 +:+ t, rest) | None => None end
            = lead "226" (lead "128" (lead "168" (json_string r None)))).
    by destruct (json_string r None) as [[? ?]|].
  - change (json_string (String backslash (String "u" (String "2" (String "0" (String "2" (String "9" (json_body s +:+ t)))))))
              None = lead "226" (lead "128" (lead "169" (json_string (json_body s +:+ t) None)))).
    set (r := json_body s +:+ t). clearbody r.
    change (match json_string r None with Some (t, rest) => Some (utf8 0x2029 +:+ t, rest) | None => None end
            = lead "226" (lead "128" (lead "169" (json_string r None)))).
    by destruct (json_string r None) as [[? ?]|].
Qed.

(** A written text is read back, whatever follows its closing quote. *)
Lemma json_string_body s t : json_string (json_body s +:+ String quote t) None = Some (s, t).
Proof.
  remember (String.length s) as n eqn:Hn. revert s Hn. induction (lt_wf n) as [n _ IH]. intros [|c s] ->; [done|].
  destruct (json_body_cons c s) as [->|(d & s' & Hd & Hs)].
  - rewrite string_app_assoc, json_string_unit, (IH (String.length s)); [done|simpl; lia|done].
  - injection Hs as -> ->. rewrite json_string_separator, (IH (String.length s')); [done|simpl; lia|done|done].
Qed.

Lemma json_quote_app s t : json_quote s +:+ t = String quote (json_body s +:+ String quote t).
Proof. unfold json_quote. by rewrite string_app_cons, string_app_assoc. Qed.

Lemma json_item_quote s t : json_item (json_quote s +:+ t) = Some (s, t).
Proof. rewrite json_quote_app. exact (json_string_body s t). Qed.

(** ** JSON objects of strings *)

Lemma skip_space_quote s t : skip_space (json_quote s +:+ t) = json_quote s +:+ t.
Proof. by rewrite json_quote_app. Qed.

Definition member (e : string * string) : string := json_field e.1 (json_quote e.2).

Lemma json_members_cons fuel e t acc :
  json_members (S fuel) (member e +:+ t) acc =
  match skip_space t with
  | String "," rest => json_members fuel rest (<[e.1 := e.2]> acc)
  | String "}" rest => if String.eqb (skip_space rest) EmptyString then Some (<[e.1 := e.2]> acc) else None
  | _ => None
  end.
Proof.
  unfold member, json_field. rewrite !string_app_assoc. cbn [json_members].
  rewrite skip_space_quote, json_quote_app. destruct (ascii_dec quote quote) as [_|?]; [|done].
  rewrite json_string_body. change (":" +:+ json_quote e.2 +:+ t) with (String ":" (json_quote e.2 +:+ t)).
  cbn [skip_space]. change (json_space ":") with false. cbv iota.
  by rewrite skip_space_quote, json_item_quote.
Qed.

Lemma Unmarshal_members es acc fuel : (length es < fuel)%nat → es ≠ [] →
  json_members fuel (Join (member <$> es) "," +:+ "}") acc = Some (foldl (λ m '(k, v), <[k := v]> m) acc es).
Proof.
  revert acc fuel. induction es as [|e es IH]; intros acc fuel Hf Hes; [done|]. destruct fuel as [|fuel]; [lia|]. destruct e as [k v].
  destruct es as [|e' es].
  - change (Join (member <$> [(k, v)]) ",") with (member (k, v)). by rewrite json_members_cons.
  - change (Join (member <$> (k, v) :: e' :: es) ",") with (member (k, v) +:+ "," +:+ Join (member <$> e' :: es) ",").
    rewrite !string_app_assoc, json_members_cons.
    change (skip_space ("," +:+ ?x)) with (String "," x).
    cbv iota. rewrite IH; [done|simpl in *; lia|done].
Qed.

Lemma length_Join es : (length es ≤ S (String.length (Join (member <$> es) ",")))%nat.
Proof.
  induction es as [|e [|e' es] IH]; [simpl; lia|simpl; lia|].
  change (Join (member <$> e :: e' :: es) ",") with (member e +:+ "," +:+ Join (member <$> e' :: es) ",").
  rewrite !length_string_app. change (String.length ",") with 1%nat. cbn [length] in *. lia.
Qed.

(** Every entry is written, once, in the order of the keys. *)
Lemma json_map_entries m : ∃ es, es ≡ₚ map_to_list m ∧ Sorted (λ e1 e2 : string * string, String.le e1.1 e2.1) es ∧
  json_map (Some m) = "{" +:+ Join (member <$> es) "," +:+ "}".
Proof.
  exists (merge_sort (λ e1 e2 : string * string, String.le e1.1 e2.1) (map_to_list m)).
  split; [apply merge_sort_Permutation|]. split; [|done]. apply Sorted_merge_sort. intros e1 e2. apply String.le_total.
Qed.

(** [json.Unmarshal] reads back what [json.Marshal] wrote. *)
Lemma Unmarshal_json_map m : Unmarshal_map (json_map (Some m)) = Some m.
Proof.
  destruct (json_map_entries m) as (es & Hes & _ & ->).
  assert (Hnd : NoDup es.*1) by (rewrite Hes; apply NoDup_fst_map_to_list).
  assert (Hm : (list_to_map es : gmap string string) = m).
  { rewrite (list_to_map_proper es (map_to_list m)); [apply list_to_map_to_list|done|done]. }
  destruct es as [|e es]; [by rewrite <-Hm|].
  assert (Hrest : ∃ s, Join (member <$> e :: es) "," +:+ "}" = String quote s).
  { destruct es as [|e' es]; eexists; cbn [fmap list_fmap Join]; unfold member at 1, json_field;
      rewrite ?string_app_assoc, json_quote_app; done. }
  unfold Unmarshal_map. change ("{" +:+ ?x) with (String "{" x). cbn [skip_space]. change (json_space "{") with false. cbv iota.
  destruct Hrest as [s Hs]. rewrite Hs.
  change (skip_space (String quote s)) with (String quote s).
  change (json_members (S (String.length (String "{" (String quote s)))) (String quote s) ∅ = Some m). rewrite <-Hs.
  rewrite Unmarshal_members; [|cbn [String.length]; rewrite length_string_app; pose proof (length_Join (e :: es)); lia|done].
  f_equal. rewrite (foldl_copy (λ v, v)); [|done|intros; apply lookup_empty].
  by rewrite map_fmap_id, Hm, (right_id_L ∅ (∪)).
Qed.
