(* ===== verification/Ipam.v ===== *)
(** * The IP address manager ([pkg/ipam])

    [IPAllocator] keeps, per network name, a subnet and the map of its allocatable
    addresses (text form) to "is allocated".  Operations take the allocator and
    return it with the results of the Go method; [seed] names the execution of a
    [range] loop whose order is visible in the result. *)

From S2P Require Import Prelude GoNet.
Local Open Scope Z_scope.

(** ** State *)

Record IPSubnet : Type := mkIPSubnet {
  sn_ipNet : IPNet;
  sn_start : list Z;
  sn_end : list Z;
  sn_broadcast : list Z;
  sn_ips : gmap string bool;
}.

Abbreviation IPAllocator := (gmap string IPSubnet).

Definition NewIPAllocator : IPAllocator := ∅.

(** [a.ipam[name].ips = ips]: the map inside the subnet is shared by reference. *)
Definition set_ips (sn : IPSubnet) (ips : gmap string bool) : IPSubnet :=
  mkIPSubnet (sn_ipNet sn) (sn_start sn) (sn_end sn) (sn_broadcast sn) ips.

Definition network_missing (name : string) : error :=
  Errorf "network %s does not exist" [name].

(** ** Creating and deleting subnets *)

(** [broadcast[i] = octet | ^mask[i]] over the four octets of an IPv4 address; a
    CIDR without IPv4 form leaves the zeroed slice. *)
Definition broadcast_of (ipv4 mask : list Z) : list Z :=
  match ipv4 with
  | [] => replicate 4 0
  | _ => zip_with (λ octet m, Z.lor octet (Z.lxor m 255)) ipv4 mask
  end.

(** [for ip := startAddr; endAddr.Compare(ip.Prev()) > 0; ip = ip.Next()]; [None]
    when the bound runs out before the condition fails. *)
Fixpoint expand_range (fuel : nat) (endAddr ip : Addr) (ips : gmap string bool)
    : option (gmap string bool) :=
  if 0 <? Compare endAddr (Prev ip) then
    match fuel with
    | O => None
    | S fuel' => expand_range fuel' endAddr (Next ip) (<[Addr_String (Unmap ip) := false]> ips)
    end
  else Some ips.

(** One iteration per address from start to end. *)
Definition expand_fuel (startAddr endAddr : Addr) : nat :=
  Z.to_nat (addr_bits endAddr - addr_bits startAddr + 1).

Definition NewIPSubnet (name cidr start end_ : string) (a : IPAllocator)
    : IPAllocator * res (option error) :=
  match ParseCIDR cidr with
  | (_, _, Some err) => (a, Val (Some err))
  | (ip, ipNet, None) =>
      let broadcast := broadcast_of (To4 ip) (net_Mask ipNet) in
      let startIP := ParseIP start in
      if negb (Contains ipNet startIP) then
        (a, Val (Some (Errorf "start ip address %s is not within subnet %s range" [start; cidr])))
      else
      let endIP := ParseIP end_ in
      if negb (Contains ipNet endIP) then
        (a, Val (Some (Errorf "end ip address %s is not within subnet %s range" [end_; cidr])))
      else
      let '(startAddr, ok) := AddrFromSlice startIP in
      if negb ok then (a, Val (Some (Errorf "cannot convert ip address %s" [start])))
      else
      let '(endAddr, ok) := AddrFromSlice endIP in
      if negb ok then (a, Val (Some (Errorf "cannot convert ip address %s" [end_])))
      else if 0 <? Compare startAddr endAddr then
        (a, Val (Some (Errorf "end ip address %s is less than start ip address %s" [end_; start])))
      else if IP_Equal endIP broadcast then
        (a, Val (Some (Errorf "end ip address %s equals broadcast ip address %s"
                         [end_; IP_String broadcast])))
      else match expand_range (expand_fuel startAddr endAddr) endAddr startAddr ∅ with
           | None => (a, Diverge)
           | Some ips =>
               (<[name := mkIPSubnet ipNet (To4 startIP) (To4 endIP) broadcast ips]> a, Val None)
           end
  end.

Definition DeleteIPSubnet (name : string) (a : IPAllocator) : IPAllocator := delete name a.

Definition IsNetworkInitialized (name : string) (a : IPAllocator) : bool :=
  bool_decide (is_Some (a !! name)).

(** ** Allocation *)

Inductive choice : Type :=
| Take (ip : string)
| AlreadyAllocated
| Exhausted.

(** The loop of [AllocateIP] over the map in iteration order. *)
Fixpoint pick (designatedIP : list Z) (entries : list (string * bool)) : choice :=
  match entries with
  | [] => Exhausted
  | (ip, isAllocated) :: rest =>
      if negb (IsUnspecified designatedIP) then
        if String.eqb ip (IP_String designatedIP) then
          if isAllocated then AlreadyAllocated else Take ip
        else pick designatedIP rest
      else if negb isAllocated then Take ip
      else pick designatedIP rest
  end.

Section operations.
Context `{MapRange}.

Definition AllocateIP (seed : nat) (name ipAddress : string) (a : IPAllocator)
    : IPAllocator * (string * option error) :=
  match a !! name with
  | None => (a, (EmptyString, Some (network_missing name)))
  | Some sn =>
      let ipAddress := if String.eqb ipAddress EmptyString then IP_String IPv4zero
                       else ipAddress in
      let designatedIP := ParseIP ipAddress in
      let zero := IP_String IPv4zero in
      if negb (IsUnspecified designatedIP) && negb (Contains (sn_ipNet sn) designatedIP) then
        let '(subnetMask, _) := Mask_Size (net_Mask (sn_ipNet sn)) in
        (a, (zero, Some (Errorf "designated ip %s is not in subnet %s/%d"
               [IP_String designatedIP; IP_String (net_IP (sn_ipNet sn)); pretty subnetMask])))
      else if negb (IsUnspecified designatedIP) && IP_Equal (sn_broadcast sn) designatedIP then
        (a, (zero, Some (Errorf "designated ip %s equals broadcast ip address %s"
               [IP_String designatedIP; IP_String (sn_broadcast sn)])))
      else match pick designatedIP (range seed (sn_ips sn)) with
           | Take ip => (<[name := set_ips sn (<[ip := true]> (sn_ips sn))]> a, (ip, None))
           | AlreadyAllocated =>
               (a, (zero, Some (Errorf "designated ip %s is already allocated"
                      [IP_String designatedIP])))
           | Exhausted =>
               (a, (zero, Some (Errorf "no more ip addresses left in network %s ipam" [name])))
           end
  end.

Definition DeallocateIP (name ipAddress : string) (a : IPAllocator)
    : IPAllocator * option error :=
  match a !! name with
  | None => (a, Some (network_missing name))
  | Some sn =>
      if String.eqb ipAddress EmptyString then (a, Some (Errorf "designated ip is empty" []))
      else match sn_ips sn !! ipAddress with
           | None =>
               (a, Some (Errorf "to-be-deallocated ip %s was not found in network %s ipam"
                      [ipAddress; name]))
           | Some false =>
               (a, Some (Errorf "to-be-deallocated ip %s was not allocated" [ipAddress]))
           | Some true =>
               (<[name := set_ips sn (<[ipAddress := false]> (sn_ips sn))]> a, None)
           end
  end.

Definition RevokeIP (name ipAddress : string) (a : IPAllocator) : IPAllocator * option error :=
  match a !! name with
  | None => (a, Some (network_missing name))
  | Some sn => (<[name := set_ips sn (delete ipAddress (sn_ips sn))]> a, None)
  end.

Definition IsAllocated (name ipAddress : string) (a : IPAllocator) : bool * option error :=
  match a !! name with
  | None => (false, Some (network_missing name))
  | Some sn =>
      match sn_ips sn !! ipAddress with
      | None => (false, Some (Errorf "ip %s was not found in network %s ipam" [ipAddress; name]))
      | Some isAllocated => (isAllocated, None)
      end
  end.

(** Counting loops: the order of the map does not reach the result. *)
Definition GetUsed (seed : nat) (name : string) (a : IPAllocator) : Z * option error :=
  match a !! name with
  | None => (0, Some (network_missing name))
  | Some sn =>
      (foldl (λ used '(_, isAllocated), if isAllocated : bool then used + 1 else used) 0
         (range seed (sn_ips sn)), None)
  end.

Definition GetAvailable (seed : nat) (name : string) (a : IPAllocator) : Z * option error :=
  match a !! name with
  | None => (0, Some (network_missing name))
  | Some sn =>
      (foldl (λ available '(_, isAllocated),
                if negb isAllocated then available + 1 else available) 0
         (range seed (sn_ips sn)), None)
  end.

(** [strconv.FormatBool] of every entry. *)
Definition FormatBool (b : bool) : string := if b then "true" else "false".

Definition ListAll (name : string) (a : IPAllocator)
    : option (gmap string string) * option error :=
  match a !! name with
  | None => (None, Some (network_missing name))
  | Some sn => (Some (FormatBool <$> sn_ips sn), None)
  end.

(** [GetUsage] reports to the log: the allocated addresses in visiting order,
    then total, in-use and available. *)
Definition GetUsage (seed : nat) (name : string) (a : IPAllocator)
    : (list string * (Z * Z * Z)) * option error :=
  match a !! name with
  | None => (([], (0, 0, 0)), Some (network_missing name))
  | Some sn =>
      let lines := (filter (λ e, e.2 = true) (range seed (sn_ips sn))).*1 in
      let total := Z.of_nat (size (sn_ips sn)) in
      let used := Z.of_nat (length lines) in
      ((lines, (total, used, total - used)), None)
  end.

(** ** The builder of [common.go], errors dropped as there *)

Definition build_IPSubnet (name cidr start end_ : string) (b : IPAllocator) : IPAllocator :=
  (NewIPSubnet name cidr start end_ b).1.

Definition build_Revoke (name : string) (ips : list string) (b : IPAllocator) : IPAllocator :=
  foldl (λ b ip, (RevokeIP name ip b).1) b ips.

Definition build_Allocate (seed : nat) (name : string) (ips : list string) (b : IPAllocator)
    : IPAllocator :=
  foldl (λ b ip, (AllocateIP seed name ip b).1) b ips.
End operations.
