(* ===== verification/IpamFacts.v ===== *)
(** * The IP address manager: lemmas

    The address range a new IPv4 subnet holds, what each operation does to the
    address map, and the well-formedness invariant. *)

From S2P Require Import Prelude GoNet GoNetFacts Ipam.
Local Open Scope Z_scope.

(** ** The range of a subnet *)

(** The map a fresh IPv4 subnet holds: every address of [s..e], free. *)
Definition v4_range (s e : Z) : gmap string bool :=
  list_to_map ((λ n, (v4str n, false)) <$> seqZ s (e - s + 1)).

Lemma v4_range_keys_NoDup s e : u32 s → u32 e → NoDup ((λ n, (v4str n, false)) <$> seqZ s (e - s + 1)).*1.
Proof.
  intros Hs He. rewrite <-list_fmap_compose. apply NoDup_fmap_2_strong; [|apply NoDup_seqZ].
  intros x y Hx%elem_of_seqZ Hy%elem_of_seqZ Heq. unfold u32 in *.
  apply v4str_inj in Heq; unfold u32; lia.
Qed.

Lemma lookup_v4_range s e k b :
  u32 s → u32 e →
  v4_range s e !! k = Some b ↔ b = false ∧ ∃ n, s ≤ n ≤ e ∧ k = v4str n.
Proof.
  intros Hs He. unfold v4_range.
  rewrite <-elem_of_list_to_map by by apply v4_range_keys_NoDup.
  rewrite list_elem_of_fmap. setoid_rewrite elem_of_seqZ. split.
  - intros (n & [= -> ->] & Hn). split; [done|]. exists n. split; [lia|done].
  - intros (-> & n & Hn & ->). exists n. split; [done|lia].
Qed.

Lemma size_v4_range s e : u32 s → u32 e → s ≤ e → Z.of_nat (size (v4_range s e)) = e - s + 1.
Proof.
  intros Hs He Hle. unfold v4_range.
  rewrite map_size_list_to_map by by apply v4_range_keys_NoDup.
  rewrite length_fmap, length_seqZ. lia.
Qed.

(** ** The expansion loop *)

Lemma expand_range_spec n s e m :
  u32 e → 0 ≤ s ≤ e + 1 → n = Z.to_nat (e - s + 1) →
  ∃ m', expand_range n (addr46 e) (addr46 s) m = Some m' ∧
    ∀ k b, m' !! k = Some b ↔
      (b = false ∧ ∃ i, s ≤ i ≤ e ∧ k = v4str i) ∨ (m !! k = Some b ∧ ∀ i, s ≤ i ≤ e → k ≠ v4str i).
Proof.
  intros He. revert s m. induction n as [|n IH]; intros s m Hs Hn.
  - exists m. cbn [expand_range]. rewrite Prev_addr46 by (unfold u32 in *; lia).
    unfold addr46, AddrFrom16. rewrite Compare_family by done.
    destruct (Z.ltb_spec 0 (cmp_int (v4_prefix + e ?= v4_prefix + s - 1))) as [H|_].
    { rewrite cmp_int_gt in H. lia. }
    split; [done|]. intros k b. split.
    + intros Hk. right. split; [done|]. intros i Hi. lia.
    + intros [(_ & i & Hi & _)|[Hk _]]; [lia|done].
  - assert (Hse : u32 s) by (unfold u32 in *; lia).
    destruct (IH (s + 1) (<[v4str s := false]> m)) as (m' & Hm' & Hspec); [lia|lia|].
    exists m'. split.
    + cbn [expand_range]. rewrite Prev_addr46 by (unfold u32 in *; lia).
      unfold addr46 at 1, AddrFrom16. rewrite Compare_family by done.
      destruct (Z.ltb_spec 0 (cmp_int (v4_prefix + e ?= v4_prefix + s - 1))) as [_|H].
      2: { assert (~ 0 < cmp_int (v4_prefix + e ?= v4_prefix + s - 1)) as Hc by lia.
           rewrite cmp_int_gt in Hc. lia. }
      rewrite Next_addr46, Unmap_addr46, String_AddrFrom4 by done. exact Hm'.
    + intros k b. rewrite Hspec. split.
      * intros [(-> & i & Hi & ->)|[Hk Hne]]; [left; split; [done|]; exists i; split; [lia|done]|].
        destruct (decide (k = v4str s)) as [->|Hks].
        -- rewrite lookup_insert_eq in Hk. simplify_eq. left. split; [done|]. exists s. split; [lia|done].
        -- rewrite lookup_insert_ne in Hk by done. right. split; [done|]. intros i Hi.
           destruct (decide (i = s)) as [->|]; [done|]. apply Hne. lia.
      * intros [(-> & i & Hi & ->)|[Hk Hne]].
        -- destruct (decide (i = s)) as [->|].
           ++ right. rewrite lookup_insert_eq. split; [done|]. intros i Hi' Heq.
              apply v4str_inj in Heq; unfold u32 in *; lia.
           ++ left. split; [done|]. exists i. split; [lia|done].
        -- right. rewrite lookup_insert_ne by (apply not_eq_sym, Hne; lia). split; [done|].
           intros i Hi. apply Hne. lia.
Qed.

(** The loop ends after one iteration per address, with exactly the range. *)
Lemma expand_range_v4 s e :
  u32 s → u32 e → s ≤ e →
  expand_range (expand_fuel (addr46 s) (addr46 e)) (addr46 e) (addr46 s) ∅ = Some (v4_range s e).
Proof.
  intros Hs He Hle. unfold expand_fuel, addr46, AddrFrom16. cbn [addr_bits].
  replace (v4_prefix + e - (v4_prefix + s) + 1) with (e - s + 1) by lia.
  destruct (expand_range_spec (Z.to_nat (e - s + 1)) s e ∅) as (m' & Hm' & Hspec);
    [done|unfold u32 in *; lia|done|].
  unfold addr46, AddrFrom16 in Hm'. rewrite Hm'. f_equal. apply map_eq. intros k.
  apply option_eq. intros b. rewrite Hspec, lookup_v4_range by done.
  rewrite lookup_empty. split; [|by left]. by intros [Hl|[? _]].
Qed.

Lemma broadcast_of_v4 a p :
  u32 a → 0 ≤ p ≤ 32 →
  broadcast_of (be_bytes 4 a) (be_bytes 4 (mask32 p)) = be_bytes 4 (net_last a p).
Proof.
  intros Ha Hp. unfold broadcast_of. destruct (be_bytes 4 a) eqn:Hb.
  { pose proof (length_be_bytes 4 a) as Hl. by rewrite Hb in Hl. }
  by rewrite <-Hb, zip_lor_not_be_bytes, lor_hostmask.
Qed.

Lemma IP_Equal_mapped x y : u32 x → u32 y → IP_Equal (mapped x) (be_bytes 4 y) = bool_decide (x = y).
Proof.
  intros Hx Hy. assert (H : IP_Equal (mapped x) (be_bytes 4 y) = bool_decide (be_bytes 4 x = be_bytes 4 y)).
  { unfold IP_Equal. rewrite length_mapped, length_be_bytes. cbn [Nat.eqb andb].
    change (take 12 (mapped x)) with v4InV6Prefix. by rewrite bool_decide_eq_true_2. }
  rewrite H. apply bool_decide_ext. split; [by apply be_bytes4_inj|congruence].
Qed.

Lemma IP_Equal_mapped' x y : u32 x → u32 y → IP_Equal (be_bytes 4 y) (mapped x) = bool_decide (x = y).
Proof.
  intros Hx Hy. assert (H : IP_Equal (be_bytes 4 y) (mapped x) = bool_decide (be_bytes 4 y = be_bytes 4 x)).
  { unfold IP_Equal. rewrite length_mapped, length_be_bytes. cbn [Nat.eqb andb].
    change (take 12 (mapped x)) with v4InV6Prefix. by rewrite bool_decide_eq_true_2. }
  rewrite H. apply bool_decide_ext. split; [intros; symmetry; by apply be_bytes4_inj|congruence].
Qed.

Lemma IsUnspecified_mapped x : u32 x → IsUnspecified (mapped x) = bool_decide (x = 0).
Proof.
  intros Hx. unfold IsUnspecified. change IPv4zero with (mapped 0).
  assert (Hne : mapped x ≠ IPv6unspecified).
  { intros H%(f_equal (λ l, nth 10 l 0)). by vm_compute in H. }
  assert (H6 : IP_Equal (mapped x) IPv6unspecified = false).
  { unfold IP_Equal. rewrite length_mapped. by apply bool_decide_eq_false_2. }
  rewrite H6, orb_false_r. unfold IP_Equal. rewrite !length_mapped. cbn [Nat.eqb].
  apply bool_decide_ext. split; [|by intros ->]. intros Heq. apply mapped_inj; [done| |done].
  unfold u32. lia.
Qed.

(** ** The choice loop *)

Lemma pick_designated d entries :
  IsUnspecified d = false → NoDup entries.*1 →
  pick d entries = match (list_to_map entries : gmap string bool) !! IP_String d with
                   | Some true => AlreadyAllocated
                   | Some false => Take (IP_String d)
                   | None => Exhausted
                   end.
Proof.
  intros Hd. induction entries as [|[ip b] rest IH]; [done|].
  intros Hnd. cbn [list_to_map fst snd foldr fmap list_fmap] in *. apply NoDup_cons in Hnd as [_ Hnd].
  cbn [pick]. rewrite Hd. cbn [negb]. destruct (String.eqb_spec ip (IP_String d)) as [->|Hne].
  - rewrite lookup_insert_eq. by destruct b.
  - rewrite lookup_insert_ne by done. by apply IH.
Qed.

Lemma pick_any_Take d entries ip :
  IsUnspecified d = true → pick d entries = Take ip → (ip, false) ∈ entries.
Proof.
  intros Hd. induction entries as [|[ip' b] rest IH]; [done|]. cbn [pick]. rewrite Hd. cbn [negb].
  destruct b; cbn [negb]; [|by intros [= ->]; left]. intros H. right. by apply IH.
Qed.

Lemma pick_any_cases d entries :
  IsUnspecified d = true →
  (∃ ip, pick d entries = Take ip) ∨ (pick d entries = Exhausted ∧ ∀ ip, (ip, false) ∉ entries).
Proof.
  intros Hd. induction entries as [|[ip' b] rest IH].
  { right. split; [done|]. intros ip Hin. by apply elem_of_nil in Hin. }
  cbn [pick]. rewrite Hd. cbn [negb]. destruct b; cbn [negb]; [|left; by eexists].
  destruct IH as [IH|[Hp IH]]; [by left|]. right. split; [done|]. intros ip Hin.
  apply elem_of_cons in Hin as [?|Hin]; [done|]. by apply (IH ip).
Qed.

(** ** What a subnet stands for *)

(** The abstract view of a subnet: which addresses are free and which are in
    use, as numbers. *)
Record pool : Type := mkPool { free : gset Z; used : gset Z }.

(** What the argument of [AllocateIP] asks for. *)
Inductive request : Type :=
| Any
| This (n : Z)
| Unusable.

Definition request_of (ipAddress : string) : request :=
  let d := ParseIP (if String.eqb ipAddress EmptyString then IP_String IPv4zero else ipAddress) in
  if IsUnspecified d then Any
  else match To4 d with
       | [] => Unusable
       | bs => This (be_value bs)
       end.

(** The promise of [AllocateIP]: hand out a free address, the one asked for if
    one is asked for, and refuse only when there is none. *)
Inductive alloc_step (P : pool) : request → pool → option Z → Prop :=
| alloc_any n :
    n ∈ free P → alloc_step P Any (mkPool (free P ∖ {[n]}) ({[n]} ∪ used P)) (Some n)
| alloc_none : free P = ∅ → alloc_step P Any P None
| alloc_this n :
    n ∈ free P → alloc_step P (This n) (mkPool (free P ∖ {[n]}) ({[n]} ∪ used P)) (Some n)
| alloc_taken n : n ∉ free P → alloc_step P (This n) P None
| alloc_unusable : alloc_step P Unusable P None.

(** A concrete subnet represents a pool of IPv4 addresses of the network
    [base/plen] below its broadcast address. *)
Record represents (sn : IPSubnet) (base plen : Z) (P : pool) : Prop := {
  rep_base : u32 base;
  rep_plen : 0 ≤ plen ≤ 32;
  rep_net : sn_ipNet sn = v4net base plen;
  rep_broadcast : sn_broadcast sn = be_bytes 4 (net_last base plen);
  rep_lookup : ∀ k b, sn_ips sn !! k = Some b ↔
      ∃ n : Z, n ∈ (if b : bool then used P else free P) ∧ k = v4str n;
  rep_inside : ∀ n, n ∈ free P ∪ used P → net_first base plen ≤ n < net_last base plen;
}.

Section represents.
Context {sn : IPSubnet} {base plen : Z} {P : pool} (HR : represents sn base plen P).

Lemma rep_u32 n : n ∈ free P ∪ used P → u32 n.
Proof using HR.
  intros Hn. apply (rep_inside _ _ _ _ HR) in Hn.
  pose proof (net_first_u32 base plen (rep_base _ _ _ _ HR) (rep_plen _ _ _ _ HR)).
  pose proof (net_last_u32 base plen (rep_base _ _ _ _ HR) (rep_plen _ _ _ _ HR)).
  unfold u32 in *. lia.
Qed.

Lemma rep_disjoint : free P ## used P.
Proof using HR.
  intros n Hf Hu. assert (H1 : sn_ips sn !! v4str n = Some false).
  { apply (rep_lookup _ _ _ _ HR). by exists n. }
  assert (H2 : sn_ips sn !! v4str n = Some true).
  { apply (rep_lookup _ _ _ _ HR). by exists n. }
  congruence.
Qed.

Lemma rep_lookup_v4str n b :
  u32 n → sn_ips sn !! v4str n = Some b ↔ n ∈ (if b : bool then used P else free P).
Proof using HR.
  intros Hn. rewrite (rep_lookup _ _ _ _ HR). split; [|by eauto].
  intros (n' & Hn' & Heq). apply v4str_inj in Heq as ->; [done..|].
  apply rep_u32. destruct b; set_solver.
Qed.

(** Moving one address between the two sets is one insertion in the map. *)
Lemma rep_insert n b F U :
  u32 n → n ∈ free P ∪ used P → n ∈ (if b : bool then U else F) →
  n ∉ (if b then F else U) →
  (∀ m, m ≠ n → (m ∈ F ↔ m ∈ free P) ∧ (m ∈ U ↔ m ∈ used P)) →
  represents (set_ips sn (<[v4str n := b]> (sn_ips sn))) base plen (mkPool F U).
Proof using HR.
  intros Hu Hmem Hin Hout Hsame.
  assert (Hu32 : ∀ m, m ∈ F ∪ U → u32 m).
  { intros m Hm. destruct (decide (m = n)) as [->|Hne]; [done|]. apply rep_u32.
    destruct (Hsame m Hne) as [HF HU]. rewrite elem_of_union in *. tauto. }
  destruct HR as [Hb Hp Hnet Hbc Hl Hins].
  constructor; cbn [sn_ipNet sn_broadcast sn_ips set_ips free used]; [done..| |].
  - intros k c. destruct (decide (k = v4str n)) as [->|Hk].
    + rewrite lookup_insert_eq. split; [intros [= <-]; by exists n|].
      intros (m & Hm & Heq). apply v4str_inj in Heq as <-; [|done|].
      * destruct b, c; done.
      * apply Hu32, elem_of_union. destruct c; auto.
    + rewrite lookup_insert_ne, Hl by done.
      split; intros (m & Hm & ->); exists m; (split; [|done]);
        destruct (Hsame m ltac:(congruence)) as [HF HU]; destruct c; tauto.
  - intros m Hm. destruct (decide (m = n)) as [->|Hne]; [by apply Hins|]. apply Hins.
    destruct (Hsame m Hne) as [HF HU]. rewrite elem_of_union in *. tauto.
Qed.

Lemma rep_allocate n :
  n ∈ free P →
  represents (set_ips sn (<[v4str n := true]> (sn_ips sn))) base plen
    (mkPool (free P ∖ {[n]}) ({[n]} ∪ used P)).
Proof using HR.
  intros Hn. assert (n ∈ free P ∪ used P) by set_solver.
  apply rep_insert; [by apply rep_u32|done|set_solver|set_solver|]. clear. set_solver.
Qed.

Lemma rep_deallocate n :
  n ∈ used P →
  represents (set_ips sn (<[v4str n := false]> (sn_ips sn))) base plen
    (mkPool ({[n]} ∪ free P) (used P ∖ {[n]})).
Proof using HR.
  intros Hn. assert (n ∈ free P ∪ used P) by set_solver.
  apply rep_insert; [by apply rep_u32|done|set_solver|set_solver|]. clear. set_solver.
Qed.

Lemma rep_revoke k :
  ∃ P', represents (set_ips sn (delete k (sn_ips sn))) base plen P' ∧
        free P' ⊆ free P ∧ used P' ⊆ used P.
Proof using HR.
  exists (mkPool (filter (λ n, v4str n ≠ k) (free P)) (filter (λ n, v4str n ≠ k) (used P))).
  cbn [free used].
  assert (Hf : ∀ (X : gset Z) m, m ∈ filter (λ n, v4str n ≠ k) X ↔ v4str m ≠ k ∧ m ∈ X).
  { intros X m. by rewrite elem_of_filter. }
  split; [|split; intros m; rewrite Hf; tauto].
  destruct HR as [Hb Hp Hnet Hbc Hl Hins].
  constructor; cbn [sn_ipNet sn_broadcast sn_ips set_ips free used]; [done..| |].
  - intros k' b. rewrite lookup_delete_Some, Hl. split.
    + intros [Hne (n & Hn & ->)]. exists n. split; [|done]. destruct b; rewrite Hf; auto.
    + intros (n & Hn & ->). destruct b; rewrite Hf in Hn; destruct Hn; split; eauto.
  - intros m. rewrite elem_of_union, !Hf. intros Hm. apply Hins, elem_of_union. tauto.
Qed.
End represents.

(** ** Operations against the abstract view *)

Lemma request_of_cases s d :
  d = ParseIP (if String.eqb s EmptyString then IP_String IPv4zero else s) →
  (request_of s = Any ∧ IsUnspecified d = true) ∨
  (∃ n, request_of s = This n ∧ IsUnspecified d = false ∧ u32 n ∧ d = mapped n) ∨
  (request_of s = Unusable ∧ IsUnspecified d = false ∧ To4 d = []).
Proof.
  intros Hd. unfold request_of. rewrite <-Hd. destruct (IsUnspecified d) eqn:Hun; [by left|].
  right. destruct (To4 d) as [|x bs] eqn:H4; [by right|]. left.
  destruct (ParseIP_To4 (if String.eqb s EmptyString then IP_String IPv4zero else s)) as (n & Hn & Hm).
  { rewrite <-Hd, H4. done. }
  exists n. rewrite <-H4. rewrite <-Hd in Hm. split_and!; [|done..].
  rewrite Hm, To4_mapped. f_equal. by apply be_value_be_bytes4.
Qed.

(** What [AllocateIP] may do with a subnet that represents [P]. *)
Definition allocate_outcome (a : IPAllocator) (name : string) (base plen : Z) (P : pool) (s : string)
    (out : IPAllocator * (string * option error)) : Prop :=
  ∃ P' r, alloc_step P (request_of s) P' r ∧
    match r with
    | Some n => out.2 = (v4str n, None) ∧
                ∃ sn', out.1 = <[name := sn']> a ∧ represents sn' base plen P'
    | None => out.1 = a ∧ out.2.1 = "0.0.0.0" ∧ is_Some out.2.2
    end.

Section allocate.
Context `{MapRange} (seed : nat) (name : string) (a : IPAllocator) (sn : IPSubnet).
Context (base plen : Z) (P : pool) (Hsn : a !! name = Some sn) (HR : represents sn base plen P).

Lemma allocate_refused s P' t e :
  alloc_step P (request_of s) P' None → t = "0.0.0.0" →
  allocate_outcome a name base plen P s (a, (t, Some e)).
Proof using Type. intros Hs ->. exists P', None. eauto. Qed.

Lemma allocate_granted s n :
  n ∈ free P → alloc_step P (request_of s) (mkPool (free P ∖ {[n]}) ({[n]} ∪ used P)) (Some n) →
  allocate_outcome a name base plen P s
    (<[name := set_ips sn (<[v4str n := true]> (sn_ips sn))]> a, (v4str n, None)).
Proof using HR.
  intros Hn Hs. eexists _, (Some n). split; [exact Hs|]. split; [done|].
  eexists. split; [done|]. by apply rep_allocate.
Qed.

Lemma AllocateIP_outcome s : allocate_outcome a name base plen P s (AllocateIP seed name s a).
Proof using HR Hsn.
  unfold AllocateIP. rewrite Hsn.
  remember (ParseIP (if String.eqb s EmptyString then _ else s)) as d eqn:Hd.
  pose proof (rep_net _ _ _ _ HR) as Hnet. pose proof (rep_broadcast _ _ _ _ HR) as Hbc.
  pose proof (rep_base _ _ _ _ HR) as Hb. pose proof (rep_plen _ _ _ _ HR) as Hp.
  cbv zeta. rewrite Hnet, Hbc. destruct (Mask_Size _) as [ones bits].
  destruct (request_of_cases s d Hd) as [[Hr Hun]|[(n & Hr & Hun & Hn & Hm)|(Hr & Hun & H4)]];
    rewrite Hun; cbn [negb andb].
  - destruct (pick_any_cases d (range seed (sn_ips sn)) Hun) as [[ip Hpick]|[Hpick Hno]]; rewrite Hpick.
    + apply pick_any_Take, elem_of_range, (rep_lookup _ _ _ _ HR) in Hpick as (n & Hf & ->); [|done].
      apply allocate_granted; [done|]. rewrite Hr. by constructor.
    + eapply allocate_refused; [|done]. rewrite Hr. apply alloc_none.
      apply set_eq. intros n. split; [|set_solver]. intros Hf. exfalso.
      apply (Hno (v4str n)), elem_of_range, (rep_lookup _ _ _ _ HR). by exists n.
  - subst d. rewrite Hm. rewrite Contains_v4net by done. case_bool_decide as Hin; cbn [negb].
    2: { eapply allocate_refused; [|done]. rewrite Hr. apply alloc_taken. intros Hf.
         apply Hin. pose proof (rep_inside _ _ _ _ HR n). set_solver by lia. }
    rewrite IP_Equal_mapped' by (done || by apply net_last_u32). case_bool_decide as Hlast.
    { eapply allocate_refused; [|done]. rewrite Hr. apply alloc_taken. intros Hf.
      pose proof (rep_inside _ _ _ _ HR n). set_solver by lia. }
    rewrite Hm in Hun.
    rewrite pick_designated by (done || apply NoDup_fst_range). rewrite IP_String_mapped by done.
    rewrite list_to_map_range.
    destruct (sn_ips sn !! v4str n) as [[]|] eqn:Hk.
    + eapply allocate_refused; [|done]. rewrite Hr. apply alloc_taken. intros Hf.
      apply (rep_lookup_v4str HR) in Hk; [|done]. pose proof (rep_disjoint HR). set_solver.
    + apply (rep_lookup_v4str HR) in Hk; [|done].
      apply allocate_granted; [done|]. rewrite Hr. by constructor.
    + eapply allocate_refused; [|done]. rewrite Hr. apply alloc_taken. intros Hf.
      apply (rep_lookup_v4str HR _ false) in Hf; [|done]. congruence.
  - destruct (Contains (v4net base plen) d) eqn:Hc; cbn [negb].
    + exfalso. subst d. apply Contains_ParseIP in Hc as (n & Hn & Hm & _); [|done..].
      rewrite Hm, To4_mapped in H4. by pose proof (length_be_bytes 4 n) as Hl; rewrite H4 in Hl.
    + eapply allocate_refused; [|done]. rewrite Hr. constructor.
Qed.
End allocate.

(** ** Creation *)

Lemma Compare_addr46 s e : (0 <? Compare (addr46 s) (addr46 e)) = negb (bool_decide (s ≤ e)).
Proof.
  unfold addr46, AddrFrom16. rewrite Compare_family by done.
  case_bool_decide as Hse; cbn [negb]; [apply Z.ltb_ge, cmp_int_le|apply Z.ltb_lt, cmp_int_gt]; lia.
Qed.

(** The test [NewIPSubnet] puts a range to, on numbers. *)
Definition range_ok (a p s e : Z) : bool :=
  bool_decide (net_first a p ≤ s ≤ net_last a p) && bool_decide (net_first a p ≤ e ≤ net_last a p) &&
  bool_decide (s ≤ e) && negb (bool_decide (e = net_last a p)).

Lemma range_ok_spec a p s e :
  range_ok a p s e = true ↔ net_first a p ≤ s ≤ e ∧ e < net_last a p.
Proof.
  unfold range_ok. rewrite !andb_true_iff, negb_true_iff, !bool_decide_eq_true, bool_decide_eq_false. lia.
Qed.

Definition fresh_subnet (a p s e : Z) : IPSubnet :=
  mkIPSubnet (v4net a p) (be_bytes 4 s) (be_bytes 4 e) (be_bytes 4 (net_last a p)) (v4_range s e).

Section creation.
Context (name cidr : string) (a p : Z) (alloc : IPAllocator).
Context (Hcidr : ParseCIDR cidr = (mapped a, v4net a p, None)) (Ha : u32 a) (Hp : 0 ≤ p ≤ 32).

Lemma NewIPSubnet_v4 start end_ s e :
  u32 s → u32 e → ParseIP start = mapped s → ParseIP end_ = mapped e →
  if range_ok a p s e then
    NewIPSubnet name cidr start end_ alloc = (<[name := fresh_subnet a p s e]> alloc, Val None)
  else ∃ err, NewIPSubnet name cidr start end_ alloc = (alloc, Val (Some err)).
Proof using Ha Hcidr Hp.
  intros Hs He Hps Hpe. unfold NewIPSubnet. rewrite Hcidr, Hps, Hpe. cbv zeta. cbn [net_Mask v4net].
  rewrite To4_mapped, broadcast_of_v4 by done.
  change (mkIPNet _ _) with (v4net a p). rewrite !Contains_v4net by done. unfold range_ok.
  case_bool_decide as Hs'; cbn [negb andb]; [|by eexists].
  case_bool_decide as He'; cbn [negb andb]; [|by eexists].
  rewrite !AddrFromSlice_mapped by done. cbn [negb].
  rewrite Compare_addr46.
  case_bool_decide as Hse; cbn [andb negb]; [|by eexists].
  rewrite IP_Equal_mapped by (done || by apply net_last_u32).
  case_bool_decide; cbn [negb]; [by eexists|]. by rewrite expand_range_v4.
Qed.

(** A bound that is no IPv4 text is refused before the expansion. *)
Lemma NewIPSubnet_bad start end_ :
  To4 (ParseIP start) = [] ∨ To4 (ParseIP end_) = [] →
  ∃ err, NewIPSubnet name cidr start end_ alloc = (alloc, Val (Some err)).
Proof using Ha Hcidr Hp.
  intros Hbad. unfold NewIPSubnet. rewrite Hcidr.
  assert (Hno : ∀ t, To4 (ParseIP t) = [] → Contains (v4net a p) (ParseIP t) = false).
  { intros t Ht. apply not_true_is_false. intros Hc.
    apply Contains_ParseIP in Hc as (n & Hn & Hm & _); [|done..]. rewrite Hm, To4_mapped in Ht.
    by pose proof (length_be_bytes 4 n) as Hl; rewrite Ht in Hl. }
  destruct (Contains (v4net a p) (ParseIP start)) eqn:Hcs; cbn [negb]; [|by eexists].
  destruct (Contains (v4net a p) (ParseIP end_)) eqn:Hce; cbn [negb]; [|by eexists].
  exfalso. destruct Hbad as [Hb|Hb]; apply Hno in Hb; congruence.
Qed.
End creation.

Lemma fresh_represents a p s e :
  u32 a → 0 ≤ p ≤ 32 →
  net_first a p ≤ s ≤ e → e < net_last a p →
  represents (fresh_subnet a p s e) a p (mkPool (list_to_set (seqZ s (e - s + 1))) ∅).
Proof.
  intros Ha Hp Hs He. pose proof (net_first_u32 a p Ha Hp). pose proof (net_last_u32 a p Ha Hp).
  constructor; cbn [sn_ipNet sn_broadcast sn_ips fresh_subnet free used]; [done..| |].
  - intros k b. rewrite lookup_v4_range by (unfold u32 in *; lia). split.
    + intros (-> & n & Hn & ->). exists n. split; [|done]. apply elem_of_list_to_set, elem_of_seqZ. lia.
    + intros (n & Hn & ->). destruct b; [set_solver|]. split; [done|]. exists n.
      apply elem_of_list_to_set, elem_of_seqZ in Hn. split; [lia|done].
  - intros n. rewrite union_empty_r_L, elem_of_list_to_set, elem_of_seqZ. lia.
Qed.


(** ** Counting *)

Lemma GetUsed_count (l : list (string * bool)) acc :
  foldl (λ used '(_, isAllocated), if isAllocated : bool then used + 1 else used) acc l =
  acc + Z.of_nat (length (filter (λ e, e.2 = true) l)).
Proof.
  revert acc. induction l as [|[k []] l IH]; intros acc; cbn [foldl].
  - cbn. lia.
  - rewrite IH, filter_cons_True by done. cbn [length]. lia.
  - rewrite IH, filter_cons_False by done. lia.
Qed.

Lemma GetAvailable_count (l : list (string * bool)) acc :
  foldl (λ available '(_, isAllocated), if negb isAllocated then available + 1 else available) acc l =
  acc + Z.of_nat (length (filter (λ e, e.2 = false) l)).
Proof.
  revert acc. induction l as [|[k []] l IH]; intros acc; cbn [foldl negb].
  - cbn. lia.
  - rewrite IH, filter_cons_False by done. lia.
  - rewrite IH, filter_cons_True by done. cbn [length]. lia.
Qed.

Lemma length_filter_split (l : list (string * bool)) :
  (length (filter (λ e, e.2 = true) l) + length (filter (λ e, e.2 = false) l) = length l)%nat.
Proof.
  induction l as [|[k []] l IH]; [done|..].
  - rewrite filter_cons_True, filter_cons_False by done. cbn. lia.
  - rewrite filter_cons_False, filter_cons_True by done. cbn. lia.
Qed.

Lemma represents_count `{MapRange} seed sn base plen P b :
  represents sn base plen P →
  length (filter (λ e, e.2 = b) (range seed (sn_ips sn))) = size (if b : bool then used P else free P).
Proof.
  intros HR. set (X := if b then used P else free P). change (size X) with (length (elements X)).
  rewrite <-(length_fmap v4str), <-(length_fmap fst). apply Permutation_length, NoDup_Permutation.
  - eapply sublist_NoDup; [apply (NoDup_fst_range seed (sn_ips sn))|].
    apply fmap_sublist, sublist_filter.
  - apply NoDup_fmap_2_strong; [|apply NoDup_elements]. intros x y Hx%elem_of_elements Hy%elem_of_elements.
    apply v4str_inj; apply (rep_u32 HR); apply elem_of_union; subst X; destruct b; auto.
  - intros k. rewrite !list_elem_of_fmap. setoid_rewrite elem_of_elements.
    setoid_rewrite list_elem_of_filter. split.
    + intros ([k' b'] & -> & Hb & Hin). cbn in *. subst b'.
      apply elem_of_range, (rep_lookup _ _ _ _ HR) in Hin as (n & Hn & ->). by exists n.
    + intros (n & -> & Hn). exists (v4str n, b). split; [done|]. split; [done|].
      apply elem_of_range, (rep_lookup _ _ _ _ HR). by exists n.
Qed.

(** ** What single operations keep *)

Lemma AllocateIP_frame `{MapRange} seed name s a a' t err :
  AllocateIP seed name s a = (a', (t, err)) →
  (err = None ∧ ∃ sn, a !! name = Some sn ∧ sn_ips sn !! t = Some false ∧
      a' = <[name := set_ips sn (<[t := true]> (sn_ips sn))]> a) ∨
  (is_Some err ∧ a' = a).
Proof.
  unfold AllocateIP. intros Ho. destruct (a !! name) as [sn|] eqn:Hsn; [|simplify_eq; eauto].
  cbv zeta in Ho. set (d := ParseIP _) in Ho. destruct (Mask_Size _) as [ones bits].
  destruct (IsUnspecified d) eqn:Hun; cbn [negb andb] in Ho.
  - destruct (pick d _) as [ip| |] eqn:Hp; simplify_eq; [|by eauto..].
    left. split; [done|]. exists sn. apply pick_any_Take, elem_of_range in Hp; eauto.
  - destruct (negb _); [simplify_eq; eauto|]. destruct (IP_Equal _ _); [simplify_eq; eauto|].
    rewrite pick_designated, list_to_map_range in Ho by (done || apply NoDup_fst_range).
    destruct (sn_ips sn !! _) as [[]|] eqn:Hl; simplify_eq; eauto 8.
Qed.
