(* ===== verification/IpamSpec.v ===== *)
(** * The IP address manager: its contract

    Sequences of operations on [IPAllocator], the invariant they keep, and the
    theorems its callers rely on. *)

From S2P Require Import Prelude GoNet GoNetFacts Ipam IpamFacts.
Local Open Scope Z_scope.

(** ** Sequences of operations *)

Inductive ipam_op : Type :=
| OpNew (name cidr start end_ : string)
| OpDelete (name : string)
| OpAllocate (seed : nat) (name ip : string)
| OpDeallocate (name ip : string)
| OpRevoke (name ip : string).

Section run.
Context `{MapRange}.

Definition ipam_apply (o : ipam_op) (a : IPAllocator) : IPAllocator :=
  match o with
  | OpNew name cidr start end_ => (NewIPSubnet name cidr start end_ a).1
  | OpDelete name => DeleteIPSubnet name a
  | OpAllocate seed name ip => (AllocateIP seed name ip a).1
  | OpDeallocate name ip => (DeallocateIP name ip a).1
  | OpRevoke name ip => (RevokeIP name ip a).1
  end.

Definition ipam_run (os : list ipam_op) (a : IPAllocator) : IPAllocator :=
  foldl (λ a o, ipam_apply o a) a os.
End run.

(** Subnets are created for IPv4 networks (or for text that is no network). *)
Definition v4_op (o : ipam_op) : bool :=
  match o with
  | OpNew _ cidr _ _ =>
      match ParseCIDR cidr with
      | (_, n, None) => (length (net_Mask n) =? 4)%nat
      | _ => true
      end
  | _ => true
  end.

(** Operations after which [ip] of network [name] may be free again. *)
Definition may_release (name ip : string) (o : ipam_op) : bool :=
  match o with
  | OpNew name' _ _ _ | OpDelete name' => String.eqb name' name
  | OpDeallocate name' ip' | OpRevoke name' ip' => String.eqb name' name && String.eqb ip' ip
  | OpAllocate _ _ _ => false
  end.

(** Every subnet stands for a pool of addresses of its network. *)
Definition well_formed (a : IPAllocator) : Prop :=
  ∀ name sn, a !! name = Some sn → ∃ base plen P, represents sn base plen P.

Definition v4_subnet (sn : IPSubnet) : Prop := length (net_Mask (sn_ipNet sn)) = 4%nat.

(** Every subnet of an IPv4 network does, whatever the others are. *)
Definition v4_well_formed (a : IPAllocator) : Prop :=
  ∀ name sn, a !! name = Some sn → v4_subnet sn → ∃ base plen P, represents sn base plen P.

Definition is_allocated (a : IPAllocator) (name ip : string) : Prop :=
  ∃ sn, a !! name = Some sn ∧ sn_ips sn !! ip = Some true.

(** ** Steps keep the invariant *)

Lemma well_formed_insert a name sn base plen P :
  well_formed a → represents sn base plen P → well_formed (<[name := sn]> a).
Proof.
  intros Hwf HR name' sn' [[-> <-]|[_ Hl]]%lookup_insert_Some; eauto.
Qed.

Section steps.
Context `{MapRange}.

Lemma NewIPSubnet_fresh name cidr start end_ a :
  v4_op (OpNew name cidr start end_) = true →
  (NewIPSubnet name cidr start end_ a).1 = a ∨
  ∃ sn base plen P, (NewIPSubnet name cidr start end_ a).1 = <[name := sn]> a ∧ represents sn base plen P.
Proof using Type.
  unfold v4_op. destruct (ParseCIDR cidr) as [[ip n] [e|]] eqn:Hc; intros H4.
  { unfold NewIPSubnet. rewrite Hc. by left. }
  apply Nat.eqb_eq in H4. pose proof Hc as Hc'.
  apply ParseCIDR_v4 in Hc' as (b & p & Hb & Hp & -> & ->); [|done].
  destruct (To4 (ParseIP start)) eqn:Hs.
  { destruct (NewIPSubnet_bad name cidr b p a Hc Hb Hp start end_) as [err ->]; auto. }
  destruct (To4 (ParseIP end_)) eqn:He.
  { destruct (NewIPSubnet_bad name cidr b p a Hc Hb Hp start end_) as [err ->]; auto. }
  destruct (ParseIP_To4 start) as (s & Hus & Hs'); [congruence|].
  destruct (ParseIP_To4 end_) as (e & Hue & He'); [congruence|].
  pose proof (NewIPSubnet_v4 name cidr b p a Hc Hb Hp start end_ s e Hus Hue Hs' He') as Hnew.
  destruct (range_ok b p s e) eqn:Hok; [|destruct Hnew as [err ->]; by left]. rewrite Hnew.
  apply range_ok_spec in Hok as [? ?]. right. eexists _, _, _, _. split; [done|].
  apply fresh_represents; done || lia.
Qed.

Lemma NewIPSubnet_other name cidr start end_ a :
  v4_op (OpNew name cidr start end_) = false →
  (NewIPSubnet name cidr start end_ a).1 = a ∨
  ∃ sn, (NewIPSubnet name cidr start end_ a).1 = <[name := sn]> a ∧ ¬ v4_subnet sn.
Proof using Type.
  unfold v4_op, NewIPSubnet. destruct (ParseCIDR cidr) as [[ip n] [e|]]; [done|]. intros Hn%Nat.eqb_neq.
  repeat case_match; simpl; eauto.
Qed.

Lemma NewIPSubnet_wf name cidr start end_ a :
  v4_op (OpNew name cidr start end_) = true → well_formed a →
  well_formed (NewIPSubnet name cidr start end_ a).1.
Proof using Type.
  intros [-> |(sn & b & p & P & -> & HR)]%(λ H, NewIPSubnet_fresh name cidr start end_ a H) Hwf; [done|].
  by eapply well_formed_insert.
Qed.

Lemma DeallocateIP_frame name ip a a' err :
  DeallocateIP name ip a = (a', err) →
  (err = None ∧ ∃ sn, a !! name = Some sn ∧ sn_ips sn !! ip = Some true ∧
     a' = <[name := set_ips sn (<[ip := false]> (sn_ips sn))]> a) ∨ (is_Some err ∧ a' = a).
Proof using Type.
  unfold DeallocateIP. destruct (a !! name) as [sn|] eqn:Hsn; [|intros; simplify_eq; eauto].
  destruct (String.eqb ip _); [intros; simplify_eq; eauto|].
  destruct (sn_ips sn !! ip) as [[]|] eqn:Hl; intros; simplify_eq; eauto 8.
Qed.

Lemma ipam_apply_wf o a : v4_op o = true → well_formed a → well_formed (ipam_apply o a).
Proof using Type.
  destruct o as [name cidr start end_|name|seed name ip|name ip|name ip]; intros H4 Hwf; simpl.
  - by apply NewIPSubnet_wf.
  - unfold DeleteIPSubnet. intros name' sn' [_ Hl]%lookup_delete_Some. eauto.
  - destruct (AllocateIP seed name ip a) as [a' [t err]] eqn:Ho.
    destruct (AllocateIP_frame _ _ _ _ _ _ _ Ho) as [(-> & sn & Hsn & Hf & ->)|[_ ->]]; [|done].
    destruct (Hwf _ _ Hsn) as (b & p & P & HR).
    apply (rep_lookup _ _ _ _ HR) in Hf as (n & Hn & ->).
    eapply well_formed_insert; [done|]. by apply (rep_allocate HR).
  - destruct (DeallocateIP name ip a) as [a' err] eqn:Ho.
    destruct (DeallocateIP_frame _ _ _ _ _ Ho) as [(-> & sn & Hsn & Hf & ->)|[_ ->]]; [|done].
    destruct (Hwf _ _ Hsn) as (b & p & P & HR).
    apply (rep_lookup _ _ _ _ HR) in Hf as (n & Hn & ->).
    eapply well_formed_insert; [done|]. by apply (rep_deallocate HR).
  - unfold RevokeIP. destruct (a !! name) as [sn|] eqn:Hsn; [|done].
    destruct (Hwf _ _ Hsn) as (b & p & P & HR).
    destruct (rep_revoke HR ip) as (P' & HR' & _). by eapply well_formed_insert.
Qed.

Lemma ipam_run_wf os a :
  forallb v4_op os = true → well_formed a → well_formed (ipam_run os a).
Proof using Type.
  revert a. induction os as [|o os IH]; intros a H4 Hwf; [done|].
  simpl in H4. apply andb_true_iff in H4 as [Ho Hos]. apply IH; [done|]. by apply ipam_apply_wf.
Qed.

(** The same for the subnets of IPv4 networks, next to any others. *)
Lemma v4_well_formed_set a name sn ips :
  v4_well_formed a → a !! name = Some sn →
  (∀ base plen P, represents sn base plen P → ∃ P', represents (set_ips sn ips) base plen P') →
  v4_well_formed (<[name := set_ips sn ips]> a).
Proof using Type.
  intros Hwf Hsn HR name' sn' [[-> <-]|[_ Hl]]%lookup_insert_Some H4; [|by eapply Hwf].
  destruct (Hwf _ _ Hsn H4) as (b & p & P & HP). destruct (HR _ _ _ HP) as [P' HP']. eauto.
Qed.

Lemma ipam_apply_v4 o a : v4_well_formed a → v4_well_formed (ipam_apply o a).
Proof using Type.
  destruct o as [name cidr start end_|name|seed name ip|name ip|name ip]; intros Hwf; simpl.
  - destruct (v4_op (OpNew name cidr start end_)) eqn:H4.
    + destruct (NewIPSubnet_fresh name cidr start end_ a H4) as [->|(sn & b & p & P & -> & HR)]; [done|].
      intros name' sn' [[-> <-]|[_ Hl]]%lookup_insert_Some; eauto.
    + destruct (NewIPSubnet_other name cidr start end_ a H4) as [->|(sn & -> & Hn)]; [done|].
      intros name' sn' [[-> <-]|[_ Hl]]%lookup_insert_Some; [done|]. by apply Hwf with name'.
  - unfold DeleteIPSubnet. intros name' sn' [_ Hl]%lookup_delete_Some. eauto.
  - destruct (AllocateIP seed name ip a) as [a' [t err]] eqn:Ho.
    destruct (AllocateIP_frame _ _ _ _ _ _ _ Ho) as [(-> & sn & Hsn & Hf & ->)|[_ ->]]; [|done].
    apply v4_well_formed_set; [done..|]. intros b p P HR.
    apply (rep_lookup _ _ _ _ HR) in Hf as (n & Hn & ->). eexists. by apply (rep_allocate HR).
  - destruct (DeallocateIP name ip a) as [a' err] eqn:Ho.
    destruct (DeallocateIP_frame _ _ _ _ _ Ho) as [(-> & sn & Hsn & Hf & ->)|[_ ->]]; [|done].
    apply v4_well_formed_set; [done..|]. intros b p P HR.
    apply (rep_lookup _ _ _ _ HR) in Hf as (n & Hn & ->). eexists. by apply (rep_deallocate HR).
  - unfold RevokeIP. destruct (a !! name) as [sn|] eqn:Hsn; [|done].
    apply v4_well_formed_set; [done..|]. intros b p P HR. destruct (rep_revoke HR ip) as (P' & HR' & _). eauto.
Qed.

Lemma ipam_run_v4 os a : v4_well_formed a → v4_well_formed (ipam_run os a).
Proof using Type. revert a. induction os as [|o os IH]; intros a Hwf; [done|]. by apply IH, ipam_apply_v4. Qed.

Lemma NewIPSubnet_frame name cidr start end_ a name' :
  name' ≠ name → (NewIPSubnet name cidr start end_ a).1 !! name' = a !! name'.
Proof using Type.
  intros Hne. unfold NewIPSubnet. repeat case_match; simpl; try done. by rewrite lookup_insert_ne.
Qed.

(** An address in use stays in use until an operation that may release it. *)
Lemma ipam_apply_keeps o name ip a :
  may_release name ip o = false → is_allocated a name ip → is_allocated (ipam_apply o a) name ip.
Proof using Type.
  intros Hrel (sn & Hsn & Hip).
  destruct o as [name' cidr start end_|name'|seed name' ip'|name' ip'|name' ip']; simpl in *.
  - apply String.eqb_neq in Hrel. exists sn. by rewrite NewIPSubnet_frame.
  - apply String.eqb_neq in Hrel. exists sn. unfold DeleteIPSubnet. by rewrite lookup_delete_ne.
  - destruct (AllocateIP seed name' ip' a) as [a' [t err]] eqn:Ho.
    destruct (AllocateIP_frame _ _ _ _ _ _ _ Ho) as [(-> & sn' & Hsn' & Hf & ->)|[_ ->]]; [|by exists sn].
    destruct (decide (name' = name)) as [->|]; simplify_eq/=.
    + eexists. rewrite lookup_insert_eq. split; [done|]. simpl.
      rewrite lookup_insert_ne by congruence. done.
    + exists sn. by rewrite lookup_insert_ne.
  - destruct (DeallocateIP name' ip' a) as [a' err] eqn:Ho.
    destruct (DeallocateIP_frame _ _ _ _ _ Ho) as [(-> & sn' & Hsn' & Hf & ->)|[_ ->]]; [|by exists sn].
    destruct (decide (name' = name)) as [->|]; [|exists sn; simpl; by rewrite lookup_insert_ne].
    rewrite String.eqb_refl in Hrel. apply String.eqb_neq in Hrel. simplify_eq/=.
    eexists. rewrite lookup_insert_eq. split; [done|]. simpl. by rewrite lookup_insert_ne.
  - unfold RevokeIP. destruct (a !! name') as [sn'|] eqn:Hsn'; [|by exists sn].
    destruct (decide (name' = name)) as [->|]; [|exists sn; simpl; by rewrite lookup_insert_ne].
    rewrite String.eqb_refl in Hrel. apply String.eqb_neq in Hrel. simplify_eq/=.
    eexists. rewrite lookup_insert_eq. split; [done|]. simpl. by rewrite lookup_delete_ne.
Qed.

Lemma ipam_run_keeps os name ip a :
  existsb (may_release name ip) os = false → is_allocated a name ip →
  is_allocated (ipam_run os a) name ip.
Proof using Type.
  revert a. induction os as [|o os IH]; intros a Hrel Hal; [done|].
  simpl in Hrel. apply orb_false_iff in Hrel as [Ho Hos]. apply IH; [done|].
  by apply ipam_apply_keeps.
Qed.
End steps.

(** ** Allocating until nothing is left *)

Lemma move_sizes (F U : gset Z) n :
  n ∈ F → F ## U →
  Z.of_nat (size ({[n]} ∪ U)) = Z.of_nat (size U) + 1 ∧
  Z.of_nat (size (F ∖ {[n]})) = Z.of_nat (size F) - 1.
Proof.
  intros Hn Hd. assert (Hdn : {[n]} ## U) by (intros x ->%elem_of_singleton; by apply Hd).
  assert (Hsub : {[n]} ⊆ F) by (by intros x ->%elem_of_singleton).
  pose proof (subseteq_size _ _ Hsub) as Hle.
  rewrite (size_union _ _ Hdn), (size_difference _ _ Hsub), size_singleton in *. lia.
Qed.

Section allocate_all.
Context `{MapRange}.

(** One [AllocateIP] for any address per seed; the answers in order. *)
Fixpoint allocate_all (seeds : list nat) (name : string) (a : IPAllocator)
    : IPAllocator * list (string * option error) :=
  match seeds with
  | [] => (a, [])
  | seed :: seeds' =>
      let '(a', out) := AllocateIP seed name EmptyString a in
      let '(a'', outs) := allocate_all seeds' name a' in
      (a'', out :: outs)
  end.

Lemma allocate_all_spec seeds name a sn base plen P a' outs :
  a !! name = Some sn → represents sn base plen P → length seeds = size (free P) →
  allocate_all seeds name a = (a', outs) →
  outs.*1 ≡ₚ v4str <$> elements (free P) ∧ Forall (λ o, o.2 = None) outs ∧
  ∃ sn', a' !! name = Some sn' ∧
         represents sn' base plen (mkPool ∅ (free P ∪ used P)).
Proof using Type.
  revert a sn P a' outs. induction seeds as [|seed seeds IH]; intros a sn P a' outs Hsn HR Hlen Hall.
  { cbn in Hall. simplify_eq. symmetry in Hlen. apply size_empty_inv, leibniz_equiv in Hlen.
    split; [by rewrite Hlen, elements_empty|]. split; [done|]. exists sn. split; [done|].
    destruct P as [F U]. cbn in *. subst F. by rewrite union_empty_l_L. }
  cbn in Hall. destruct (AllocateIP_outcome seed name a sn base plen P Hsn HR EmptyString)
    as (P' & r & Hstep & Hout).
  destruct (AllocateIP seed name EmptyString a) as [a1 [t err]].
  destruct (allocate_all seeds name a1) as [a2 outs'] eqn:Hrec. simplify_eq.
  assert (Hreq : request_of EmptyString = Any) by reflexivity. rewrite Hreq in Hstep.
  inversion Hstep as [n Hn|Hempty| | |]; simplify_eq.
  2: { rewrite Hempty, size_empty in Hlen. done. }
  destruct Hout as [Hout (sn1 & Ha1 & HR1)]. cbn in *. simplify_eq.
  assert (Hlen' : length seeds = size (free P ∖ {[n]})).
  { rewrite size_difference, size_singleton by set_solver. lia. }
  destruct (IH _ sn1 _ _ _ (lookup_insert_eq a name sn1) HR1 Hlen' Hrec)
    as (Hperm & Hok & sn' & Hsn' & HR').
  cbn in *. split; [|split; [by constructor|]].
  - rewrite Hperm, <-fmap_cons. apply fmap_Permutation.
    rewrite <-elements_union_singleton by set_solver.
    by rewrite <-union_difference_singleton_L.
  - exists sn'. split; [done|].
    replace (free P ∪ used P) with (free P ∖ {[n]} ∪ ({[n]} ∪ used P)); [done|].
    clear -Hn. apply leibniz_equiv. intros x. destruct (decide (x = n)) as [->|]; set_solver.
Qed.
End allocate_all.

(** ** The contract *)

(** C1: whatever sequence of operations is applied to a new
    allocator, the subnet of every IPv4 network stands for a pool of addresses of that
    network: keys are printed IPv4 addresses inside the network, below the broadcast
    address, and no address is both free and in use.  (Nothing is said of the subnets of
    IPv6 networks, which may be there as well: their broadcast address is not computed.) *)
Theorem ipam_reachable_wf `{MapRange} (os : list ipam_op) (name : string) (sn : IPSubnet) :
  ipam_run os NewIPAllocator !! name = Some sn → v4_subnet sn → ∃ base plen P, represents sn base plen P.
Proof. apply (ipam_run_v4 os). unfold NewIPAllocator. intros name' sn'. by rewrite lookup_empty. Qed.

(** C2: [AllocateIP] implements the abstract allocation step:
    it hands out a free address of the subnet (the requested one, if one is
    requested), marks exactly that address, and otherwise refuses without
    changing anything, which happens only when the address is not free, the
    request is not usable, or nothing is left. *)
Theorem AllocateIP_refines `{MapRange} (seed : nat) (name s : string) (a : IPAllocator)
    (sn : IPSubnet) (base plen : Z) (P : pool) :
  a !! name = Some sn → represents sn base plen P →
  allocate_outcome a name base plen P s (AllocateIP seed name s a).
Proof. intros Hsn HR. by eapply AllocateIP_outcome. Qed.

(** C19: for an IPv4 network, [NewIPSubnet] terminates; it accepts
    exactly the ranges [start..end] of IPv4 addresses inside the network that
    are ordered and end below the broadcast address, and then stores every address
    of the range as free; on any error the allocator is unchanged. *)
Theorem NewIPSubnet_spec (name cidr start end_ : string) (a : IPAllocator) (base plen : Z) :
  ParseCIDR cidr = (mapped base, v4net base plen, None) → u32 base → 0 ≤ plen ≤ 32 →
  ∃ a' r, NewIPSubnet name cidr start end_ a = (a', Val r) ∧
    match r with
    | None => ∃ s e, ParseIP start = mapped s ∧ ParseIP end_ = mapped e ∧
        net_first base plen ≤ s ≤ e ∧ e < net_last base plen ∧
        a' = <[name := fresh_subnet base plen s e]> a
    | Some _ => a' = a ∧ ∀ s e, u32 s → u32 e → ParseIP start = mapped s → ParseIP end_ = mapped e →
        ¬ (net_first base plen ≤ s ≤ e ∧ e < net_last base plen)
    end.
Proof.
  intros Hc Hb Hp. destruct (decide (To4 (ParseIP start) ≠ [] ∧ To4 (ParseIP end_) ≠ [])) as [[Hs He]|Hbad].
  - apply ParseIP_To4 in Hs as (s & Hus & Hs), He as (e & Hue & He).
    pose proof (NewIPSubnet_v4 name cidr base plen a Hc Hb Hp start end_ s e Hus Hue Hs He) as Hnew.
    destruct (range_ok base plen s e) eqn:Hok.
    + apply range_ok_spec in Hok. rewrite Hnew. eexists _, None. split; [done|]. exists s, e. tauto.
    + destruct Hnew as [err ->]. exists a, (Some err). split; [done|]. split; [done|].
      intros s' e' Hus' Hue' Hs' He' Hok'. rewrite Hs in Hs'. rewrite He in He'.
      apply mapped_inj in Hs', He'; [|done..]. subst. apply range_ok_spec in Hok'. congruence.
  - destruct (NewIPSubnet_bad name cidr base plen a Hc Hb Hp start end_) as [err ->].
    { destruct (To4 (ParseIP start)), (To4 (ParseIP end_)); auto. exfalso. by apply Hbad. }
    exists a, (Some err). split; [done|]. split; [done|]. intros s e _ _ Hs He. exfalso. apply Hbad.
    by rewrite Hs, He, !To4_mapped.
Qed.

(** C4: an address handed out by [AllocateIP] is not handed
    out again, to anyone and whatever is asked for, until the address is
    deallocated or revoked or its subnet is deleted or created anew. *)
Theorem no_double_allocation `{MapRange} (seed seed' : nat) (name s s' ip : string)
    (a a' : IPAllocator) (os : list ipam_op) :
  AllocateIP seed name s a = (a', (ip, None)) →
  existsb (may_release name ip) os = false →
  (AllocateIP seed' name s' (ipam_run os a')).2 ≠ (ip, None).
Proof.
  intros Ho Hrel Hagain.
  assert (Hal : is_allocated a' name ip).
  { destruct (AllocateIP_frame _ _ _ _ _ _ _ Ho) as [(_ & sn & Hsn & Hf & ->)|[[? ?] _]]; [|done].
    eexists. rewrite lookup_insert_eq. split; [done|]. simpl. by rewrite lookup_insert_eq. }
  apply (ipam_run_keeps os) in Hal as (sn & Hsn & Hip); [|done].
  destruct (AllocateIP seed' name s' (ipam_run os a')) as [a'' out] eqn:Ho'. simpl in Hagain. subst out.
  destruct (AllocateIP_frame _ _ _ _ _ _ _ Ho') as [(_ & sn' & Hsn' & Hf & _)|[[? ?] _]]; [|done].
  congruence.
Qed.

(** C33: a subnet with [n] free addresses serves exactly
    [n] requests: [n] successive [AllocateIP] succeed, their answers are the free
    addresses, each once, and the next request fails. *)
Theorem allocate_until_exhausted `{MapRange} (seeds : list nat) (seed : nat) (name : string)
    (a a' : IPAllocator) (sn : IPSubnet) (base plen : Z) (P : pool)
    (outs : list (string * option error)) :
  a !! name = Some sn → represents sn base plen P → length seeds = size (free P) →
  allocate_all seeds name a = (a', outs) →
  Forall (λ o, o.2 = None) outs ∧ outs.*1 ≡ₚ v4str <$> elements (free P) ∧ NoDup outs.*1 ∧
  is_Some (AllocateIP seed name EmptyString a').2.2.
Proof.
  intros Hsn HR Hlen Hall.
  destruct (allocate_all_spec _ _ _ _ _ _ _ _ _ Hsn HR Hlen Hall) as (Hperm & Hok & sn' & Hsn' & HR').
  split_and!; [done|done| |].
  - rewrite Hperm. apply NoDup_fmap_2_strong; [|apply NoDup_elements].
    intros x y Hx%elem_of_elements Hy%elem_of_elements. apply v4str_inj; apply (rep_u32 HR); set_solver.
  - destruct (AllocateIP_outcome seed name a' sn' base plen _ Hsn' HR' EmptyString) as (P' & r & Hstep & Hout).
    change (request_of EmptyString) with Any in Hstep.
    inversion Hstep; simplify_eq; [set_solver|by destruct Hout as (_ & _ & Hout)].
Qed.

Lemma v4str_nonempty n : v4str n ≠ EmptyString.
Proof. destruct (v4str_head n) as (b & s & _ & ->). apply dec_octet_nonempty. Qed.

(** After a successful [AllocateIP] the address
    reads as allocated; [DeallocateIP] of the returned text gives back the
    allocator as it was before, and a second [DeallocateIP] is refused. *)
Theorem allocate_deallocate_roundtrip `{MapRange} (seed : nat) (name s ip : string)
    (a a' : IPAllocator) :
  well_formed a → AllocateIP seed name s a = (a', (ip, None)) →
  IsAllocated name ip a' = (true, None) ∧
  DeallocateIP name ip a' = (a, None) ∧
  is_Some (DeallocateIP name ip a).2.
Proof.
  intros Hwf Ho. destruct (AllocateIP_frame _ _ _ _ _ _ _ Ho) as [(_ & sn & Hsn & Hf & ->)|[[? ?] _]]; [|done].
  destruct (Hwf _ _ Hsn) as (b & p & P & HR). pose proof Hf as Hf'.
  apply (rep_lookup _ _ _ _ HR) in Hf' as (n & _ & ->).
  pose proof (v4str_nonempty n) as Hne%String.eqb_neq.
  unfold IsAllocated, DeallocateIP. rewrite !lookup_insert_eq, Hsn, Hne, Hf. cbn [sn_ips set_ips].
  rewrite lookup_insert_eq. split_and!; [done| |by eexists]. f_equal. rewrite !insert_insert_eq.
  rewrite (insert_id (sn_ips sn) (v4str n) false) by done. rewrite insert_id; [done|]. rewrite Hsn. by destruct sn.
Qed.

(** The usage counters are exact: a successful [AllocateIP]
    moves one address from available to used, whatever order the counting loops
    visit the map in, and used plus available is the size of the subnet. *)
Theorem allocate_counts `{MapRange} (seed : nat) (name s ip : string) (a a' : IPAllocator) :
  well_formed a → AllocateIP seed name s a = (a', (ip, None)) →
  ∃ u v, (∀ seed', GetUsed seed' name a = (u, None) ∧ GetAvailable seed' name a = (v, None)) ∧
    (∀ seed', GetUsed seed' name a' = (u + 1, None) ∧ GetAvailable seed' name a' = (v - 1, None)) ∧
    ∀ sn, a !! name = Some sn → u + v = Z.of_nat (size (sn_ips sn)).
Proof.
  intros Hwf Ho. destruct (AllocateIP_frame _ _ _ _ _ _ _ Ho) as [(_ & sn & Hsn & Hf & ->)|[[? ?] _]]; [|done].
  destruct (Hwf _ _ Hsn) as (b & p & P & HR).
  apply (rep_lookup _ _ _ _ HR) in Hf as (n & Hn & ->). pose proof (rep_allocate HR n Hn) as HR'.
  exists (Z.of_nat (size (used P))), (Z.of_nat (size (free P))).
  unfold GetUsed, GetAvailable. rewrite lookup_insert_eq, Hsn. split_and!.
  - intros seed'. rewrite GetUsed_count, GetAvailable_count.
    by rewrite (represents_count seed' _ _ _ _ true HR), (represents_count seed' _ _ _ _ false HR).
  - intros seed'. rewrite GetUsed_count, GetAvailable_count.
    rewrite (represents_count seed' _ _ _ _ true HR'), (represents_count seed' _ _ _ _ false HR').
    cbn [used free]. destruct (move_sizes (free P) (used P) n Hn (rep_disjoint HR)) as [-> ->].
    split; f_equal; lia.
  - intros sn' [= <-]. rewrite <-(length_range seed (sn_ips sn)), <-length_filter_split.
    by rewrite (represents_count seed _ _ _ _ true HR), (represents_count seed _ _ _ _ false HR), Nat2Z.inj_add.
Qed.

(** ** Concrete runs *)

(** 192.168.0.0/24 with the range .10 to .12. *)
Definition demo_net : Z := 3232235520.
Definition demo_subnet : IPSubnet := fresh_subnet demo_net 24 (demo_net + 10) (demo_net + 12).
Definition demo_pool : pool := mkPool (list_to_set (seqZ (demo_net + 10) 3)) ∅.
Definition demo_ipam : IPAllocator := {[ "default/net-1" := demo_subnet ]}.

Lemma demo_represents : represents demo_subnet demo_net 24 demo_pool.
Proof. apply fresh_represents; by vm_compute. Qed.

Lemma demo_well_formed : well_formed demo_ipam.
Proof.
  unfold demo_ipam. intros name sn [<- <-]%lookup_singleton_Some. exists demo_net, 24, demo_pool. apply demo_represents.
Qed.

Definition demo_ops : list ipam_op :=
  [OpNew "default/net-1" "192.168.0.0/24" "192.168.0.10" "192.168.0.12";
   OpRevoke "default/net-1" "192.168.0.10"; OpAllocate 0 "default/net-1" "192.168.0.11";
   OpAllocate 1 "default/net-1" "192.168.0.11"; OpAllocate 2 "default/net-1" "";
   OpDeallocate "default/net-1" "192.168.0.11"; OpNew "default/net-2" "10.0.0.0/8" "x" "10.0.0.5"].

(** An IPv6 network among the operations. *)
Definition mixed_ops : list ipam_op := OpNew "default/net-6" "fd00::/64" "fd00::1" "fd00::3" :: demo_ops.

Lemma v4_subnet_at (a : IPAllocator) name :
  option_map (λ sn, length (net_Mask (sn_ipNet sn))) (a !! name) = Some 4%nat → ∃ sn, a !! name = Some sn ∧ v4_subnet sn.
Proof. destruct (a !! name) as [sn|]; [|done]. intros [= H4]. by exists sn. Qed.

Lemma ipam_reachable_wf_witness :
  bool_decide (is_Some (@ipam_run canonical_range mixed_ops NewIPAllocator !! "default/net-6")) = true ∧
  ∃ sn base plen P, @ipam_run canonical_range mixed_ops NewIPAllocator !! "default/net-1" = Some sn ∧
    represents sn base plen P.
Proof.
  split; [vm_compute; reflexivity|].
  destruct (v4_subnet_at (@ipam_run canonical_range mixed_ops NewIPAllocator) "default/net-1") as (sn & Hl & H4).
  { vm_compute. reflexivity. }
  destruct (@ipam_reachable_wf canonical_range mixed_ops "default/net-1" sn Hl H4) as (b & p & P & HR).
  exists sn, b, p, P. exact (conj Hl HR).
Defined.

Lemma AllocateIP_refines_witness :
  allocate_outcome demo_ipam "default/net-1" demo_net 24 demo_pool "192.168.0.11"
    (@AllocateIP canonical_range 0 "default/net-1" "192.168.0.11" demo_ipam) ∧
  (@AllocateIP canonical_range 0 "default/net-1" "192.168.0.11" demo_ipam).2 = ("192.168.0.11", None).
Proof.
  split; [|vm_compute; reflexivity].
  apply (@AllocateIP_refines canonical_range 0 "default/net-1" "192.168.0.11" demo_ipam demo_subnet
           demo_net 24 demo_pool); [reflexivity|apply demo_represents].
Defined.

Lemma NewIPSubnet_spec_witness :
  ∃ a' r, NewIPSubnet "default/net-1" "192.168.0.0/24" "192.168.0.10" "192.168.0.12" ∅ = (a', Val r) ∧
    match r with
    | None => ∃ s e, ParseIP "192.168.0.10" = mapped s ∧ ParseIP "192.168.0.12" = mapped e ∧
        net_first demo_net 24 ≤ s ≤ e ∧ e < net_last demo_net 24 ∧
        a' = <["default/net-1" := fresh_subnet demo_net 24 s e]> ∅
    | Some _ => a' = ∅ ∧ ∀ s e, u32 s → u32 e → ParseIP "192.168.0.10" = mapped s →
        ParseIP "192.168.0.12" = mapped e →
        ¬ (net_first demo_net 24 ≤ s ≤ e ∧ e < net_last demo_net 24)
    end.
Proof.
  apply (NewIPSubnet_spec "default/net-1" "192.168.0.0/24" "192.168.0.10" "192.168.0.12" ∅ demo_net 24);
    by vm_compute.
Defined.

Lemma no_double_allocation_witness :
  (@AllocateIP canonical_range 1 "default/net-1" ""
    (@ipam_run canonical_range
       [OpDeallocate "default/net-1" "192.168.0.12"; OpDelete "default/net-2"]
       (@AllocateIP canonical_range 0 "default/net-1" "192.168.0.11" demo_ipam).1)).2
  ≠ ("192.168.0.11", None).
Proof.
  eapply (@no_double_allocation canonical_range 0 1 "default/net-1" "192.168.0.11" "" "192.168.0.11"
            demo_ipam); vm_compute; reflexivity.
Defined.

Lemma allocate_until_exhausted_witness :
  let r := @allocate_all canonical_range [0; 1; 2]%nat "default/net-1" demo_ipam in
  Forall (λ o, o.2 = None) r.2 ∧ r.2.*1 ≡ₚ v4str <$> elements (free demo_pool) ∧ NoDup r.2.*1 ∧
  is_Some (@AllocateIP canonical_range 3 "default/net-1" EmptyString r.1).2.2.
Proof.
  cbv zeta. apply (@allocate_until_exhausted canonical_range [0; 1; 2]%nat 3 "default/net-1" demo_ipam _
    demo_subnet demo_net 24 demo_pool); [reflexivity|apply demo_represents|vm_compute; reflexivity|].
  apply surjective_pairing.
Defined.

Lemma allocate_deallocate_roundtrip_witness :
  let a' := (@AllocateIP canonical_range 0 "default/net-1" "192.168.0.11" demo_ipam).1 in
  IsAllocated "default/net-1" "192.168.0.11" a' = (true, None) ∧
  DeallocateIP "default/net-1" "192.168.0.11" a' = (demo_ipam, None) ∧
  is_Some (DeallocateIP "default/net-1" "192.168.0.11" demo_ipam).2.
Proof.
  cbv zeta. apply (@allocate_deallocate_roundtrip canonical_range 0 "default/net-1" "192.168.0.11");
    [apply demo_well_formed|vm_compute; reflexivity].
Defined.

Lemma allocate_counts_witness :
  let a' := (@AllocateIP canonical_range 0 "default/net-1" "192.168.0.11" demo_ipam).1 in
  ∃ u v, (∀ seed', @GetUsed canonical_range seed' "default/net-1" demo_ipam = (u, None) ∧
                   @GetAvailable canonical_range seed' "default/net-1" demo_ipam = (v, None)) ∧
    (∀ seed', @GetUsed canonical_range seed' "default/net-1" a' = (u + 1, None) ∧
              @GetAvailable canonical_range seed' "default/net-1" a' = (v - 1, None)) ∧
    ∀ sn, demo_ipam !! "default/net-1" = Some sn → u + v = Z.of_nat (size (sn_ips sn)).
Proof.
  cbv zeta. apply (@allocate_counts canonical_range 0 "default/net-1" "192.168.0.11" "192.168.0.11");
    [apply demo_well_formed|vm_compute; reflexivity].
Defined.
