(* ===== verification/MapStore.v ===== *)
(** * Stores of Go maps in shared memory

    Both allocators keep a map from network names to structs ([H]), each with a reference
    to a map of its own (values [V]).  This file has the accesses to such memory as code
    of [Goroutines], the representation of the sequential model's store ([gmap string E])
    in it, and what the accesses do when they run on their own. *)

From S2P Require Import Prelude Goroutines Guarded.

(** The structs: [row_ref] is the reference inside; [row_is h e] compares the other fields
    with the model's entry, whose map is [row_map]. *)
Class Row (H V E : Type) := {
  row_zero : H;
  row_ref : H → option nat;
  row_is : H → E → Prop;
  row_map : E → gmap string V;
  row_set : E → gmap string V → E;
  row_zero_ref : row_ref row_zero = None;
  row_is_set h e m : row_is h e → row_is h (row_set e m);
  row_map_set e m : row_map (row_set e m) = m;
}.

Section store.
Context {H V E : Type} `{!Row H V E}.

Record Memory : Type := mkMemory {
  table : gmap string H;
  maps : gmap nat (gmap string V);
}.

(** The maps of the store. *)
Inductive Loc : Type :=
| Table
| Inner (l : nat).

Definition contents (s : Memory) (l : nat) : gmap string V := default ∅ (maps s !! l).
Definition set_maps (s : Memory) (l : nat) (m : gmap string V) : Memory :=
  mkMemory (table s) (<[l := m]> (maps s)).

(** Code on this memory; the result may be a panic. *)
Definition store_go (A : Type) : Type := code Memory Loc (res A).
#[export] Instance store_go_MRet : MRet store_go := code_MRet.
#[export] Instance store_go_MBind : MBind store_go := code_MBind.

(** [a.table[name]], and [_, exists := a.table[name]] *)
Definition row (name : string) : store_go H :=
  Read Table (λ s, Ret (Val (default row_zero (table s !! name)))).
Definition row_exists (name : string) : store_go bool :=
  Read Table (λ s, Ret (Val (bool_decide (is_Some (table s !! name))))).

Definition deref {A} (p : option A) : store_go A :=
  match p with
  | Some a => Ret (Val a)
  | None => Ret (Panic "invalid memory address or nil pointer dereference")
  end.

(** [m[k]] with its presence; a nil map is empty. *)
Definition entry (m : option nat) (k : string) : store_go (option V) :=
  match m with
  | Some l => Read (Inner l) (λ s, Ret (Val (contents s l !! k)))
  | None => mret None
  end.

(** [m[k] = v], [delete(m, k)] and [len(m)] *)
Definition assign (m : option nat) (k : string) (v : V) : store_go () :=
  match m with
  | Some l => Write (Inner l) (λ s, set_maps s l (<[k := v]> (contents s l))) (Ret (Val ()))
  | None => Ret (Panic "assignment to entry in nil map")
  end.
Definition remove (m : option nat) (k : string) : store_go () :=
  match m with
  | Some l => Write (Inner l) (λ s, set_maps s l (delete k (contents s l))) (Ret (Val ()))
  | None => mret ()
  end.
Definition length_of (m : option nat) : store_go Z :=
  match m with
  | Some l => Read (Inner l) (λ s, Ret (Val (Z.of_nat (size (contents s l)))))
  | None => mret 0%Z
  end.

(** [a.table[name] = T{.., make(map)}] with the new map's contents, and
    [delete(a.table, name)] *)
Definition publish (name : string) (h : nat → H) (m : gmap string V) (s : Memory) : Memory :=
  let l := fresh (dom (maps s)) in mkMemory (<[name := h l]> (table s)) (<[l := m]> (maps s)).
Definition unpublish (name : string) (s : Memory) : Memory := mkMemory (delete name (table s)) (maps s).

(** [for k, v := range m { body }]: the order is fixed when the loop starts, the entry is
    looked up at each iteration and skipped when it is gone.  The body continues ([inl])
    or returns ([inr]). *)
Definition keys `{MapRange} (seed : nat) (m : option nat) : store_go (list string) :=
  match m with
  | Some l => Read (Inner l) (λ s, Ret (Val (range seed (contents s l)).*1))
  | None => mret []
  end.

Fixpoint visit {X R} (m : option nat) (ks : list string) (body : string → V → X → store_go (X + R)) (acc : X)
  : store_go (X + R) :=
  match ks with
  | [] => mret (inl acc)
  | k :: ks' =>
      e ← entry m k;
      match e with
      | None => visit m ks' body acc
      | Some v =>
          r ← body k v acc;
          match r with inl acc' => visit m ks' body acc' | inr ret => mret (inr ret) end
      end
  end.

(** The result of a loop that does not return from within. *)
Definition finished {X} (r : X + Empty_set) : X :=
  match r with inl x => x | inr e => match e with end end.

(** ** Representation *)

Definition stored (s : Memory) (h : H) (e : E) : Prop :=
  row_is h e ∧ ∃ l, row_ref h = Some l ∧ maps s !! l = Some (row_map e).

(** Every entry has a map of its own. *)
Record map_view (s : Memory) (a : gmap string E) : Prop := {
  view_stored name : option_relation (stored s) (λ _, False) (λ _, False) (table s !! name) (a !! name);
  view_apart n1 n2 h1 h2 l :
    table s !! n1 = Some h1 → table s !! n2 = Some h2 → row_ref h1 = Some l → row_ref h2 = Some l → n1 = n2;
}.

Lemma view_none s a name : map_view s a → a !! name = None → table s !! name = None.
Proof using Type.
  intros Hv Ha. pose proof (view_stored _ _ Hv name) as Hn. rewrite Ha in Hn. by destruct (table s !! name).
Qed.

Lemma view_some s a name e : map_view s a → a !! name = Some e →
  ∃ h l, table s !! name = Some h ∧ row_is h e ∧ row_ref h = Some l ∧ maps s !! l = Some (row_map e).
Proof using Type.
  intros Hv Ha. pose proof (view_stored _ _ Hv name) as Hn. rewrite Ha in Hn.
  destruct (table s !! name) as [h|]; [|done]. destruct Hn as (? & l & ? & ?). eauto 8.
Qed.

(** Changing the map of one entry changes that entry alone. *)
Lemma view_set_maps s a name h e l m :
  map_view s a → table s !! name = Some h → a !! name = Some e → row_ref h = Some l →
  map_view (set_maps s l m) (<[name := row_set e m]> a).
Proof using Type.
  intros Hv Hs Ha Hl. constructor; simpl; [|apply Hv]. intros name'.
  pose proof (view_stored _ _ Hv name') as Hn. destruct (decide (name' = name)) as [->|Hne].
  - rewrite Hs, Ha in Hn. rewrite Hs, lookup_insert_eq. destruct Hn as [? _]. split; [by apply row_is_set|].
    exists l. simpl. by rewrite lookup_insert_eq, row_map_set.
  - rewrite lookup_insert_ne by done. destruct (table s !! name') as [h'|] eqn:Hs', (a !! name') as [e'|]; try done.
    destruct Hn as (? & l' & Hl' & Hm). split; [done|]. exists l'. split; [done|]. simpl.
    rewrite lookup_insert_ne; [done|]. intros ->. destruct Hne. by eapply (view_apart _ _ Hv).
Qed.

Lemma view_publish s a name h e :
  map_view s a → (∀ l, row_is (h l) e ∧ row_ref (h l) = Some l) →
  map_view (publish name h (row_map e) s) (<[name := e]> a).
Proof using Type.
  intros Hv Hh. assert (Hfresh : maps s !! fresh (dom (maps s)) = None) by apply not_elem_of_dom, is_fresh.
  assert (Hold : ∀ n h', table s !! n = Some h' → row_ref h' ≠ Some (fresh (dom (maps s)))).
  { intros n h' Hs Hl. pose proof (view_stored _ _ Hv n) as Hn. rewrite Hs in Hn.
    destruct (a !! n); [|done]. destruct Hn as (_ & l & ? & ?). congruence. }
  constructor; simpl.
  - intros name'. pose proof (view_stored _ _ Hv name') as Hn. destruct (decide (name' = name)) as [->|Hne].
    + rewrite !lookup_insert_eq. destruct (Hh (fresh (dom (maps s)))). split; [done|]. eexists. split; [done|].
      simpl. by rewrite lookup_insert_eq.
    + rewrite !lookup_insert_ne by done. destruct (table s !! name') as [h'|], (a !! name') as [e'|]; try done.
      destruct Hn as (? & l & ? & Hl). split; [done|]. exists l. split; [done|]. simpl.
      rewrite lookup_insert_ne; [done|]. intros <-. congruence.
  - intros n1 n2 h1 h2 l. destruct (decide (n1 = name)) as [->|H1], (decide (n2 = name)) as [->|H2];
      rewrite ?lookup_insert_eq, ?lookup_insert_ne by done; [done| | |by eapply (view_apart _ _ Hv)].
    + intros [= <-] Hs Hl Hl'. rewrite (proj2 (Hh _)) in Hl. injection Hl as <-. by destruct (Hold _ _ Hs).
    + intros Hs [= <-] Hl Hl'. rewrite (proj2 (Hh _)) in Hl'. injection Hl' as <-. by destruct (Hold _ _ Hs).
Qed.

Lemma view_unpublish s a name : map_view s a → map_view (unpublish name s) (delete name a).
Proof using Type.
  intros Hv. constructor; simpl.
  - intros name'. pose proof (view_stored _ _ Hv name') as Hn. destruct (decide (name' = name)) as [->|Hne].
    + by rewrite !lookup_delete_eq.
    + by rewrite !lookup_delete_ne by done.
  - intros n1 n2 h1 h2 l [_ ?]%lookup_delete_Some [_ ?]%lookup_delete_Some. by eapply (view_apart _ _ Hv).
Qed.

(** ** Running the accesses *)

Lemma run_mbind {A B} (c : store_go A) (f : A → store_go B) s :
  run (c ≫= f) s = match run c s with
                    | (s', Val a) => run (f a) s'
                    | (s', Panic w) => (s', Panic w)
                    | (s', Diverge) => (s', Diverge)
                    end.
Proof using Type.
  unfold mbind, store_go_MBind, code_MBind. rewrite run_followed_by. by destruct (run c s) as [s' [a|w|]].
Qed.

Lemma run_bind_val {A B} (c : store_go A) (f : A → store_go B) s s' a :
  run c s = (s', Val a) → run (c ≫= f) s = run (f a) s'.
Proof using Type. intros Hc. by rewrite run_mbind, Hc. Qed.

Lemma run_row s name h : table s !! name = Some h → run (row name) s = (s, Val h).
Proof using Type. intros Hs. simpl. by rewrite Hs. Qed.

Lemma run_found s name h : table s !! name = Some h → run (row_exists name) s = (s, Val true).
Proof using Type. intros Hs. simpl. by rewrite Hs. Qed.

Lemma run_missing s name : table s !! name = None → run (row_exists name) s = (s, Val false).
Proof using Type. intros Hs. simpl. by rewrite Hs. Qed.

Lemma run_entry s l k m : maps s !! l = Some m → run (entry (Some l) k) s = (s, Val (m !! k)).
Proof using Type. intros Hm. simpl. unfold contents. by rewrite Hm. Qed.

Lemma run_assign s l k v m : maps s !! l = Some m → run (assign (Some l) k v) s = (set_maps s l (<[k := v]> m), Val ()).
Proof using Type. intros Hm. simpl. unfold contents. by rewrite Hm. Qed.

Lemma run_remove s l k m : maps s !! l = Some m → run (remove (Some l) k) s = (set_maps s l (delete k m), Val ()).
Proof using Type. intros Hm. simpl. unfold contents. by rewrite Hm. Qed.

Lemma run_keys `{MapRange} s l seed m : maps s !! l = Some m → run (keys seed (Some l)) s = (s, Val (range seed m).*1).
Proof using Type. intros Hm. simpl. unfold contents. by rewrite Hm. Qed.

Lemma run_length s l m : maps s !! l = Some m → run (length_of (Some l)) s = (s, Val (Z.of_nat (size m))).
Proof using Type. intros Hm. simpl. unfold contents. by rewrite Hm. Qed.

(** A loop that leaves the memory alone folds over the entries. *)
Lemma run_visit {X R} s l m (body : string → V → X → store_go (X + R)) (g : X → string * V → X) es acc :
  maps s !! l = Some m → (∀ k v, (k, v) ∈ es → m !! k = Some v) →
  (∀ k v x, run (body k v x) s = (s, Val (inl (g x (k, v))))) →
  run (visit (Some l) es.*1 body acc) s = (s, Val (inl (foldl g acc es))).
Proof using Type.
  intros Hm Hes Hb. revert acc. induction es as [|[k v] es IH]; intros acc; [done|].
  cbn [fmap list_fmap visit foldl]. erewrite run_bind_val by by eapply run_entry.
  change ((k, v).1) with k. rewrite (Hes k v) by left.
  rewrite (run_bind_val _ _ _ _ _ (Hb k v acc)). apply IH. intros k' v' Hin. apply Hes. by right.
Qed.

Lemma run_copy `{MapRange} {R B} s l m (f : V → B) seed :
  maps s !! l = Some m →
  run (visit (R := R) (Some l) (range seed m).*1 (λ k v c, mret (inl (<[k := f v]> c))) (∅ : gmap string B)) s =
  (s, Val (inl (f <$> m))).
Proof using Type.
  intros Hm. rewrite (run_visit _ _ _ _ (λ c '(k, v), <[k := f v]> c) _ _ Hm); [|intros k v; by rewrite elem_of_range|done].
  rewrite foldl_copy; [|apply NoDup_fst_range|done]. by rewrite list_to_map_range, (right_id_L ∅ (∪)).
Qed.

(** ** The contract of a method's body *)

(** [c] does on memory what [f] does on the store. *)
Definition implements {A} (c : store_go A) (f : gmap string E → gmap string E * A) : Prop :=
  ∀ s a, map_view s a → map_view (run c s).1 (f a).1 ∧ (run c s).2 = Val (f a).2.

(** A method that only reads. *)
Definition answers {A} (c : store_go A) (f : gmap string E → A) : Prop :=
  ∀ s a, map_view s a → run c s = (s, Val (f a)).

Lemma answers_implements {A} (c : store_go A) (f : gmap string E → A) : answers c f → implements c (λ a, (a, f a)).
Proof using Type. intros Hc s a Hv. by rewrite (Hc s a Hv). Qed.

(** The answer wrapped in the type of all answers. *)
Lemma implements_wrap {A B} (c : store_go A) f (g : A → B) s a :
  implements c f → map_view s a →
  let p := run (r ← c; mret (g r)) s in map_view p.1 (f a).1 ∧ p.2 = Val (g (f a).2).
Proof using Type.
  intros Hc Hv. cbn zeta. destruct (Hc s a Hv) as [H1 H2]. rewrite run_mbind.
  destruct (run c s) as [s' r]. simpl in H1, H2. by subst r.
Qed.

(** The first check of every method. *)
Lemma implements_missing {A} name (c : store_go A) (r : A) s a :
  map_view s a → a !! name = None →
  run (found ← row_exists name; if negb found then mret r else c) s = (s, Val r).
Proof using Type. intros Hv Ha. by rewrite (run_bind_val _ _ _ _ _ (run_missing _ _ (view_none _ _ _ Hv Ha))). Qed.

(** ** The discipline of the mutex *)

Lemma within_mbind {A B} w (c : store_go A) (f : A → store_go B) :
  within w c → (∀ a, within w (f a)) → within w (c ≫= f).
Proof using Type. intros Hc Hf. apply within_followed_by; [done|]. by intros [a|?|]. Qed.

Lemma within_visit {X R} w m ks (body : string → V → X → store_go (X + R)) acc :
  (∀ k v x, within w (body k v x)) → within w (visit m ks body acc).
Proof using Type.
  intros Hb. revert acc. induction ks as [|k ks IH]; intros acc; [done|]. cbn [visit].
  apply within_mbind; [by destruct m|]. intros [v|]; [|done]. apply within_mbind; [apply Hb|]. by intros [x|r].
Qed.
End store.
Arguments Memory : clear implicits.
Arguments store_go : clear implicits.

(** Running a body access by access. *)
Ltac run_step :=
  erewrite run_bind_val by
    first [ by eapply run_found | by eapply run_row | by eapply run_entry | by eapply run_assign
          | by eapply run_remove | by eapply run_keys | by eapply run_length | by eapply run_copy | reflexivity ];
  cbn [negb deref].

(** That a body keeps to the discipline. *)
Ltac solve_within :=
  repeat first
    [ progress intros
    | done
    | apply within_visit
    | apply within_mbind
    | case_match ];
  try (unfold entry, assign, remove, length_of, keys, deref; simpl; case_match; naive_solver).
