(* ===== verification/IpamThreads.v ===== *)
(** * The IP address manager under concurrent calls ([pkg/ipam])

    The methods of [IPAllocator] access by access: [a.ipam[name]] reads the map of
    subnets, each time it is written down; the map of addresses inside a subnet is
    reached through a reference.  The methods that take the mutex discharge [Guarded]
    against the sequential model of [Ipam]; [NewIPSubnet], [DeleteIPSubnet] and
    [IsNetworkInitialized] take no mutex. *)

From S2P Require Import Prelude Goroutines Guarded MapStore GoNet GoNetFacts Ipam IpamFacts IpamSpec.
Local Open Scope Z_scope.

(** ** Memory *)

(** An [IPSubnet] value: [ipNet] is a pointer, [ips] a reference to a map; both are nil
    in the zero value. *)
Record Subnet : Type := mkSubnet {
  ipNet : option IPNet;
  start : list Z;
  end_ : list Z;
  broadcast : list Z;
  ips : option nat;
}.

Definition Subnet_zero : Subnet := mkSubnet None [] [] [] None.

(** The subnet but for its map. *)
Definition same_subnet (h : Subnet) (sn : IPSubnet) : Prop :=
  ipNet h = Some (sn_ipNet sn) ∧ start h = sn_start sn ∧ end_ h = sn_end sn ∧ broadcast h = sn_broadcast sn.

#[export] Instance Subnet_row : Row Subnet bool IPSubnet := {|
  row_zero := Subnet_zero;
  row_ref := ips;
  row_is := same_subnet;
  row_map := sn_ips;
  row_set := set_ips;
  row_zero_ref := eq_refl;
  row_is_set h e m H := H;
  row_map_set e m := eq_refl;
|}.

Abbreviation ipam_memory := (Memory Subnet bool).
#[local] Abbreviation go := (store_go Subnet bool).

(** [a.ipam[name]], and [_, exists := a.ipam[name]] *)
Definition subnet (name : string) : go Subnet := row name.
Definition network_exists (name : string) : go bool := row_exists name.

Section methods.
Context `{MapRange}.

(** ** Methods under the mutex *)

(** [a.ipam[name].ips[ip] = true; return ip, nil] *)
Definition take_entry (name ip : string) : go (() + (string * option error)) :=
  sn ← subnet name;
  _ ← assign (ips sn) ip true;
  mret (inr (ip, None)).

Definition allocate_entry (name : string) (designatedIP : list Z) (ip : string) (isAllocated : bool) (_ : ())
    : go (() + (string * option error)) :=
  if negb (IsUnspecified designatedIP) then
    if String.eqb ip (IP_String designatedIP) then
      if isAllocated then
        mret (inr (IP_String IPv4zero, Some (Errorf "designated ip %s is already allocated" [IP_String designatedIP])))
      else take_entry name ip
    else mret (inl ())
  else if negb isAllocated then take_entry name ip
  else mret (inl ()).

Definition AllocateIP_body (seed : nat) (name ipAddress : string) : go (string * option error) :=
  found ← network_exists name;
  if negb found then mret (EmptyString, Some (network_missing name))
  else
    let ipAddress := if String.eqb ipAddress EmptyString then IP_String IPv4zero else ipAddress in
    let designatedIP := ParseIP ipAddress in
    let zero := IP_String IPv4zero in
    refused ←
      (if negb (IsUnspecified designatedIP) then
         sn ← subnet name;
         net ← deref (ipNet sn);
         if negb (Contains net designatedIP) then
           sn ← subnet name;
           net ← deref (ipNet sn);
           let '(subnetMask, _) := Mask_Size (net_Mask net) in
           sn ← subnet name;
           net ← deref (ipNet sn);
           mret (Some (Errorf "designated ip %s is not in subnet %s/%d"
                         [IP_String designatedIP; IP_String (net_IP net); pretty subnetMask]))
         else
           sn ← subnet name;
           if IP_Equal (broadcast sn) designatedIP then
             sn ← subnet name;
             mret (Some (Errorf "designated ip %s equals broadcast ip address %s"
                           [IP_String designatedIP; IP_String (broadcast sn)]))
           else mret None
       else mret None : go (option error));
    match refused with
    | Some err => mret (zero, Some err)
    | None =>
        sn ← subnet name;
        ks ← keys seed (ips sn);
        r ← visit (ips sn) ks (allocate_entry name designatedIP) ();
        match r with
        | inr ret => mret ret
        | inl _ => mret (zero, Some (Errorf "no more ip addresses left in network %s ipam" [name]))
        end
    end.

Definition DeallocateIP_body (name ipAddress : string) : go (option error) :=
  found ← network_exists name;
  if negb found then mret (Some (network_missing name))
  else if String.eqb ipAddress EmptyString then mret (Some (Errorf "designated ip is empty" []))
  else
    sn ← subnet name;
    e ← entry (ips sn) ipAddress;
    match e with
    | None => mret (Some (Errorf "to-be-deallocated ip %s was not found in network %s ipam" [ipAddress; name]))
    | Some false => mret (Some (Errorf "to-be-deallocated ip %s was not allocated" [ipAddress]))
    | Some true =>
        sn ← subnet name;
        _ ← assign (ips sn) ipAddress false;
        mret None
    end.

Definition RevokeIP_body (name ipAddress : string) : go (option error) :=
  found ← network_exists name;
  if negb found then mret (Some (network_missing name))
  else
    sn ← subnet name;
    _ ← remove (ips sn) ipAddress;
    mret None.

Definition IsAllocated_body (name ipAddress : string) : go (bool * option error) :=
  found ← network_exists name;
  if negb found then mret (false, Some (network_missing name))
  else
    sn ← subnet name;
    e ← entry (ips sn) ipAddress;
    match e with
    | None => mret (false, Some (Errorf "ip %s was not found in network %s ipam" [ipAddress; name]))
    | Some isAllocated => mret (isAllocated, None)
    end.

(** [GetUsed] and [GetAvailable] count the entries that are in use, or not. *)
Definition count_body (what : bool → bool) (seed : nat) (name : string) : go (Z * option error) :=
  found ← network_exists name;
  if negb found then mret (0, Some (network_missing name))
  else
    sn ← subnet name;
    ks ← keys seed (ips sn);
    r ← visit (R := Empty_set) (ips sn) ks (λ _ isAllocated n, mret (inl (if what isAllocated then n + 1 else n))) 0;
    mret (finished r, None).
Definition GetUsed_body : nat → string → go (Z * option error) := count_body (λ isAllocated, isAllocated).
Definition GetAvailable_body : nat → string → go (Z * option error) := count_body negb.

(** The first log line prints the subnet; what is returned here is the rest. *)
Definition GetUsage_body (seed : nat) (name : string) : go ((list string * (Z * Z * Z)) * option error) :=
  found ← network_exists name;
  if negb found then mret (([], (0, 0, 0)), Some (network_missing name))
  else
    sn ← subnet name; _ ← deref (ipNet sn);
    sn ← subnet name; _ ← deref (ipNet sn);
    _ ← subnet name; _ ← subnet name; _ ← subnet name;
    sn ← subnet name;
    ks ← keys seed (ips sn);
    r ← visit (R := Empty_set) (ips sn) ks
          (λ ip isAllocated '(lines, used),
             mret (inl (if isAllocated : bool then (lines ++ [ip], used + 1) else (lines, used)))) ([], 0);
    let '(lines, used) := finished r in
    sn ← subnet name; total ← length_of (ips sn);
    sn ← subnet name; total' ← length_of (ips sn);
    mret ((lines, (total, used, total' - used)), None).

Definition ListAll_body (seed : nat) (name : string) : go (option (gmap string string) * option error) :=
  found ← network_exists name;
  if negb found then mret (None, Some (network_missing name))
  else
    sn ← subnet name;
    _ ← length_of (ips sn);
    sn ← subnet name;
    ks ← keys seed (ips sn);
    r ← visit (R := Empty_set) (ips sn) ks (λ ip isAllocated m, mret (inl (<[ip := FormatBool isAllocated]> m))) ∅;
    mret (Some (finished r), None).
End methods.

(** ** Methods that take no mutex *)

(** The new subnet, its map at [l]. *)
Definition subnet_of (sn : IPSubnet) (l : nat) : Subnet :=
  mkSubnet (Some (sn_ipNet sn)) (sn_start sn) (sn_end sn) (sn_broadcast sn) (Some l).

(** All but the last line of [NewIPSubnet] touches local values only; the new subnet is
    published with a map of its own. *)
Definition NewIPSubnet_code (name cidr start end_ : string) : go (option error) :=
  match NewIPSubnet name cidr start end_ ∅ with
  | (a, Val None) =>
      match a !! name with
      | Some sn => Write Table (publish name (subnet_of sn) (sn_ips sn)) (Ret (Val None))
      | None => mret None
      end
  | (_, err) => Ret err
  end.

Definition DeleteIPSubnet_code (name : string) : go () :=
  Write Table (unpublish name) (Ret (Val ())).

Definition IsNetworkInitialized_code (name : string) : go bool := network_exists name.

(** ** Calls *)

Inductive LockedCall : Type :=
| CallAllocateIP (seed : nat) (name ipAddress : string)
| CallDeallocateIP (name ipAddress : string)
| CallRevokeIP (name ipAddress : string)
| CallIsAllocated (name ipAddress : string)
| CallGetUsed (seed : nat) (name : string)
| CallGetAvailable (seed : nat) (name : string)
| CallGetUsage (seed : nat) (name : string)
| CallListAll (seed : nat) (name : string).

Inductive Answer : Type :=
| AnAddress (ip : string) (err : option error)
| AnError (err : option error)
| ABool (b : bool) (err : option error)
| ANumber (n : Z) (err : option error)
| AUsage (u : list string * (Z * Z * Z)) (err : option error)
| AMap (m : option (gmap string string)) (err : option error).

Section calls.
Context `{MapRange}.

Definition call_writes (op : LockedCall) : bool :=
  match op with
  | CallAllocateIP _ _ _ | CallDeallocateIP _ _ | CallRevokeIP _ _ => true
  | _ => false
  end.

Definition call_body (op : LockedCall) : go Answer :=
  match op with
  | CallAllocateIP seed name ip => p ← AllocateIP_body seed name ip; mret (AnAddress p.1 p.2)
  | CallDeallocateIP name ip => err ← DeallocateIP_body name ip; mret (AnError err)
  | CallRevokeIP name ip => err ← RevokeIP_body name ip; mret (AnError err)
  | CallIsAllocated name ip => p ← IsAllocated_body name ip; mret (ABool p.1 p.2)
  | CallGetUsed seed name => p ← GetUsed_body seed name; mret (ANumber p.1 p.2)
  | CallGetAvailable seed name => p ← GetAvailable_body seed name; mret (ANumber p.1 p.2)
  | CallGetUsage seed name => p ← GetUsage_body seed name; mret (AUsage p.1 p.2)
  | CallListAll seed name => p ← ListAll_body seed name; mret (AMap p.1 p.2)
  end.

(** The sequential model's answer. *)
Definition call_apply (op : LockedCall) (a : IPAllocator) : IPAllocator * res Answer :=
  match op with
  | CallAllocateIP seed name ip =>
      let p := AllocateIP seed name ip a in (p.1, Val (AnAddress p.2.1 p.2.2))
  | CallDeallocateIP name ip => let p := DeallocateIP name ip a in (p.1, Val (AnError p.2))
  | CallRevokeIP name ip => let p := RevokeIP name ip a in (p.1, Val (AnError p.2))
  | CallIsAllocated name ip => let p := IsAllocated name ip a in (a, Val (ABool p.1 p.2))
  | CallGetUsed seed name => let p := GetUsed seed name a in (a, Val (ANumber p.1 p.2))
  | CallGetAvailable seed name => let p := GetAvailable seed name a in (a, Val (ANumber p.1 p.2))
  | CallGetUsage seed name => let p := GetUsage seed name a in (a, Val (AUsage p.1 p.2))
  | CallListAll seed name => let p := ListAll name a in (a, Val (AMap p.1 p.2))
  end.

(** ** The methods do what the model does *)

Ltac go_step := run_step; cbn [ips ipNet broadcast subnet_of].

Lemma subnet_some (s : ipam_memory) (a : IPAllocator) name sn : map_view s a → a !! name = Some sn →
  ∃ l, table s !! name = Some (subnet_of sn l) ∧ maps s !! l = Some (sn_ips sn).
Proof using Type.
  intros Hv Ha. destruct (view_some _ _ _ _ Hv Ha) as (h & l & Hs & (H1 & H2 & H3 & H4) & Hl & Hm).
  exists l. destruct h. simpl in *. unfold subnet_of. by subst.
Qed.

Lemma subnet_set_maps (s : ipam_memory) (a : IPAllocator) name sn l m :
  map_view s a → table s !! name = Some (subnet_of sn l) → a !! name = Some sn →
  map_view (set_maps s l m) (<[name := set_ips sn m]> a).
Proof using Type. intros Hv Hs Ha. exact (view_set_maps s a name _ sn l m Hv Hs Ha eq_refl). Qed.

Ltac missing_case Hv Ha := pose proof (view_none _ _ _ Hv Ha); unfold network_exists; erewrite run_bind_val by (by eapply run_missing); done.

(** The loop of [AllocateIP] makes the choice of the sequential model. *)
Lemma run_allocate_loop s name sub l m d es :
  table s !! name = Some sub → ips sub = Some l → maps s !! l = Some m → (∀ k v, (k, v) ∈ es → m !! k = Some v) →
  run (visit (Some l) es.*1 (allocate_entry name d) ()) s =
  match pick d es with
  | Take ip => (set_maps s l (<[ip := true]> m), Val (inr (ip, None)))
  | AlreadyAllocated =>
      (s, Val (inr (IP_String IPv4zero, Some (Errorf "designated ip %s is already allocated" [IP_String d]))))
  | Exhausted => (s, Val (inl ()))
  end.
Proof using Type.
  intros Hs Hl Hm. induction es as [|[k v] es IH]; intros Hes; [done|].
  cbn [fmap list_fmap visit pick]. erewrite run_bind_val by by eapply run_entry.
  change ((k, v).1) with k. rewrite (Hes k v) by left.
  assert (Hrest : ∀ k v, (k, v) ∈ es → m !! k = Some v) by (intros ???; apply Hes; by right).
  assert (Htake : ∀ f : _ → go (() + (string * option error)), run (take_entry name k ≫= f) s =
    run (f (inr (k, None))) (set_maps s l (<[k := true]> m))).
  { intros f. apply run_bind_val. unfold take_entry. erewrite run_bind_val by by eapply run_row.
    rewrite Hl. by erewrite run_bind_val by by eapply run_assign. }
  assert (He : allocate_entry name d k v () =
    if negb (IsUnspecified d) then
      if String.eqb k (IP_String d) then
        if v then mret (inr (IP_String IPv4zero, Some (Errorf "designated ip %s is already allocated" [IP_String d])))
        else take_entry name k
      else mret (inl ())
    else if negb v then take_entry name k else mret (inl ())) by done.
  rewrite He. destruct (IsUnspecified d); cbn [negb].
  - destruct v; cbn [negb]; [by apply IH|by rewrite Htake].
  - destruct (String.eqb k (IP_String d)); [|by apply IH]. destruct v; [done|by rewrite Htake].
Qed.

Lemma AllocateIP_implements seed name ip : implements (AllocateIP_body seed name ip) (AllocateIP seed name ip).
Proof using Type.
  intros s a Hv. unfold AllocateIP, AllocateIP_body.
  destruct (a !! name) as [sn|] eqn:Ha; [|missing_case Hv Ha].
  destruct (subnet_some _ _ _ _ Hv Ha) as (l & Hs & Hm). go_step.
  set (text := if String.eqb ip EmptyString then IP_String IPv4zero else ip). set (d := ParseIP text).
  assert (Hloop : ∀ refused, run refused s = (s, Val None) →
    let p := run (refused ← refused;
      match refused with
      | Some err => mret (IP_String IPv4zero, Some err)
      | None =>
          sn ← subnet name;
          ks ← keys seed (ips sn);
          r ← visit (ips sn) ks (allocate_entry name d) ();
          match r with
          | inr ret => mret ret
          | inl _ => mret (IP_String IPv4zero, Some (Errorf "no more ip addresses left in network %s ipam" [name]))
          end
      end) s in
    let q := match pick d (range seed (sn_ips sn)) with
      | Take ip => (<[name := set_ips sn (<[ip := true]> (sn_ips sn))]> a, (ip, None))
      | AlreadyAllocated =>
          (a, (IP_String IPv4zero, Some (Errorf "designated ip %s is already allocated" [IP_String d])))
      | Exhausted =>
          (a, (IP_String IPv4zero, Some (Errorf "no more ip addresses left in network %s ipam" [name])))
      end in
    map_view p.1 q.1 ∧ p.2 = Val q.2).
  { intros refused Hr. cbn zeta. rewrite (run_bind_val _ _ _ _ _ Hr). go_step. go_step.
    rewrite run_mbind. rewrite (run_allocate_loop s name _ l _ d _ Hs eq_refl Hm);
      [|intros k v; by rewrite elem_of_range].
    destruct (pick d (range seed (sn_ips sn))) as [k| |]; [|done..]. split; [|done].
    by eapply subnet_set_maps. }
  fold text. fold d.
  destruct (IsUnspecified d); cbn [negb andb]; [by apply Hloop|].
  destruct (Contains (sn_ipNet sn) d) eqn:Hc; cbn [negb].
  - destruct (IP_Equal (sn_broadcast sn) d) eqn:Hb.
    + erewrite run_bind_val; [|go_step; go_step; rewrite Hc; cbn [negb]; go_step; rewrite Hb; go_step; done]. done.
    + apply Hloop. go_step. go_step. rewrite Hc. cbn [negb]. go_step. by rewrite Hb.
  - destruct (Mask_Size (net_Mask (sn_ipNet sn))) as [sz bits] eqn:Hz.
    erewrite run_bind_val;
      [|go_step; go_step; rewrite Hc; cbn [negb]; go_step; go_step; rewrite Hz; go_step; go_step; done]. done.
Qed.

Lemma DeallocateIP_implements name ip : implements (DeallocateIP_body name ip) (DeallocateIP name ip).
Proof using Type.
  intros s a Hv. unfold DeallocateIP, DeallocateIP_body.
  destruct (a !! name) as [sn|] eqn:Ha; [|missing_case Hv Ha].
  destruct (subnet_some _ _ _ _ Hv Ha) as (l & Hs & Hm). go_step.
  destruct (String.eqb ip EmptyString); [done|]. go_step. go_step.
  destruct (sn_ips sn !! ip) as [[]|]; [|done..]. go_step. go_step. split; [|done]. by eapply subnet_set_maps.
Qed.

Lemma RevokeIP_implements name ip : implements (RevokeIP_body name ip) (RevokeIP name ip).
Proof using Type.
  intros s a Hv. unfold RevokeIP, RevokeIP_body.
  destruct (a !! name) as [sn|] eqn:Ha; [|missing_case Hv Ha].
  destruct (subnet_some _ _ _ _ Hv Ha) as (l & Hs & Hm). go_step. go_step. go_step.
  split; [|done]. by eapply subnet_set_maps.
Qed.

Lemma IsAllocated_answers name ip : answers (IsAllocated_body name ip) (IsAllocated name ip).
Proof using Type.
  intros s a Hv. unfold IsAllocated, IsAllocated_body.
  destruct (a !! name) as [sn|] eqn:Ha; [|missing_case Hv Ha].
  destruct (subnet_some _ _ _ _ Hv Ha) as (l & Hs & Hm). do 3 go_step. by destruct (sn_ips sn !! ip).
Qed.

Lemma count_answers what seed name :
  answers (count_body what seed name) (λ a, match a !! name with
    | None => (0, Some (network_missing name))
    | Some sn => (foldl (λ n '(_, isAllocated), if what isAllocated then n + 1 else n) 0 (range seed (sn_ips sn)), None)
    end).
Proof using Type.
  intros s a Hv. unfold count_body. destruct (a !! name) as [sn|] eqn:Ha; [|missing_case Hv Ha].
  destruct (subnet_some _ _ _ _ Hv Ha) as (l & Hs & Hm). do 3 go_step.
  erewrite run_bind_val; [|eapply (run_visit _ _ _ _ (λ n '(_, isAllocated), if what isAllocated then n + 1 else n));
    [done|intros k v; by rewrite elem_of_range|done]]. done.
Qed.

Lemma GetUsage_answers seed name : answers (GetUsage_body seed name) (GetUsage seed name).
Proof using Type.
  intros s a Hv. unfold GetUsage, GetUsage_body. destruct (a !! name) as [sn|] eqn:Ha; [|missing_case Hv Ha].
  destruct (subnet_some _ _ _ _ Hv Ha) as (l & Hs & Hm). do 10 go_step.
  erewrite run_bind_val; [|eapply (run_visit _ _ _ _
    (λ '(lines, used) '(ip, isAllocated), if isAllocated : bool then (lines ++ [ip], used + 1) else (lines, used)));
    [done|intros k v; by rewrite elem_of_range|by intros k [] []]].
  assert (Hfold : ∀ es lines used, foldl (λ '(lines, used) '(ip, isAllocated),
      if isAllocated : bool then (lines ++ [ip], used + 1) else (lines, used)) (lines, used) es =
    (lines ++ (filter (λ e : string * bool, e.2 = true) es).*1,
     used + Z.of_nat (length (filter (λ e : string * bool, e.2 = true) es).*1))).
  { intros es. induction es as [|[k []] es IH]; intros lines used; simpl.
    - rewrite app_nil_r. f_equal. lia.
    - rewrite IH, <-app_assoc. simpl. f_equal. unfold fmap. lia.
    - by rewrite IH. }
  rewrite Hfold. cbn [app finished]. do 4 go_step. done.
Qed.

Lemma ListAll_answers seed name : answers (ListAll_body seed name) (ListAll name).
Proof using Type.
  intros s a Hv. unfold ListAll, ListAll_body. destruct (a !! name) as [sn|] eqn:Ha; [|missing_case Hv Ha].
  destruct (subnet_some _ _ _ _ Hv Ha) as (l & Hs & Hm). do 6 go_step. done.
Qed.

(** ** The store is guarded *)

Lemma call_body_within op : within (call_writes op) (call_body op).
Proof using Type.
  destruct op; cbn [call_writes call_body];
    unfold AllocateIP_body, DeallocateIP_body, RevokeIP_body, IsAllocated_body, GetUsed_body, GetAvailable_body,
      count_body, GetUsage_body, ListAll_body, allocate_entry, take_entry; solve_within.
Qed.

Definition ipam_view : ipam_memory → IPAllocator → Prop := map_view.

Lemma call_body_run op s a : ipam_view s a →
  ipam_view (run (call_body op) s).1 (call_apply op a).1 ∧ (run (call_body op) s).2 = (call_apply op a).2.
Proof using Type.
  intros Hv. destruct op as [seed name ip|name ip|name ip|name ip|seed name|seed name|seed name|seed name];
    cbn [call_body call_apply].
  - apply (implements_wrap _ _ (λ p, AnAddress p.1 p.2) _ _ (AllocateIP_implements seed name ip) Hv).
  - apply (implements_wrap _ _ AnError _ _ (DeallocateIP_implements name ip) Hv).
  - apply (implements_wrap _ _ AnError _ _ (RevokeIP_implements name ip) Hv).
  - apply (implements_wrap _ _ (λ p, ABool p.1 p.2) _ _ (answers_implements _ _ (IsAllocated_answers name ip)) Hv).
  - apply (implements_wrap _ _ (λ p, ANumber p.1 p.2) _ _ (answers_implements _ _ (count_answers _ seed name)) Hv).
  - apply (implements_wrap _ _ (λ p, ANumber p.1 p.2) _ _ (answers_implements _ _ (count_answers _ seed name)) Hv).
  - apply (implements_wrap _ _ (λ p, AUsage p.1 p.2) _ _ (answers_implements _ _ (GetUsage_answers seed name)) Hv).
  - apply (implements_wrap _ _ (λ p, AMap p.1 p.2) _ _ (answers_implements _ _ (ListAll_answers seed name)) Hv).
Qed.

#[export] Instance ipam_guarded : Guarded ipam_memory Loc IPAllocator LockedCall (res Answer) := {|
  writes := call_writes;
  body := call_body;
  apply := call_apply;
  view := ipam_view;
  body_within := call_body_within;
  body_run := call_body_run;
|}.

(** Every call, with or without the mutex. *)
Inductive Call : Type :=
| Locked (op : LockedCall)
| CallNewIPSubnet (name cidr start end_ : string)
| CallDeleteIPSubnet (name : string)
| CallIsNetworkInitialized (name : string).

Definition call_code (c : Call) : go Answer :=
  match c with
  | Locked op => method op
  | CallNewIPSubnet name cidr start end_ => err ← NewIPSubnet_code name cidr start end_; mret (AnError err)
  | CallDeleteIPSubnet name => _ ← DeleteIPSubnet_code name; mret (AnError None)
  | CallIsNetworkInitialized name => b ← IsNetworkInitialized_code name; mret (ABool b None)
  end.

(** A subnet that is created is stored. *)
Lemma NewIPSubnet_stores name cidr start end_ :
  (NewIPSubnet name cidr start end_ ∅).2 = Val None → is_Some ((NewIPSubnet name cidr start end_ ∅).1 !! name).
Proof using Type.
  unfold NewIPSubnet. repeat case_match; simpl; try done. by rewrite lookup_insert_eq.
Qed.

(** Run on its own, [NewIPSubnet] is the sequential model's. *)
Lemma NewIPSubnet_implements name cidr start end_ s a :
  ipam_view s a →
  ipam_view (run (NewIPSubnet_code name cidr start end_) s).1 (NewIPSubnet name cidr start end_ a).1 ∧
  (run (NewIPSubnet_code name cidr start end_) s).2 = (NewIPSubnet name cidr start end_ a).2.
Proof using Type.
  intros Hv. unfold NewIPSubnet_code, NewIPSubnet. destruct (ParseCIDR cidr) as [[ip net] [e|]]; [done|].
  destruct (negb (Contains net (ParseIP start))); [done|]. destruct (negb (Contains net (ParseIP end_))); [done|].
  destruct (AddrFromSlice (ParseIP start)) as [sa []]; [|done].
  destruct (AddrFromSlice (ParseIP end_)) as [ea []]; [|done]. cbn [negb].
  destruct (0 <? Compare sa ea); [done|]. destruct (IP_Equal _ _); [done|].
  destruct (expand_range _ _ _ _) as [m|]; [|done]. rewrite lookup_insert_eq. simpl. split; [|done].
  set (sn := mkIPSubnet _ _ _ _ m). exact (view_publish s a name (subnet_of sn) sn Hv (λ l, conj (conj eq_refl (conj eq_refl (conj eq_refl eq_refl))) eq_refl)).
Qed.

Lemma DeleteIPSubnet_implements name s a :
  ipam_view s a → ipam_view (run (DeleteIPSubnet_code name) s).1 (DeleteIPSubnet name a).
Proof using Type. apply (view_unpublish s a name). Qed.

(** ** No address twice *)

(** The addresses of [name] that calls have returned. *)
Definition granted_by (name : string) (p : LockedCall * res Answer) : option string :=
  match p with
  | (CallAllocateIP _ n _, Val (AnAddress ip None)) => if String.eqb n name then Some ip else None
  | _ => None
  end.
Definition granted (name : string) (tr : list (event LockedCall (res Answer))) : list string :=
  omap (granted_by name) (completed tr).

(** A call that releases nothing in [name]. *)
Definition keeps (name : string) (op : LockedCall) : bool :=
  match op with
  | CallDeallocateIP n _ | CallRevokeIP n _ => negb (String.eqb n name)
  | _ => true
  end.

Lemma call_apply_keeps op name ip a :
  keeps name op = true → is_allocated a name ip → is_allocated (call_apply op a).1 name ip.
Proof using Type.
  assert (Hne : ∀ n, negb (String.eqb n name) = true → String.eqb n name && String.eqb ip ip = false).
  { intros n Hn. apply negb_true_iff in Hn. by rewrite Hn. }
  intros Hk Hal. destruct op as [seed n i|n i|n i|n i|seed n|seed n|seed n|seed n]; simpl in *; try done.
  - by apply (ipam_apply_keeps (OpAllocate seed n i)).
  - apply (ipam_apply_keeps (OpDeallocate n i)); [|done]. simpl. apply negb_true_iff in Hk. by rewrite Hk.
  - apply (ipam_apply_keeps (OpRevoke n i)); [|done]. simpl. apply negb_true_iff in Hk. by rewrite Hk.
Qed.

Definition ipam_atomic : Type := atomic (A := IPAllocator) (Op := LockedCall) (R := res Answer).

(** Goroutine [t] was given [ip] and has not returned yet. *)
Definition holds_answer (name : string) (tr : list (event LockedCall (res Answer))) (α : ipam_atomic) (t : nat) (ip : string) : Prop :=
  (∃ seed s, (observed tr).1 !! t = Some (CallAllocateIP seed name s)) ∧
  calls α !! t = Some (inr (Val (AnAddress ip None))).

Record granting (name : string) (tr : list (event LockedCall (res Answer))) (α : ipam_atomic) : Prop := {
  gr_open t op : calls α !! t = Some (inl op) → (observed tr).1 !! t = Some op;
  gr_keeps t op : (observed tr).1 !! t = Some op → keeps name op = true;
  gr_distinct : NoDup (granted name tr);
  gr_taken ip : ip ∈ granted name tr → is_allocated (object α) name ip;
  gr_held t ip : holds_answer name tr α t ip → is_allocated (object α) name ip ∧ ip ∉ granted name tr;
  gr_apart t1 t2 ip : holds_answer name tr α t1 ip → holds_answer name tr α t2 ip → t1 = t2;
  gr_called t : is_Some (calls α !! t) → is_Some ((observed tr).1 !! t);
}.

(** The effect of one call: the address it is given was free. *)
Lemma call_apply_fresh seed name s a ip :
  (call_apply (CallAllocateIP seed name s) a).2 = Val (AnAddress ip None) →
  ¬ is_allocated a name ip ∧ is_allocated (call_apply (CallAllocateIP seed name s) a).1 name ip.
Proof using Type.
  simpl. destruct (AllocateIP seed name s a) as [a' [t err]] eqn:Ho. simpl. intros [= -> ->].
  destruct (AllocateIP_frame _ _ _ _ _ _ _ Ho) as [(_ & sn & Hsn & Hf & ->)|[[? ?] _]]; [|done]. split.
  - intros (sn' & Hsn' & ?). congruence.
  - eexists. rewrite lookup_insert_eq. split; [done|]. simpl. by rewrite lookup_insert_eq.
Qed.

Lemma granted_by_Some name op r ip :
  granted_by name (op, r) = Some ip → ∃ seed s, op = CallAllocateIP seed name s ∧ r = Val (AnAddress ip None).
Proof using Type.
  destruct op as [seed n i|n i|n i|n i|seed n|seed n|seed n|seed n], r as [[i' []| | | | |]| |]; try done.
  simpl. destruct (String.eqb_spec n name) as [->|]; [|done]. intros [= ->]. eauto.
Qed.

Lemma granted_Respond name tr t r op :
  (observed tr).1 !! t = Some op →
  granted name (tr ++ [Respond t r]) = granted name tr ++ option_list (granted_by name (op, r)).
Proof using Type.
  intros Ho. unfold granted, completed. rewrite observed_snoc. simpl. rewrite Ho. simpl.
  rewrite omap_app. f_equal.
Qed.

Lemma granted_Invoke name tr t op : granted name (tr ++ [Invoke t op]) = granted name tr.
Proof using Type. unfold granted, completed. by rewrite observed_snoc. Qed.

Lemma granting_invoke name tr (α : ipam_atomic) t op :
  granting name tr α → keeps name op = true → calls α !! t = None →
  granting name (tr ++ [Invoke t op]) (mkAtomic (object α) (<[t := inl op]> (calls α))).
Proof using Type.
  intros [H1 H2 H3 H4 H5 H6 H7] Hk Hn.
  assert (Hold : ∀ t' ip, holds_answer name (tr ++ [Invoke t op]) (mkAtomic (object α) (<[t := inl op]> (calls α))) t' ip →
    holds_answer name tr α t' ip).
  { intros t' ip [(seed & s & Ho) Hc]. rewrite observed_snoc in Ho. simpl in *.
    destruct (decide (t' = t)) as [->|Hne]; [by rewrite lookup_insert_eq in Hc|].
    rewrite lookup_insert_ne in Ho by done. rewrite lookup_insert_ne in Hc by done. split; eauto. }
  constructor; simpl; rewrite ?granted_Invoke; try done.
  - intros t' op'. rewrite observed_snoc. simpl. destruct (decide (t' = t)) as [->|Hne].
    + rewrite !lookup_insert_eq. congruence.
    + rewrite !lookup_insert_ne by done. apply H1.
  - intros t' op'. rewrite observed_snoc. simpl. destruct (decide (t' = t)) as [->|Hne].
    + rewrite lookup_insert_eq. congruence.
    + rewrite lookup_insert_ne by done. apply H2.
  - intros t' ip H'. apply (H5 t'). auto.
  - intros t1 t2 ip Ht1 Ht2. apply (H6 t1 t2 ip); auto.
  - intros t'. rewrite observed_snoc. simpl. destruct (decide (t' = t)) as [->|Hne]; [by rewrite !lookup_insert_eq|].
    rewrite !lookup_insert_ne by done. apply H7.
Qed.

Lemma granting_effect name tr (α : ipam_atomic) t op :
  granting name tr α → calls α !! t = Some (inl op) →
  granting name tr (mkAtomic (apply op (object α)).1 (<[t := inr (apply op (object α)).2]> (calls α))).
Proof using Type.
  intros [H1 H2 H3 H4 H5 H6 H7] Hop. pose proof (H1 _ _ Hop) as Hobs. pose proof (H2 _ _ Hobs) as Hkop.
  set (β := mkAtomic (apply op (object α)).1 (<[t := inr (apply op (object α)).2]> (calls α))).
  assert (Hnew : ∀ ip, holds_answer name tr β t ip → ¬ is_allocated (object α) name ip ∧ is_allocated (object β) name ip).
  { intros ip [(seed & s & Ho) Hc]. simpl in Hc. rewrite lookup_insert_eq in Hc. injection Hc as Hc.
    rewrite Hobs in Ho. injection Ho as ->. by apply call_apply_fresh. }
  assert (Hold : ∀ t' ip, t' ≠ t → holds_answer name tr β t' ip → holds_answer name tr α t' ip).
  { intros t' ip Hne [Ho Hc]. simpl in Hc. rewrite lookup_insert_ne in Hc by done. by split. }
  assert (Hkeep : ∀ ip, is_allocated (object α) name ip → is_allocated (object β) name ip).
  { intros ip. by apply call_apply_keeps. }
  assert (Hclash : ∀ t' ip, t' ≠ t → holds_answer name tr β t' ip → ¬ holds_answer name tr β t ip).
  { intros t' ip Hne Ht' Ht. destruct (Hnew _ Ht) as [[] _]. by apply (H5 t'), Hold. }
  constructor; try done.
  - intros t' op'. simpl. destruct (decide (t' = t)) as [->|Hne]; [by rewrite lookup_insert_eq|].
    rewrite lookup_insert_ne by done. apply H1.
  - auto.
  - intros t' ip Ht'. destruct (decide (t' = t)) as [->|Hne].
    + destruct (Hnew _ Ht'). split; [done|]. naive_solver.
    + destruct (H5 t' ip) as [? ?]; auto.
  - intros t1 t2 ip Ht1 Ht2. destruct (decide (t1 = t)) as [->|Hn1], (decide (t2 = t)) as [->|Hn2]; [done| | |].
    + by destruct (Hclash t2 ip).
    + by destruct (Hclash t1 ip).
    + apply (H6 t1 t2 ip); auto.
  - intros t'. simpl. destruct (decide (t' = t)) as [->|Hne]; [eauto|]. rewrite lookup_insert_ne by done. apply H7.
Qed.

Lemma granting_respond name tr (α : ipam_atomic) t r :
  granting name tr α → calls α !! t = Some (inr r) →
  granting name (tr ++ [Respond t r]) (mkAtomic (object α) (delete t (calls α))).
Proof using Type.
  intros [H1 H2 H3 H4 H5 H6 H7] Hr. destruct (H7 t) as [op Hop]; [eauto|]. pose proof (granted_Respond name tr t r op Hop) as Hgr.
  assert (Hobs : ∀ t', (observed (tr ++ [Respond t r])).1 !! t' = delete t (observed tr).1 !! t').
  { intros t'. rewrite observed_snoc. simpl. by rewrite Hop. }
  assert (Hmine : ∀ ip, granted_by name (op, r) = Some ip → holds_answer name tr α t ip).
  { intros ip (seed & s & -> & ->)%granted_by_Some. split; eauto. }
  assert (Hold : ∀ t' ip, holds_answer name (tr ++ [Respond t r]) (mkAtomic (object α) (delete t (calls α))) t' ip →
    t' ≠ t ∧ holds_answer name tr α t' ip).
  { intros t' ip [(seed & s & Ho) Hc]. rewrite Hobs in Ho. simpl in *. apply lookup_delete_Some in Ho as [? ?].
    split; [done|]. rewrite lookup_delete_ne in Hc by done. split; eauto. }
  constructor; simpl; rewrite ?Hgr.
  - intros t' op'. rewrite Hobs. intros [? ?]%lookup_delete_Some. rewrite lookup_delete_ne by done. auto.
  - intros t' op'. rewrite Hobs. intros [_ ?]%lookup_delete_Some. eauto.
  - apply NoDup_app. split; [done|]. destruct (granted_by name (op, r)) as [ip|] eqn:Hip; simpl; [|split; [set_solver|constructor]].
    split; [|apply NoDup_singleton]. intros ip' Hin ->%list_elem_of_singleton. by destruct (H5 t ip (Hmine _ eq_refl)).
  - intros ip [?|Hin]%elem_of_app; [auto|]. destruct (granted_by name (op, r)) as [ip'|] eqn:Hip; [|by apply elem_of_nil in Hin].
    apply list_elem_of_singleton in Hin as ->. by destruct (H5 t ip' (Hmine _ eq_refl)).
  - intros t' ip [Hne Ht']%Hold. destruct (H5 t' ip Ht') as [? Hnin]. split; [done|].
    intros [?|Hin]%elem_of_app; [done|]. destruct (granted_by name (op, r)) as [ip'|] eqn:Hip; [|by apply elem_of_nil in Hin].
    apply list_elem_of_singleton in Hin as ->. destruct Hne. by apply (H6 t' t ip'), Hmine.
  - intros t1 t2 ip [_ ?]%Hold [_ ?]%Hold. eauto.
  - intros t'. rewrite Hobs. destruct (decide (t' = t)) as [->|Hne]; [rewrite !lookup_delete_eq; by intros []|].
    rewrite !lookup_delete_ne by done. apply H7.
Qed.

Lemma granting_exec name a tr (α : ipam_atomic) :
  (∀ t op, Invoke t op ∈ tr → keeps name op = true) →
  exec atomic_step (atomic_start a) tr α → granting name tr α.
Proof using Type.
  intros Hk He. remember (atomic_start a) as α0 eqn:Hα0.
  induction He as [α|α tr α' l α'' He IH Hstep]; subst.
  - assert (Hno : ∀ t x, calls (atomic_start a : ipam_atomic) !! t = Some x → False).
    { intros t x. simpl. by rewrite lookup_empty. }
    constructor.
    + intros t op Hc. by destruct (Hno _ _ Hc).
    + intros t op. unfold observed. simpl. by rewrite lookup_empty.
    + constructor.
    + intros ip Hip. by apply elem_of_nil in Hip.
    + intros t ip [_ Hc]. by destruct (Hno _ _ Hc).
    + intros t1 t2 ip [_ Hc]. by destruct (Hno _ _ Hc).
    + intros t [x Hc]. by destruct (Hno _ _ Hc).
  - assert (Hg : granting name tr α') by (apply IH; [set_solver|done]).
    destruct Hstep as [α t op Hn|α t op Hop|α t r Hr]; simpl.
    + apply granting_invoke; [done| |done]. apply (Hk t). set_solver.
    + rewrite app_nil_r. by apply granting_effect.
    + by apply granting_respond.
Qed.
End calls.
