(* ===== verification/IpamThreadsFacts.v ===== *)
(** * The IP address manager under concurrent calls: what holds and what does not

    The calls that take the mutex behave as the sequential model's operations, one after
    the other; the calls that change the set of subnets race with every one of them. *)

From S2P Require Import Prelude Goroutines Guarded MapStore GoNet GoNetFacts Ipam IpamFacts IpamSpec IpamThreads.

Section facts.
Context `{MapRange}.

(** C3: goroutines calling [AllocateIP], [DeallocateIP], [RevokeIP],
    [IsAllocated], [GetUsed], [GetAvailable], [GetUsage] and [ListAll] in any number and
    interleaved in any way, one access to the maps or to the mutex at a time, see what
    some sequence of the sequential model's operations answers, each taking effect between
    its call and its return; once none is under way the maps represent the result of that
    sequence; no two of these goroutines ever race for a map; and the calls never deadlock.
    These are the methods that take the mutex.  [NewIPSubnet], [DeleteIPSubnet] and
    [IsNetworkInitialized] do not and are no [LockedCall]: for them see
    [subnet_changes_race]. *)
Theorem ipam_linearizable (s : ipam_memory) (a : IPAllocator) (tr : list (event LockedCall (res Answer)))
    (σ : system ipam_memory Loc (res Answer)) :
  ipam_view s a → exec (sys_step method) (sys_start s) tr σ →
  (∃ α, exec atomic_step (atomic_start a) tr α ∧
     (threads σ = ∅ → ipam_view (memory (sys_shared σ)) (object α) ∧ calls α = ∅)) ∧
  ¬ racy σ ∧
  (threads σ ≠ ∅ → ∃ l σ', sys_step method σ l σ' ∧ ∀ t op, l ≠ Some (Invoke t op)).
Proof. intros Hv He. exact (guarded_correct (Guarded0 := ipam_guarded) s a tr σ Hv He). Qed.

(** C11: as long as goroutines call only methods that take the
    mutex ([LockedCall]) and none of these calls releases an address of a network, the
    addresses [AllocateIP] returned for that network are pairwise distinct, however the
    calls interleave.  (A [NewIPSubnet] or [DeleteIPSubnet] in between is not covered: it
    replaces the network's addresses, see [rebuild_frees_taken_address] in
    [HandlerCallsFacts].) *)
Theorem concurrent_no_double_allocation (s : ipam_memory) (a : IPAllocator) (name : string)
    (tr : list (event LockedCall (res Answer))) (σ : system ipam_memory Loc (res Answer)) :
  ipam_view s a → exec (sys_step method) (sys_start s) tr σ →
  (∀ t op, Invoke t op ∈ tr → keeps name op = true) →
  NoDup (granted name tr).
Proof.
  intros Hv He Hk. destruct (linearization (Guarded0 := ipam_guarded) s a tr σ Hv He) as (α & Hα & _).
  eapply gr_distinct, granting_exec; eauto.
Qed.

(** The first access of every call under the mutex reads the map of subnets. *)
Lemma locked_reads op : ∃ w c k, method op = critical w c ∧ c = Read Table k.
Proof. exists (call_writes op), (call_body op). destruct op; by eexists. Qed.

(** Calls that change the map of subnets without the mutex. *)
Definition changes_subnets (c : Call) : Prop :=
  match c with
  | CallNewIPSubnet name cidr start end_ => (NewIPSubnet name cidr start end_ ∅).2 = Val None
  | CallDeleteIPSubnet _ => True
  | _ => False
  end.

Lemma changes_writes c : changes_subnets c → ∃ f k, call_code c = Write Table f k.
Proof.
  destruct c as [op|name cidr start end_|name|name]; simpl; try done; [|by eexists _, _].
  intros Hc. unfold NewIPSubnet_code. pose proof (NewIPSubnet_stores name cidr start end_) as Hs.
  destruct (NewIPSubnet name cidr start end_ ∅) as [a r]. simpl in *. subst r.
  destruct (Hs eq_refl) as [sn ->]. by eexists _, _.
Qed.

(** A goroutine that creates or deletes a subnet (of any network)
    while another is in any call that holds the mutex reaches a state in which one is
    about to write the map of subnets and the other to read it: a data race, which Go ends
    with a fatal error. *)
Theorem subnet_changes_race (s : ipam_memory) (op : LockedCall) (c : Call) :
  changes_subnets c →
  ∃ σ, exec (sys_step call_code) (sys_start s) [Invoke 1 (Locked op); Invoke 2 c] σ ∧ racy σ.
Proof.
  intros (f & k & Hc)%changes_writes. destruct (locked_reads op) as (w & b & kb & Hm & ->).
  by eapply unguarded_race.
Qed.
End facts.

(** ** Concrete executions *)

(** The demonstration pool in memory. *)
Definition demo_memory : ipam_memory :=
  mkMemory {[ "default/net-1" := mkSubnet (Some (sn_ipNet demo_subnet)) (sn_start demo_subnet) (sn_end demo_subnet)
                                   (sn_broadcast demo_subnet) (Some 0%nat) ]}
    {[ 0%nat := sn_ips demo_subnet ]}.

Lemma demo_view : ipam_view demo_memory demo_ipam.
Proof.
  constructor.
  - intros name. unfold demo_memory, demo_ipam. cbn [table]. destruct (decide (name = "default/net-1")) as [->|Hne].
    + rewrite !lookup_singleton_eq. split; [done|]. exists 0%nat. split; [done|]. apply lookup_singleton_eq.
    + by rewrite !lookup_singleton_ne by done.
  - intros n1 n2 sub1 sub2 l. unfold demo_memory. cbn [table].
    rewrite !lookup_singleton_Some. by intros [<- _] [<- _].
Qed.

(** Two goroutines ask for an address; the second overtakes the first, which has called
    earlier and waits for the mutex. *)
Definition demo_moves : list (move (Op := LockedCall)) :=
  [Begin 1 (CallAllocateIP 0 "default/net-1" ""); Begin 2 (CallAllocateIP 1 "default/net-1" "192.168.0.11");
   Proceed 2 3; Proceed 1 10; Proceed 2 100; Proceed 1 100; Finish 1; Finish 2].

Definition demo_trace : list (event LockedCall (res Answer)) :=
  [Invoke 1 (CallAllocateIP 0 "default/net-1" ""); Invoke 2 (CallAllocateIP 1 "default/net-1" "192.168.0.11");
   Respond 1 (Val (AnAddress "192.168.0.12" None)); Respond 2 (Val (AnAddress "192.168.0.11" None))].

Lemma demo_execution : ∃ σ,
  exec (sys_step (@method _ _ _ _ _ (@ipam_guarded canonical_range))) (sys_start demo_memory) demo_trace σ.
Proof. eapply (play_trace _ demo_moves). vm_compute. reflexivity. Qed.

Lemma ipam_linearizable_witness : ∃ α,
  exec (@atomic_step _ _ _ _ _ (@ipam_guarded canonical_range)) (atomic_start demo_ipam) demo_trace α.
Proof.
  destruct demo_execution as [σ He].
  destruct (@ipam_linearizable canonical_range demo_memory demo_ipam demo_trace σ demo_view He) as [(α & Hα & _) _].
  by exists α.
Defined.

Lemma concurrent_no_double_allocation_witness :
  granted "default/net-1" demo_trace = ["192.168.0.12"; "192.168.0.11"] ∧ NoDup (granted "default/net-1" demo_trace).
Proof.
  split; [reflexivity|]. destruct demo_execution as [σ He].
  apply (@concurrent_no_double_allocation canonical_range demo_memory demo_ipam "default/net-1" demo_trace σ demo_view He).
  intros t op Hin. unfold demo_trace in Hin. set_unfold. naive_solver.
Defined.

Lemma subnet_changes_race_witness : ∃ σ,
  exec (sys_step (@call_code canonical_range)) (sys_start demo_memory)
    [Invoke 1 (Locked (CallAllocateIP 0 "default/net-1" ""));
     Invoke 2 (CallNewIPSubnet "default/net-2" "192.168.1.0/24" "192.168.1.10" "192.168.1.12")] σ ∧ racy σ.
Proof.
  apply (@subnet_changes_race canonical_range demo_memory (CallAllocateIP 0 "default/net-1" "")
           (CallNewIPSubnet "default/net-2" "192.168.1.0/24" "192.168.1.10" "192.168.1.12")).
  vm_compute. reflexivity.
Defined.
