(* ===== verification/MacCache.v ===== *)
(** * The MAC cache ([pkg/cache])

    [CacheAllocator] keeps, per network name, the map from MAC address (the text
    of the VM's network configuration) to IP address.  Addresses are stored
    parsed, so an unparsable text is stored as the nil address. *)

From S2P Require Import Prelude GoNet GoNetFacts.

Record MACSet : Type := mkMACSet { macs : gmap string (list Z) }.

Abbreviation CacheAllocator := (gmap string MACSet).

Definition NewCacheAllocator : CacheAllocator := ∅.

Definition mac_network_missing (name : string) : error :=
  Errorf "network %s does not exist" [name].

Definition NewMACSet (name : string) (a : CacheAllocator) : CacheAllocator * option error :=
  (<[name := mkMACSet ∅]> a, None).

Definition DeleteMACSet (name : string) (a : CacheAllocator) : CacheAllocator := delete name a.

Definition AddMAC (name macAddress ipAddress : string) (a : CacheAllocator)
    : CacheAllocator * option error :=
  match a !! name with
  | None => (a, Some (mac_network_missing name))
  | Some set => (<[name := mkMACSet (<[macAddress := ParseIP ipAddress]> (macs set))]> a, None)
  end.

Definition DeleteMAC (name macAddress : string) (a : CacheAllocator)
    : CacheAllocator * option error :=
  match a !! name with
  | None => (a, Some (mac_network_missing name))
  | Some set => (<[name := mkMACSet (delete macAddress (macs set))]> a, None)
  end.

Definition HasMAC (name macAddress : string) (a : CacheAllocator) : bool * option error :=
  match a !! name with
  | None => (false, Some (mac_network_missing name))
  | Some set => (bool_decide (is_Some (macs set !! macAddress)), None)
  end.

Definition GetIPByMAC (name macAddress : string) (a : CacheAllocator) : string * option error :=
  match a !! name with
  | None => (EmptyString, Some (mac_network_missing name))
  | Some set =>
      match macs set !! macAddress with
      | None => (EmptyString, Some (Errorf "mac %s not found in network %s" [macAddress; name]))
      | Some ipAddress => (IP_String ipAddress, None)
      end
  end.

Definition ListAll (name : string) (a : CacheAllocator) : option (gmap string string) * option error :=
  match a !! name with
  | None => (None, Some (mac_network_missing name))
  | Some set => (Some (IP_String <$> macs set), None)
  end.

(** The builder of [common.go]. *)
Definition build_MACSet (name : string) (b : CacheAllocator) : CacheAllocator := (NewMACSet name b).1.

Definition build_Add (name macAddress ipAddress : string) (b : CacheAllocator) : CacheAllocator :=
  (AddMAC name macAddress ipAddress b).1.

(** ** Facts *)

(** What the cache answers for a MAC address. *)
Definition cached_ip (a : CacheAllocator) (name mac : string) : option (list Z) :=
  set ← a !! name; macs set !! mac.

Lemma HasMAC_spec a name mac :
  HasMAC name mac a =
  match a !! name with
  | None => (false, Some (mac_network_missing name))
  | Some _ => (bool_decide (is_Some (cached_ip a name mac)), None)
  end.
Proof. unfold HasMAC, cached_ip. by destruct (a !! name). Qed.

Lemma GetIPByMAC_spec a name mac ip :
  cached_ip a name mac = Some ip → GetIPByMAC name mac a = (IP_String ip, None).
Proof.
  unfold cached_ip, GetIPByMAC. destruct (a !! name) as [set|]; simpl; [|done]. by intros ->.
Qed.

Lemma AddMAC_spec a a' name mac ip err :
  AddMAC name mac ip a = (a', err) →
  (err = None ∧ is_Some (a !! name) ∧
     (∀ name' mac', cached_ip a' name' mac' =
        if decide (name' = name ∧ mac' = mac) then Some (ParseIP ip) else cached_ip a name' mac') ∧
     ∀ name', is_Some (a' !! name') ↔ is_Some (a !! name')) ∨
  (a' = a ∧ a !! name = None ∧ err = Some (mac_network_missing name)).
Proof.
  unfold AddMAC, cached_ip. destruct (a !! name) as [set|] eqn:Hn; intros [= <- <-]; [left|by right].
  split; [done|]. split; [done|]. split.
  - intros name' mac'. destruct (decide (name' = name)) as [->|Hne].
    + rewrite lookup_insert_eq, Hn. simpl. destruct (decide (mac' = mac)) as [->|Hm].
      * rewrite lookup_insert_eq. by rewrite decide_True.
      * rewrite lookup_insert_ne by done. rewrite decide_False; [done|]. by intros [_ ?].
    + rewrite lookup_insert_ne by done. rewrite decide_False; [done|]. by intros [? _].
  - intros name'. destruct (decide (name' = name)) as [->|Hne].
    + rewrite lookup_insert_eq, Hn. split; eauto.
    + by rewrite lookup_insert_ne.
Qed.

Lemma DeleteMAC_spec a a' name mac err :
  DeleteMAC name mac a = (a', err) →
  (err = None ∧ is_Some (a !! name) ∧
     (∀ name' mac', cached_ip a' name' mac' =
        if decide (name' = name ∧ mac' = mac) then None else cached_ip a name' mac') ∧
     ∀ name', is_Some (a' !! name') ↔ is_Some (a !! name')) ∨
  (a' = a ∧ a !! name = None ∧ err = Some (mac_network_missing name)).
Proof.
  unfold DeleteMAC, cached_ip. destruct (a !! name) as [set|] eqn:Hn; intros [= <- <-]; [left|by right].
  split; [done|]. split; [done|]. split.
  - intros name' mac'. destruct (decide (name' = name)) as [->|Hne].
    + rewrite lookup_insert_eq, Hn. simpl. destruct (decide (mac' = mac)) as [->|Hm].
      * rewrite lookup_delete_eq. by rewrite decide_True.
      * rewrite lookup_delete_ne by done. rewrite decide_False; [done|]. by intros [_ ?].
    + rewrite lookup_insert_ne by done. rewrite decide_False; [done|]. by intros [? _].
  - intros name'. destruct (decide (name' = name)) as [->|Hne].
    + rewrite lookup_insert_eq, Hn. split; eauto.
    + by rewrite lookup_insert_ne.
Qed.

(** ** The contract *)

(** The cache is a map: after a successful [AddMAC] of an
    IPv4 text the MAC is present and reads back as the same text, every other
    entry reads as before, and [DeleteMAC] removes exactly that entry; on an
    unknown network every operation reports the error and changes nothing. *)
Theorem mac_cache_contract (a : CacheAllocator) (name mac : string) (n : Z) :
  u32 n →
  match a !! name with
  | None => AddMAC name mac (v4str n) a = (a, Some (mac_network_missing name)) ∧
            DeleteMAC name mac a = (a, Some (mac_network_missing name)) ∧
            HasMAC name mac a = (false, Some (mac_network_missing name)) ∧
            GetIPByMAC name mac a = (EmptyString, Some (mac_network_missing name))
  | Some _ => ∃ a', AddMAC name mac (v4str n) a = (a', None) ∧
      HasMAC name mac a' = (true, None) ∧ GetIPByMAC name mac a' = (v4str n, None) ∧
      (∀ name' mac', (name', mac') ≠ (name, mac) →
         HasMAC name' mac' a' = HasMAC name' mac' a ∧
         GetIPByMAC name' mac' a' = GetIPByMAC name' mac' a) ∧
      ∃ a'', DeleteMAC name mac a' = (a'', None) ∧ HasMAC name mac a'' = (false, None) ∧
        ∀ name' mac', (name', mac') ≠ (name, mac) → HasMAC name' mac' a'' = HasMAC name' mac' a
  end.
Proof.
  intros Hn. destruct (a !! name) as [set|] eqn:Ha.
  2: { unfold AddMAC, DeleteMAC, HasMAC, GetIPByMAC. by rewrite Ha. }
  unfold AddMAC. rewrite Ha. eexists. split; [done|].
  unfold HasMAC, GetIPByMAC, DeleteMAC. rewrite !lookup_insert_eq. cbn [macs].
  rewrite !lookup_insert_eq, ParseIP_v4str, IP_String_mapped by done.
  split; [done|]. split; [done|]. split.
  - intros name' mac' Hne. destruct (decide (name' = name)) as [->|Hn'].
    + rewrite lookup_insert_eq, Ha. cbn [macs]. by rewrite !lookup_insert_ne by congruence.
    + by rewrite lookup_insert_ne.
  - eexists. split; [done|]. rewrite lookup_insert_eq. cbn [macs]. split; [by rewrite lookup_delete_eq|].
    intros name' mac' Hne. destruct (decide (name' = name)) as [->|Hn'].
    + rewrite lookup_insert_eq, Ha. cbn [macs].
      rewrite lookup_delete_ne, lookup_insert_ne by congruence. done.
    + by rewrite !lookup_insert_ne.
Qed.

Lemma mac_cache_contract_witness :
  ∃ a', AddMAC "default/net-1" "02:00:00:00:00:01" (v4str 3232235530)
          (NewMACSet "default/net-1" NewCacheAllocator).1 = (a', None) ∧
    HasMAC "default/net-1" "02:00:00:00:00:01" a' = (true, None) ∧
    GetIPByMAC "default/net-1" "02:00:00:00:00:01" a' = ("192.168.0.10", None).
Proof.
  destruct (mac_cache_contract (NewMACSet "default/net-1" NewCacheAllocator).1 "default/net-1"
              "02:00:00:00:00:01" 3232235530) as (a' & Ha' & Hh & Hg & _); [by vm_compute|].
  exists a'. split; [exact Ha'|]. split; [exact Hh|]. exact Hg.
Defined.
