(* ===== verification/MacThreads.v ===== *)
(** * The MAC cache under concurrent calls ([pkg/cache])

    The methods of [CacheAllocator] access by access, on the memory of [MapStore]: those
    that take the mutex are linearizable, [NewMACSet] and [DeleteMACSet] race with them. *)

From S2P Require Import Prelude Goroutines Guarded MapStore GoNet GoNetFacts MacCache.

(** ** Memory *)

(** A [MACSet] value: a reference to its map. *)
Record MACSetRef : Type := mkMACSetRef { macs_ref : option nat }.

#[export] Instance MACSet_row : Row MACSetRef (list Z) MACSet := {|
  row_zero := mkMACSetRef None;
  row_ref := macs_ref;
  row_is _ _ := True;
  row_map := macs;
  row_set _ m := mkMACSet m;
  row_zero_ref := eq_refl;
  row_is_set _ _ _ H := H;
  row_map_set e m := eq_refl;
|}.

Abbreviation cache_memory := (Memory MACSetRef (list Z)).
#[local] Abbreviation go := (store_go MACSetRef (list Z)).

(** ** Methods under the mutex *)

Definition AddMAC_body (name macAddress ipAddress : string) : go (option error) :=
  found ← row_exists name;
  if negb found then mret (Some (mac_network_missing name))
  else
    set ← row name;
    _ ← assign (macs_ref set) macAddress (ParseIP ipAddress);
    mret None.

Definition DeleteMAC_body (name macAddress : string) : go (option error) :=
  found ← row_exists name;
  if negb found then mret (Some (mac_network_missing name))
  else
    set ← row name;
    _ ← remove (macs_ref set) macAddress;
    mret None.

Definition HasMAC_body (name macAddress : string) : go (bool * option error) :=
  found ← row_exists name;
  if negb found then mret (false, Some (mac_network_missing name))
  else
    set ← row name;
    e ← entry (macs_ref set) macAddress;
    mret (bool_decide (is_Some e), None).

Definition GetIPByMAC_body (name macAddress : string) : go (string * option error) :=
  found ← row_exists name;
  if negb found then mret (EmptyString, Some (mac_network_missing name))
  else
    set ← row name;
    e ← entry (macs_ref set) macAddress;
    match e with
    | None => mret (EmptyString, Some (Errorf "mac %s not found in network %s" [macAddress; name]))
    | Some ipAddress => mret (IP_String ipAddress, None)
    end.

Definition ListAll_body `{MapRange} (seed : nat) (name : string) : go (option (gmap string string) * option error) :=
  found ← row_exists name;
  if negb found then mret (None, Some (mac_network_missing name))
  else
    set ← row name;
    _ ← length_of (macs_ref set);
    set ← row name;
    ks ← keys seed (macs_ref set);
    r ← visit (R := Empty_set) (macs_ref set) ks (λ mac ip m, mret (inl (<[mac := IP_String ip]> m))) ∅;
    mret (Some (finished r), None).

(** ** Methods that take no mutex *)

Definition NewMACSet_code (name : string) : go (option error) :=
  Write Table (publish name (λ l, mkMACSetRef (Some l)) ∅) (Ret (Val None)).

Definition DeleteMACSet_code (name : string) : go () := Write Table (unpublish name) (Ret (Val ())).

(** ** Calls *)

Inductive LockedCall : Type :=
| CallAddMAC (name macAddress ipAddress : string)
| CallDeleteMAC (name macAddress : string)
| CallHasMAC (name macAddress : string)
| CallGetIPByMAC (name macAddress : string)
| CallListAll (seed : nat) (name : string).

Inductive Answer : Type :=
| AnError (err : option error)
| ABool (b : bool) (err : option error)
| AnAddress (ip : string) (err : option error)
| AMap (m : option (gmap string string)) (err : option error).

Section calls.
Context `{MapRange}.

Definition cache_writes (op : LockedCall) : bool :=
  match op with CallAddMAC _ _ _ | CallDeleteMAC _ _ => true | _ => false end.

Definition cache_body (op : LockedCall) : go Answer :=
  match op with
  | CallAddMAC name mac ip => err ← AddMAC_body name mac ip; mret (AnError err)
  | CallDeleteMAC name mac => err ← DeleteMAC_body name mac; mret (AnError err)
  | CallHasMAC name mac => p ← HasMAC_body name mac; mret (ABool p.1 p.2)
  | CallGetIPByMAC name mac => p ← GetIPByMAC_body name mac; mret (AnAddress p.1 p.2)
  | CallListAll seed name => p ← ListAll_body seed name; mret (AMap p.1 p.2)
  end.

Definition cache_apply (op : LockedCall) (a : CacheAllocator) : CacheAllocator * res Answer :=
  match op with
  | CallAddMAC name mac ip => let p := AddMAC name mac ip a in (p.1, Val (AnError p.2))
  | CallDeleteMAC name mac => let p := DeleteMAC name mac a in (p.1, Val (AnError p.2))
  | CallHasMAC name mac => let p := HasMAC name mac a in (a, Val (ABool p.1 p.2))
  | CallGetIPByMAC name mac => let p := GetIPByMAC name mac a in (a, Val (AnAddress p.1 p.2))
  | CallListAll _ name => let p := ListAll name a in (a, Val (AMap p.1 p.2))
  end.

Definition cache_view : cache_memory → CacheAllocator → Prop := map_view.

(** ** The methods do what the model does *)

Lemma macs_some (s : cache_memory) (a : CacheAllocator) name set : map_view s a → a !! name = Some set →
  ∃ l, table s !! name = Some (mkMACSetRef (Some l)) ∧ maps s !! l = Some (macs set).
Proof using Type.
  intros Hv Ha. destruct (view_some _ _ _ _ Hv Ha) as ([r] & l & Hs & _ & Hl & Hm). simpl in *. subst. eauto.
Qed.

Ltac go_step := run_step; cbn [macs_ref].
Ltac start_method Hv a name :=
  let set := fresh "set" in let Ha := fresh "Ha" in
  destruct (a !! name) as [set|] eqn:Ha;
  [ let l := fresh "l" in let Hs := fresh "Hs" in let Hm := fresh "Hm" in
    destruct (macs_some _ _ _ _ Hv Ha) as (l & Hs & Hm)
  | by rewrite (implements_missing name _ _ _ _ Hv Ha) ].

Lemma AddMAC_implements name mac ip : implements (AddMAC_body name mac ip) (AddMAC name mac ip).
Proof using Type.
  intros s a Hv. unfold AddMAC, AddMAC_body. start_method Hv a name. do 3 go_step. split; [|done].
  exact (view_set_maps s a name _ _ l _ Hv Hs Ha eq_refl).
Qed.

Lemma DeleteMAC_implements name mac : implements (DeleteMAC_body name mac) (DeleteMAC name mac).
Proof using Type.
  intros s a Hv. unfold DeleteMAC, DeleteMAC_body. start_method Hv a name. do 3 go_step. split; [|done].
  exact (view_set_maps s a name _ _ l _ Hv Hs Ha eq_refl).
Qed.

Lemma HasMAC_answers name mac : answers (HasMAC_body name mac) (HasMAC name mac).
Proof using Type.
  intros s a Hv. unfold HasMAC, HasMAC_body. start_method Hv a name. do 3 go_step. done.
Qed.

Lemma GetIPByMAC_answers name mac : answers (GetIPByMAC_body name mac) (GetIPByMAC name mac).
Proof using Type.
  intros s a Hv. unfold GetIPByMAC, GetIPByMAC_body. start_method Hv a name. do 3 go_step.
  by destruct (macs set !! mac).
Qed.

Lemma cache_ListAll_answers seed name : answers (ListAll_body seed name) (ListAll name).
Proof using Type.
  intros s a Hv. unfold ListAll, ListAll_body. start_method Hv a name. do 6 go_step. done.
Qed.

(** ** The store is guarded *)

Lemma cache_body_within op : within (cache_writes op) (cache_body op).
Proof using Type.
  destruct op; cbn [cache_writes cache_body];
    unfold AddMAC_body, DeleteMAC_body, HasMAC_body, GetIPByMAC_body, ListAll_body; solve_within.
Qed.

Lemma cache_body_run op s a : cache_view s a →
  cache_view (run (cache_body op) s).1 (cache_apply op a).1 ∧ (run (cache_body op) s).2 = (cache_apply op a).2.
Proof using Type.
  intros Hv. destruct op as [name mac ip|name mac|name mac|name mac|seed name]; cbn [cache_body cache_apply].
  - apply (implements_wrap _ _ AnError _ _ (AddMAC_implements name mac ip) Hv).
  - apply (implements_wrap _ _ AnError _ _ (DeleteMAC_implements name mac) Hv).
  - apply (implements_wrap _ _ (λ p, ABool p.1 p.2) _ _ (answers_implements _ _ (HasMAC_answers name mac)) Hv).
  - apply (implements_wrap _ _ (λ p, AnAddress p.1 p.2) _ _ (answers_implements _ _ (GetIPByMAC_answers name mac)) Hv).
  - apply (implements_wrap _ _ (λ p, AMap p.1 p.2) _ _ (answers_implements _ _ (cache_ListAll_answers seed name)) Hv).
Qed.

#[export] Instance cache_guarded : Guarded cache_memory Loc CacheAllocator LockedCall (res Answer) := {|
  writes := cache_writes;
  body := cache_body;
  apply := cache_apply;
  view := cache_view;
  body_within := cache_body_within;
  body_run := cache_body_run;
|}.

(** Every call, with or without the mutex. *)
Inductive Call : Type :=
| Locked (op : LockedCall)
| CallNewMACSet (name : string)
| CallDeleteMACSet (name : string).

Definition call_code (c : Call) : go Answer :=
  match c with
  | Locked op => method op
  | CallNewMACSet name => err ← NewMACSet_code name; mret (AnError err)
  | CallDeleteMACSet name => _ ← DeleteMACSet_code name; mret (AnError None)
  end.

(** Run on their own they are the sequential model's. *)
Lemma NewMACSet_implements name s a :
  cache_view s a → cache_view (run (NewMACSet_code name) s).1 (NewMACSet name a).1.
Proof using Type.
  intros Hv. exact (view_publish s a name (λ l, mkMACSetRef (Some l)) (mkMACSet ∅) Hv (λ l, conj I eq_refl)).
Qed.

Lemma DeleteMACSet_implements name s a :
  cache_view s a → cache_view (run (DeleteMACSet_code name) s).1 (DeleteMACSet name a).
Proof using Type. apply (view_unpublish s a name). Qed.

(** Goroutines calling [AddMAC], [DeleteMAC], [HasMAC], [GetIPByMAC] and [ListAll] in any
    number, interleaved in any way, see the answers of some sequence of the model's
    operations, without race or deadlock. *)
Theorem cache_linearizable (s : cache_memory) (a : CacheAllocator) (tr : list (event LockedCall (res Answer)))
    (σ : system cache_memory Loc (res Answer)) :
  cache_view s a → exec (sys_step method) (sys_start s) tr σ →
  (∃ α, exec atomic_step (atomic_start a) tr α ∧
     (threads σ = ∅ → cache_view (memory (sys_shared σ)) (object α) ∧ calls α = ∅)) ∧
  ¬ racy σ ∧
  (threads σ ≠ ∅ → ∃ l σ', sys_step method σ l σ' ∧ ∀ t op, l ≠ Some (Invoke t op)).
Proof using Type. intros Hv He. exact (guarded_correct (Guarded0 := cache_guarded) s a tr σ Hv He). Qed.

(** [NewMACSet] and [DeleteMACSet] race with every call under the mutex. *)
Theorem macset_changes_race (s : cache_memory) (op : LockedCall) (name : string) (delete_it : bool) :
  let c := if delete_it then CallDeleteMACSet name else CallNewMACSet name in
  ∃ σ, exec (sys_step call_code) (sys_start s) [Invoke 1 (Locked op); Invoke 2 c] σ ∧ racy σ.
Proof using Type.
  cbn zeta. assert (∃ w k, method op = critical w (Read Table k)) as (w & k & Hm).
  { exists (cache_writes op). destruct op; by eexists. }
  destruct delete_it; by eapply unguarded_race.
Qed.
End calls.
