(* ===== verification/Leases.v ===== *)
(** * The lease table: [pkg/ipam] and [pkg/cache] together

    The controllers keep two stores in step: the IP allocator knows which
    addresses are taken, the MAC cache who holds them.  [coherent] is the joint
    invariant they rely on, with the effect of every combination of calls the
    controllers make. *)

From S2P Require Import Prelude GoNet GoNetFacts Ipam IpamFacts IpamSpec MacCache.

(** The address text [GetIPByMAC] answers. *)
Definition cached_text (c : CacheAllocator) (name mac : string) : option string :=
  IP_String <$> cached_ip c name mac.

(** Every cached address is in use, and has one holder in its network. *)
Record coherent (c : CacheAllocator) (a : IPAllocator) : Prop := {
  coh_wf : well_formed a;
  coh_held : ∀ name mac ip, cached_text c name mac = Some ip → is_allocated a name ip;
  coh_inj : ∀ name mac mac' ip,
    cached_text c name mac = Some ip → cached_text c name mac' = Some ip → mac = mac';
}.

(** The state grew: nothing held was given away. *)
Record extends (c : CacheAllocator) (a : IPAllocator) (c' : CacheAllocator) (a' : IPAllocator) : Prop := {
  ext_cached : ∀ name mac ip, cached_text c name mac = Some ip → cached_text c' name mac = Some ip;
  ext_allocated : ∀ name ip, is_allocated a name ip → is_allocated a' name ip;
}.

Lemma extends_refl c a : extends c a c a.
Proof. by constructor. Qed.

Lemma extends_trans c1 a1 c2 a2 c3 a3 :
  extends c1 a1 c2 a2 → extends c2 a2 c3 a3 → extends c1 a1 c3 a3.
Proof. intros [H1 H2] [H3 H4]. constructor; auto. Qed.

#[export] Hint Resolve extends_refl : go.

(** ** What the calls answer *)

Lemma HasMAC_cached c name mac b :
  HasMAC name mac c = (b, None) → b = bool_decide (is_Some (cached_text c name mac)).
Proof.
  rewrite HasMAC_spec. destruct (c !! name); [|done]. intros [= <-].
  apply bool_decide_ext. symmetry. apply fmap_is_Some.
Qed.

Lemma GetIPByMAC_cached c name mac ip :
  cached_text c name mac = Some ip → GetIPByMAC name mac c = (ip, None).
Proof.
  unfold cached_text. intros (x & Hx & ->)%fmap_Some. by apply GetIPByMAC_spec.
Qed.

Lemma IsAllocated_true name ip a b :
  IsAllocated name ip a = (b, None) → b = true ↔ is_allocated a name ip.
Proof.
  unfold IsAllocated, is_allocated. destruct (a !! name) as [sn|]; [|done].
  destruct (sn_ips sn !! ip) as [b'|] eqn:Hl; [|done]. intros [= <-]. split.
  - intros ->. by exists sn.
  - intros (? & [= <-] & ?). congruence.
Qed.

Lemma AddMAC_cached c c' name mac ip :
  AddMAC name mac ip c = (c', None) →
  ∀ name' mac', cached_text c' name' mac' =
    if decide (name' = name ∧ mac' = mac) then Some (IP_String (ParseIP ip)) else cached_text c name' mac'.
Proof.
  intros Ha name' mac'. destruct (AddMAC_spec _ _ _ _ _ _ Ha) as [(_ & _ & Hl & _)|(_ & _ & ?)]; [|done].
  unfold cached_text. rewrite Hl. by case_decide.
Qed.

Lemma DeleteMAC_cached c c' name mac :
  DeleteMAC name mac c = (c', None) →
  ∀ name' mac', cached_text c' name' mac' =
    if decide (name' = name ∧ mac' = mac) then None else cached_text c name' mac'.
Proof.
  intros Ha name' mac'. destruct (DeleteMAC_spec _ _ _ _ _ Ha) as [(_ & _ & Hl & _)|(_ & _ & ?)]; [|done].
  unfold cached_text. rewrite Hl. by case_decide.
Qed.

Lemma is_allocated_insert a name sn sn' ip b :
  a !! name = Some sn → sn_ips sn' = <[ip := b]> (sn_ips sn) →
  ∀ name' ip', is_allocated (<[name := sn']> a) name' ip' ↔
    if decide (name' = name ∧ ip' = ip) then b = true else is_allocated a name' ip'.
Proof.
  intros Hsn Hips name' ip'. unfold is_allocated.
  destruct (decide (name' = name)) as [->|Hne].
  - rewrite lookup_insert_eq. destruct (decide (ip' = ip)) as [->|Hip].
    + rewrite decide_True by done. split.
      * intros (? & [= <-] & Hl). rewrite Hips, lookup_insert_eq in Hl. congruence.
      * intros ->. eexists. split; [done|]. by rewrite Hips, lookup_insert_eq.
    + rewrite decide_False by (by intros [_ ?]). split.
      * intros (? & [= <-] & Hl). rewrite Hips, lookup_insert_ne in Hl by done. by exists sn.
      * intros (? & Hsn' & Hl). simplify_eq. eexists. split; [done|]. by rewrite Hips, lookup_insert_ne.
  - rewrite lookup_insert_ne by done. by rewrite decide_False by (by intros [? _]).
Qed.

Section calls.
Context `{MapRange}.

Lemma AllocateIP_allocated seed name s a a' ip :
  AllocateIP seed name s a = (a', (ip, None)) →
  ¬ is_allocated a name ip ∧
  ∀ name' ip', is_allocated a' name' ip' ↔ (name' = name ∧ ip' = ip) ∨ is_allocated a name' ip'.
Proof using Type.
  intros Ho. destruct (AllocateIP_frame _ _ _ _ _ _ _ Ho) as [(_ & sn & Hsn & Hf & ->)|[[? ?] _]]; [|done].
  split. { intros (? & ? & ?). congruence. }
  intros name' ip'. rewrite (is_allocated_insert a name sn (set_ips sn (<[ip := true]> (sn_ips sn))) ip true Hsn eq_refl). case_decide; tauto.
Qed.

Lemma AllocateIP_error seed name s a a' ip e :
  AllocateIP seed name s a = (a', (ip, Some e)) → a' = a.
Proof using Type. intros Ho. by destruct (AllocateIP_frame _ _ _ _ _ _ _ Ho) as [(? & _)|[_ ?]]. Qed.

Lemma AllocateIP_wf seed name s a : well_formed a → well_formed (AllocateIP seed name s a).1.
Proof using Type. by apply (ipam_apply_wf (OpAllocate seed name s)). Qed.

(** Handed out addresses are printed the way the cache prints them. *)
Lemma AllocateIP_text seed name s a a' ip :
  well_formed a → AllocateIP seed name s a = (a', (ip, None)) → IP_String (ParseIP ip) = ip.
Proof using Type.
  intros Hwf Ho. destruct (AllocateIP_frame _ _ _ _ _ _ _ Ho) as [(_ & sn & Hsn & Hf & ->)|[[? ?] _]]; [|done].
  destruct (Hwf _ _ Hsn) as (b & p & P & HR). apply (rep_lookup _ _ _ _ HR) in Hf as (n & Hn & ->).
  assert (u32 n) by (apply (rep_u32 HR), elem_of_union; by left).
  by rewrite ParseIP_v4str, IP_String_mapped.
Qed.

Lemma DeallocateIP_allocated name ip a a' :
  DeallocateIP name ip a = (a', None) →
  ∀ name' ip', is_allocated a' name' ip' ↔ ¬ (name' = name ∧ ip' = ip) ∧ is_allocated a name' ip'.
Proof using Type.
  intros Ho name' ip'.
  destruct (DeallocateIP_frame _ _ _ _ _ Ho) as [(_ & sn & Hsn & Hf & ->)|[[? ?] _]]; [|done].
  rewrite (is_allocated_insert a name sn (set_ips sn (<[ip := false]> (sn_ips sn))) ip false Hsn eq_refl). case_decide; [|tauto]. split; [done|tauto].
Qed.

Lemma DeallocateIP_wf name ip a : well_formed a → well_formed (DeallocateIP name ip a).1.
Proof using Type.
  intros Hwf. destruct (DeallocateIP name ip a) as [a' err] eqn:Ho.
  destruct (DeallocateIP_frame _ _ _ _ _ Ho) as [(-> & sn & Hsn & Hf & ->)|[_ ->]]; [|done].
  destruct (Hwf _ _ Hsn) as (b & p & P & HR). apply (rep_lookup _ _ _ _ HR) in Hf as (n & Hn & ->).
  eapply well_formed_insert; [done|]. by apply (rep_deallocate HR).
Qed.

(** ** Steps of the invariant *)

Lemma coherent_leak seed name s c a :
  coherent c a → coherent c (AllocateIP seed name s a).1 ∧ extends c a c (AllocateIP seed name s a).1.
Proof using Type.
  intros [Hwf Hheld Hinj]. pose proof (AllocateIP_wf seed name s a Hwf) as Hwf'.
  destruct (AllocateIP seed name s a) as [a' [ip [e|]]] eqn:Ho; cbn [fst] in *.
  { apply AllocateIP_error in Ho as ->. split; [done|]. apply extends_refl. }
  destruct (AllocateIP_allocated _ _ _ _ _ _ Ho) as [_ Hal].
  split; constructor; [done| |done|done|]; intros; apply Hal; eauto.
Qed.

(** A new lease: an address is taken, then recorded for a MAC that had none. *)
Lemma coherent_grant seed name s mac ip c a a' c' :
  coherent c a → cached_text c name mac = None →
  AllocateIP seed name s a = (a', (ip, None)) → AddMAC name mac ip c = (c', None) →
  coherent c' a' ∧ extends c a c' a' ∧ cached_text c' name mac = Some ip.
Proof using Type.
  intros Hcoh Hnone Ho Hadd. pose proof (coh_wf _ _ Hcoh) as Hwf.
  pose proof (AllocateIP_wf seed name s a Hwf) as Hwf'. rewrite Ho in Hwf'.
  destruct (AllocateIP_allocated _ _ _ _ _ _ Ho) as [Hfree Hal].
  pose proof (AddMAC_cached _ _ _ _ _ Hadd) as Hc'. rewrite (AllocateIP_text _ _ _ _ _ _ Hwf Ho) in Hc'.
  split; [constructor|split; [constructor|]].
  - done.
  - intros name' mac' ip'. rewrite Hc'. case_decide as Hd.
    + intros [= <-]. apply Hal. left. tauto.
    + intros Hl. apply Hal. right. by apply (coh_held _ _ Hcoh _ mac').
  - intros name' mac1 mac2 ip'. rewrite !Hc'. repeat case_decide; destruct_and?; subst; try done.
    + intros [= <-] Hl. by apply (coh_held _ _ Hcoh) in Hl.
    + intros Hl [= <-]. by apply (coh_held _ _ Hcoh) in Hl.
    + by apply (coh_inj _ _ Hcoh).
  - intros name' mac' ip' Hl. rewrite Hc'. case_decide as Hd; [|done]. destruct Hd as [-> ->]. congruence.
  - intros name' ip' Hl. apply Hal. by right.
  - rewrite Hc'. by rewrite decide_True.
Qed.
End calls.

(** [mac] holds [ip], or neither is known: the records a release may name. *)
Definition accurate (c : CacheAllocator) (a : IPAllocator) (name mac ip : string) : Prop :=
  cached_text c name mac = Some ip ∨ (cached_text c name mac = None ∧ ¬ is_allocated a name ip).

(** What is left after releasing the record [name, mac, ip]. *)
Record released (name mac ip : string) (c : CacheAllocator) (a : IPAllocator)
    (c' : CacheAllocator) (a' : IPAllocator) : Prop := {
  rel_cached : ∀ name' mac', cached_text c' name' mac' =
    if decide (name' = name ∧ mac' = mac) then None else cached_text c name' mac';
  rel_allocated : ∀ name' ip', is_allocated a' name' ip' ↔
    ¬ (name' = name ∧ ip' = ip) ∧ is_allocated a name' ip';
}.

Lemma coherent_release name mac ip c a c' a' :
  coherent c a → accurate c a name mac ip → released name mac ip c a c' a' → well_formed a' →
  coherent c' a'.
Proof.
  intros Hcoh Hacc [Hc Ha] Hwf. constructor; [done| |].
  - intros name' mac' ip'. rewrite Hc. case_decide as Hd; [done|]. intros Hl. apply Ha.
    split; [|by apply (coh_held _ _ Hcoh _ mac')]. intros [-> ->]. apply Hd. split; [done|].
    destruct Hacc as [Hacc|[_ Hno]]; [by apply (coh_inj _ _ Hcoh name _ _ ip)|].
    by apply (coh_held _ _ Hcoh) in Hl.
  - intros name' mac1 mac2 ip'. rewrite !Hc. repeat case_decide; try done. by apply (coh_inj _ _ Hcoh).
Qed.

(** Releasing one record leaves the others accurate. *)
Lemma accurate_release name mac ip name' mac' ip' c a c' a' :
  coherent c a → accurate c a name mac ip → accurate c a name' mac' ip' →
  released name mac ip c a c' a' → accurate c' a' name' mac' ip'.
Proof.
  intros Hcoh Hacc Hacc' [Hc Ha]. unfold accurate. rewrite Hc, Ha.
  destruct (decide (name' = name ∧ mac' = mac)) as [[-> ->]|Hne].
  - right. split; [done|]. destruct Hacc as [Hacc|[Hn Hacc]], Hacc' as [Hacc'|[Hn' Hacc']];
      [|tauto|congruence|tauto].
    assert (ip' = ip) as -> by congruence. tauto.
  - destruct Hacc' as [Hacc'|[Hn Hacc']]; [by left|]. right. tauto.
Qed.

(** ** Steps of a pool controller *)

Lemma NewIPSubnet_returns name cidr start end_ a :
  v4_op (OpNew name cidr start end_) = true →
  ∃ r, (NewIPSubnet name cidr start end_ a).2 = Val r ∧
       (is_Some r → (NewIPSubnet name cidr start end_ a).1 = a).
Proof.
  unfold v4_op. destruct (ParseCIDR cidr) as [[ip n] [e|]] eqn:Hc; intros H4.
  { unfold NewIPSubnet. rewrite Hc. by exists (Some e). }
  apply Nat.eqb_eq in H4. pose proof Hc as Hc'.
  apply ParseCIDR_v4 in Hc' as (b & p & Hb & Hp & -> & ->); [|done].
  destruct (To4 (ParseIP start)) eqn:Hs.
  { destruct (NewIPSubnet_bad name cidr b p a Hc Hb Hp start end_) as [err ->]; [auto|by exists (Some err)]. }
  destruct (To4 (ParseIP end_)) eqn:He.
  { destruct (NewIPSubnet_bad name cidr b p a Hc Hb Hp start end_) as [err ->]; [auto|by exists (Some err)]. }
  destruct (ParseIP_To4 start) as (s & Hus & Hs'); [congruence|].
  destruct (ParseIP_To4 end_) as (e & Hue & He'); [congruence|].
  pose proof (NewIPSubnet_v4 name cidr b p a Hc Hb Hp start end_ s e Hus Hue Hs' He') as Hnew.
  destruct (range_ok b p s e); [rewrite Hnew; exists None; split; [done|by intros [? ?]]|].
  destruct Hnew as [err ->]. by exists (Some err).
Qed.

Lemma cached_text_NewMACSet name c name' mac :
  cached_text (NewMACSet name c).1 name' mac = if decide (name' = name) then None else cached_text c name' mac.
Proof.
  unfold cached_text, cached_ip, NewMACSet. cbn [fst]. case_decide as Hn.
  - subst. rewrite lookup_insert_eq. cbn. by rewrite lookup_empty.
  - by rewrite lookup_insert_ne.
Qed.

(** A subnet and its cache are made anew. *)
Lemma coherent_reset name cidr start end_ c a :
  v4_op (OpNew name cidr start end_) = true → coherent c a →
  coherent (NewMACSet name c).1 (NewIPSubnet name cidr start end_ a).1.
Proof.
  intros H4 Hcoh. constructor.
  - apply NewIPSubnet_wf; [done|apply Hcoh].
  - intros name' mac ip. rewrite cached_text_NewMACSet. case_decide as Hn; [done|]. intros Hl.
    apply (coh_held _ _ Hcoh) in Hl as (sn & Hsn & Hip). exists sn. by rewrite NewIPSubnet_frame.
  - intros name' mac mac' ip. rewrite !cached_text_NewMACSet. case_decide; [done|]. apply Hcoh.
Qed.

(** An address nobody of the network holds is taken out. *)
Lemma coherent_revoke name ip c a :
  coherent c a → (∀ mac, cached_text c name mac = None) → coherent c (RevokeIP name ip a).1.
Proof.
  intros Hcoh Hnone. constructor; [|intros name' mac ip' Hl|apply Hcoh].
  - unfold RevokeIP. destruct (a !! name) as [sn|] eqn:Hsn; [|apply Hcoh].
    destruct (coh_wf _ _ Hcoh _ _ Hsn) as (b & p & P & HR).
    destruct (rep_revoke HR ip) as (P' & HR' & _). eapply well_formed_insert; [apply Hcoh|done].
  - assert (Hn : name' ≠ name) by (intros ->; congruence).
    apply (coh_held _ _ Hcoh) in Hl as (sn & Hsn & Hip). exists sn. unfold RevokeIP.
    destruct (a !! name); [|done]. cbn [fst]. by rewrite lookup_insert_ne.
Qed.

(** An address asked for by its text. *)
Lemma AllocateIP_designated `{MapRange} seed name s a a' ip :
  IsUnspecified (ParseIP s) = false → s ≠ EmptyString → well_formed a →
  AllocateIP seed name s a = (a', (ip, None)) → ip = IP_String (ParseIP s).
Proof.
  intros Hun Hne Hwf. unfold AllocateIP. destruct (a !! name) as [sn|] eqn:Hsn; [|done].
  apply String.eqb_neq in Hne. rewrite Hne. cbv zeta. rewrite Hun. cbn [negb andb].
  destruct (negb (Contains _ _)); [by destruct (Mask_Size _)|]. destruct (IP_Equal _ _); [done|].
  rewrite pick_designated by (done || apply NoDup_fst_range).
  repeat case_match; intros; by simplify_eq.
Qed.

(** A recorded lease is taken over, whatever the MAC held before. *)
Lemma coherent_recover `{MapRange} seed name mac s ip c a a' c' :
  coherent c a → IsUnspecified (ParseIP s) = false → s ≠ EmptyString →
  AllocateIP seed name s a = (a', (ip, None)) → AddMAC name mac s c = (c', None) → coherent c' a'.
Proof.
  intros Hcoh Hun Hne Ho Hadd. pose proof (coh_wf _ _ Hcoh) as Hwf.
  pose proof (AllocateIP_wf seed name s a Hwf) as Hwf'. rewrite Ho in Hwf'.
  destruct (AllocateIP_allocated _ _ _ _ _ _ Ho) as [Hfree Hal].
  apply AllocateIP_designated in Ho as ->; [|done..]. pose proof (AddMAC_cached _ _ _ _ _ Hadd) as Hc'.
  constructor; [done| |].
  - intros name' mac' ip'. rewrite Hc'. case_decide as Hd.
    + intros [= <-]. apply Hal. left. tauto.
    + intros Hl. apply Hal. right. by apply (coh_held _ _ Hcoh _ mac').
  - intros name' mac1 mac2 ip'. rewrite !Hc'. repeat case_decide; destruct_and?; subst; try done.
    + intros [= <-] Hl. by apply (coh_held _ _ Hcoh) in Hl.
    + intros Hl [= <-]. by apply (coh_held _ _ Hcoh) in Hl.
    + by apply (coh_inj _ _ Hcoh).
Qed.

(** A network is dropped from both stores. *)
Lemma coherent_drop name c a :
  coherent c a → coherent (DeleteMACSet name c) (DeleteIPSubnet name a).
Proof.
  intros Hcoh.
  assert (Hc : ∀ name' mac, cached_text (DeleteMACSet name c) name' mac =
     if decide (name' = name) then None else cached_text c name' mac).
  { intros name' mac. unfold cached_text, cached_ip, DeleteMACSet. case_decide as Hn.
    - subst. by rewrite lookup_delete_eq.
    - by rewrite lookup_delete_ne. }
  constructor.
  - intros name' sn Hl. unfold DeleteIPSubnet in Hl. apply lookup_delete_Some in Hl as [_ Hl]. by apply (coh_wf _ _ Hcoh name').
  - intros name' mac ip. rewrite Hc. case_decide; [done|]. intros Hl.
    apply (coh_held _ _ Hcoh) in Hl as (sn & Hsn & Hip). exists sn. unfold DeleteIPSubnet.
    by rewrite lookup_delete_ne.
  - intros name' mac mac' ip. rewrite !Hc. case_decide; [done|]. apply Hcoh.
Qed.

Lemma request_of_v4str n : u32 n → (n ≠ 0)%Z → request_of (v4str n) = This n.
Proof.
  intros Hn Hn0. pose proof (v4str_nonempty n) as Hne%String.eqb_neq.
  destruct (request_of_cases (v4str n) (ParseIP (v4str n))) as [[_ Hu]|[(n' & -> & _ & Hu' & Hd)|(_ & _ & Hd)]].
  - by rewrite Hne.
  - rewrite ParseIP_v4str, IsUnspecified_mapped in Hu by done. by apply bool_decide_eq_true in Hu.
  - rewrite ParseIP_v4str in Hd by done. by apply mapped_inj in Hd as ->.
  - rewrite ParseIP_v4str, To4_mapped in Hd by done. by apply (f_equal length) in Hd.
Qed.

(** Asking for a free address by its text. *)
Lemma AllocateIP_take `{MapRange} seed name n a sn base plen P :
  a !! name = Some sn → represents sn base plen P → u32 n → (n ≠ 0)%Z → sn_ips sn !! v4str n = Some false →
  AllocateIP seed name (v4str n) a =
    (<[name := set_ips sn (<[v4str n := true]> (sn_ips sn))]> a, (v4str n, None)) ∧
  represents (set_ips sn (<[v4str n := true]> (sn_ips sn))) base plen
    (mkPool (free P ∖ {[n]}) ({[n]} ∪ used P)).
Proof.
  intros Hsn HR Hn Hn0 Hfree. pose proof Hfree as Hin. apply (rep_lookup_v4str HR n false Hn) in Hin.
  split; [|by apply (rep_allocate HR)].
  destruct (AllocateIP_outcome seed name a sn base plen P Hsn HR (v4str n)) as (P' & r & Hstep & Hout).
  rewrite request_of_v4str in Hstep by done. inversion Hstep; simplify_eq; try done.
  destruct Hout as [Hout _]. destruct (AllocateIP seed name (v4str n) a) as [a' out] eqn:Ho. cbn in Hout. subst out.
  destruct (AllocateIP_frame _ _ _ _ _ _ _ Ho) as [(_ & sn' & Hsn' & _ & ->)|[[? ?] _]]; [|done].
  by simplify_eq.
Qed.
