(* ===== verification/Metrics.v ===== *)
(** * The metrics ([pkg/metrics])

    Three gauge vectors in a registry.  The Prometheus client library is a
    parameter: a gauge vector maps label sets to values. *)

From S2P Require Import Prelude.
Local Open Scope Z_scope.

Abbreviation LabelSet := (gmap string string).

Class PromLib := {
  GaugeVec : Type;
  NewGaugeVec : GaugeVec;
  gauge_Set : LabelSet → Z → GaugeVec → GaugeVec;      (* [With(labels).Set(v)] *)
  gauge_Delete : LabelSet → GaugeVec → GaugeVec;
  gauge_value : LabelSet → GaugeVec → option Z;
  (** The label pairs of every metric of the vector, as [Gather] reports them. *)
  gauge_collect : GaugeVec → result (list (list (string * string)));
  gauge_value_New l : gauge_value l NewGaugeVec = None;
  gauge_value_Set l v l' g :
    gauge_value l' (gauge_Set l v g) = if decide (l' = l) then Some v else gauge_value l' g;
  gauge_value_Delete l l' g :
    gauge_value l' (gauge_Delete l g) = if decide (l' = l) then None else gauge_value l' g;
  gauge_collect_spec g ms l : gauge_collect g = inl ms →
    (∃ m, m ∈ ms ∧ NoDup m.*1 ∧ list_to_map m = l) ↔ is_Some (gauge_value l g);
  gauge_collect_NoDup g ms m : gauge_collect g = inl ms → m ∈ ms → NoDup m.*1;
}.

Definition LabelIPPoolName : string := "ippool".
Definition LabelCIDR : string := "cidr".
Definition LabelNetworkName : string := "network".
Definition LabelVmNetCfgName : string := "vmnetcfg".
Definition LabelMACAddress : string := "mac".
Definition LabelIPAddress : string := "ip".
Definition LabelState : string := "state".

Section metrics.
Context `{PromLib}.

Record MetricsAllocator : Type := mkMetricsAllocator {
  ipPoolUsed : GaugeVec;
  ipPoolAvailable : GaugeVec;
  vmNetCfgStatus : GaugeVec;
}.

Definition NewMetricsAllocator : MetricsAllocator :=
  mkMetricsAllocator NewGaugeVec NewGaugeVec NewGaugeVec.

Definition pool_labels (name cidr networkName : string) : LabelSet :=
  {[ LabelIPPoolName := name; LabelCIDR := cidr; LabelNetworkName := networkName ]}.

Definition UpdateIPPoolUsed (name cidr networkName : string) (used : Z) (a : MetricsAllocator)
    : MetricsAllocator :=
  mkMetricsAllocator (gauge_Set (pool_labels name cidr networkName) used (ipPoolUsed a))
    (ipPoolAvailable a) (vmNetCfgStatus a).

Definition UpdateIPPoolAvailable (name cidr networkName : string) (available : Z) (a : MetricsAllocator)
    : MetricsAllocator :=
  mkMetricsAllocator (ipPoolUsed a)
    (gauge_Set (pool_labels name cidr networkName) available (ipPoolAvailable a)) (vmNetCfgStatus a).

Definition DeleteIPPool (name cidr networkName : string) (a : MetricsAllocator) : MetricsAllocator :=
  mkMetricsAllocator (gauge_Delete (pool_labels name cidr networkName) (ipPoolUsed a))
    (gauge_Delete (pool_labels name cidr networkName) (ipPoolAvailable a)) (vmNetCfgStatus a).

Definition vmnetcfg_labels (name networkName macAddress ipAddress state : string) : LabelSet :=
  {[ LabelVmNetCfgName := name; LabelNetworkName := networkName; LabelMACAddress := macAddress;
     LabelIPAddress := ipAddress; LabelState := state ]}.

Definition UpdateVmNetCfgStatus (name networkName macAddress ipAddress state : string)
    (a : MetricsAllocator) : MetricsAllocator :=
  mkMetricsAllocator (ipPoolUsed a) (ipPoolAvailable a)
    (gauge_Set (vmnetcfg_labels name networkName macAddress ipAddress state) 1 (vmNetCfgStatus a)).

(** A metric whose labels name [name]: its label pairs as a map, later pairs
    overwriting earlier ones. *)
Definition metric_of (name : string) (pairs : list (string * string)) : option LabelSet :=
  if existsb (λ l, String.eqb l.1 LabelVmNetCfgName && String.eqb l.2 name) pairs then
    Some (foldl (λ pLabel l, <[l.1 := l.2]> pLabel) ∅ pairs)
  else None.

Definition DeleteVmNetCfgStatus (name : string) (a : MetricsAllocator) : MetricsAllocator :=
  match gauge_collect (vmNetCfgStatus a) with
  | inr _ => a
  | inl metrics =>
      let vmNetCfgMetrics := omap (metric_of name) metrics in
      mkMetricsAllocator (ipPoolUsed a) (ipPoolAvailable a)
        (foldl (λ g pl, gauge_Delete pl g) (vmNetCfgStatus a) vmNetCfgMetrics)
  end.

(** ** Facts *)

Lemma foldl_insert_list_to_map (l : list (string * string)) :
  NoDup l.*1 → foldl (λ (m : LabelSet) e, <[e.1 := e.2]> m) ∅ l = list_to_map l.
Proof.
  intros Hnd. assert (Hgen : ∀ m : LabelSet, foldl (λ m e, <[e.1 := e.2]> m) m l = list_to_map l ∪ m).
  { induction l as [|[k v] l IH]; intros m; cbn [foldl list_to_map foldr fst snd].
    - by rewrite (left_id_L ∅ (∪)).
    - cbn in Hnd. apply NoDup_cons in Hnd as [Hk Hnd]. rewrite IH by done.
      rewrite <-insert_union_l, insert_union_r; [done|]. by apply not_elem_of_list_to_map. }
  by rewrite Hgen, (right_id_L ∅ (∪)).
Qed.

Lemma gauge_value_delete_list l ls g :
  gauge_value l (foldl (λ g pl, gauge_Delete pl g) g ls) =
  if decide (l ∈ ls) then None else gauge_value l g.
Proof.
  revert g. induction ls as [|x ls IH]; intros g; cbn [foldl].
  - rewrite decide_False; [done|apply not_elem_of_nil].
  - rewrite IH, gauge_value_Delete. destruct (decide (l ∈ ls)) as [Hin|Hin].
    + rewrite decide_True; [done|]. by right.
    + destruct (decide (l = x)) as [->|Hne].
      * rewrite decide_True; [done|]. by left.
      * rewrite decide_False; [done|]. by apply not_elem_of_cons.
Qed.

(** When the registry can be gathered, deleting the
    status metrics of a VirtualMachineNetworkConfig removes exactly the metrics
    labelled with its name and keeps every other value. *)
Theorem DeleteVmNetCfgStatus_spec (name : string) (a : MetricsAllocator)
    (ms : list (list (string * string))) (l : LabelSet) :
  gauge_collect (vmNetCfgStatus a) = inl ms →
  gauge_value l (vmNetCfgStatus (DeleteVmNetCfgStatus name a)) =
    if decide (l !! LabelVmNetCfgName = Some name) then None else gauge_value l (vmNetCfgStatus a).
Proof.
  intros Hms. unfold DeleteVmNetCfgStatus. rewrite Hms. cbn [vmNetCfgStatus].
  rewrite gauge_value_delete_list.
  assert (Hiff : l ∈ omap (metric_of name) ms ↔
            is_Some (gauge_value l (vmNetCfgStatus a)) ∧ l !! LabelVmNetCfgName = Some name).
  { rewrite list_elem_of_omap. rewrite <-(gauge_collect_spec _ _ l Hms).
    assert (Hone : ∀ m, NoDup m.*1 → metric_of name m =
       if decide ((list_to_map m : LabelSet) !! LabelVmNetCfgName = Some name)
       then Some (list_to_map m) else None).
    { intros m Hm. unfold metric_of. rewrite foldl_insert_list_to_map by done.
      destruct (existsb _ m) eqn:Hex.
      - rewrite decide_True; [done|]. apply existsb_exists in Hex as ([k v] & Hin & Hkv).
        apply andb_true_iff in Hkv as [Hk%String.eqb_eq Hv%String.eqb_eq]. cbn in Hk, Hv. subst.
        apply elem_of_list_to_map; [done|]. by apply list_elem_of_In.
      - rewrite decide_False; [done|]. intros Hl. apply elem_of_list_to_map in Hl; [|done].
        rewrite <-not_true_iff_false in Hex. apply Hex, existsb_exists. exists (LabelVmNetCfgName, name).
        split; [by apply list_elem_of_In|]. cbn. by rewrite !String.eqb_refl. }
    split.
    - intros (m & Hm & Heq). pose proof (gauge_collect_NoDup _ _ _ Hms Hm) as Hnd.
      rewrite Hone in Heq by done. case_decide; [|done]. injection Heq as <-. split; [|done].
      by exists m.
    - intros [(m & Hm & Hnd & <-) Hl]. exists m. split; [done|]. rewrite Hone by done.
      by rewrite decide_True. }
  destruct (decide (l ∈ omap (metric_of name) ms)) as [Hin|Hin].
  - apply Hiff in Hin as [_ Hl]. by rewrite decide_True.
  - destruct (decide (l !! LabelVmNetCfgName = Some name)) as [Hl|Hl]; [|done].
    destruct (gauge_value l (vmNetCfgStatus a)) eqn:Hv; [|done]. exfalso. apply Hin, Hiff. eauto.
Qed.
End metrics.

(** ** A registry in memory, for the concrete runs *)

Definition mem_prom : PromLib.
Proof.
  refine {| GaugeVec := gmap LabelSet Z; NewGaugeVec := ∅;
            gauge_Set l v g := <[l := v]> g; gauge_Delete l g := delete l g;
            gauge_value l g := g !! l;
            gauge_collect g := inl ((λ p, map_to_list p.1) <$> map_to_list g) |}.
  - intros l. apply lookup_empty.
  - intros l v l' g. case_decide as Hl; [subst; apply lookup_insert_eq|by apply lookup_insert_ne].
  - intros l l' g. case_decide as Hl; [subst; apply lookup_delete_eq|by apply lookup_delete_ne].
  - intros g ms l [= <-]. split.
    + intros (m & ([l' v] & -> & Hin)%list_elem_of_fmap & _ & <-). cbn. rewrite list_to_map_to_list.
      exists v. by apply elem_of_map_to_list.
    + intros [v Hv]. exists (map_to_list l). split_and!; [|apply NoDup_fst_map_to_list|apply list_to_map_to_list].
      apply list_elem_of_fmap. exists (l, v). split; [done|]. by apply elem_of_map_to_list.
  - intros g ms m [= <-] ([l v] & -> & _)%list_elem_of_fmap. apply NoDup_fst_map_to_list.
Defined.

#[local] Existing Instance mem_prom.

(** Two objects report; the metrics of one are deleted. *)
Definition demo_metrics : MetricsAllocator :=
  UpdateVmNetCfgStatus "default/vm-2" "default/net-1" "02:00:00:00:00:02" "192.168.0.11" "Allocated"
    (UpdateVmNetCfgStatus "default/vm-1" "default/net-1" "02:00:00:00:00:01" "192.168.0.10" "Allocated"
       NewMetricsAllocator).

Lemma DeleteVmNetCfgStatus_spec_witness :
  let l1 := vmnetcfg_labels "default/vm-1" "default/net-1" "02:00:00:00:00:01" "192.168.0.10" "Allocated" in
  let l2 := vmnetcfg_labels "default/vm-2" "default/net-1" "02:00:00:00:00:02" "192.168.0.11" "Allocated" in
  gauge_value l1 (vmNetCfgStatus (DeleteVmNetCfgStatus "default/vm-1" demo_metrics)) = None ∧
  gauge_value l2 (vmNetCfgStatus (DeleteVmNetCfgStatus "default/vm-1" demo_metrics)) = Some 1.
Proof.
  cbv zeta. split; erewrite DeleteVmNetCfgStatus_spec by reflexivity; vm_compute; reflexivity.
Defined.
