(* ===== verification/Dhcp.v ===== *)
(** * The DHCP lease store and server ([pkg/dhcp])

    [DHCPAllocator] keeps the leases by hardware address text and the servers by
    interface.  The packet library (insomniacslk/dhcp) and name resolution are
    parameters; [net.ParseMAC] and the printing of a hardware address are the
    standard library's. *)

From S2P Require Import Prelude GoNet GoText.
From Stdlib Require Import Ascii.
Local Open Scope Z_scope.

(** ** net.HardwareAddr *)

(** Two hexadecimal digits. *)
Definition hex2 (a b : ascii) : option Z :=
  match hex_val a, hex_val b with Some x, Some y => Some (16 * x + y) | _, _ => None end.

(** Octets of two digits, each but the last followed by [sep]. *)
Fixpoint mac_octets (sep : ascii) (s : string) : option (list Z) :=
  match s with
  | String a (String b rest) =>
      match hex2 a b with
      | None => None
      | Some v =>
          match rest with
          | EmptyString => Some [v]
          | String c rest' => if ascii_dec c sep then cons v <$> mac_octets sep rest' else None
          end
      end
  | _ => None
  end.

(** Groups of four digits, each but the last followed by a dot. *)
Fixpoint mac_groups (s : string) : option (list Z) :=
  match s with
  | String a (String b (String c (String d rest))) =>
      match hex2 a b, hex2 c d with
      | Some v, Some w =>
          match rest with
          | EmptyString => Some [v; w]
          | String e rest' => if ascii_dec e "." then (λ l, v :: w :: l) <$> mac_groups rest' else None
          end
      | _, _ => None
      end
  | _ => None
  end.

Definition mac_length (n : nat) : bool := (n =? 6)%nat || (n =? 8)%nat || (n =? 20)%nat.

(** [net.ParseMAC]: EUI-48, EUI-64 and 20-octet addresses in the three notations. *)
Definition ParseMAC (s : string) : option (list Z) :=
  if (String.length s <? 14)%nat then None
  else
    let parsed :=
      match String.get 2 s, String.get 4 s with
      | Some c2, c4 =>
          if ascii_dec c2 ":" then mac_octets ":" s
          else if ascii_dec c2 "-" then mac_octets "-" s
          else if bool_decide (c4 = Some "."%char) then mac_groups s
          else None
      | None, _ => None
      end in
    match parsed with
    | Some l => if mac_length (length l) then Some l else None
    | None => None
    end.

(** [HardwareAddr.String]: lower-case octets separated by colons. *)
Fixpoint HardwareAddr_String (hw : list Z) : string :=
  match hw with
  | [] => EmptyString
  | [b] => hex_byte b
  | b :: rest => hex_byte b +:+ ":" +:+ HardwareAddr_String rest
  end.

(** ** Leases *)

Record DHCPLease : Type := mkDHCPLease {
  ServerIP : list Z;
  ClientIP : list Z;
  SubnetMask : list Z;
  Router : list Z;
  DNS : list (list Z);
  DomainName : string;
  DomainSearch : list string;
  NTP : list (list Z);
  LeaseTime : Z;
}.

(** [DHCPLease{}] *)
Definition DHCPLease_zero : DHCPLease :=
  mkDHCPLease [] [] [] [] [] EmptyString [] [] 0.

(** [net.IP]'s text form in JSON: the nil address is the empty text. *)
Definition IP_text (ip : list Z) : string :=
  json_quote (if (length ip =? 0)%nat then EmptyString else IP_String ip).

Definition DHCPLease_String (l : DHCPLease) : string :=
  json_object
    [json_field "ServerIP" (IP_text (ServerIP l));
     json_field "ClientIP" (IP_text (ClientIP l));
     json_field "SubnetMask" (json_bytes (SubnetMask l));
     json_field "Router" (IP_text (Router l));
     json_field "DNS" (json_list (IP_text <$> DNS l));
     json_field "DomainName" (json_quote (DomainName l));
     json_field "DomainSearch" (json_list (json_quote <$> DomainSearch l));
     json_field "NTP" (json_list (IP_text <$> NTP l));
     json_field "LeaseTime" (pretty (LeaseTime l))].

(** [*server4.Server]: a handle of the library; nil after a dry run. *)
Record DHCPAllocator : Type := mkDHCPAllocator {
  leases : gmap string DHCPLease;
  servers : gmap string (option nat);
}.

Definition NewDHCPAllocator : DHCPAllocator := mkDHCPAllocator ∅ ∅.

Definition set_leases (a : DHCPAllocator) (l : gmap string DHCPLease) : DHCPAllocator :=
  mkDHCPAllocator l (servers a).

Definition checkLease (hwAddr : string) (a : DHCPAllocator) : bool :=
  bool_decide (is_Some (leases a !! hwAddr)).

Section leases.
(** [net.LookupIP]: the resolver. *)
Context (LookupIP : string → result (list (list Z))).

(** The NTP servers given as addresses or as names; what does not resolve is
    skipped (and logged). *)
Definition ntp_addresses (ntpServer : string) : list (list Z) :=
  match To4 (ParseIP ntpServer) with
  | [] =>
      let ntpServerIPs := match LookupIP ntpServer with inl l => l | inr _ => [] end in
      filter (λ ip, ip ≠ []) (To4 <$> ntpServerIPs)
  | ip4 => [ip4]
  end.

(** The lease [AddLease] fills in, once the CIDR is parsed. *)
Definition new_lease (serverIP clientIP : string) (mask : list Z) (routerIP : string) (dnsServers : list string)
    (domainName : option string) (domainSearch ntpServers : list string) (leaseTime : option Z) : DHCPLease :=
  mkDHCPLease (ParseIP serverIP) (ParseIP clientIP) mask (ParseIP routerIP)
    (ParseIP <$> dnsServers) (default EmptyString domainName) domainSearch
    (ntpServers ≫= ntp_addresses) (default 0 leaseTime).

Definition AddLease (hwAddr serverIP clientIP cidr routerIP : string) (dnsServers : list string)
    (domainName : option string) (domainSearch ntpServers : list string) (leaseTime : option Z)
    (a : DHCPAllocator) : DHCPAllocator * option error :=
  if String.eqb hwAddr EmptyString then (a, Some (Errorf "hwaddr is empty" []))
  else match ParseMAC hwAddr with
  | None => (a, Some (Errorf "hwaddr %s is not valid" [hwAddr]))
  | Some _ =>
      if checkLease hwAddr a then (a, Some (Errorf "lease for hwaddr %s already exists" [hwAddr]))
      else match ParseCIDR cidr with
      | (_, _, Some err) => (a, Some err)
      | (_, ipNet, None) =>
          let lease :=
            new_lease serverIP clientIP (net_Mask ipNet) routerIP dnsServers domainName domainSearch ntpServers leaseTime in
          (set_leases a (<[hwAddr := lease]> (leases a)), None)
      end
  end.
End leases.

Definition GetLease (hwAddr : string) (a : DHCPAllocator) : DHCPLease :=
  default DHCPLease_zero (leases a !! hwAddr).

Definition DeleteLease (hwAddr : string) (a : DHCPAllocator) : DHCPAllocator * option error :=
  if negb (checkLease hwAddr a) then
    (a, Some (Errorf "lease for hwaddr %s does not exists" [hwAddr]))
  else (set_leases a (delete hwAddr (leases a)), None).

Definition ListAll (a : DHCPAllocator) : gmap string string := DHCPLease_String <$> leases a.

(** ** The packet handler *)

Definition OpcodeBootRequest : Z := 1.

Inductive MessageType : Type :=
| MessageTypeNone
| MessageTypeDiscover
| MessageTypeOffer
| MessageTypeRequest
| MessageTypeDecline
| MessageTypeAck
| MessageTypeNak
| MessageTypeRelease
| MessageTypeInform.

(** The options the handler sets, with their values; a lease time is a
    [time.Duration] in nanoseconds. *)
Inductive DHCPOption : Type :=
| OptServerIdentifier (ip : list Z)
| OptSubnetMask (mask : list Z)
| OptRouter (ip : list Z)
| OptDNS (ips : list (list Z))
| OptDomainName (name : string)
| OptDomainSearch (labels : list string)
| OptNTPServers (ips : list (list Z))
| OptIPAddressLeaseTime (d : Z)
| OptMessageType (t : MessageType).

(** Option codes of RFC 2132 and RFC 3397. *)
Definition option_code (o : DHCPOption) : Z :=
  match o with
  | OptServerIdentifier _ => 54
  | OptSubnetMask _ => 1
  | OptRouter _ => 3
  | OptDNS _ => 6
  | OptDomainName _ => 15
  | OptDomainSearch _ => 119
  | OptNTPServers _ => 42
  | OptIPAddressLeaseTime _ => 51
  | OptMessageType _ => 53
  end.

(** The library's option container: [UpdateOption] sets the option of that code. *)
Class DHCPOptions := {
  Options : Type;
  GetOption : Z → Options → option DHCPOption;
  UpdateOption : DHCPOption → Options → Options;
  GetOption_UpdateOption c o opts :
    GetOption c (UpdateOption o opts) = if decide (c = option_code o) then Some o else GetOption c opts;
}.

Section handler.
Context `{DHCPOptions}.

Record DHCPv4 : Type := mkDHCPv4 {
  OpCode : Z;
  TransactionID : list Z;
  ClientHWAddr : list Z;
  Flags : Z;
  ClientIPAddr : list Z;
  YourIPAddr : list Z;
  ServerIPAddr : list Z;
  GatewayIPAddr : list Z;
  options : Options;
}.

(** [m.MessageType()]: the value of the message type option. *)
Definition message_type (m : DHCPv4) : MessageType :=
  match GetOption 53 (options m) with Some (OptMessageType t) => t | _ => MessageTypeNone end.

(** [dhcpv4.NewReplyFromRequest] *)
Context (NewReplyFromRequest : DHCPv4 → result DHCPv4).

Definition update (o : DHCPOption) (m : DHCPv4) : DHCPv4 :=
  mkDHCPv4 (OpCode m) (TransactionID m) (ClientHWAddr m) (Flags m) (ClientIPAddr m) (YourIPAddr m)
    (ServerIPAddr m) (GatewayIPAddr m) (UpdateOption o (options m)).

Definition update_if (b : bool) (o : DHCPOption) (m : DHCPv4) : DHCPv4 := if b then update o m else m.

(** Signed 64-bit wrap-around of [time.Duration] arithmetic. *)
Definition int64 (x : Z) : Z := (x + 2 ^ 63) mod 2 ^ 64 - 2 ^ 63.

Definition second : Z := 1000000000.

Definition lease_duration (leaseTime : Z) : Z :=
  if 0 <? leaseTime then int64 (leaseTime * second) else 31536000 * second.

(** The reply filled in from the lease and the request. *)
Definition fill_reply (lease : DHCPLease) (m reply : DHCPv4) : DHCPv4 :=
  let reply := mkDHCPv4 (OpCode reply) (TransactionID m) (ClientHWAddr m) (Flags m)
                 (ClientIP lease) (ClientIP lease) (ServerIP lease) (GatewayIPAddr m)
                 (options reply) in
  let reply := update (OptServerIdentifier (ServerIP lease)) reply in
  let reply := update (OptSubnetMask (SubnetMask lease)) reply in
  let reply := update (OptRouter (Router lease)) reply in
  let reply := update_if (0 <? length (DNS lease))%nat (OptDNS (DNS lease)) reply in
  let reply := update_if (negb (String.eqb (DomainName lease) EmptyString))
                 (OptDomainName (DomainName lease)) reply in
  let reply := update_if (0 <? length (DomainSearch lease))%nat
                 (OptDomainSearch (DomainSearch lease)) reply in
  let reply := update_if (0 <? length (NTP lease))%nat (OptNTPServers (NTP lease)) reply in
  update (OptIPAddressLeaseTime (lease_duration (LeaseTime lease))) reply.

(** The packet written to the client, if any. *)
Definition dhcpHandler (a : DHCPAllocator) (packet : option DHCPv4) : option DHCPv4 :=
  match packet with
  | None => None
  | Some m =>
      if negb (OpCode m =? OpcodeBootRequest) then None
      else match NewReplyFromRequest m with
      | inr _ => None
      | inl reply =>
          let lease := default DHCPLease_zero (leases a !! HardwareAddr_String (ClientHWAddr m)) in
          if (length (ClientIP lease) =? 0)%nat then None
          else
            let reply := fill_reply lease m reply in
            match message_type m with
            | MessageTypeDiscover => Some (update (OptMessageType MessageTypeOffer) reply)
            | MessageTypeRequest => Some (update (OptMessageType MessageTypeAck) reply)
            | _ => None
            end
      end
  end.
End handler.

(** ** Servers *)

(** [server4.NewServer] on the interface, a handle or an error. *)
Definition Run (NewServer : string → result nat) (nic : string) (a : DHCPAllocator)
    : DHCPAllocator * option error :=
  match NewServer nic with
  | inr err => (a, Some err)
  | inl server => (mkDHCPAllocator (leases a) (<[nic := Some server]> (servers a)), None)
  end.

Definition DryRun (nic : string) (a : DHCPAllocator) : DHCPAllocator * option error :=
  (mkDHCPAllocator (leases a) (<[nic := None]> (servers a)), None).

Definition stop (Close : nat → option error) (nic : string) (a : DHCPAllocator) : option error :=
  match servers a !! nic with
  | Some (Some server) => Close server
  | _ => None
  end.

(** [Cleanup]: what the channel delivers once the context is done. *)
Definition Cleanup (Close : nat → option error) (a : DHCPAllocator) (nic : string) : list (option error) :=
  [stop Close nic a].
