(* ===== verification/DhcpFacts.v ===== *)
(** * The DHCP lease store and server: what they promise *)

From S2P Require Import Prelude GoNet GoNetFacts GoText Dhcp.
From Stdlib Require Import Ascii.
Local Open Scope Z_scope.

(** ** Hardware addresses *)

Lemma hex2_hex_byte b : 0 ≤ b < 256 → hex2 (digit_char (Z.shiftr b 4)) (digit_char (Z.land b 15)) = Some b.
Proof.
  intros Hb.
  apply (forall_range_dec (λ b, hex2 (digit_char (Z.shiftr b 4)) (digit_char (Z.land b 15)) = Some b) 0 256);
    [|lia]. vm_compute. reflexivity.
Qed.

Lemma mac_octets_cons b s :
  0 ≤ b < 256 → mac_octets ":" (hex_byte b +:+ ":" +:+ s) = cons b <$> mac_octets ":" s.
Proof. intros Hb. unfold hex_byte, char1. autorewrite with go_string. cbn [mac_octets]. by rewrite hex2_hex_byte. Qed.

Lemma mac_octets_single b : 0 ≤ b < 256 → mac_octets ":" (hex_byte b) = Some [b].
Proof. intros Hb. unfold hex_byte, char1. autorewrite with go_string. cbn [mac_octets]. by rewrite hex2_hex_byte. Qed.

Lemma HardwareAddr_String_cons b c hw :
  HardwareAddr_String (b :: c :: hw) = hex_byte b +:+ ":" +:+ HardwareAddr_String (c :: hw).
Proof. done. Qed.

Lemma mac_octets_String hw :
  hw ≠ [] → Forall is_byte hw → mac_octets ":" (HardwareAddr_String hw) = Some hw.
Proof.
  intros Hne Hall. induction hw as [|b hw IH]; [done|]. apply Forall_cons in Hall as [Hb Hall].
  unfold is_byte in Hb. destruct hw as [|c hw]; [apply mac_octets_single; lia|].
  rewrite HardwareAddr_String_cons, mac_octets_cons by lia. by rewrite IH.
Qed.

Lemma length_HardwareAddr_String hw :
  hw ≠ [] → (S (String.length (HardwareAddr_String hw)) = 3 * length hw)%nat.
Proof.
  intros Hne. induction hw as [|b hw IH]; [done|]. destruct hw as [|c hw]; [done|].
  rewrite HardwareAddr_String_cons. specialize (IH ltac:(done)).
  cbn [length] in *. unfold hex_byte, char1. autorewrite with go_string. cbn [String.length]. lia.
Qed.

(** [net.ParseMAC] reads back every address
    [HardwareAddr.String] prints (6, 8 or 20 octets). *)
Theorem mac_text_roundtrip (hw : list Z) :
  mac_length (length hw) = true → Forall is_byte hw → ParseMAC (HardwareAddr_String hw) = Some hw.
Proof.
  intros Hlen Hall. assert (Hne : hw ≠ []) by by intros ->.
  assert (H6 : (6 ≤ length hw)%nat).
  { unfold mac_length in Hlen. rewrite !orb_true_iff, !Nat.eqb_eq in Hlen. lia. }
  pose proof (length_HardwareAddr_String hw Hne) as Hl.
  pose proof (mac_octets_String hw Hne Hall) as Hoct. unfold ParseMAC.
  destruct (Nat.ltb_spec (String.length (HardwareAddr_String hw)) 14) as [?|_]; [lia|].
  destruct hw as [|b [|c hw]]; [done|simpl in H6; lia|].
  rewrite HardwareAddr_String_cons in *. unfold hex_byte, char1 in *.
  autorewrite with go_string in *. cbn [String.get]. destruct (ascii_dec ":" ":") as [_|]; [|done]. by rewrite Hoct, Hlen.
Qed.

Lemma mac_text_roundtrip_witness :
  ParseMAC "02:00:5e:10:00:ff" = Some [2; 0; 94; 16; 0; 255].
Proof.
  apply (mac_text_roundtrip [2; 0; 94; 16; 0; 255]); [reflexivity|].
  repeat constructor; by vm_compute.
Defined.

(** ** The lease store *)

Lemma checkLease_spec hw a : checkLease hw a = true ↔ is_Some (leases a !! hw).
Proof. unfold checkLease. by rewrite bool_decide_eq_true. Qed.

Section leases.
Context (LookupIP : string → result (list (list Z))).

Lemma ParseMAC_nonempty hw : is_Some (ParseMAC hw) → String.eqb hw EmptyString = false.
Proof using Type. destruct hw; [by intros [? ?]|done]. Qed.

Lemma AddLease_cases hw sv cl cidr rt dns dom search ntp lt a a' err :
  AddLease LookupIP hw sv cl cidr rt dns dom search ntp lt a = (a', err) →
  (err = None ∧ is_Some (ParseMAC hw) ∧ leases a !! hw = None ∧
     (∃ ip n, ParseCIDR cidr = (ip, n, None) ∧
       a' = set_leases a (<[hw := new_lease LookupIP sv cl (net_Mask n) rt dns dom search ntp lt]> (leases a)))) ∨
  (is_Some err ∧ a' = a ∧
     (ParseMAC hw = None ∨ is_Some (leases a !! hw) ∨ ∃ e, (ParseCIDR cidr).2 = Some e)).
Proof using Type.
  unfold AddLease. destruct (String.eqb_spec hw EmptyString) as [->|Hne].
  { intros [= <- <-]. right. split; [by eexists|]. split; [done|]. by left. }
  destruct (ParseMAC hw) as [bs|] eqn:Hmac.
  2: { intros [= <- <-]. right. split; [by eexists|]. split; [done|]. by left. }
  destruct (checkLease hw a) eqn:Hck.
  { intros [= <- <-]. right. split; [by eexists|]. split; [done|]. right. left. by apply checkLease_spec. }
  destruct (ParseCIDR cidr) as [[ip n] [e|]] eqn:Hc; intros [= <- <-].
  - right. split; [by eexists|]. split; [done|]. right. right. by eexists.
  - left. split; [done|]. split; [by eexists|]. split.
    + apply eq_None_not_Some. intros Hs. apply checkLease_spec in Hs. congruence.
    + by exists ip, n.
Qed.

(** [AddLease] succeeds exactly for a valid hardware address
    without a lease and a valid CIDR; the lease then reads back as given, no
    other lease changes, a second [AddLease] is refused, and [DeleteLease]
    restores the store. *)
Theorem lease_lifecycle (hw sv cl cidr rt : string) (dns : list string) (dom : option string)
    (search ntp : list string) (lt : option Z) (a a' : DHCPAllocator) (err : option error) :
  AddLease LookupIP hw sv cl cidr rt dns dom search ntp lt a = (a', err) →
  (err = None ↔ is_Some (ParseMAC hw) ∧ leases a !! hw = None ∧ (ParseCIDR cidr).2 = None) ∧
  (is_Some err → a' = a) ∧
  (err = None →
     GetLease hw a' = new_lease LookupIP sv cl (net_Mask (ParseCIDR cidr).1.2) rt dns dom search ntp lt ∧
     (∀ hw', hw' ≠ hw → GetLease hw' a' = GetLease hw' a) ∧
     is_Some (AddLease LookupIP hw sv cl cidr rt dns dom search ntp lt a').2 ∧
     DeleteLease hw a' = (a, None) ∧ is_Some (DeleteLease hw a).2).
Proof using Type.
  intros Hadd. destruct (AddLease_cases _ _ _ _ _ _ _ _ _ _ _ _ _ Hadd)
    as [(-> & Hmac & Hnew & ip & n & Hc & Ha')|([e ->] & -> & Hbad)].
  - rewrite Hc. cbn [fst snd]. split; [by split|]. split; [by intros [? ?]|]. intros _.
    assert (Hck : checkLease hw a' = true).
    { apply checkLease_spec. rewrite Ha'. cbn. rewrite lookup_insert_eq. by eexists. }
    assert (Hck0 : checkLease hw a = false).
    { apply not_true_is_false. rewrite checkLease_spec, Hnew. by intros [? ?]. }
    split_and!.
    + unfold GetLease. rewrite Ha'. cbn. by rewrite lookup_insert_eq.
    + intros hw' Hne. unfold GetLease. rewrite Ha'. cbn. by rewrite lookup_insert_ne.
    + unfold AddLease. rewrite ParseMAC_nonempty by done. destruct Hmac as [bs ->].
      rewrite Hck. by eexists.
    + unfold DeleteLease. rewrite Hck, Ha'. cbn [negb set_leases leases].
      f_equal. destruct a as [ls srv]. unfold set_leases. cbn. f_equal. by apply delete_insert_id.
    + unfold DeleteLease. rewrite Hck0. by eexists.
  - split; [|split; [done|done]]. split; [done|]. intros (Hmac & Hnone & Hc). exfalso.
    destruct Hbad as [Hbad|[[l Hbad]|[x Hbad]]]; [|congruence..].
    rewrite Hbad in Hmac. by destruct Hmac.
Qed.
End leases.

Lemma lease_lifecycle_witness :
  let r := AddLease (λ n, inr (OtherError n)) "02:00:00:00:00:01" "192.168.0.3" "192.168.0.10"
             "192.168.0.0/24" "192.168.0.1" ["8.8.8.8"] None [] ["10.0.0.1"] None NewDHCPAllocator in
  r.2 = None ∧ DeleteLease "02:00:00:00:00:01" r.1 = (NewDHCPAllocator, None).
Proof.
  cbv zeta.
  destruct (lease_lifecycle (λ n, inr (OtherError n)) "02:00:00:00:00:01" "192.168.0.3" "192.168.0.10"
              "192.168.0.0/24" "192.168.0.1" ["8.8.8.8"] None [] ["10.0.0.1"] None NewDHCPAllocator
              _ _ (surjective_pairing _)) as (_ & _ & Hok).
  split; [vm_compute; reflexivity|]. apply Hok. vm_compute. reflexivity.
Defined.

(** ** The handler *)

Lemma lease_duration_exact t : 0 < t ≤ 9223372036 → lease_duration t = t * second.
Proof.
  intros Ht. unfold lease_duration, int64, second. destruct (Z.ltb_spec 0 t); [|lia].
  rewrite Z.mod_small by lia. lia.
Qed.

Section handler.
Context `{DHCPOptions}.

(** A request the server answers, with the lease it answers from. *)
Definition answerable (a : DHCPAllocator) (m : DHCPv4) (l : DHCPLease) : Prop :=
  OpCode m = OpcodeBootRequest ∧ leases a !! HardwareAddr_String (ClientHWAddr m) = Some l ∧
  ClientIP l ≠ [] ∧ (message_type m = MessageTypeDiscover ∨ message_type m = MessageTypeRequest).

(** The message type of the answer. *)
Definition answer_type (t : MessageType) : MessageType :=
  match t with MessageTypeDiscover => MessageTypeOffer | _ => MessageTypeAck end.

Lemma GetOption_update_same c o m : c = option_code o → GetOption c (options (update o m)) = Some o.
Proof using Type. intros ->. unfold update. cbn. rewrite GetOption_UpdateOption. by rewrite decide_True. Qed.

Lemma GetOption_update_ne c o m :
  c ≠ option_code o → GetOption c (options (update o m)) = GetOption c (options m).
Proof using Type. intros Hc. unfold update. cbn. rewrite GetOption_UpdateOption. by rewrite decide_False. Qed.

Lemma GetOption_update_if_ne c b o m :
  c ≠ option_code o → GetOption c (options (update_if b o m)) = GetOption c (options m).
Proof using Type. intros Hc. destruct b; [by apply GetOption_update_ne|done]. Qed.

Lemma GetOption_update_if_same c b o m :
  c = option_code o → b = true → GetOption c (options (update_if b o m)) = Some o.
Proof using Type. intros Hc ->. by apply GetOption_update_same. Qed.

(** The fields and options of the answer. *)
Record answers (m : DHCPv4) (l : DHCPLease) (r : DHCPv4) : Prop := {
  ans_addr : YourIPAddr r = ClientIP l ∧ ClientIPAddr r = ClientIP l ∧ ServerIPAddr r = ServerIP l;
  ans_client : ClientHWAddr r = ClientHWAddr m ∧ TransactionID r = TransactionID m ∧
               Flags r = Flags m ∧ GatewayIPAddr r = GatewayIPAddr m;
  ans_type : message_type r = answer_type (message_type m);
  ans_server : GetOption 54 (options r) = Some (OptServerIdentifier (ServerIP l));
  ans_mask : GetOption 1 (options r) = Some (OptSubnetMask (SubnetMask l));
  ans_router : GetOption 3 (options r) = Some (OptRouter (Router l));
  ans_dns : DNS l ≠ [] → GetOption 6 (options r) = Some (OptDNS (DNS l));
  ans_domain : DomainName l ≠ EmptyString → GetOption 15 (options r) = Some (OptDomainName (DomainName l));
  ans_search : DomainSearch l ≠ [] → GetOption 119 (options r) = Some (OptDomainSearch (DomainSearch l));
  ans_ntp : NTP l ≠ [] → GetOption 42 (options r) = Some (OptNTPServers (NTP l));
  ans_time : GetOption 51 (options r) = Some (OptIPAddressLeaseTime (lease_duration (LeaseTime l)));
}.

Lemma nonempty_ltb {A} (l : list A) : l ≠ [] → (0 <? length l)%nat = true.
Proof using Type. by destruct l. Qed.

Lemma nonempty_eqb s : s ≠ EmptyString → negb (String.eqb s EmptyString) = true.
Proof using Type. by destruct s. Qed.

Lemma filled_answers m base l :
  answers m l (update (OptMessageType (answer_type (message_type m))) (fill_reply l m base)).
Proof using Type.
  unfold fill_reply. cbv zeta.
  split; unfold message_type at 1;
    rewrite ?GetOption_update_ne, ?GetOption_update_if_ne, ?GetOption_update_ne by done;
    rewrite ?GetOption_update_same by done; try done.
  - unfold update_if. by repeat case_match.
  - unfold update_if. by repeat case_match.
  - intros Hx. by apply GetOption_update_if_same, nonempty_ltb.
  - intros Hx. by apply GetOption_update_if_same, nonempty_eqb.
  - intros Hx. by apply GetOption_update_if_same, nonempty_ltb.
  - intros Hx. by apply GetOption_update_if_same, nonempty_ltb.
Qed.

(** [dhcpv4.NewReplyFromRequest] *)
Context (NewReplyFromRequest : DHCPv4 → result DHCPv4).

(** The reply to a request the server answers. *)
Lemma dhcpHandler_run a m base l :
  NewReplyFromRequest m = inl base → answerable a m l →
  dhcpHandler NewReplyFromRequest a (Some m) =
    Some (update (OptMessageType (answer_type (message_type m))) (fill_reply l m base)).
Proof using Type.
  intros Hbase (Hop & Hl & Hne & Ht). unfold dhcpHandler.
  rewrite Hbase, Hop, Hl. cbn [negb Z.eqb OpcodeBootRequest Pos.eqb default from_option]. unfold id.
  destruct (Nat.eqb_spec (length (ClientIP l)) 0) as [H0|_].
  { destruct (ClientIP l); done. }
  by destruct Ht as [Ht|Ht]; rewrite Ht.
Qed.

(** Only such requests are replied to. *)
Lemma dhcpHandler_answerable a m r :
  dhcpHandler NewReplyFromRequest a (Some m) = Some r →
  ∃ l base, NewReplyFromRequest m = inl base ∧ answerable a m l ∧ answers m l r.
Proof using Type.
  intros Hr. pose proof Hr as Hr'. unfold dhcpHandler in Hr.
  destruct (Z.eqb_spec (OpCode m) OpcodeBootRequest) as [Hop|]; [cbn [negb] in Hr|done].
  destruct (NewReplyFromRequest m) as [base|e] eqn:Hbase; [|done].
  destruct (leases a !! _) as [l|] eqn:Hl; cbn [default from_option] in Hr; [|done].
  unfold id in Hr. destruct (Nat.eqb_spec (length (ClientIP l)) 0) as [|Hne]; [done|].
  assert (Hcl : ClientIP l ≠ []) by by intros Heq; rewrite Heq in Hne.
  assert (Ha : answerable a m l) by (unfold answerable; destruct (message_type m); simplify_eq; split_and!; auto).
  exists l, base. split; [done|]. split; [done|].
  rewrite (dhcpHandler_run a m base l Hbase Ha) in Hr'. injection Hr' as <-. apply filled_answers.
Qed.

(** C30: the server answers exactly the DISCOVER and REQUEST messages
    of clients whose hardware address has a lease with an address, when the
    packet library can build a reply; the answer is an OFFER or an ACK that
    carries the leased address, the lease's server, mask, router and lease time,
    and its DNS, domain, search and NTP settings where there are any. *)
Theorem dhcpHandler_spec (a : DHCPAllocator) (m base : DHCPv4) :
  NewReplyFromRequest m = inl base →
  (is_Some (dhcpHandler NewReplyFromRequest a (Some m)) ↔ ∃ l, answerable a m l) ∧
  ∀ r, dhcpHandler NewReplyFromRequest a (Some m) = Some r → ∃ l, answerable a m l ∧ answers m l r.
Proof using Type.
  intros Hbase.
  assert (Hans : ∀ r, dhcpHandler NewReplyFromRequest a (Some m) = Some r → ∃ l, answerable a m l ∧ answers m l r).
  { intros r Hr. destruct (dhcpHandler_answerable _ _ _ Hr) as (l & _ & _ & Ha & Hans). by exists l. }
  split; [|done]. split; [intros [r Hr]; destruct (Hans r Hr) as (l & Hl & _); by exists l|].
  intros (l & Ha). rewrite (dhcpHandler_run _ _ _ _ Hbase Ha). by eexists.
Qed.

(** C37: a lease added for a client's hardware address
    in any notation but the canonical lower-case colon form ([AddLease] accepts
    dashes, dots and upper case) is never served to that client: the handler
    looks leases up under the canonical form only. *)
Theorem noncanonical_lease_never_served (LookupIP : string → result (list (list Z)))
    (hw sv cl cidr rt : string) (dns : list string) (dom : option string) (search ntp : list string)
    (lt : option Z) (a a' : DHCPAllocator) (m : DHCPv4) :
  AddLease LookupIP hw sv cl cidr rt dns dom search ntp lt a = (a', None) →
  ParseMAC hw = Some (ClientHWAddr m) → hw ≠ HardwareAddr_String (ClientHWAddr m) →
  leases a !! HardwareAddr_String (ClientHWAddr m) = None →
  dhcpHandler NewReplyFromRequest a' (Some m) = None.
Proof using Type.
  intros Hadd _ Hne Hnone.
  destruct (AddLease_cases _ _ _ _ _ _ _ _ _ _ _ _ _ _ Hadd)
    as [(_ & _ & _ & ip & n & _ & ->)|([e ?] & _)]; [|done].
  unfold dhcpHandler. destruct (negb _); [done|]. destruct (NewReplyFromRequest m); [|done].
  cbn [set_leases leases]. by rewrite lookup_insert_ne, Hnone.
Qed.
End handler.

(** ** Concrete runs *)

Definition map_options : DHCPOptions.
Proof.
  refine {| Options := gmap Z DHCPOption; GetOption c o := o !! c;
            UpdateOption o opts := <[option_code o := o]> opts |}.
  intros c o opts. case_decide as Hc; [subst; by rewrite lookup_insert_eq|by rewrite lookup_insert_ne].
Defined.

(** A BootRequest of 02:00:00:00:00:01 with the given message type. *)
Definition demo_request (t : MessageType) : @DHCPv4 map_options :=
  @mkDHCPv4 map_options OpcodeBootRequest [1; 2; 3; 4] [2; 0; 0; 0; 0; 1] 0 [] [] [] []
    ({[ 53 := OptMessageType t ]} : gmap Z DHCPOption).

Definition demo_NewReply (m : @DHCPv4 map_options) : result (@DHCPv4 map_options) :=
  inl (@mkDHCPv4 map_options 2 (TransactionID m) (ClientHWAddr m) (Flags m) [] [] [] (GatewayIPAddr m)
         (∅ : gmap Z DHCPOption)).

Definition demo_add (hw : string) : DHCPAllocator * option error :=
  AddLease (λ n, inr (OtherError n)) hw "192.168.0.3" "192.168.0.10" "192.168.0.0/24" "192.168.0.1"
    ["8.8.8.8"] None [] [] (Some 3600) NewDHCPAllocator.

Lemma dhcpHandler_spec_witness :
  let a := (demo_add "02:00:00:00:00:01").1 in
  let m := demo_request MessageTypeDiscover in
  (is_Some (dhcpHandler demo_NewReply a (Some m)) ↔ ∃ l, answerable a m l) ∧
  ∀ r, dhcpHandler demo_NewReply a (Some m) = Some r → ∃ l, answerable a m l ∧ answers m l r.
Proof. cbv zeta. by eapply (@dhcpHandler_spec map_options demo_NewReply). Defined.

(** An offer for the leased address goes out. *)
Example demo_offer :
  option_map (λ r : @DHCPv4 map_options, (YourIPAddr r, message_type r))
    (dhcpHandler demo_NewReply (demo_add "02:00:00:00:00:01").1 (Some (demo_request MessageTypeDiscover)))
  = Some (mapped 3232235530, MessageTypeOffer).
Proof. vm_compute. reflexivity. Qed.

Lemma noncanonical_lease_never_served_witness :
  (demo_add "02-00-00-00-00-01").2 = None ∧
  dhcpHandler demo_NewReply (demo_add "02-00-00-00-00-01").1 (Some (demo_request MessageTypeDiscover)) = None.
Proof.
  split; [vm_compute; reflexivity|].
  eapply (@noncanonical_lease_never_served map_options demo_NewReply (λ n, inr (OtherError n))
    "02-00-00-00-00-01" "192.168.0.3" "192.168.0.10" "192.168.0.0/24" "192.168.0.1" ["8.8.8.8"] None [] []
    (Some 3600) NewDHCPAllocator); vm_compute; [reflexivity..|discriminate|reflexivity].
Defined.
