(* ===== verification/DhcpThreads.v ===== *)
(** * The DHCP lease store under concurrent calls ([pkg/dhcp])

    The server runs [dhcpHandler] in a goroutine per packet, while the agent's controller
    adds and deletes leases.  The methods of [DHCPAllocator] access by access: those on the
    leases take the mutex; [Run], [DryRun] and [stop] use the table of servers without it. *)

From S2P Require Import Prelude Goroutines Guarded GoNet GoText Dhcp DhcpFacts.

(** The maps of the store. *)
Inductive Loc : Type :=
| Leases
| Servers.

Definition lease_go (A : Type) : Type := code DHCPAllocator Loc (res A).
#[export] Instance lease_go_MRet : MRet lease_go := code_MRet.
#[export] Instance lease_go_MBind : MBind lease_go := code_MBind.

Section methods.
Context `{MapRange} `{DHCPOptions}.
Context (LookupIP : string → result (list (list Z))).
Context (NewReplyFromRequest : DHCPv4 → result DHCPv4).

(** ** Methods under the mutex *)

Definition check_code (hwAddr : string) : lease_go bool :=
  Read Leases (λ s, Ret (Val (checkLease hwAddr s))).

Definition AddLease_body (hwAddr serverIP clientIP cidr routerIP : string) (dnsServers : list string)
    (domainName : option string) (domainSearch ntpServers : list string) (leaseTime : option Z) : lease_go (option error) :=
  if String.eqb hwAddr EmptyString then mret (Some (Errorf "hwaddr is empty" []))
  else match ParseMAC hwAddr with
  | None => mret (Some (Errorf "hwaddr %s is not valid" [hwAddr]))
  | Some _ =>
      found ← check_code hwAddr;
      if found : bool then mret (Some (Errorf "lease for hwaddr %s already exists" [hwAddr]))
      else match ParseCIDR cidr with
      | (_, _, Some err) => mret (Some err)
      | (_, ipNet, None) =>
          let lease := new_lease LookupIP serverIP clientIP (net_Mask ipNet) routerIP dnsServers domainName domainSearch
                         ntpServers leaseTime in
          Write Leases (λ s, set_leases s (<[hwAddr := lease]> (leases s))) (Ret (Val None))
      end
  end.

Definition GetLease_body (hwAddr : string) : lease_go DHCPLease :=
  Read Leases (λ s, Ret (Val (default DHCPLease_zero (leases s !! hwAddr)))).

Definition DeleteLease_body (hwAddr : string) : lease_go (option error) :=
  found ← check_code hwAddr;
  if negb found then mret (Some (Errorf "lease for hwaddr %s does not exists" [hwAddr]))
  else Write Leases (λ s, set_leases s (delete hwAddr (leases s))) (Ret (Val None)).

(** [for mac, lease := range a.leases], collecting into a map. *)
Fixpoint list_leases (ks : list string) (acc : gmap string string) : lease_go (gmap string string) :=
  match ks with
  | [] => mret acc
  | mac :: ks' =>
      e ← (Read Leases (λ s, Ret (Val (leases s !! mac))) : lease_go (option DHCPLease));
      match e with
      | Some lease => list_leases ks' (<[mac := DHCPLease_String lease]> acc)
      | None => list_leases ks' acc
      end
  end.

Definition ListAll_body (seed : nat) : lease_go (gmap string string) :=
  _ ← (Read Leases (λ s, Ret (Val (size (leases s)))) : lease_go nat);
  ks ← (Read Leases (λ s, Ret (Val (range seed (leases s)).*1)) : lease_go (list string));
  list_leases ks ∅.

(** The packet written to the client, if any; the lease is read once. *)
Definition dhcpHandler_body (packet : option DHCPv4) : lease_go (option DHCPv4) :=
  match packet with
  | None => mret None
  | Some m =>
      if negb (OpCode m =? OpcodeBootRequest)%Z then mret None
      else match NewReplyFromRequest m with
      | inr _ => mret None
      | inl reply =>
          lease ← (Read Leases (λ s, Ret (Val (default DHCPLease_zero (leases s !! HardwareAddr_String (ClientHWAddr m))))) : lease_go DHCPLease);
          if (length (ClientIP lease) =? 0)%nat then mret None
          else
            let reply := fill_reply lease m reply in
            match message_type m with
            | MessageTypeDiscover => mret (Some (update (OptMessageType MessageTypeOffer) reply))
            | MessageTypeRequest => mret (Some (update (OptMessageType MessageTypeAck) reply))
            | _ => mret None
            end
      end
  end.

(** ** Calls *)

Inductive LeaseCall : Type :=
| CallAddLease (hwAddr serverIP clientIP cidr routerIP : string) (dnsServers : list string)
    (domainName : option string) (domainSearch ntpServers : list string) (leaseTime : option Z)
| CallGetLease (hwAddr : string)
| CallDeleteLease (hwAddr : string)
| CallListAll (seed : nat)
| CallHandler (packet : option DHCPv4).

Inductive LeaseAnswer : Type :=
| AnError (err : option error)
| ALease (l : DHCPLease)
| AMap (m : gmap string string)
| APacket (p : option DHCPv4).

Definition lease_writes (op : LeaseCall) : bool :=
  match op with CallAddLease _ _ _ _ _ _ _ _ _ _ | CallDeleteLease _ => true | _ => false end.

Definition lease_body (op : LeaseCall) : lease_go LeaseAnswer :=
  match op with
  | CallAddLease hw sv cl cidr rt dns dom search ntp lt =>
      err ← AddLease_body hw sv cl cidr rt dns dom search ntp lt; mret (AnError err)
  | CallGetLease hw => l ← GetLease_body hw; mret (ALease l)
  | CallDeleteLease hw => err ← DeleteLease_body hw; mret (AnError err)
  | CallListAll seed => m ← ListAll_body seed; mret (AMap m)
  | CallHandler packet => p ← dhcpHandler_body packet; mret (APacket p)
  end.

(** The sequential model's answer. *)
Definition lease_apply (op : LeaseCall) (a : DHCPAllocator) : DHCPAllocator * res LeaseAnswer :=
  match op with
  | CallAddLease hw sv cl cidr rt dns dom search ntp lt =>
      let p := AddLease LookupIP hw sv cl cidr rt dns dom search ntp lt a in (p.1, Val (AnError p.2))
  | CallGetLease hw => (a, Val (ALease (GetLease hw a)))
  | CallDeleteLease hw => let p := DeleteLease hw a in (p.1, Val (AnError p.2))
  | CallListAll _ => (a, Val (AMap (ListAll a)))
  | CallHandler packet => (a, Val (APacket (dhcpHandler NewReplyFromRequest a packet)))
  end.

(** ** The store is guarded *)

Lemma lease_body_within op : within (lease_writes op) (lease_body op).
Proof using Type.
  destruct op as [hw sv cl cidr rt dns dom search ntp lt|hw|hw|seed|packet]; simpl.
  - unfold AddLease_body. destruct (String.eqb hw EmptyString); [done|]. destruct (ParseMAC hw); [|done].
    simpl. intros s. destruct (checkLease hw s); [done|]. by destruct (ParseCIDR cidr) as [[? ?] []].
  - done.
  - intros s. by destruct (checkLease hw s).
  - intros s s'. apply within_followed_by; [|by intros []].
    generalize (∅ : gmap string string). induction (range seed (leases s')).*1 as [|k ks IH]; intros acc; [done|].
    simpl. intros s2. destruct (leases s2 !! k); apply IH.
  - unfold dhcpHandler_body. destruct packet as [m|]; [|done]. destruct (negb _); [done|].
    destruct (NewReplyFromRequest m); [|done]. simpl. intros s. destruct (_ =? 0)%nat; [done|]. by destruct (message_type m).
Qed.

Lemma run_list_leases (a : DHCPAllocator) es acc :
  (∀ k l, (k, l) ∈ es → leases a !! k = Some l) →
  run (list_leases es.*1 acc) a = (a, Val (foldl (λ m '(k, l), <[k := DHCPLease_String l]> m) acc es)).
Proof using Type.
  revert acc. induction es as [|[k l] es IH]; intros acc Hes; [done|]. simpl. rewrite (Hes k l) by left.
  apply IH. intros k' l' Hin. apply Hes. by right.
Qed.

Lemma lease_body_run op s a :
  s = a → (run (lease_body op) s).1 = (lease_apply op a).1 ∧ (run (lease_body op) s).2 = (lease_apply op a).2.
Proof using Type.
  intros ->. destruct op as [hw sv cl cidr rt dns dom search ntp lt|hw|hw|seed|packet]; simpl.
  - unfold AddLease, AddLease_body. destruct (String.eqb hw EmptyString); [done|]. destruct (ParseMAC hw); [|done].
    simpl. destruct (checkLease hw a); [done|]. by destruct (ParseCIDR cidr) as [[? ?] []].
  - done.
  - unfold DeleteLease. by destruct (checkLease hw a).
  - rewrite run_followed_by. rewrite (run_list_leases a (range seed (leases a))); [|intros k l; by rewrite elem_of_range].
    simpl. unfold ListAll. rewrite foldl_copy; [|apply NoDup_fst_range|done].
    by rewrite list_to_map_range, (right_id_L ∅ (∪)).
  - unfold dhcpHandler, dhcpHandler_body. destruct packet as [m|]; [|done]. destruct (negb _); [done|].
    destruct (NewReplyFromRequest m); [|done]. simpl. destruct (_ =? 0)%nat; [done|]. by destruct (message_type m).
Qed.

#[export] Instance lease_guarded : Guarded DHCPAllocator Loc DHCPAllocator LeaseCall (res LeaseAnswer) := {|
  writes := lease_writes;
  body := lease_body;
  apply := lease_apply;
  view := eq;
  body_within := lease_body_within;
  body_run := lease_body_run;
|}.
End methods.

Section facts.
Context `{MapRange} `{DHCPOptions}.
Context (LookupIP : string → result (list (list Z))).
Context (NewReplyFromRequest : DHCPv4 → result DHCPv4).

#[local] Instance guarded_here : Guarded DHCPAllocator Loc DHCPAllocator LeaseCall (res LeaseAnswer) :=
  lease_guarded LookupIP NewReplyFromRequest.

(** C22: packet handlers and the agent's updates of the leases, in any
    number and interleaved access by access, see what some sequence of whole operations of
    the sequential model answers, each taking effect between its call and its return; so a
    reply is made from one state of the lease store.  There is no data race on the leases
    and no deadlock. *)
Theorem lease_store_linearizable (a : DHCPAllocator) (tr : list (event LeaseCall (res LeaseAnswer)))
    (σ : system DHCPAllocator Loc (res LeaseAnswer)) :
  exec (sys_step method) (sys_start a) tr σ →
  (∃ α, exec atomic_step (atomic_start a) tr α ∧
     (threads σ = ∅ → memory (sys_shared σ) = object α ∧ calls α = ∅)) ∧
  ¬ racy σ ∧
  (threads σ ≠ ∅ → ∃ l σ', sys_step method σ l σ' ∧ ∀ t op, l ≠ Some (Invoke t op)).
Proof using Type. intros He. exact (guarded_correct (Guarded0 := guarded_here) a a tr σ eq_refl He). Qed.

(** The packet handler looks at one lease. *)
Lemma dhcpHandler_lease (a a' : DHCPAllocator) (m : DHCPv4) :
  leases a !! HardwareAddr_String (ClientHWAddr m) = leases a' !! HardwareAddr_String (ClientHWAddr m) →
  dhcpHandler NewReplyFromRequest a (Some m) = dhcpHandler NewReplyFromRequest a' (Some m).
Proof using Type. intros Hl. unfold dhcpHandler. by rewrite Hl. Qed.

(** An update that does not delete the lease of [hw] leaves it as it is. *)
Lemma lease_apply_keeps hw l op a :
  leases a !! hw = Some l → op ≠ CallDeleteLease hw → leases (apply op a).1 !! hw = Some l.
Proof using Type.
  intros Hl Hop. destruct op as [hw' sv cl cidr rt dns dom search ntp lt|hw'|hw'|seed|packet]; simpl; try done.
  - destruct (AddLease LookupIP hw' sv cl cidr rt dns dom search ntp lt a) as [a' err] eqn:Ha.
    unfold AddLease, checkLease in Ha. repeat case_match; simplify_eq/=; try done.
    rewrite lookup_insert_ne; [done|]. intros ->. rewrite Hl in *. by rewrite bool_decide_eq_true_2 in * by eauto.
  - unfold DeleteLease. destruct (negb _); [done|]. simpl. rewrite lookup_delete_ne; [done|]. congruence.
Qed.

(** C23: a client whose lease is in the store is served from it: as
    long as nobody deletes that lease, every packet of the client is answered as by the
    store at the start, whatever leases are added and deleted and whatever packets of
    others are handled at the same time. *)
Theorem leased_client_always_served (a : DHCPAllocator) (m : DHCPv4) (l : DHCPLease)
    (tr : list (event LeaseCall (res LeaseAnswer))) (σ : system DHCPAllocator Loc (res LeaseAnswer)) :
  leases a !! HardwareAddr_String (ClientHWAddr m) = Some l →
  exec (sys_step method) (sys_start a) tr σ →
  (∀ t, Invoke t (CallDeleteLease (HardwareAddr_String (ClientHWAddr m))) ∉ tr) →
  ∀ r, (CallHandler (Some m), r) ∈ completed tr →
    r = Val (APacket (dhcpHandler NewReplyFromRequest a (Some m))).
Proof using Type.
  set (hw := HardwareAddr_String (ClientHWAddr m)). intros Hl He Hno r Hr.
  destruct (linearization (Guarded0 := guarded_here) a a tr σ eq_refl He) as (α & Hα & _).
  destruct (atomic_completed (λ a', leases a' !! hw = Some l)
    (λ op r, op = CallHandler (Some m) → r = Val (APacket (dhcpHandler NewReplyFromRequest a (Some m))))
    (λ op, op ≠ CallDeleteLease hw)) with (a := a) (tr := tr) (α := α) as [_ HP]; [| |naive_solver|done|by eapply HP].
  - intros op a' Hl' Hop. split; [by apply lease_apply_keeps|]. intros ->. simpl. do 2 f_equal.
    apply dhcpHandler_lease. fold hw. congruence.
  - done.
Qed.
End facts.

(** ** Concrete executions *)

(** A client's packet is handled while a lease is added for another client: the handler is
    called first, the addition takes the mutex in between and the handler waits. *)
#[local] Existing Instance map_options.

Definition demo_resolver (n : string) : result (list (list Z)) := inr (OtherError n).
Definition demo_store : DHCPAllocator := (demo_add "02:00:00:00:00:01").1.
Definition demo_add_other : @LeaseCall map_options :=
  CallAddLease "02:00:00:00:00:02" "192.168.0.3" "192.168.0.11" "192.168.0.0/24" "192.168.0.1" [] None [] [] None.
Definition demo_handle : @LeaseCall map_options := CallHandler (Some (demo_request MessageTypeDiscover)).

#[local] Instance demo_guarded : Guarded DHCPAllocator Loc DHCPAllocator LeaseCall (res LeaseAnswer) :=
  @lease_guarded canonical_range map_options demo_resolver demo_NewReply.

Definition demo_trace : list (event LeaseCall (res LeaseAnswer)) :=
  [Invoke 1 demo_handle; Invoke 2 demo_add_other; Respond 2 (Val (AnError None));
   Respond 1 (Val (APacket (dhcpHandler demo_NewReply demo_store (Some (demo_request MessageTypeDiscover)))))].

Lemma demo_served_execution : ∃ σ, exec (sys_step method) (sys_start demo_store) demo_trace σ.
Proof.
  eapply (play_trace _ [Begin 1 demo_handle; Begin 2 demo_add_other; Proceed 2 2; Proceed 1 5; Proceed 2 9; Finish 2;
                        Proceed 1 9; Finish 1]).
  reflexivity.
Qed.

Lemma lease_store_linearizable_witness : ∃ α, exec atomic_step (atomic_start demo_store) demo_trace α.
Proof.
  destruct demo_served_execution as [σ He].
  destruct (@lease_store_linearizable canonical_range map_options demo_resolver demo_NewReply
              demo_store demo_trace σ He) as [(α & Hα & _) _].
  by exists α.
Defined.

Lemma demo_completed : completed demo_trace =
  [(demo_add_other, Val (AnError None));
   (demo_handle, Val (APacket (dhcpHandler demo_NewReply demo_store (Some (demo_request MessageTypeDiscover)))))].
Proof. reflexivity. Qed.

Lemma demo_keeps_lease t : Invoke t (CallDeleteLease "02:00:00:00:00:01") ∉ demo_trace.
Proof. unfold demo_trace. rewrite !not_elem_of_cons. repeat split; try discriminate. apply not_elem_of_nil. Qed.

Lemma leased_client_always_served_witness :
  ∃ r : res LeaseAnswer, (demo_handle, r) ∈ completed demo_trace ∧
    r = Val (APacket (dhcpHandler demo_NewReply demo_store (Some (demo_request MessageTypeDiscover)))).
Proof.
  destruct demo_served_execution as [σ He].
  assert (Hin : (demo_handle, Val (APacket (dhcpHandler demo_NewReply demo_store (Some (demo_request MessageTypeDiscover)))))
                ∈ completed demo_trace) by (rewrite demo_completed; right; left).
  eexists. split; [exact Hin|].
  apply (@leased_client_always_served canonical_range map_options demo_resolver demo_NewReply demo_store
           (demo_request MessageTypeDiscover)
           (default DHCPLease_zero (leases demo_store !! "02:00:00:00:00:01")) demo_trace σ);
    [vm_compute; reflexivity|exact He|exact demo_keeps_lease|exact Hin].
Defined.
