(* ===== verification/Server.v ===== *)
(** * The HTTP API ([pkg/server])

    Probes, metrics and the debug listings of the allocators.  A handler writes a response
    from the state the allocators are in when the request arrives; none of them changes
    it.  The router is gorilla's [mux] and the metrics are written by Prometheus:
    parameters, with what mux documents of its path templates. *)

From S2P Require Import Prelude GoNet GoText GoTextFacts Ipam IpamSpec MacCache Metrics Dhcp DhcpFacts.
From Stdlib Require Import Ascii.

(** ** [fmt] and [net/http] *)

(** [fmt.Sprintf] with verbs of one letter, on arguments that are printed already. *)
Fixpoint Sprintf (format : string) (args : list string) : string :=
  match format with
  | EmptyString => EmptyString
  | String c rest =>
      if ascii_dec c "%" then
        match rest, args with
        | String _ rest, arg :: args => arg +:+ Sprintf rest args
        | String verb rest, [] => "%!" +:+ String verb ("(MISSING)" +:+ Sprintf rest [])
        | EmptyString, _ => "%!(NOVERB)"
        end
      else String c (Sprintf rest args)
  end.

Definition newline : string := char1 (ascii_of_nat 10).

Definition StatusOK : Z := 200.
Definition StatusNotFound : Z := 404.
Definition StatusInternalServerError : Z := 500.

(** [http.ResponseWriter]: the status line goes out with the headers set so far, once,
    at the latest with the first byte of the body.  Writing to it may fail, when the
    client has gone. *)
Record ResponseWriter : Type := mkResponseWriter {
  header : gmap string string;
  sent : option (Z * gmap string string);
  body : string;
  gone : option error;
}.

Definition response_to (gone : option error) : ResponseWriter := mkResponseWriter ∅ None EmptyString gone.
Definition no_response : ResponseWriter := response_to None.

Definition Header_Set (key value : string) (w : ResponseWriter) : ResponseWriter :=
  mkResponseWriter (<[key := value]> (header w)) (sent w) (body w) (gone w).

Definition WriteHeader (code : Z) (w : ResponseWriter) : ResponseWriter :=
  match sent w with
  | Some _ => w
  | None => mkResponseWriter (header w) (Some (code, header w)) (body w) (gone w)
  end.

Definition Write (text : string) (w : ResponseWriter) : ResponseWriter * option error :=
  let w := WriteHeader StatusOK w in
  match gone w with
  | Some err => (w, Some err)
  | None => (mkResponseWriter (header w) (sent w) (body w +:+ text) None, None)
  end.

(** How a handler ends: it returns, or it ends the process with [logrus.Fatal]. *)
Inductive Handled : Type :=
| Answered (w : ResponseWriter)
| Fatal (err : error).

(** What a handler that returns has answered. *)
Definition response (w : ResponseWriter) : Z * gmap string string * string :=
  match sent w with
  | Some (code, hs) => (code, hs, body w)
  | None => (StatusOK, header w, body w)
  end.

(** ** Parameters *)

Definition plain_template (t : string) : Prop := Cut t "{" = None.
Definition one_line (s : string) : Prop := Cut s (ascii_of_nat 10) = None.

(** mux: a path that is not clean is redirected; a template without braces matches itself,
    [{name:.*}] at the end of one matches the rest of the path. *)
Class MuxLib := {
  cleanPath : string → string;
  redirect : string → ResponseWriter → ResponseWriter;
  template_match : string → string → option (gmap string string);
  match_plain t p : plain_template t → template_match t p = if decide (p = t) then Some ∅ else None;
  match_rest t name rest : plain_template t → one_line rest →
    template_match (t +:+ "{" +:+ name +:+ ":.*}") (t +:+ rest) = Some {[name := rest]};
  match_elsewhere t name p : plain_template t → (∀ rest, p ≠ t +:+ rest) →
    template_match (t +:+ "{" +:+ name +:+ ":.*}") p = None;
}.

Section server.
Context `{PromLib} `{MuxLib}.
(** [promhttp]'s handler, and the texts of errors. *)
Context (exposition : MetricsAllocator → ResponseWriter → ResponseWriter) (Error : error → string).

(** ** handler.go *)

(** What the allocators' pointers in [HTTPServerOptions] lead to. *)
Record Allocators : Type := mkAllocators {
  cacheAllocator : CacheAllocator;
  ipAllocator : IPAllocator;
  dhcpAllocator : DHCPAllocator;
  metricsAllocator : MetricsAllocator;
}.

#[local] Abbreviation Vars := (gmap string string).
Definition HttpHandler : Type := Vars → Allocators → ResponseWriter → Handled.

(** [json.Marshal] of a [map[string]string], which never fails. *)
Definition Marshal (set : option (gmap string string)) : string * option error := (json_map set, None).

(** The end of each listing; a failed write is logged. *)
Definition write_set (set : option (gmap string string)) (w : ResponseWriter) : ResponseWriter :=
  let '(payload, err) := Marshal set in
  let w := match err with
           | Some _ => WriteHeader StatusInternalServerError w
           | None => w
           end in
  (Write payload (Header_Set "Content-Type" "application/json" w)).1.

Definition listIPByNetworkHandler : HttpHandler := λ params s w,
  let networkName := default EmptyString (params !! "networkName") in
  let '(set, err) := Ipam.ListAll networkName (ipAllocator s) in
  match err with
  | Some err =>
      Answered (Write (Sprintf "failed to list ipam of %s: %s" [networkName; Error err])
        (WriteHeader StatusInternalServerError w)).1
  | None => Answered (write_set set w)
  end.

Definition listCacheByNetworkHandler : HttpHandler := λ params s w,
  let networkName := default EmptyString (params !! "networkName") in
  let '(set, err) := MacCache.ListAll networkName (cacheAllocator s) in
  match err with
  | Some err =>
      Answered (Write (Sprintf "failed to list cache of %s: %s" [networkName; Error err])
        (WriteHeader StatusInternalServerError w)).1
  | None => Answered (write_set set w)
  end.

(** [DHCPAllocator.ListAll] never fails. *)
Definition listLeaseHandler : HttpHandler := λ _ s w,
  Answered (write_set (Some (Dhcp.ListAll (dhcpAllocator s))) w).

Definition metricsHandler : HttpHandler := λ _ s w, Answered (exposition (metricsAllocator s) w).

(** ** http.go *)

Record HTTPServer : Type := mkHTTPServer {
  DebugMode : bool;
  router : list (string * HttpHandler);
}.

Definition NewHTTPServer (debugMode : bool) : HTTPServer := mkHTTPServer debugMode [].

Definition Handle (path : string) (handler : HttpHandler) (s : HTTPServer) : HTTPServer :=
  mkHTTPServer (DebugMode s) (router s ++ [(path, handler)]).

(** [json.NewEncoder(w).Encode(map[string]bool{...})], of which only the write can fail. *)
Definition probe : HttpHandler := λ _ _ w,
  match Write (json_object [json_field "ok" "true"] +:+ newline) w with
  | (_, Some err) => Fatal err
  | (w, None) => Answered w
  end.

Definition registerProbeHandlers (s : HTTPServer) : HTTPServer :=
  Handle "/readyz" probe (Handle "/healthz" probe s).

Definition RegisterControllerHandlers (s : HTTPServer) : HTTPServer :=
  let s := registerProbeHandlers s in
  let s := if DebugMode s then
             Handle "/caches/{networkName:.*}" listCacheByNetworkHandler
               (Handle "/ipams/{networkName:.*}" listIPByNetworkHandler s)
           else s in
  Handle "/metrics" metricsHandler s.

Definition RegisterAgentHandlers (s : HTTPServer) : HTTPServer :=
  let s := registerProbeHandlers s in
  if DebugMode s then Handle "/leases" listLeaseHandler s else s.

(** ** Serving *)

(** The first route added whose template matches. *)
Fixpoint dispatch (routes : list (string * HttpHandler)) (path : string) : option (HttpHandler * Vars) :=
  match routes with
  | [] => None
  | (template, handler) :: routes =>
      match template_match template path with
      | Some vars => Some (handler, vars)
      | None => dispatch routes path
      end
  end.

Definition NotFound (w : ResponseWriter) : ResponseWriter :=
  (Write ("404 page not found" +:+ newline)
    (WriteHeader StatusNotFound (Header_Set "X-Content-Type-Options" "nosniff"
       (Header_Set "Content-Type" "text/plain; charset=utf-8" w)))).1.

Definition ServeHTTP (s : HTTPServer) (state : Allocators) (path : string) (w : ResponseWriter) : Handled :=
  if String.eqb (cleanPath path) path then
    match dispatch (router s) path with
    | Some (handler, vars) => handler vars state w
    | None => Answered (NotFound w)
    end
  else Answered (redirect (cleanPath path) w).

(** ** Facts *)

Lemma response_write_set set :
  response (write_set (Some set) no_response) = (StatusOK, {["Content-Type" := "application/json"]}, json_map (Some set)).
Proof using Type. done. Qed.

(** A listing that names its network in the path. *)
Lemma dispatch_rest template name rest routes handler : plain_template template → one_line rest →
  dispatch ((template +:+ "{" +:+ name +:+ ":.*}", handler) :: routes) (template +:+ rest) =
  Some (handler, {[name := rest]}).
Proof using Type. intros Ht Hr. cbn [dispatch]. by rewrite match_rest. Qed.

Lemma dispatch_plain template routes handler path : plain_template template →
  dispatch ((template, handler) :: routes) path =
  if decide (path = template) then Some (handler, ∅) else dispatch routes path.
Proof using Type. intros Ht. cbn [dispatch]. rewrite match_plain by done. by case_decide. Qed.

Lemma dispatch_elsewhere template name routes handler path : plain_template template →
  (∀ rest, path ≠ template +:+ rest) →
  dispatch ((template +:+ "{" +:+ name +:+ ":.*}", handler) :: routes) path = dispatch routes path.
Proof using Type. intros Ht Hp. cbn [dispatch]. by rewrite match_elsewhere. Qed.

(** What a listing answers: the map, as JSON, or the error of the allocator. *)
Definition lists {V} (entry : V → string) (set : option (gmap string V)) (failure : string) (out : Handled) : Prop :=
  ∃ w, out = Answered w ∧
  match set with
  | Some m => ∃ text, response w = (StatusOK, {["Content-Type" := "application/json"]}, text) ∧
                Unmarshal_map text = Some (entry <$> m)
  | None => response w = (StatusInternalServerError, ∅, failure)
  end.

Lemma lists_set {V} (entry : V → string) m failure : lists entry (Some m) failure (Answered (write_set (Some (entry <$> m)) no_response)).
Proof using Type. eexists. split; [done|]. eexists. split; [apply response_write_set|apply Unmarshal_json_map]. Qed.

Lemma dispatch_controller_ipam n : one_line n →
  dispatch (router (RegisterControllerHandlers (NewHTTPServer true))) ("/ipams/" +:+ n) =
  Some (listIPByNetworkHandler, {["networkName" := n]}).
Proof using Type.
  intros Hn. unfold RegisterControllerHandlers, registerProbeHandlers, Handle. cbn [router DebugMode NewHTTPServer app].
  rewrite !dispatch_plain by done. do 2 (rewrite decide_False by (by intros [=])).
  by apply (dispatch_rest "/ipams/" "networkName").
Qed.

Lemma dispatch_controller_cache n : one_line n →
  dispatch (router (RegisterControllerHandlers (NewHTTPServer true))) ("/caches/" +:+ n) =
  Some (listCacheByNetworkHandler, {["networkName" := n]}).
Proof using Type.
  intros Hn. unfold RegisterControllerHandlers, registerProbeHandlers, Handle. cbn [router DebugMode NewHTTPServer app].
  rewrite !dispatch_plain by done. do 2 (rewrite decide_False by (by intros [=])).
  rewrite (dispatch_elsewhere "/ipams/" "networkName") by (done || by intros rest [=]).
  by apply (dispatch_rest "/caches/" "networkName").
Qed.

(** C21: a request for [/ipams/<network>], [/caches/<network>] or, at an agent,
    [/leases] in debug mode is answered with JSON that reads back as exactly what the
    allocator holds: every address of the pool and whether it is taken, every MAC and its
    address, every lease; an unknown network is a 500 with the allocator's error.  Without
    debug mode these paths do not exist. *)
Theorem debug_listings (state : Allocators) (n : string) :
  one_line n → (∀ p, p = "/ipams/" +:+ n ∨ p = "/caches/" +:+ n ∨ p = "/leases" → cleanPath p = p) →
  let controller debug := RegisterControllerHandlers (NewHTTPServer debug) in
  let agent debug := RegisterAgentHandlers (NewHTTPServer debug) in
  lists FormatBool (sn_ips <$> ipAllocator state !! n)
    (Sprintf "failed to list ipam of %s: %s" [n; Error (network_missing n)])
    (ServeHTTP (controller true) state ("/ipams/" +:+ n) no_response) ∧
  lists IP_String (macs <$> cacheAllocator state !! n)
    (Sprintf "failed to list cache of %s: %s" [n; Error (mac_network_missing n)])
    (ServeHTTP (controller true) state ("/caches/" +:+ n) no_response) ∧
  lists DHCPLease_String (Some (leases (dhcpAllocator state))) EmptyString (ServeHTTP (agent true) state "/leases" no_response) ∧
  (∀ p, p = "/ipams/" +:+ n ∨ p = "/caches/" +:+ n ∨ p = "/leases" →
     ServeHTTP (controller false) state p no_response = Answered (NotFound no_response) ∧
     ServeHTTP (agent false) state p no_response = Answered (NotFound no_response)).
Proof using Type.
  intros Hn Hclean controller agent. unfold ServeHTTP. rewrite !Hclean, !String.eqb_refl by auto.
  split; [|split; [|split]].
  - unfold controller. rewrite dispatch_controller_ipam by done. unfold listIPByNetworkHandler.
    rewrite lookup_singleton_eq. cbn [default from_option id]. unfold Ipam.ListAll.
    destruct (ipAllocator state !! n) as [sn|]; [apply lists_set|by eexists].
  - unfold controller. rewrite dispatch_controller_cache by done. unfold listCacheByNetworkHandler.
    rewrite lookup_singleton_eq. cbn [default from_option id]. unfold MacCache.ListAll.
    destruct (cacheAllocator state !! n) as [set|]; [apply lists_set|by eexists].
  - unfold agent, RegisterAgentHandlers, registerProbeHandlers, Handle. cbn [router DebugMode NewHTTPServer app].
    rewrite !dispatch_plain by done. do 2 (rewrite decide_False by done). rewrite decide_True by done. apply lists_set.
  - intros p Hp. rewrite Hclean, String.eqb_refl by done.
    unfold controller, agent, RegisterControllerHandlers, RegisterAgentHandlers, registerProbeHandlers, Handle.
    cbn [router DebugMode NewHTTPServer app]. rewrite !dispatch_plain by done.
    destruct Hp as [->|[->| ->]]; split; repeat (rewrite decide_False by (by intros [=])); done.
Qed.

(** A probe that cannot be answered ends the process. *)
Lemma probes_answer (server : HTTPServer) (state : Allocators) (path : string) (failing : option error) :
  path = "/healthz" ∨ path = "/readyz" → cleanPath path = path →
  (∃ debug, server = RegisterControllerHandlers (NewHTTPServer debug) ∨ server = RegisterAgentHandlers (NewHTTPServer debug)) →
  match failing with
  | None => ∃ w, ServeHTTP server state path (response_to None) = Answered w ∧ (response w).1.1 = StatusOK
  | Some err => ServeHTTP server state path (response_to (Some err)) = Fatal err
  end.
Proof using Type.
  intros Hpath Hclean (debug & Hs). unfold ServeHTTP. rewrite Hclean, String.eqb_refl.
  assert (Hd : dispatch (router server) path = Some (probe, ∅)).
  { destruct Hs as [-> | ->]; unfold RegisterControllerHandlers, RegisterAgentHandlers, registerProbeHandlers, Handle;
      cbn [router DebugMode NewHTTPServer app]; destruct debug; cbn [router app]; rewrite !dispatch_plain by done;
      destruct Hpath as [-> | ->]; repeat (first [rewrite decide_True by done | rewrite decide_False by done]); done. }
  rewrite Hd. destruct failing as [err|]; [done|]. by eexists.
Qed.
End server.

(** ** A router and a request *)

Lemma Cut_app t c rest : Cut t c = None → Cut (t +:+ String c rest) c = Some (t, rest).
Proof.
  induction t as [|x t IH]; cbn [Cut]; rewrite ?string_app_nil_l, ?string_app_cons; cbn [Cut].
  - by destruct (ascii_dec c c).
  - destruct (ascii_dec x c); [done|]. destruct (Cut t c) as [[? ?]|]; [done|]. intros _. by rewrite IH.
Qed.

(** The rest of a text after a prefix. *)
Fixpoint after (prefix s : string) : option string :=
  match prefix, s with
  | EmptyString, _ => Some s
  | String c prefix, String d s => if ascii_dec c d then after prefix s else None
  | String _ _, EmptyString => None
  end.

Lemma after_Some prefix s rest : after prefix s = Some rest ↔ s = prefix +:+ rest.
Proof.
  revert s. induction prefix as [|c prefix IH]; intros s; cbn [after]; [rewrite string_app_nil_l; naive_solver|].
  rewrite string_app_cons. destruct s as [|d s]; [done|]. destruct (ascii_dec c d) as [->|Hne]; [rewrite IH; naive_solver|].
  split; [done|congruence].
Qed.

(** Templates with at most one variable, at the end. *)
Definition simple_match (t p : string) : option (gmap string string) :=
  match Cut t "{" with
  | None => if decide (p = t) then Some ∅ else None
  | Some (prefix, variable) =>
      rest ← after prefix p;
      Some {[String.substring 0 (String.length variable - 4) variable := rest]}
  end.

Lemma substring_app name t : String.substring 0 (String.length name) (name +:+ t) = name.
Proof. induction name as [|c name IH]; [by destruct t|]. rewrite string_app_cons. cbn. by rewrite IH. Qed.

Definition simple_mux : MuxLib.
Proof.
  refine {| cleanPath p := p; redirect _ w := w; template_match := simple_match |}.
  - intros t p Ht. unfold simple_match. by rewrite Ht.
  - intros t name rest Ht _. unfold simple_match. change ("{" +:+ ?x) with (String "{" x).
    rewrite Cut_app by done. rewrite (proj2 (after_Some t (t +:+ rest) rest) eq_refl). cbn [mbind option_bind].
    rewrite length_string_app. change (String.length ":.*}") with 4%nat. by rewrite Nat.add_sub, substring_app.
  - intros t name p Ht Hp. unfold simple_match. change ("{" +:+ ?x) with (String "{" x).
    rewrite Cut_app by done. destruct (after t p) as [rest|] eqn:Ha; [|done]. by apply after_Some, Hp in Ha.
Defined.

Definition demo_allocators : @Allocators mem_prom :=
  @mkAllocators mem_prom NewCacheAllocator demo_ipam (demo_add "02:00:00:00:00:01").1 (@NewMetricsAllocator mem_prom).

Definition demo_exposition (_ : @MetricsAllocator mem_prom) (w : ResponseWriter) : ResponseWriter := w.
Definition demo_Error (e : error) : string := EmptyString.

Lemma debug_listings_witness :
  lists FormatBool (Some (sn_ips demo_subnet)) EmptyString
    (ServeHTTP (H := mem_prom) (H0 := simple_mux)
       (RegisterControllerHandlers demo_exposition demo_Error (NewHTTPServer true)) demo_allocators "/ipams/default/net-1" no_response).
Proof.
  destruct (@debug_listings mem_prom simple_mux demo_exposition demo_Error demo_allocators "default/net-1") as [Hl _];
    [reflexivity|done|exact Hl].
Defined.
