(* ===== verification/Api.v ===== *)
(** * The custom resources ([pkg/apis/network.harvesterhci.io/v1alpha1])

    The data of [IPPool] and [VirtualMachineNetworkConfig] and of the Kubernetes
    objects the controllers touch, with the fields they read or write.  A Go
    pointer is an [option], a map that may be nil an [option] of a [gmap]; slices
    are lists (the nil and the empty slice are one value, as they are after a
    round trip through the API server).  Objects are immutable values here: a
    deep copy is the value itself, which [DeepCopy] proves of the generated functions on
    the objects in memory; where the code depends on sharing, the handler's model says so. *)

From S2P Require Import Prelude.

(** ** Metadata *)

Record OwnerReference : Type := mkOwnerReference {
  owner_APIVersion : string;
  owner_Kind : string;
  owner_Name : string;
  owner_UID : string;
}.

Record ObjectMeta : Type := mkObjectMeta {
  Namespace : string;
  Name : string;
  UID : string;
  Labels : option (gmap string string);
  Annotations : option (gmap string string);
  OwnerReferences : list OwnerReference;
  DeletionTimestamp : option Z;
  ResourceVersion : Z;
}.

Definition named_meta (namespace name : string) : ObjectMeta :=
  mkObjectMeta namespace name EmptyString None None [] None 0.

(** Reading a nil map gives the zero value; writing allocates it where the code
    does. *)
Definition or_empty {V} (m : option (gmap string V)) : gmap string V := default ∅ m.

(** ** Conditions (the struct of wrangler's [genericcondition]) *)

Record GenericCondition : Type := mkGenericCondition {
  cond_Type : string;
  cond_Status : string;
  cond_LastUpdateTime : string;
  cond_LastTransitionTime : string;
  cond_Reason : string;
  cond_Message : string;
}.

Abbreviation Conditions := (list GenericCondition).

(** The condition types of [ippool.go] and [virtualmachinenetworkconfig.go]. *)
Definition Registered : string := "Registered".
Definition CacheReady : string := "CacheReady".
Definition AgentReady : string := "AgentReady".
Definition Stopped : string := "Stopped".
Definition Allocated : string := "Allocated".
Definition Disabled : string := "Disabled".
Definition InSynced : string := "InSynced".

(** ** IPPool *)

Record Pool : Type := mkPoolRange {
  Start : string;
  End_ : string;
  Exclude : list string;
}.

Record IPv4Config : Type := mkIPv4Config {
  CIDR : string;
  ServerIP : string;
  PoolRange : Pool;
  Router : string;
  DNS : list string;
  DomainName : option string;
  DomainSearch : list string;
  NTP : list string;
  LeaseTime : option Z;
}.

Record IPPoolSpec : Type := mkIPPoolSpec {
  ipv4Config : IPv4Config;
  NetworkName : string;
  Paused : option bool;
}.

Record IPv4Status : Type := mkIPv4Status {
  st_Allocated : option (gmap string string);
  Used : Z;
  Available : Z;
}.

Record PodReference : Type := mkPodReference {
  ref_Namespace : string;
  ref_Name : string;
  ref_Image : string;
  ref_UID : string;
}.

Record IPPoolStatus : Type := mkIPPoolStatus {
  LastUpdate : Z;
  IPv4 : option IPv4Status;
  AgentPodRef : option PodReference;
  pool_Conditions : Conditions;
}.

Record IPPool : Type := mkIPPool {
  pool_Meta : ObjectMeta;
  pool_Spec : IPPoolSpec;
  pool_Status : IPPoolStatus;
}.

(** [new(networkv1.IPv4Status)], [new(networkv1.PodReference)] *)
Definition IPv4Status_zero : IPv4Status := mkIPv4Status None 0 0.
Definition PodReference_zero : PodReference :=
  mkPodReference EmptyString EmptyString EmptyString EmptyString.

(** ** VirtualMachineNetworkConfig *)

Inductive NetworkConfigState : Type :=
| AllocatedState
| PendingState
| StaleState
| NoState.   (* the empty string *)

Record NetworkConfig : Type := mkNetworkConfig {
  nc_NetworkName : string;
  nc_MACAddress : string;
  nc_IPAddress : option string;
}.

Record NetworkConfigStatus : Type := mkNetworkConfigStatus {
  AllocatedIPAddress : string;
  ncs_MACAddress : string;
  ncs_NetworkName : string;
  State : NetworkConfigState;
}.

Record VmNetCfgSpec : Type := mkVmNetCfgSpec {
  VMName : string;
  NetworkConfigs : list NetworkConfig;
  vnc_Paused : option bool;
}.

Record VmNetCfgStatus : Type := mkVmNetCfgStatus {
  st_NetworkConfigs : list NetworkConfigStatus;
  vnc_Conditions : Conditions;
}.

(** [VirtualMachineNetworkConfig]; [Kind] is the type meta the webhook prints. *)
Record VmNetCfg : Type := mkVmNetCfg {
  vnc_Kind : string;
  vnc_Meta : ObjectMeta;
  vnc_Spec : VmNetCfgSpec;
  vnc_Status : VmNetCfgStatus;
}.

(** ** Objects of other APIs, as far as they are read or built *)

(** Multus' NetworkAttachmentDefinition: only its metadata is used. *)
Record NAD : Type := mkNAD { nad_Meta : ObjectMeta }.

(** ** Equality of objects ([reflect.DeepEqual]) *)

#[export] Instance OwnerReference_eq_dec : EqDecision OwnerReference.
Proof. solve_decision. Defined.
#[export] Instance ObjectMeta_eq_dec : EqDecision ObjectMeta.
Proof. solve_decision. Defined.
#[export] Instance GenericCondition_eq_dec : EqDecision GenericCondition.
Proof. solve_decision. Defined.
#[export] Instance Pool_eq_dec : EqDecision Pool.
Proof. solve_decision. Defined.
#[export] Instance IPv4Config_eq_dec : EqDecision IPv4Config.
Proof. solve_decision. Defined.
#[export] Instance IPPoolSpec_eq_dec : EqDecision IPPoolSpec.
Proof. solve_decision. Defined.
#[export] Instance IPv4Status_eq_dec : EqDecision IPv4Status.
Proof. solve_decision. Defined.
#[export] Instance PodReference_eq_dec : EqDecision PodReference.
Proof. solve_decision. Defined.
#[export] Instance IPPoolStatus_eq_dec : EqDecision IPPoolStatus.
Proof. solve_decision. Defined.
#[export] Instance IPPool_eq_dec : EqDecision IPPool.
Proof. solve_decision. Defined.
#[export] Instance NetworkConfigState_eq_dec : EqDecision NetworkConfigState.
Proof. solve_decision. Defined.
#[export] Instance NetworkConfig_eq_dec : EqDecision NetworkConfig.
Proof. solve_decision. Defined.
#[export] Instance NetworkConfigStatus_eq_dec : EqDecision NetworkConfigStatus.
Proof. solve_decision. Defined.
#[export] Instance VmNetCfgSpec_eq_dec : EqDecision VmNetCfgSpec.
Proof. solve_decision. Defined.
#[export] Instance VmNetCfgStatus_eq_dec : EqDecision VmNetCfgStatus.
Proof. solve_decision. Defined.
#[export] Instance VmNetCfg_eq_dec : EqDecision VmNetCfg.
Proof. solve_decision. Defined.
#[export] Instance NAD_eq_dec : EqDecision NAD.
Proof. solve_decision. Defined.

(** [reflect.DeepEqual] *)
Definition DeepEqual {A} `{EqDecision A} (x y : A) : bool := bool_decide (x = y).

(** ** Field updates *)

Definition set_Labels (m : ObjectMeta) (l : option (gmap string string)) : ObjectMeta :=
  mkObjectMeta (Namespace m) (Name m) (UID m) l (Annotations m) (OwnerReferences m)
    (DeletionTimestamp m) (ResourceVersion m).

Definition set_Annotations (m : ObjectMeta) (l : option (gmap string string)) : ObjectMeta :=
  mkObjectMeta (Namespace m) (Name m) (UID m) (Labels m) l (OwnerReferences m)
    (DeletionTimestamp m) (ResourceVersion m).

Definition set_OwnerReferences (m : ObjectMeta) (l : list OwnerReference) : ObjectMeta :=
  mkObjectMeta (Namespace m) (Name m) (UID m) (Labels m) (Annotations m) l
    (DeletionTimestamp m) (ResourceVersion m).

Definition set_ResourceVersion (m : ObjectMeta) (v : Z) : ObjectMeta :=
  mkObjectMeta (Namespace m) (Name m) (UID m) (Labels m) (Annotations m) (OwnerReferences m)
    (DeletionTimestamp m) v.

Definition set_pool_Status (p : IPPool) (s : IPPoolStatus) : IPPool :=
  mkIPPool (pool_Meta p) (pool_Spec p) s.

Definition set_pool_Spec (p : IPPool) (s : IPPoolSpec) : IPPool :=
  mkIPPool (pool_Meta p) s (pool_Status p).

Definition set_pool_Meta (p : IPPool) (m : ObjectMeta) : IPPool :=
  mkIPPool m (pool_Spec p) (pool_Status p).

Definition set_LastUpdate (s : IPPoolStatus) (now : Z) : IPPoolStatus :=
  mkIPPoolStatus now (IPv4 s) (AgentPodRef s) (pool_Conditions s).

Definition set_IPv4 (s : IPPoolStatus) (v : option IPv4Status) : IPPoolStatus :=
  mkIPPoolStatus (LastUpdate s) v (AgentPodRef s) (pool_Conditions s).

Definition set_AgentPodRef (s : IPPoolStatus) (r : option PodReference) : IPPoolStatus :=
  mkIPPoolStatus (LastUpdate s) (IPv4 s) r (pool_Conditions s).

Definition set_pool_Conditions (s : IPPoolStatus) (c : Conditions) : IPPoolStatus :=
  mkIPPoolStatus (LastUpdate s) (IPv4 s) (AgentPodRef s) c.

Definition set_vnc_Meta (v : VmNetCfg) (m : ObjectMeta) : VmNetCfg :=
  mkVmNetCfg (vnc_Kind v) m (vnc_Spec v) (vnc_Status v).

Definition set_vnc_Spec (v : VmNetCfg) (s : VmNetCfgSpec) : VmNetCfg :=
  mkVmNetCfg (vnc_Kind v) (vnc_Meta v) s (vnc_Status v).

Definition set_vnc_Status (v : VmNetCfg) (s : VmNetCfgStatus) : VmNetCfg :=
  mkVmNetCfg (vnc_Kind v) (vnc_Meta v) (vnc_Spec v) s.

Definition set_st_NetworkConfigs (s : VmNetCfgStatus) (l : list NetworkConfigStatus) : VmNetCfgStatus :=
  mkVmNetCfgStatus l (vnc_Conditions s).

Definition set_vnc_Conditions (s : VmNetCfgStatus) (c : Conditions) : VmNetCfgStatus :=
  mkVmNetCfgStatus (st_NetworkConfigs s) c.

Definition set_State (n : NetworkConfigStatus) (s : NetworkConfigState) : NetworkConfigStatus :=
  mkNetworkConfigStatus (AllocatedIPAddress n) (ncs_MACAddress n) (ncs_NetworkName n) s.

(** [Paused != nil && *Paused] *)
Definition is_paused (p : option bool) : bool := default false p.

(** ** Condition setters on whole objects, and the wrangler library behind them *)

(** [condition.Cond]'s methods act on the [Conditions] slice of an object by
    reflection; the library is not part of this repository, so its methods are
    parameters with their documented behaviour. *)
Class ConditionLib := {
  GetStatus : string → Conditions → string;
  IsTrue : string → Conditions → bool;
  IsFalse : string → Conditions → bool;
  SetStatus : string → string → Conditions → Conditions;
  SetTrue : string → Conditions → Conditions;      (* [Cond.True] *)
  SetFalse : string → Conditions → Conditions;     (* [Cond.False] *)
  SetReason : string → string → Conditions → Conditions;
  SetMessage : string → string → Conditions → Conditions;
  SetError : string → string → option error → Conditions → Conditions;
  SetLastUpdated : string → string → Conditions → Conditions;
  IsTrue_spec c cs : IsTrue c cs = String.eqb (GetStatus c cs) "True";
  IsFalse_spec c cs : IsFalse c cs = String.eqb (GetStatus c cs) "False";
  GetStatus_SetStatus c s c' cs :
    GetStatus c' (SetStatus c s cs) = if String.eqb c' c then s else GetStatus c' cs;
  SetTrue_spec c cs : SetTrue c cs = SetStatus c "True" cs;
  SetFalse_spec c cs : SetFalse c cs = SetStatus c "False" cs;
  SetStatus_same c s cs : GetStatus c cs = s → s ≠ EmptyString → SetStatus c s cs = cs;
  GetStatus_SetReason c r c' cs : GetStatus c' (SetReason c r cs) = GetStatus c' cs;
  GetStatus_SetMessage c m c' cs : GetStatus c' (SetMessage c m cs) = GetStatus c' cs;
  GetStatus_SetError c r e c' cs :
    GetStatus c' (SetError c r e cs) =
      if String.eqb c' c then match e with None => "True" | Some _ => "False" end else GetStatus c' cs;
  GetStatus_SetLastUpdated c t c' cs : GetStatus c' (SetLastUpdated c t cs) = GetStatus c' cs;
}.

Definition pool_cond (f : Conditions → Conditions) (p : IPPool) : IPPool :=
  set_pool_Status p (set_pool_Conditions (pool_Status p) (f (pool_Conditions (pool_Status p)))).

Definition vnc_cond (f : Conditions → Conditions) (v : VmNetCfg) : VmNetCfg :=
  set_vnc_Status v (set_vnc_Conditions (vnc_Status v) (f (vnc_Conditions (vnc_Status v)))).

(** [SetStatus], [Reason] and [Message] in turn, as every helper of the
    controllers' [common.go] does. *)
Definition set_condition `{ConditionLib} (c status reason message : string) (cs : Conditions) : Conditions :=
  SetMessage c message (SetReason c reason (SetStatus c status cs)).

(** A condition with its time stamps blanked ([SanitizeStatus]). *)
Definition blank_times (c : GenericCondition) : GenericCondition :=
  mkGenericCondition (cond_Type c) (cond_Status c) EmptyString EmptyString (cond_Reason c) (cond_Message c).

Create Rewrite HintDb go_cond.
#[export] Hint Rewrite @IsTrue_spec @IsFalse_spec @GetStatus_SetStatus @SetTrue_spec @SetFalse_spec
  @GetStatus_SetReason @GetStatus_SetMessage @GetStatus_SetError @GetStatus_SetLastUpdated : go_cond.
