(* ===== verification/Heap.v ===== *)
(** * Go's heap, and deep copies of what is stored in it

    Objects as a handler meets them: structs whose pointers, slices and maps refer to a
    heap that everybody shares, the informers' caches included.  [Stored] reads the value
    an object stands for, with the locations it reaches; [Copied] is the contract of a
    [DeepCopyInto]: the value is kept and nothing is shared. *)

From S2P Require Import Prelude Api.

Abbreviation loc := nat.

(** A slice: an array with an offset and a length; nil is [None]. *)
Record slice : Type := mkSlice {
  s_array : loc;
  s_off : nat;
  s_len : nat;
}.

(** ** Memory *)

(** A heap of cells of any type [C]. *)
Section heap.
Context {C : Type}.
#[local] Abbreviation heap := (gmap loc C).

(** The type [T] as the contents of a cell, with its zero value. *)
Class InCell (T : Type) := {
  to_cell : T → C;
  of_cell : C → option T;
  zero : T;
  of_to_cell t : of_cell (to_cell t) = Some t;
}.

Definition nil_dereference : string := "invalid memory address or nil pointer dereference".

(** [new(T)], [*l] and [*l = t] *)
Definition alloc `{InCell T} : GoM heap loc := λ h,
  let l := fresh (dom h) in (<[l := to_cell zero]> h, Val l).
Definition read `{InCell T} (l : loc) : GoM heap T := λ h,
  match h !! l ≫= of_cell with
  | Some t => (h, Val t)
  | None => (h, Panic nil_dereference)
  end.
Definition write `{InCell T} (l : loc) (t : T) : GoM heap () := λ h, (<[l := to_cell t]> h, Val ()).

(** The elements of a slice. *)
Definition elements_of {T} (s : slice) (array : list T) : option (list T) :=
  if (s_off s + s_len s <=? length array)%nat then Some (take (s_len s) (drop (s_off s) array)) else None.

Definition elements_at `{InCell (list T)} (h : heap) (s : slice) : option (list T) :=
  (h !! s_array s ≫= of_cell) ≫= elements_of s.

Definition read_slice `{InCell (list T)} (s : slice) : GoM heap (list T) := λ h,
  match elements_at h s with
  | Some ts => (h, Val ts)
  | None => (h, Panic "slice bounds out of range")
  end.

(** ** What an object stands for *)

Class Stored (T V : Type) := {
  load : heap → T → option (V * gset loc);
  load_frame h h' t v F : load h t = Some (v, F) → (∀ l, l ∈ F → h' !! l = h !! l) → load h' t = Some (v, F);
  load_dom h t v F : load h t = Some (v, F) → F ⊆ dom h;
}.

Lemma load_mono `{Stored T V} h h' t x : load h t = Some x → h ⊆ h' → load h' t = Some x.
Proof using Type.
  destruct x as [v F]. intros Hl Hsub. eapply load_frame; [done|]. intros l Hin.
  pose proof (load_dom _ _ _ _ Hl l Hin) as [c Hc]%elem_of_dom. rewrite Hc. by eapply lookup_weaken.
Qed.

(** Objects without pointers. *)
Definition flat (T : Type) : Stored T T.
Proof using Type. refine {| load h t := Some (t, ∅) |}; [done|]. intros h t v F [= _ <-]. set_solver. Defined.

(** Several objects one after the other. *)
Section lists.
Context `{Stored T V}.
Fixpoint load_list (h : heap) (ts : list T) : option (list V * gset loc) :=
  match ts with
  | [] => Some ([], ∅)
  | t :: ts' => '(v, F) ← load h t; '(vs, G) ← load_list h ts'; Some (v :: vs, F ∪ G)
  end.

Lemma load_list_cons h t ts vs F : load_list h (t :: ts) = Some (vs, F) →
  ∃ v F1 vs' F2, load h t = Some (v, F1) ∧ load_list h ts = Some (vs', F2) ∧ vs = v :: vs' ∧ F = F1 ∪ F2.
Proof using Type.
  simpl. destruct (load h t) as [[v F1]|]; [|done]. simpl. destruct (load_list h ts) as [[vs' F2]|]; [|done].
  simpl. intros [= <- <-]. eauto 8.
Qed.

#[export] Instance stored_list : Stored (list T) (list V).
Proof using All.
  refine {| load := load_list |}.
  - intros h h' ts. induction ts as [|t ts IH]; intros vs F Hl Hf; [done|].
    apply load_list_cons in Hl as (v & F1 & vs' & F2 & Ht & Hts & -> & ->). simpl.
    rewrite (load_frame _ h' _ _ _ Ht) by set_solver. simpl. by rewrite (IH _ _ Hts) by set_solver.
  - intros h ts. induction ts as [|t ts IH]; intros vs F Hl; [injection Hl as <- <-; set_solver|].
    apply load_list_cons in Hl as (v & F1 & vs' & F2 & Ht & Hts & -> & ->).
    pose proof (load_dom _ _ _ _ Ht). pose proof (IH _ _ Hts). set_solver.
Defined.
End lists.

(** A pointer, nil or to a cell of type [T]. *)
Section pointers.
Context `{InCell T} `{!Stored T V}.
Definition load_pointer (h : heap) (p : option loc) : option (option V * gset loc) :=
  match p with
  | None => Some (None, ∅)
  | Some l => t ← h !! l ≫= of_cell; '(v, F) ← load h t; Some (Some v, {[l]} ∪ F)
  end.

Lemma load_pointer_Some h l v F : load_pointer h (Some l) = Some (v, F) →
  ∃ t v' F', h !! l ≫= of_cell = Some t ∧ load h t = Some (v', F') ∧ v = Some v' ∧ F = {[l]} ∪ F'.
Proof using Type.
  simpl. destruct (h !! l ≫= of_cell) as [t|]; [|done]. simpl.
  destruct (load h t) as [[v' F']|] eqn:Ht; [|done]. simpl. intros [= <- <-]. eauto 8.
Qed.

Definition stored_pointer : Stored (option loc) (option V).
Proof using All.
  refine {| load := load_pointer |}.
  - intros h h' [l|] v F Hl Hf; [|done]. apply load_pointer_Some in Hl as (t & v' & F' & Hc & Ht & -> & ->).
    simpl. rewrite Hf by set_solver. rewrite Hc. simpl. by rewrite (load_frame _ h' _ _ _ Ht) by set_solver.
  - intros h [l|] v F Hl; [|injection Hl as <- <-; set_solver].
    apply load_pointer_Some in Hl as (t & v' & F' & Hc & Ht & -> & ->).
    pose proof (load_dom _ _ _ _ Ht). apply bind_Some in Hc as (c & Hc & _). apply elem_of_dom_2 in Hc. set_solver.
Defined.
End pointers.

(** A slice; nil stands for the empty list. *)
Section slices.
Context `{InCell (list T)} `{!Stored T V}.
Definition load_slice (h : heap) (s : option slice) : option (list V * gset loc) :=
  match s with
  | None => Some ([], ∅)
  | Some s => ts ← elements_at h s; '(vs, F) ← load h ts; Some (vs, {[s_array s]} ∪ F)
  end.

Lemma load_slice_Some h s vs F : load_slice h (Some s) = Some (vs, F) →
  ∃ ts F', elements_at h s = Some ts ∧ load h ts = Some (vs, F') ∧ F = {[s_array s]} ∪ F'.
Proof using Type.
  simpl. destruct (elements_at h s) as [ts|]; [|done]. simpl.
  destruct (load_list h ts) as [[v' F']|] eqn:Ht; [|done]. simpl. intros [= <- <-]. eauto 8.
Qed.

Definition stored_slice : Stored (option slice) (list V).
Proof using All.
  refine {| load := load_slice |}.
  - intros h h' [s|] v F Hl Hf; [|done]. apply load_slice_Some in Hl as (ts & F' & Hc & Ht & ->).
    unfold load_slice. unfold elements_at in *. rewrite Hf by set_solver. rewrite Hc. simpl.
    pose proof (load_frame _ h' _ _ _ Ht) as Hts. simpl in Hts. by rewrite Hts by set_solver.
  - intros h [s|] v F Hl; [|injection Hl as <- <-; set_solver].
    apply load_slice_Some in Hl as (ts & F' & Hc & Ht & ->).
    pose proof (load_dom _ _ _ _ Ht). apply bind_Some in Hc as (array & Hc & _).
    apply bind_Some in Hc as (c & Hc & _). apply elem_of_dom_2 in Hc. set_solver.
Defined.
End slices.

(** ** Copies *)

(** [m] runs without panic, changes nothing that is there and gives an object for [v] that
    reaches new cells only. *)
Definition copies {T V} (S : Stored T V) (h : heap) (m : GoM heap T) (v : V) : Prop :=
  ∃ h' t F, m h = (h', Val t) ∧ h ⊆ h' ∧ load h' t = Some (v, F) ∧ F ## dom h.

(** The contract of a [DeepCopyInto], as the function from [*in] to [*out]. *)
Definition deep {T V} (S : Stored T V) (copy : T → GoM heap T) : Prop :=
  ∀ h t v F, load h t = Some (v, F) → copies S h (copy t) v.

(** Code that only adds to the heap. *)
Definition extending {A} (h : heap) (m : GoM heap A) (Q : heap → A → Prop) : Prop :=
  ∃ h' a, m h = (h', Val a) ∧ h ⊆ h' ∧ Q h' a.

Lemma extending_ret {A} h (a : A) Q : Q h a → extending h (mret a) Q.
Proof using Type. by exists h, a. Qed.

Lemma extending_bind {A B} h (m : GoM heap A) (f : A → GoM heap B) Q Q' :
  extending h m Q → (∀ h1 a, h ⊆ h1 → Q h1 a → extending h1 (f a) Q') → extending h (m ≫= f) Q'.
Proof using Type.
  intros (h1 & a & Hm & Hsub & HQ) Hf. destruct (Hf h1 a Hsub HQ) as (h2 & b & Hb & Hsub2 & HQ2).
  exists h2, b. rewrite (bind_run _ _ _ _ _ Hm). split; [done|]. split; [by etrans|done].
Qed.

Lemma copies_extending {T V} (S : Stored T V) h (m : GoM heap T) v :
  copies S h m v ↔ extending h m (λ h' t, ∃ F, load h' t = Some (v, F) ∧ F ## dom h).
Proof using Type.
  split.
  - intros (h' & t & F & ? & ? & ? & ?). exists h', t. eauto.
  - intros (h' & t & ? & ? & F & ? & ?). exists h', t, F. eauto.
Qed.

Lemma dom_mono (h h' : heap) : h ⊆ h' → dom h ⊆ dom h'.
Proof using Type. apply subseteq_dom. Qed.

Lemma deep_flat T : deep (flat T) mret.
Proof using Type. intros h t v F [= -> <-]. exists h, v, ∅. split; [done|]. split; [done|]. split; [done|]. set_solver. Qed.

(** One element after the other: the loop over a slice's elements. *)
Fixpoint copy_list {T} (copy : T → GoM heap T) (ts : list T) : GoM heap (list T) :=
  match ts with
  | [] => mret []
  | t :: ts' => u ← copy t; us ← copy_list copy ts'; mret (u :: us)
  end.

Lemma deep_list {T V} `{S : Stored T V} (copy : T → GoM heap T) : deep S copy → deep stored_list (copy_list copy).
Proof using Type.
  intros Hc h ts. revert h. induction ts as [|t ts IH]; intros h vs F Hl.
  { injection Hl as <- <-. exists h, [], ∅. split; [done|]. split; [done|]. split; [done|]. set_solver. }
  apply load_list_cons in Hl as (v & F1 & vs' & F2 & Ht & Hts & -> & ->).
  apply copies_extending. cbn [copy_list]. eapply extending_bind; [by apply copies_extending; eapply Hc|].
  intros h1 u Hsub1 (G1 & Hu & Hd1). eapply extending_bind.
  { apply copies_extending. eapply IH. by eapply (load_mono (H := stored_list)). }
  intros h2 us Hsub2 (G2 & Hus & Hd2). apply extending_ret. exists (G1 ∪ G2). simpl.
  rewrite (load_mono _ _ _ _ Hu Hsub2). simpl. simpl in Hus. rewrite Hus. simpl. split; [done|].
  pose proof (dom_mono _ _ Hsub1). set_solver.
Qed.

(** [out := new(T); copy( *in ) into *out], nil for nil: what every generated [DeepCopy] and
    every copied pointer field does. *)
Definition copy_pointer `{InCell T} (copy : T → GoM heap T) (p : option loc) : GoM heap (option loc) :=
  match p with
  | None => mret None
  | Some l =>
      out ← alloc;
      t ← read l;
      u ← copy t;
      _ ← write out u;
      mret (Some out)
  end.

(** [out = make([]T, len( *in ))], filled with the zero value [z], and the elements copied
    over. *)
Definition copy_slice `{InCell (list T)} (z : T) (copy : T → GoM heap T) (s : option slice)
    : GoM heap (option slice) :=
  match s with
  | None => mret None
  | Some s =>
      out ← (λ h, let l := fresh (dom h) in (<[l := to_cell (replicate (s_len s) z)]> h, Val l));
      ts ← read_slice s;
      us ← copy_list copy ts;
      _ ← write out us;
      mret (Some (mkSlice out 0 (s_len s)))
  end.

Lemma fresh_notin (h : heap) : h !! fresh (dom h) = None.
Proof using Type. apply not_elem_of_dom, is_fresh. Qed.

(** Filling a new cell with a copy. *)
Lemma fill_cell `{InCell T} {V} (S : Stored T V) h (c : C) (copy : GoM heap T) v :
  let l := fresh (dom h) in
  copies S (<[l := c]> h) copy v →
  ∃ h' t F, copy (<[l := c]> h) = (h', Val t) ∧ h ⊆ <[l := to_cell t]> h' ∧
    (<[l := to_cell t]> h' !! l ≫= of_cell) = Some t ∧
    load (<[l := to_cell t]> h') t = Some (v, F) ∧ {[l]} ∪ F ## dom h.
Proof using Type.
  intros l (h' & t & F & Hm & Hsub & Hl & Hd). exists h', t, F. split; [done|].
  pose proof (fresh_notin h) as Hfresh. fold l in Hfresh. rewrite dom_insert_L in Hd.
  split; [|split; [|split]].
  - apply insert_subseteq_r; [done|]. etrans; [|exact Hsub]. by apply insert_subseteq.
  - rewrite lookup_insert_eq. simpl. apply of_to_cell.
  - eapply load_frame; [done|]. intros x Hx. rewrite lookup_insert_ne; [done|]. set_solver.
  - apply not_elem_of_dom in Hfresh. set_solver.
Qed.

Lemma deep_pointer `{InCell T} {V} (S : Stored T V) (copy : T → GoM heap T) :
  deep S copy → deep stored_pointer (copy_pointer copy).
Proof using Type.
  intros Hc h [l|] v F Hl.
  2:{ injection Hl as <- <-. exists h, None, ∅. split; [done|]. split; [done|]. split; [done|]. set_solver. }
  apply load_pointer_Some in Hl as (t & v' & F' & Hcell & Ht & -> & ->).
  pose proof (fresh_notin h) as Hfresh.
  assert (Hsub : h ⊆ <[fresh (dom h) := to_cell (zero : T)]> h) by by apply insert_subseteq.
  destruct (fill_cell S h (to_cell (zero : T)) (copy t) v') as (h' & u & G & Hm & Hsub' & Hu & Hload & Hd).
  { eapply Hc, load_mono; eauto. }
  exists (<[fresh (dom h) := to_cell u]> h'), (Some (fresh (dom h))), ({[fresh (dom h)]} ∪ G).
  split; [|split; [done|split; [|done]]].
  - unfold copy_pointer. rewrite (bind_run _ _ _ (<[fresh (dom h) := to_cell (zero : T)]> h) (fresh (dom h)) eq_refl).
    rewrite (bind_run _ _ _ (<[fresh (dom h) := to_cell (zero : T)]> h) t).
    + by rewrite (bind_run _ _ _ _ _ Hm).
    + unfold read. apply bind_Some in Hcell as (c & Hcl & Hcell). rewrite (lookup_weaken _ _ _ _ Hcl Hsub).
      simpl. by rewrite Hcell.
  - simpl. simpl in Hu. rewrite Hu. simpl. by rewrite Hload.
Qed.

Lemma load_list_length `{S : Stored T V} h ts vs F : load_list h ts = Some (vs, F) → length ts = length vs.
Proof using Type.
  revert vs F. induction ts as [|t ts IH]; intros vs F Hl; [by injection Hl as <- <-|].
  apply load_list_cons in Hl as (v & F1 & vs' & F2 & _ & Hts & -> & _). simpl. by erewrite IH.
Qed.

Lemma elements_of_length {T} s (array ts : list T) : elements_of s array = Some ts → length ts = s_len s.
Proof using Type.
  unfold elements_of. case_match eqn:Hb; [|done]. apply Nat.leb_le in Hb. intros [= <-].
  rewrite length_take, length_drop. lia.
Qed.

Lemma deep_slice `{InCell (list T)} {V} (S : Stored T V) (z : T) (copy : T → GoM heap T) :
  deep S copy → deep stored_slice (copy_slice z copy).
Proof using Type.
  intros Hc h [s|] vs F Hl.
  2:{ injection Hl as <- <-. exists h, None, ∅. split; [done|]. split; [done|]. split; [done|]. set_solver. }
  apply load_slice_Some in Hl as (ts & F' & Hel & Ht & ->).
  pose proof (fresh_notin h) as Hfresh. set (c := to_cell (replicate (s_len s) z)).
  assert (Hsub : h ⊆ <[fresh (dom h) := c]> h) by by apply insert_subseteq.
  destruct (fill_cell stored_list h c (copy_list copy ts) vs) as (h' & us & G & Hm & Hsub' & Hus & Hload & Hd).
  { eapply deep_list; [done|]. eapply (load_mono (H := stored_list)); eauto. }
  assert (Hlen : length us = s_len s).
  { unfold elements_at in Hel. apply bind_Some in Hel as (array & _ & Hel).
    rewrite (load_list_length _ _ _ _ Hload), <-(load_list_length _ _ _ _ Ht). by eapply elements_of_length. }
  exists (<[fresh (dom h) := to_cell us]> h'), (Some (mkSlice (fresh (dom h)) 0 (s_len s))), ({[fresh (dom h)]} ∪ G).
  split; [|split; [done|split; [|done]]].
  - unfold copy_slice. rewrite (bind_run _ _ _ (<[fresh (dom h) := c]> h) (fresh (dom h)) eq_refl).
    rewrite (bind_run _ _ _ (<[fresh (dom h) := c]> h) ts).
    + by rewrite (bind_run _ _ _ _ _ Hm).
    + unfold read_slice, elements_at in *. apply bind_Some in Hel as (array & Ha & Hel).
      apply bind_Some in Ha as (c' & Hcl & Ha). rewrite (lookup_weaken _ _ _ _ Hcl Hsub). simpl. rewrite Ha. simpl. by rewrite Hel.
  - unfold load at 1, stored_slice, load_slice, elements_at. cbn [s_array]. rewrite Hus.
    unfold elements_of. simpl. rewrite <-Hlen, Nat.leb_refl, drop_0, firstn_all. simpl in *. by rewrite Hload.
Qed.
End heap.

(** ** Isolation *)

Section isolation.
Context {C : Type} `{!@InCell C T} {V : Type} (S : @Stored C T V).
#[local] Abbreviation heap := (gmap loc C).

(** [DeepCopy] on pointers: the copy stands for the same value, and whatever is written to
    what one of the two objects reaches, or anywhere else, does not show in the other. *)
Definition isolates (f : option loc → GoM heap (option loc)) : Prop :=
  ∀ h p v F, load_pointer h p = Some (v, F) →
  ∃ h' q G, f p h = (h', Val q) ∧ load_pointer h' q = Some (v, G) ∧ F ## G ∧
    (∀ h'', (∀ x, x ∈ F → h'' !! x = h' !! x) → load_pointer h'' p = Some (v, F)) ∧
    (∀ h'', (∀ x, x ∈ G → h'' !! x = h' !! x) → load_pointer h'' q = Some (v, G)).

Lemma deep_isolates (copy : T → GoM heap T) : deep S copy → isolates (copy_pointer copy).
Proof using Type.
  intros Hc h p v F Hp. pose proof (load_dom (Stored := stored_pointer) h p v F Hp) as Hd.
  destruct (deep_pointer S copy Hc h p v F Hp) as (h' & q & G & Hm & Hsub & Hq & Hdis).
  exists h', q, G. split; [done|]. split; [done|]. split; [set_solver|]. split.
  - intros h'' Hh. eapply (load_frame (Stored := stored_pointer) h h'' p v F Hp). intros x Hx. rewrite Hh by done.
    pose proof (Hd x Hx) as [c Hcx]%elem_of_dom. rewrite Hcx. by eapply lookup_weaken.
  - intros h'' Hh. by eapply (load_frame (Stored := stored_pointer) h' h'' q v G Hq).
Qed.
End isolation.

(** ** Reading structs field by field *)

Section fields.
Context {C T V : Type} (S : @Stored C T V).
Definition load_with : gmap loc C → T → option (V * gset loc) := @load C T V S.

Lemma load_with_frame h h' t v F :
  load_with h t = Some (v, F) → (∀ l, l ∈ F → h' !! l = h !! l) → load_with h' t = Some (v, F).
Proof using Type. apply load_frame. Qed.

Lemma load_with_dom h t v F : load_with h t = Some (v, F) → F ⊆ dom h.
Proof using Type. apply load_dom. Qed.

Lemma load_with_mono h h' t x : load_with h t = Some x → h ⊆ h' → load_with h' t = Some x.
Proof using Type. apply load_mono. Qed.

Lemma deep_extending copy h t v F :
  deep S copy → load_with h t = Some (v, F) →
  extending h (copy t) (λ h' u, ∃ G, load_with h' u = Some (v, G) ∧ G ## dom h).
Proof using Type. intros Hc Hl. apply copies_extending. by eapply Hc. Qed.
End fields.

(** The fields of a struct that was read. *)
Ltac load_inv H :=
  repeat lazymatch type of H with
  | (_ ≫= _) = Some _ => let x := fresh "x" in let F := fresh "F" in let Hx := fresh "Hx" in
      apply bind_Some in H as ([x F] & Hx & H); cbn beta iota in H
  end; injection H as <- <-.

(** A struct is read through its fields: the laws of [Stored]. *)
Ltac solve_frame :=
  let Hl := fresh in let Hf := fresh in
  intros ? ? ? ? ? Hl Hf; load_inv Hl;
  repeat match goal with H : load_with ?S ?h ?t = Some (?v, ?F) |- _ =>
    erewrite (load_with_frame S h _ t v F H) by (intros ? ?; apply Hf; set_solver); clear H
  end; done.
Ltac solve_dom :=
  let Hl := fresh in intros ? ? ? ? Hl; load_inv Hl;
  repeat match goal with H : load_with ?S ?h ?t = Some (?v, ?F) |- _ =>
    apply (load_with_dom S h t v F) in H
  end; set_solver.

(** A struct's [DeepCopyInto] copies field after field. *)
Ltac later Hsub :=
  repeat match goal with H : load_with ?S ?h ?t = Some ?x |- _ =>
    match type of Hsub with h ⊆ ?h' => apply (load_with_mono S h h' t x) in H; [|exact Hsub] end
  end.
Ltac copy_field deep_lemma :=
  eapply extending_bind;
  [ eapply deep_extending; [apply deep_lemma|eassumption]
  | let h1 := fresh "h" in let u := fresh "u" in let Hsub := fresh "Hsub" in
    let G := fresh "G" in let Hu := fresh "Hu" in let Hd := fresh "Hd" in
    intros h1 u Hsub (G & Hu & Hd); cbn beta; later Hsub;
    lazymatch type of Hsub with ?ha ⊆ _ =>
      lazymatch goal with Hacc : ?h0 ⊆ ha |- _ =>
        apply dom_mono in Hacc as Hacc';
        assert (G ## dom h0) by (clear -Hd Hacc'; set_solver); clear Hd Hacc';
        apply (transitivity (R := (⊆)) Hacc) in Hsub; clear Hacc
      end
    end ].
