(* ===== verification/DeepCopy.v ===== *)
(** * Deep copies of the custom resources
    ([pkg/apis/network.harvesterhci.io/v1alpha1/zz_generated_deepcopy.go])

    The resources in memory, with their pointers, slices and maps, and the generated
    functions on them.  [h_] names are the structs as they lie in memory; [Api] has the
    values they stand for.  apimachinery's [ObjectMeta] and [ListMeta] are types of another
    module: how they lie in memory is a parameter, with the contract of their own
    [DeepCopyInto]. *)

From S2P Require Import Prelude Api Heap.

(** ** The structs in memory *)

Record TypeMeta : Type := mkTypeMeta { meta_Kind : string; meta_APIVersion : string }.

Record h_Pool : Type := mk_h_Pool {
  h_Start : string;
  h_End : string;
  h_Exclude : option slice;
}.

Record h_IPv4Config : Type := mk_h_IPv4Config {
  h_CIDR : string;
  h_ServerIP : string;
  h_PoolRange : h_Pool;
  h_Router : string;
  h_DNS : option slice;
  h_DomainName : option loc;
  h_DomainSearch : option slice;
  h_NTP : option slice;
  h_LeaseTime : option loc;
}.

Record h_IPPoolSpec : Type := mk_h_IPPoolSpec {
  h_ipv4Config : h_IPv4Config;
  h_pool_NetworkName : string;
  h_pool_Paused : option loc;
}.

Record h_IPv4Status : Type := mk_h_IPv4Status {
  h_Allocated : option loc;     (* the map *)
  h_Used : Z;
  h_Available : Z;
}.

Record h_IPPoolStatus : Type := mk_h_IPPoolStatus {
  h_LastUpdate : Z;
  h_IPv4 : option loc;
  h_AgentPodRef : option loc;
  h_pool_Conditions : option slice;
}.

Record h_NetworkConfig : Type := mk_h_NetworkConfig {
  h_NetworkName : string;
  h_MACAddress : string;
  h_IPAddress : option loc;
}.

Record h_VmNetCfgSpec : Type := mk_h_VmNetCfgSpec {
  h_VMName : string;
  h_NetworkConfigs : option slice;
  h_vnc_Paused : option loc;
}.

Record h_VmNetCfgStatus : Type := mk_h_VmNetCfgStatus {
  h_st_NetworkConfigs : option slice;
  h_vnc_Conditions : option slice;
}.

(** ** Memory *)

Section memory.
(** apimachinery's structs, and what else lies in the heap. *)
Context {OM LM Ext : Type}.

Record h_IPPool : Type := mk_h_IPPool {
  h_pool_TypeMeta : TypeMeta;
  h_pool_ObjectMeta : OM;
  h_pool_Spec : h_IPPoolSpec;
  h_pool_Status : h_IPPoolStatus;
}.

Record h_VmNetCfg : Type := mk_h_VmNetCfg {
  h_vnc_TypeMeta : TypeMeta;
  h_vnc_ObjectMeta : OM;
  h_vnc_Spec : h_VmNetCfgSpec;
  h_vnc_Status : h_VmNetCfgStatus;
}.

Record h_List : Type := mk_h_List {
  h_list_TypeMeta : TypeMeta;
  h_list_ListMeta : LM;
  h_list_Items : option slice;
}.

Inductive cell : Type :=
| CBool (b : bool)
| CInt (n : Z)
| CString (s : string)
| CMap (m : gmap string string)
| CStrings (l : list string)
| CConditions (l : list GenericCondition)
| CNetworkConfigs (l : list h_NetworkConfig)
| CNetworkConfigStatuses (l : list NetworkConfigStatus)
| CIPPools (l : list h_IPPool)
| CVmNetCfgs (l : list h_VmNetCfg)
| CPool (x : h_Pool)
| CIPv4Config (x : h_IPv4Config)
| CIPPoolSpec (x : h_IPPoolSpec)
| CIPv4Status (x : h_IPv4Status)
| CPodReference (x : PodReference)
| CIPPoolStatus (x : h_IPPoolStatus)
| CIPPool (x : h_IPPool)
| CNetworkConfig (x : h_NetworkConfig)
| CNetworkConfigStatus (x : NetworkConfigStatus)
| CVmNetCfgSpec (x : h_VmNetCfgSpec)
| CVmNetCfgStatus (x : h_VmNetCfgStatus)
| CVmNetCfg (x : h_VmNetCfg)
| CList (x : h_List)
| CExternal (x : Ext).
End memory.
Arguments h_IPPool : clear implicits.
Arguments h_VmNetCfg : clear implicits.
Arguments h_List : clear implicits.
Arguments cell : clear implicits.

(** apimachinery's metadata: [DeepCopyInto] of [ObjectMeta] and [ListMeta] keep the value
    and share nothing (their documented purpose). *)
Class MetaLib (OM LM Ext : Type) (LV : Type) := {
  om_stored : Stored (C := cell OM LM Ext) OM ObjectMeta;
  lm_stored : Stored (C := cell OM LM Ext) LM LV;
  om_zero : OM;
  lm_zero : LM;
  om_DeepCopyInto : OM → GoM (gmap loc (cell OM LM Ext)) OM;
  lm_DeepCopyInto : LM → GoM (gmap loc (cell OM LM Ext)) LM;
  om_deep : deep om_stored om_DeepCopyInto;
  lm_deep : deep lm_stored lm_DeepCopyInto;
}.

Section deepcopy.
Context {OM LM Ext LV : Type} `{!MetaLib OM LM Ext LV}.
#[local] Abbreviation C := (cell OM LM Ext).
#[local] Abbreviation heap := (gmap loc C).

(** ** Cells *)

Definition h_Pool_zero : h_Pool := mk_h_Pool "" "" None.
Definition h_IPv4Config_zero : h_IPv4Config := mk_h_IPv4Config "" "" h_Pool_zero "" None None None None None.
Definition h_IPPoolSpec_zero : h_IPPoolSpec := mk_h_IPPoolSpec h_IPv4Config_zero "" None.
Definition h_IPPoolStatus_zero : h_IPPoolStatus := mk_h_IPPoolStatus 0 None None None.
Definition h_VmNetCfgSpec_zero : h_VmNetCfgSpec := mk_h_VmNetCfgSpec "" None None.
Definition h_VmNetCfgStatus_zero : h_VmNetCfgStatus := mk_h_VmNetCfgStatus None None.
Definition TypeMeta_zero : TypeMeta := mkTypeMeta "" "".

Definition in_cell {T} (c : T → C) (f : C → option T) (z : T) (H : ∀ t, f (c t) = Some t) : InCell (C := C) T :=
  {| to_cell := c; of_cell := f; zero := z; of_to_cell := H |}.

#[local] Instance bool_cell : InCell bool := in_cell CBool (λ c, match c with CBool x => Some x | _ => None end) false (λ _, eq_refl).
#[local] Instance Z_cell : InCell Z := in_cell CInt (λ c, match c with CInt x => Some x | _ => None end) 0%Z (λ _, eq_refl).
#[local] Instance string_cell : InCell string := in_cell CString (λ c, match c with CString x => Some x | _ => None end) ""%string (λ _, eq_refl).
#[local] Instance map_cell : InCell (gmap string string) := in_cell CMap (λ c, match c with CMap x => Some x | _ => None end) ∅ (λ _, eq_refl).
#[local] Instance strings_cell : InCell (list string) := in_cell CStrings (λ c, match c with CStrings x => Some x | _ => None end) [] (λ _, eq_refl).
#[local] Instance conditions_cell : InCell (list GenericCondition) := in_cell CConditions (λ c, match c with CConditions x => Some x | _ => None end) [] (λ _, eq_refl).
#[local] Instance NetworkConfigs_cell : InCell (list h_NetworkConfig) := in_cell CNetworkConfigs (λ c, match c with CNetworkConfigs x => Some x | _ => None end) [] (λ _, eq_refl).
#[local] Instance NetworkConfigStatuses_cell : InCell (list NetworkConfigStatus) := in_cell CNetworkConfigStatuses (λ c, match c with CNetworkConfigStatuses x => Some x | _ => None end) [] (λ _, eq_refl).
#[local] Instance IPPools_cell : InCell (list (h_IPPool OM)) := in_cell CIPPools (λ c, match c with CIPPools x => Some x | _ => None end) [] (λ _, eq_refl).
#[local] Instance VmNetCfgs_cell : InCell (list (h_VmNetCfg OM)) := in_cell CVmNetCfgs (λ c, match c with CVmNetCfgs x => Some x | _ => None end) [] (λ _, eq_refl).
#[local] Instance Pool_cell : InCell h_Pool := in_cell CPool (λ c, match c with CPool x => Some x | _ => None end) h_Pool_zero (λ _, eq_refl).
#[local] Instance IPv4Config_cell : InCell h_IPv4Config := in_cell CIPv4Config (λ c, match c with CIPv4Config x => Some x | _ => None end) h_IPv4Config_zero (λ _, eq_refl).
#[local] Instance IPPoolSpec_cell : InCell h_IPPoolSpec := in_cell CIPPoolSpec (λ c, match c with CIPPoolSpec x => Some x | _ => None end) h_IPPoolSpec_zero (λ _, eq_refl).
#[local] Instance IPv4Status_cell : InCell h_IPv4Status := in_cell CIPv4Status (λ c, match c with CIPv4Status x => Some x | _ => None end) (mk_h_IPv4Status None 0 0) (λ _, eq_refl).
#[local] Instance PodReference_cell : InCell PodReference := in_cell CPodReference (λ c, match c with CPodReference x => Some x | _ => None end) PodReference_zero (λ _, eq_refl).
#[local] Instance IPPoolStatus_cell : InCell h_IPPoolStatus := in_cell CIPPoolStatus (λ c, match c with CIPPoolStatus x => Some x | _ => None end) h_IPPoolStatus_zero (λ _, eq_refl).
#[local] Instance IPPool_cell : InCell (h_IPPool OM) := in_cell CIPPool (λ c, match c with CIPPool x => Some x | _ => None end)
  (mk_h_IPPool TypeMeta_zero om_zero h_IPPoolSpec_zero h_IPPoolStatus_zero) (λ _, eq_refl).
#[local] Instance NetworkConfig_cell : InCell h_NetworkConfig := in_cell CNetworkConfig (λ c, match c with CNetworkConfig x => Some x | _ => None end) (mk_h_NetworkConfig "" "" None) (λ _, eq_refl).
#[local] Instance NetworkConfigStatus_cell : InCell NetworkConfigStatus := in_cell CNetworkConfigStatus (λ c, match c with CNetworkConfigStatus x => Some x | _ => None end) (mkNetworkConfigStatus "" "" "" NoState) (λ _, eq_refl).
#[local] Instance VmNetCfgSpec_cell : InCell h_VmNetCfgSpec := in_cell CVmNetCfgSpec (λ c, match c with CVmNetCfgSpec x => Some x | _ => None end) h_VmNetCfgSpec_zero (λ _, eq_refl).
#[local] Instance VmNetCfgStatus_cell : InCell h_VmNetCfgStatus := in_cell CVmNetCfgStatus (λ c, match c with CVmNetCfgStatus x => Some x | _ => None end) h_VmNetCfgStatus_zero (λ _, eq_refl).
#[local] Instance VmNetCfg_cell : InCell (h_VmNetCfg OM) := in_cell CVmNetCfg (λ c, match c with CVmNetCfg x => Some x | _ => None end)
  (mk_h_VmNetCfg TypeMeta_zero om_zero h_VmNetCfgSpec_zero h_VmNetCfgStatus_zero) (λ _, eq_refl).

#[local] Instance List_cell : InCell (h_List LM) := in_cell CList (λ c, match c with CList x => Some x | _ => None end)
  (mk_h_List TypeMeta_zero lm_zero None) (λ _, eq_refl).

(** ** What the structs stand for *)

Definition bool_pointer : Stored (C := C) (option loc) (option bool) := stored_pointer (Stored0 := flat bool).
Definition Z_pointer : Stored (C := C) (option loc) (option Z) := stored_pointer (Stored0 := flat Z).
Definition string_pointer : Stored (C := C) (option loc) (option string) := stored_pointer (Stored0 := flat string).
Definition map_reference : Stored (C := C) (option loc) (option (gmap string string)) :=
  stored_pointer (Stored0 := flat (gmap string string)).
Definition PodReference_pointer : Stored (C := C) (option loc) (option PodReference) :=
  stored_pointer (Stored0 := flat PodReference).
Definition strings : Stored (C := C) (option slice) (list string) := stored_slice (Stored0 := flat string).
Definition conditions : Stored (C := C) (option slice) (list GenericCondition) :=
  stored_slice (Stored0 := flat GenericCondition).
Definition statuses : Stored (C := C) (option slice) (list NetworkConfigStatus) :=
  stored_slice (Stored0 := flat NetworkConfigStatus).

Definition Pool_stored : Stored (C := C) h_Pool Pool.
Proof using Type.
  refine {| load h p := '(ex, F) ← load_with strings h (h_Exclude p);
                        Some (mkPoolRange (h_Start p) (h_End p) ex, F) |}; [solve_frame|solve_dom].
Defined.

Definition IPv4Config_stored : Stored (C := C) h_IPv4Config IPv4Config.
Proof using Type.
  refine {| load h c :=
    '(pool, F1) ← load_with Pool_stored h (h_PoolRange c);
    '(dns, F2) ← load_with strings h (h_DNS c);
    '(name, F3) ← load_with string_pointer h (h_DomainName c);
    '(search, F4) ← load_with strings h (h_DomainSearch c);
    '(ntp, F5) ← load_with strings h (h_NTP c);
    '(lease, F6) ← load_with Z_pointer h (h_LeaseTime c);
    Some (mkIPv4Config (h_CIDR c) (h_ServerIP c) pool (h_Router c) dns name search ntp lease,
          F1 ∪ F2 ∪ F3 ∪ F4 ∪ F5 ∪ F6) |}; [solve_frame|solve_dom].
Defined.

Definition IPPoolSpec_stored : Stored (C := C) h_IPPoolSpec IPPoolSpec.
Proof using Type.
  refine {| load h s :=
    '(cfg, F1) ← load_with IPv4Config_stored h (h_ipv4Config s);
    '(paused, F2) ← load_with bool_pointer h (h_pool_Paused s);
    Some (mkIPPoolSpec cfg (h_pool_NetworkName s) paused, F1 ∪ F2) |}; [solve_frame|solve_dom].
Defined.

Definition IPv4Status_stored : Stored (C := C) h_IPv4Status IPv4Status.
Proof using Type.
  refine {| load h s :=
    '(allocated, F) ← load_with map_reference h (h_Allocated s);
    Some (mkIPv4Status allocated (h_Used s) (h_Available s), F) |}; [solve_frame|solve_dom].
Defined.

Definition IPv4Status_pointer : Stored (C := C) (option loc) (option IPv4Status) :=
  stored_pointer (Stored0 := IPv4Status_stored).

Definition IPPoolStatus_stored : Stored (C := C) h_IPPoolStatus IPPoolStatus.
Proof using Type.
  refine {| load h s :=
    '(ipv4, F1) ← load_with IPv4Status_pointer h (h_IPv4 s);
    '(ref, F2) ← load_with PodReference_pointer h (h_AgentPodRef s);
    '(conds, F3) ← load_with conditions h (h_pool_Conditions s);
    Some (mkIPPoolStatus (h_LastUpdate s) ipv4 ref conds, F1 ∪ F2 ∪ F3) |}; [solve_frame|solve_dom].
Defined.

Definition IPPool_stored : Stored (C := C) (h_IPPool OM) (TypeMeta * IPPool).
Proof using MetaLib0.
  refine {| load h p :=
    '(m, F1) ← load_with om_stored h (h_pool_ObjectMeta p);
    '(spec, F2) ← load_with IPPoolSpec_stored h (h_pool_Spec p);
    '(status, F3) ← load_with IPPoolStatus_stored h (h_pool_Status p);
    Some ((h_pool_TypeMeta p, mkIPPool m spec status), F1 ∪ F2 ∪ F3) |}; [solve_frame|solve_dom].
Defined.

Definition NetworkConfig_stored : Stored (C := C) h_NetworkConfig NetworkConfig.
Proof using Type.
  refine {| load h c :=
    '(ip, F) ← load_with string_pointer h (h_IPAddress c);
    Some (mkNetworkConfig (h_NetworkName c) (h_MACAddress c) ip, F) |}; [solve_frame|solve_dom].
Defined.

Definition NetworkConfigs_stored : Stored (C := C) (option slice) (list NetworkConfig) :=
  stored_slice (Stored0 := NetworkConfig_stored).

Definition VmNetCfgSpec_stored : Stored (C := C) h_VmNetCfgSpec VmNetCfgSpec.
Proof using Type.
  refine {| load h s :=
    '(configs, F1) ← load_with NetworkConfigs_stored h (h_NetworkConfigs s);
    '(paused, F2) ← load_with bool_pointer h (h_vnc_Paused s);
    Some (mkVmNetCfgSpec (h_VMName s) configs paused, F1 ∪ F2) |}; [solve_frame|solve_dom].
Defined.

Definition VmNetCfgStatus_stored : Stored (C := C) h_VmNetCfgStatus VmNetCfgStatus.
Proof using Type.
  refine {| load h s :=
    '(sts, F1) ← load_with statuses h (h_st_NetworkConfigs s);
    '(conds, F2) ← load_with conditions h (h_vnc_Conditions s);
    Some (mkVmNetCfgStatus sts conds, F1 ∪ F2) |}; [solve_frame|solve_dom].
Defined.

Definition VmNetCfg_stored : Stored (C := C) (h_VmNetCfg OM) (TypeMeta * VmNetCfg).
Proof using MetaLib0.
  refine {| load h v :=
    '(m, F1) ← load_with om_stored h (h_vnc_ObjectMeta v);
    '(spec, F2) ← load_with VmNetCfgSpec_stored h (h_vnc_Spec v);
    '(status, F3) ← load_with VmNetCfgStatus_stored h (h_vnc_Status v);
    Some ((h_vnc_TypeMeta v, mkVmNetCfg (meta_Kind (h_vnc_TypeMeta v)) m spec status), F1 ∪ F2 ∪ F3) |};
  [solve_frame|solve_dom].
Defined.

(** A list object with items of either kind. *)
Definition list_stored {V} (items : Stored (C := C) (option slice) (list V))
  : Stored (C := C) (h_List LM) (TypeMeta * LV * list V).
Proof using MetaLib0.
  refine {| load h l :=
    '(m, F1) ← load_with lm_stored h (h_list_ListMeta l);
    '(vs, F2) ← load_with items h (h_list_Items l);
    Some ((h_list_TypeMeta l, m, vs), F1 ∪ F2) |}; [solve_frame|solve_dom].
Defined.
Definition IPPoolList_stored := list_stored (stored_slice (Stored0 := IPPool_stored)).
Definition VmNetCfgList_stored := list_stored (stored_slice (Stored0 := VmNetCfg_stored)).

(** ** The generated functions

    [*out = *in] copies the struct with its pointers; the fields with storage of their own
    are then replaced by copies, in the order of the generated code. *)

Definition Pool_DeepCopyInto (in_ : h_Pool) : GoM heap h_Pool :=
  exclude ← copy_slice "" mret (h_Exclude in_);
  mret (mk_h_Pool (h_Start in_) (h_End in_) exclude).

Definition IPv4Config_DeepCopyInto (in_ : h_IPv4Config) : GoM heap h_IPv4Config :=
  pool ← Pool_DeepCopyInto (h_PoolRange in_);
  dns ← copy_slice "" mret (h_DNS in_);
  domainName ← copy_pointer (T := string) mret (h_DomainName in_);
  domainSearch ← copy_slice "" mret (h_DomainSearch in_);
  ntp ← copy_slice "" mret (h_NTP in_);
  leaseTime ← copy_pointer (T := Z) mret (h_LeaseTime in_);
  mret (mk_h_IPv4Config (h_CIDR in_) (h_ServerIP in_) pool (h_Router in_) dns domainName domainSearch ntp leaseTime).

Definition IPPoolSpec_DeepCopyInto (in_ : h_IPPoolSpec) : GoM heap h_IPPoolSpec :=
  ipv4Config ← IPv4Config_DeepCopyInto (h_ipv4Config in_);
  paused ← copy_pointer (T := bool) mret (h_pool_Paused in_);
  mret (mk_h_IPPoolSpec ipv4Config (h_pool_NetworkName in_) paused).

(** The map is copied entry by entry into a new one. *)
Definition IPv4Status_DeepCopyInto (in_ : h_IPv4Status) : GoM heap h_IPv4Status :=
  allocated ← copy_pointer (T := gmap string string)
                (λ m, mret (map_fold (λ key val out, <[key := val]> out) ∅ m)) (h_Allocated in_);
  mret (mk_h_IPv4Status allocated (h_Used in_) (h_Available in_)).

Definition PodReference_DeepCopyInto (in_ : PodReference) : GoM heap PodReference := mret in_.

(** [metav1.Time] is immutable: its own [DeepCopyInto] assigns. *)
Definition IPPoolStatus_DeepCopyInto (in_ : h_IPPoolStatus) : GoM heap h_IPPoolStatus :=
  ipv4 ← copy_pointer IPv4Status_DeepCopyInto (h_IPv4 in_);
  ref ← copy_pointer PodReference_DeepCopyInto (h_AgentPodRef in_);
  conds ← copy_slice (mkGenericCondition "" "" "" "" "" "") mret (h_pool_Conditions in_);
  mret (mk_h_IPPoolStatus (h_LastUpdate in_) ipv4 ref conds).

Definition IPPool_DeepCopyInto (in_ : h_IPPool OM) : GoM heap (h_IPPool OM) :=
  meta ← om_DeepCopyInto (h_pool_ObjectMeta in_);
  spec ← IPPoolSpec_DeepCopyInto (h_pool_Spec in_);
  status ← IPPoolStatus_DeepCopyInto (h_pool_Status in_);
  mret (mk_h_IPPool (h_pool_TypeMeta in_) meta spec status).

Definition NetworkConfig_DeepCopyInto (in_ : h_NetworkConfig) : GoM heap h_NetworkConfig :=
  ip ← copy_pointer (T := string) mret (h_IPAddress in_);
  mret (mk_h_NetworkConfig (h_NetworkName in_) (h_MACAddress in_) ip).

Definition NetworkConfigStatus_DeepCopyInto (in_ : NetworkConfigStatus) : GoM heap NetworkConfigStatus := mret in_.

Definition VmNetCfgSpec_DeepCopyInto (in_ : h_VmNetCfgSpec) : GoM heap h_VmNetCfgSpec :=
  configs ← copy_slice (mk_h_NetworkConfig "" "" None) NetworkConfig_DeepCopyInto (h_NetworkConfigs in_);
  paused ← copy_pointer (T := bool) mret (h_vnc_Paused in_);
  mret (mk_h_VmNetCfgSpec (h_VMName in_) configs paused).

Definition VmNetCfgStatus_DeepCopyInto (in_ : h_VmNetCfgStatus) : GoM heap h_VmNetCfgStatus :=
  sts ← copy_slice (mkNetworkConfigStatus "" "" "" NoState) mret (h_st_NetworkConfigs in_);
  conds ← copy_slice (mkGenericCondition "" "" "" "" "" "") mret (h_vnc_Conditions in_);
  mret (mk_h_VmNetCfgStatus sts conds).

Definition VmNetCfg_DeepCopyInto (in_ : h_VmNetCfg OM) : GoM heap (h_VmNetCfg OM) :=
  meta ← om_DeepCopyInto (h_vnc_ObjectMeta in_);
  spec ← VmNetCfgSpec_DeepCopyInto (h_vnc_Spec in_);
  status ← VmNetCfgStatus_DeepCopyInto (h_vnc_Status in_);
  mret (mk_h_VmNetCfg (h_vnc_TypeMeta in_) meta spec status).

Definition IPPoolList_DeepCopyInto (in_ : h_List LM) : GoM heap (h_List LM) :=
  meta ← lm_DeepCopyInto (h_list_ListMeta in_);
  items ← copy_slice (zero : h_IPPool OM) IPPool_DeepCopyInto (h_list_Items in_);
  mret (mk_h_List (h_list_TypeMeta in_) meta items).

Definition VmNetCfgList_DeepCopyInto (in_ : h_List LM) : GoM heap (h_List LM) :=
  meta ← lm_DeepCopyInto (h_list_ListMeta in_);
  items ← copy_slice (zero : h_VmNetCfg OM) VmNetCfg_DeepCopyInto (h_list_Items in_);
  mret (mk_h_List (h_list_TypeMeta in_) meta items).

(** [DeepCopy]: nil for nil, else a new object. *)
Definition Pool_DeepCopy := copy_pointer Pool_DeepCopyInto.
Definition IPv4Config_DeepCopy := copy_pointer IPv4Config_DeepCopyInto.
Definition IPPoolSpec_DeepCopy := copy_pointer IPPoolSpec_DeepCopyInto.
Definition IPv4Status_DeepCopy := copy_pointer IPv4Status_DeepCopyInto.
Definition PodReference_DeepCopy := copy_pointer PodReference_DeepCopyInto.
Definition IPPoolStatus_DeepCopy := copy_pointer IPPoolStatus_DeepCopyInto.
Definition IPPool_DeepCopy := copy_pointer IPPool_DeepCopyInto.
Definition IPPoolList_DeepCopy := copy_pointer IPPoolList_DeepCopyInto.
Definition NetworkConfig_DeepCopy := copy_pointer NetworkConfig_DeepCopyInto.
Definition NetworkConfigStatus_DeepCopy := copy_pointer NetworkConfigStatus_DeepCopyInto.
Definition VmNetCfgSpec_DeepCopy := copy_pointer VmNetCfgSpec_DeepCopyInto.
Definition VmNetCfgStatus_DeepCopy := copy_pointer VmNetCfgStatus_DeepCopyInto.
Definition VmNetCfg_DeepCopy := copy_pointer VmNetCfg_DeepCopyInto.
Definition VmNetCfgList_DeepCopy := copy_pointer VmNetCfgList_DeepCopyInto.

(** [DeepCopyObject]: the copy as a [runtime.Object], a nil interface for a nil copy. *)
Definition DeepCopyObject (DeepCopy : option loc → GoM heap (option loc)) (in_ : option loc) : GoM heap (option loc) :=
  c ← DeepCopy in_;
  match c with
  | Some c => mret (Some c)
  | None => mret None
  end.
Definition IPPool_DeepCopyObject := DeepCopyObject IPPool_DeepCopy.
Definition IPPoolList_DeepCopyObject := DeepCopyObject IPPoolList_DeepCopy.
Definition VmNetCfg_DeepCopyObject := DeepCopyObject VmNetCfg_DeepCopy.
Definition VmNetCfgList_DeepCopyObject := DeepCopyObject VmNetCfgList_DeepCopy.

(** ** Every copy is deep *)

Lemma deep_strings : deep strings (copy_slice "" mret).
Proof using Type. apply deep_slice, deep_flat. Qed.
Lemma deep_conditions (z : GenericCondition) : deep conditions (copy_slice z mret).
Proof using Type. apply deep_slice, deep_flat. Qed.
Lemma deep_statuses (z : NetworkConfigStatus) : deep statuses (copy_slice z mret).
Proof using Type. apply deep_slice, deep_flat. Qed.
Lemma deep_bool : deep bool_pointer (copy_pointer (T := bool) mret).
Proof using Type. apply deep_pointer, deep_flat. Qed.
Lemma deep_Z : deep Z_pointer (copy_pointer (T := Z) mret).
Proof using Type. apply deep_pointer, deep_flat. Qed.
Lemma deep_string : deep string_pointer (copy_pointer (T := string) mret).
Proof using Type. apply deep_pointer, deep_flat. Qed.
Lemma deep_PodReference : deep PodReference_pointer (copy_pointer PodReference_DeepCopyInto).
Proof using Type. apply deep_pointer, deep_flat. Qed.
Lemma deep_map : deep map_reference (copy_pointer (T := gmap string string)
  (λ m, mret (map_fold (λ key val out, <[key := val]> out) ∅ m))).
Proof using Type.
  apply deep_pointer. intros h m v F Hm. rewrite map_fold_insert_id. by eapply (deep_flat (gmap string string)).
Qed.

Ltac start_copy S :=
  let Hl := fresh in intros h0 ? ? ? Hl; unfold S in Hl; cbn [load] in Hl; load_inv Hl; apply copies_extending;
  assert (Hacc : h0 ⊆ h0) by reflexivity.
Ltac finish_copy S :=
  apply extending_ret; eexists; split;
  [ unfold S; cbn [load h_Start h_End h_Exclude h_CIDR h_ServerIP h_PoolRange h_Router h_DNS h_DomainName h_DomainSearch
      h_NTP h_LeaseTime h_ipv4Config h_pool_NetworkName h_pool_Paused h_Allocated h_Used h_Available h_LastUpdate h_IPv4
      h_AgentPodRef h_pool_Conditions h_NetworkName h_MACAddress h_IPAddress h_VMName h_NetworkConfigs h_vnc_Paused
      h_st_NetworkConfigs h_vnc_Conditions h_pool_TypeMeta h_pool_ObjectMeta h_pool_Spec h_pool_Status h_vnc_TypeMeta
      h_vnc_ObjectMeta h_vnc_Spec h_vnc_Status h_list_TypeMeta h_list_ListMeta h_list_Items];
    repeat match goal with H : load_with _ _ _ = Some _ |- _ =>
      rewrite H; clear H; cbn [mbind option_bind] end; reflexivity
  | set_solver ].

Lemma deep_Pool : deep Pool_stored Pool_DeepCopyInto.
Proof using Type. start_copy Pool_stored. unfold Pool_DeepCopyInto. copy_field deep_strings. finish_copy Pool_stored. Qed.

Lemma deep_IPv4Config : deep IPv4Config_stored IPv4Config_DeepCopyInto.
Proof using Type.
  start_copy IPv4Config_stored. unfold IPv4Config_DeepCopyInto. copy_field deep_Pool. copy_field deep_strings.
  copy_field deep_string. copy_field deep_strings. copy_field deep_strings. copy_field deep_Z.
  finish_copy IPv4Config_stored.
Qed.

Lemma deep_IPPoolSpec : deep IPPoolSpec_stored IPPoolSpec_DeepCopyInto.
Proof using Type.
  start_copy IPPoolSpec_stored. unfold IPPoolSpec_DeepCopyInto. copy_field deep_IPv4Config. copy_field deep_bool.
  finish_copy IPPoolSpec_stored.
Qed.

Lemma deep_IPv4Status : deep IPv4Status_stored IPv4Status_DeepCopyInto.
Proof using Type.
  start_copy IPv4Status_stored. unfold IPv4Status_DeepCopyInto. copy_field deep_map. finish_copy IPv4Status_stored.
Qed.

Lemma deep_IPv4Status_pointer : deep IPv4Status_pointer (copy_pointer IPv4Status_DeepCopyInto).
Proof using Type. apply deep_pointer, deep_IPv4Status. Qed.

Lemma deep_IPPoolStatus : deep IPPoolStatus_stored IPPoolStatus_DeepCopyInto.
Proof using Type.
  start_copy IPPoolStatus_stored. unfold IPPoolStatus_DeepCopyInto. copy_field deep_IPv4Status_pointer.
  copy_field deep_PodReference. copy_field deep_conditions. finish_copy IPPoolStatus_stored.
Qed.

Lemma deep_IPPool : deep IPPool_stored IPPool_DeepCopyInto.
Proof using Type.
  start_copy IPPool_stored. unfold IPPool_DeepCopyInto. copy_field om_deep. copy_field deep_IPPoolSpec.
  copy_field deep_IPPoolStatus. finish_copy IPPool_stored.
Qed.

Lemma deep_NetworkConfig : deep NetworkConfig_stored NetworkConfig_DeepCopyInto.
Proof using Type.
  start_copy NetworkConfig_stored. unfold NetworkConfig_DeepCopyInto. copy_field deep_string.
  finish_copy NetworkConfig_stored.
Qed.

Lemma deep_NetworkConfigs z : deep NetworkConfigs_stored (copy_slice z NetworkConfig_DeepCopyInto).
Proof using Type. apply deep_slice, deep_NetworkConfig. Qed.

Lemma deep_VmNetCfgSpec : deep VmNetCfgSpec_stored VmNetCfgSpec_DeepCopyInto.
Proof using Type.
  start_copy VmNetCfgSpec_stored. unfold VmNetCfgSpec_DeepCopyInto. copy_field deep_NetworkConfigs. copy_field deep_bool.
  finish_copy VmNetCfgSpec_stored.
Qed.

Lemma deep_VmNetCfgStatus : deep VmNetCfgStatus_stored VmNetCfgStatus_DeepCopyInto.
Proof using Type.
  start_copy VmNetCfgStatus_stored. unfold VmNetCfgStatus_DeepCopyInto. copy_field deep_statuses.
  copy_field deep_conditions. finish_copy VmNetCfgStatus_stored.
Qed.

Lemma deep_VmNetCfg : deep VmNetCfg_stored VmNetCfg_DeepCopyInto.
Proof using Type.
  start_copy VmNetCfg_stored. unfold VmNetCfg_DeepCopyInto. copy_field om_deep. copy_field deep_VmNetCfgSpec.
  copy_field deep_VmNetCfgStatus. finish_copy VmNetCfg_stored.
Qed.

Lemma deep_IPPools z : deep (stored_slice (Stored0 := IPPool_stored)) (copy_slice z IPPool_DeepCopyInto).
Proof using Type. apply deep_slice, deep_IPPool. Qed.

Lemma deep_IPPoolList : deep IPPoolList_stored IPPoolList_DeepCopyInto.
Proof using Type.
  unfold IPPoolList_stored. start_copy (@list_stored). unfold IPPoolList_DeepCopyInto. copy_field lm_deep. copy_field deep_IPPools.
  finish_copy (@list_stored).
Qed.

Lemma deep_VmNetCfgs z : deep (stored_slice (Stored0 := VmNetCfg_stored)) (copy_slice z VmNetCfg_DeepCopyInto).
Proof using Type. apply deep_slice, deep_VmNetCfg. Qed.

Lemma deep_VmNetCfgList : deep VmNetCfgList_stored VmNetCfgList_DeepCopyInto.
Proof using Type.
  unfold VmNetCfgList_stored. start_copy (@list_stored). unfold VmNetCfgList_DeepCopyInto. copy_field lm_deep.
  copy_field deep_VmNetCfgs. finish_copy (@list_stored).
Qed.

Lemma isolates_object {T V} `{!InCell T} (S : Stored (C := C) T V) (DeepCopy : option loc → GoM heap (option loc)) :
  isolates S DeepCopy → isolates S (DeepCopyObject DeepCopy).
Proof using Type.
  intros Hi h p v F Hp. destruct (Hi h p v F Hp) as (h' & q & G & Hm & Hrest). exists h', q, G. split; [|done].
  unfold DeepCopyObject. rewrite (bind_run _ _ _ _ _ Hm). by destruct q.
Qed.

(** C17: [DeepCopy] of every type of the API, and [DeepCopyObject] of the four
    that are API objects, on any object that can be read: the copy stands for the same
    value, the two objects share no storage, and whatever is done to the memory outside one
    of them (in particular every write through the other) leaves it as it was. *)
Theorem deepcopy_isolates :
  isolates IPPool_stored IPPool_DeepCopy ∧ isolates IPPool_stored IPPool_DeepCopyObject ∧
  isolates IPPoolList_stored IPPoolList_DeepCopy ∧ isolates IPPoolList_stored IPPoolList_DeepCopyObject ∧
  isolates VmNetCfg_stored VmNetCfg_DeepCopy ∧ isolates VmNetCfg_stored VmNetCfg_DeepCopyObject ∧
  isolates VmNetCfgList_stored VmNetCfgList_DeepCopy ∧ isolates VmNetCfgList_stored VmNetCfgList_DeepCopyObject ∧
  isolates IPPoolSpec_stored IPPoolSpec_DeepCopy ∧ isolates IPPoolStatus_stored IPPoolStatus_DeepCopy ∧
  isolates IPv4Config_stored IPv4Config_DeepCopy ∧ isolates IPv4Status_stored IPv4Status_DeepCopy ∧
  isolates Pool_stored Pool_DeepCopy ∧ isolates (flat PodReference) PodReference_DeepCopy ∧
  isolates NetworkConfig_stored NetworkConfig_DeepCopy ∧
  isolates (flat NetworkConfigStatus) NetworkConfigStatus_DeepCopy ∧
  isolates VmNetCfgSpec_stored VmNetCfgSpec_DeepCopy ∧ isolates VmNetCfgStatus_stored VmNetCfgStatus_DeepCopy.
Proof using Type.
  repeat split; try apply isolates_object; apply deep_isolates;
    first [ apply deep_IPPool | apply deep_IPPoolList | apply deep_VmNetCfg | apply deep_VmNetCfgList | apply deep_IPPoolSpec
          | apply deep_IPPoolStatus | apply deep_IPv4Config | apply deep_IPv4Status | apply deep_Pool | apply deep_NetworkConfig
          | apply deep_VmNetCfgSpec | apply deep_VmNetCfgStatus | apply deep_flat ].
Qed.
End deepcopy.

(** ** A pool in memory *)

(** Metadata without pointers, as an instance of the library. *)
Definition flat_meta : MetaLib ObjectMeta () Empty_set ().
Proof.
  refine {| om_stored := flat ObjectMeta; lm_stored := flat (); om_zero := named_meta "" ""; lm_zero := ();
            om_DeepCopyInto := mret; lm_DeepCopyInto := mret |}; apply deep_flat.
Defined.

(** The pool default/net-1 at 0, its status at 1, the map of its addresses at 2. *)
Definition demo_heap : gmap loc (cell ObjectMeta () Empty_set) :=
  <[0%nat := CIPPool (mk_h_IPPool (mkTypeMeta "IPPool" "network.harvesterhci.io/v1alpha1") (named_meta "default" "net-1")
        (mk_h_IPPoolSpec (mk_h_IPv4Config "192.168.0.0/24" "192.168.0.3" (mk_h_Pool "192.168.0.10" "192.168.0.20" None)
                            "192.168.0.1" None None None None None) "default/net-1" None)
        (mk_h_IPPoolStatus 0 (Some 1%nat) None None))]>
  (<[1%nat := CIPv4Status (mk_h_IPv4Status (Some 2%nat) 1 10)]>
  {[2%nat := CMap {["192.168.0.10" := "02:00:00:00:00:01"]}]}).

Definition demo_load : option (option (TypeMeta * IPPool) * gset loc) :=
  load_pointer (H := IPPool_cell (MetaLib0 := flat_meta)) (Stored0 := IPPool_stored (MetaLib0 := flat_meta)) demo_heap (Some 0%nat).

(** The copy, and then its own map is written: the pool in the informer's cache is as
    before. *)
Lemma deepcopy_isolates_witness : ∃ v F h' q G,
  demo_load = Some (v, F) ∧ IPPool_DeepCopy (MetaLib0 := flat_meta) (Some 0%nat) demo_heap = (h', Val q) ∧ F ## G ∧
  ∀ l, l ∈ G → load_pointer (H := IPPool_cell (MetaLib0 := flat_meta))
    (Stored0 := IPPool_stored (MetaLib0 := flat_meta)) (<[l := CMap ∅]> h') (Some 0%nat) = Some (v, F).
Proof.
  destruct demo_load as [[v F]|] eqn:Hload; [|by vm_compute in Hload].
  destruct (@deepcopy_isolates ObjectMeta () Empty_set () flat_meta) as [Hi _].
  destruct (Hi demo_heap (Some 0%nat) v F Hload) as (h' & q & G & Hm & _ & Hd & Hp & _).
  exists v, F, h', q, G. split; [done|]. split; [done|]. split; [done|]. intros l Hl. apply Hp.
  intros x Hx. rewrite lookup_insert_ne; [done|]. set_solver.
Defined.
