(* ===== verification/Util.v ===== *)
(** * Helpers ([pkg/util], [pkg/indexer])

    Pool data parsed for the webhooks, the service CIDR of a node, agent names. *)

From S2P Require Import Prelude GoNet GoText Api.
From Stdlib Require Import Ascii.
Local Open Scope Z_scope.

(** ** common.go *)

Definition ExcludedMark : string := "EXCLUDED".
Definition ReservedMark : string := "RESERVED".
Definition AgentSuffixName : string := "agent".
Definition NodeArgsAnnotationKey : string := "rke2.io/node-args".
Definition ServiceCIDRFlag : string := "--service-cidr".
Definition GroupName : string := "network.harvesterhci.io".
Definition IPPoolNamespaceLabelKey : string := GroupName +:+ "/ippool-namespace".
Definition IPPoolNameLabelKey : string := GroupName +:+ "/ippool-name".

Definition agentConcatName (name : list string) : string := Join (name ++ [AgentSuffixName]) "-".

(** [fullPath\[50\]] is a byte below '0'..'9' or 'a'..'z'. *)
Definition name_char (c : option ascii) : bool :=
  match c with
  | Some c => let n := Z_of_ascii c in ((97 <=? n) && (n <=? 122)) || ((48 <=? n) && (n <=? 57))
  | None => false
  end.

Definition SafeAgentConcatName (name : list string) : string :=
  let fullPath := Join name "-" in
  if (String.length fullPath <? 58)%nat then agentConcatName [fullPath]
  else
    let digest := EncodeToString (Sum256 (bytes_of fullPath)) in
    if name_char (String.get 50 fullPath) then
      agentConcatName [slice fullPath 0 51; slice digest 0 5]
    else agentConcatName [slice fullPath 0 50; slice digest 0 6].

(** ** network.go *)

(** A Kubernetes node: its name and annotations. *)
Record Node : Type := mkNode { node_Name : string; node_Annotations : option (gmap string string) }.

(** The position of the first occurrence. *)
Fixpoint index_of (x : string) (l : list string) : option nat :=
  match l with
  | [] => None
  | y :: l' => if String.eqb y x then Some 0%nat else S <$> index_of x l'
  end.

Definition GetServiceCIDRFromNode (node : Node) : result string :=
  match node_Annotations node with
  | None => inr (Errorf "service CIDR not found for node %s" [node_Name node])
  | Some annotations =>
      match annotations !! NodeArgsAnnotationKey with
      | None =>
          inr (Errorf "annotation %s not found for node %s" [NodeArgsAnnotationKey; node_Name node])
      | Some nodeArgs =>
          match Unmarshal_strings nodeArgs with
          | None => inr (JSONError nodeArgs)
          | Some argList =>
              let serviceCIDRIndex := match index_of ServiceCIDRFlag argList with
                                      | Some i => S i
                                      | None => 0%nat
                                      end in
              match serviceCIDRIndex, argList !! serviceCIDRIndex with
              | S _, Some cidr => inl cidr
              | _, _ => inr (Errorf "serviceCIDR not found for node %s" [node_Name node])
              end
          end
      end
  end.

(** [broadcastIP\[i\] |= ^ipNet.Mask\[i\]] for every byte of the network address. *)
Definition LoadCIDR (cidr : string) : result (IPNet * Addr * Addr) :=
  match ParseCIDR cidr with
  | (_, _, Some err) => inr err
  | (_, ipNet, None) =>
      let '(networkIPAddr, ok) := AddrFromSlice (net_IP ipNet) in
      if negb ok then inr (Errorf "cannot convert ip address %s" [IP_String (net_IP ipNet)])
      else
        let broadcastIP := zip_with (λ b m, Z.lor b (Z.lxor m 255)) (net_IP ipNet) (net_Mask ipNet) in
        let '(broadcastIPAddr, ok) := AddrFromSlice broadcastIP in
        if negb ok then inr (Errorf "cannot convert ip address %s" [IP_String broadcastIP])
        else inl (ipNet, networkIPAddr, broadcastIPAddr)
  end.

Record PoolInfo : Type := mkPoolInfo {
  IPNet_ : IPNet;
  NetworkIPAddr : Addr;
  BroadcastIPAddr : Addr;
  StartIPAddr : Addr;
  EndIPAddr : Addr;
  ServerIPAddr : Addr;
  RouterIPAddr : Addr;
}.

(** [if s != "" { addr, err = netip.ParseAddr(s) }]: the zero address otherwise. *)
Definition parse_optional (s : string) : result Addr :=
  if String.eqb s EmptyString then inl Addr_zero
  else match ParseAddr s with
       | (a, None) => inl a
       | (_, Some err) => inr err
       end.

Definition LoadPool (ipPool : IPPool) : result PoolInfo :=
  let cfg := ipv4Config (pool_Spec ipPool) in
  '(ipNet, networkIPAddr, broadcastIPAddr) ← LoadCIDR (CIDR cfg);
  startIPAddr ← parse_optional (Start (PoolRange cfg));
  endIPAddr ← parse_optional (End_ (PoolRange cfg));
  serverIPAddr ← parse_optional (ServerIP cfg);
  routerIPAddr ← parse_optional (Router cfg);
  mret (mkPoolInfo ipNet networkIPAddr broadcastIPAddr startIPAddr endIPAddr serverIPAddr routerIPAddr).

(** The three lists of [LoadAllocated], filled in the order the map is visited. *)
Definition load_one (acc : list Addr * list Addr * list Addr) (entry : string * string)
    : list Addr * list Addr * list Addr :=
  let '(allocatedList, excludedList, reservedList) := acc in
  let '(ip, val) := entry in
  match ParseAddr ip with
  | (_, Some _) => acc
  | (ipAddr, None) =>
      if String.eqb val ExcludedMark then (allocatedList, excludedList ++ [ipAddr], reservedList)
      else if String.eqb val ReservedMark then (allocatedList, excludedList, reservedList ++ [ipAddr])
      else (allocatedList ++ [ipAddr], excludedList, reservedList)
  end.

Definition LoadAllocated `{MapRange} (seed : nat) (allocated : gmap string string)
    : list Addr * list Addr * list Addr :=
  foldl load_one ([], [], []) (range seed allocated).

Definition IsIPAddrInList (ipAddr : Addr) (ipAddrList : list Addr) : bool :=
  existsb (λ x, bool_decide (ipAddr = x)) ipAddrList.

Definition IsIPInBetweenOf (ip ip1 ip2 : string) : bool :=
  match ParseAddr ip, ParseAddr ip1, ParseAddr ip2 with
  | (ipAddr, None), (ip1Addr, None), (ip2Addr, None) =>
      (0 <=? Compare ipAddr ip1Addr) && (Compare ipAddr ip2Addr <=? 0)
  | _, _, _ => false
  end.

(** ** env.go: [getenv] is the process environment *)

Definition EnvGetBool (getenv : string → string) (key : string) (defaultValue : bool) : bool :=
  default defaultValue (ParseBool (getenv key)).

(** ** file.go: [Stat] is [os.Stat], whose result says whether it is a directory *)

(** The [FileInfo] beside an error is nil, and is asked all the same. *)
Definition FileExists (Stat : string → result bool) (IsNotExist : error → bool) (filename : string) : res bool :=
  match Stat filename with
  | inr err => if IsNotExist err then Val false else Panic "nil pointer dereference"
  | inl isDir => Val (negb isDir)
  end.

(** ** indexer.go *)

Definition VmNetCfgByNetworkIndex : string := "network.harvesterhci.io/vmnetcfg-by-network".

Definition VmNetCfgByNetwork (obj : VmNetCfg) : list string :=
  nc_NetworkName <$> NetworkConfigs (vnc_Spec obj).

(** ** vmnetcfg.go: [GetByIndex] is the informer's index lookup *)

Definition WhoUseIPPool (GetByIndex : string → string → result (list VmNetCfg)) (ipPool : IPPool)
    : result (list VmNetCfg) :=
  GetByIndex VmNetCfgByNetworkIndex (Namespace (pool_Meta ipPool) +:+ "/" +:+ Name (pool_Meta ipPool)).
