(* ===== verification/UtilFacts.v ===== *)
(** * Helpers: what they compute *)

From S2P Require Import Prelude GoNet GoNetFacts GoText GoTextFacts Api Util.
From Stdlib Require Import Ascii.
Local Open Scope Z_scope.

(** ** Strings *)

Lemma length_substring n m s : (String.length (String.substring n m s) ≤ m)%nat.
Proof.
  revert n m. induction s as [|c s IH]; intros n m; destruct n, m; simpl; try lia; auto.
  specialize (IH 0%nat m). lia.
Qed.

Lemma length_slice s i j : (String.length (slice s i j) ≤ j - i)%nat.
Proof. apply length_substring. Qed.

(** ** CIDRs *)

Lemma LoadCIDR_v4 cidr b a p :
  ParseCIDR cidr = (b, v4net a p, None) → u32 a → 0 ≤ p ≤ 32 →
  LoadCIDR cidr = inl (v4net a p, AddrFrom4 (net_first a p), AddrFrom4 (net_last a p)).
Proof.
  intros Hc Ha Hp. unfold LoadCIDR. rewrite Hc. cbn [net_IP net_Mask v4net].
  pose proof (net_first_u32 a p Ha Hp). pose proof (net_last_u32 a p Ha Hp).
  rewrite AddrFromSlice_be_bytes4 by done. cbn [negb].
  rewrite zip_lor_not_be_bytes, lor_hostmask by done.
  assert (Hidem : net_last (net_first a p) p = net_last a p).
  { unfold net_last. by rewrite net_first_idem. }
  by rewrite Hidem, AddrFromSlice_be_bytes4.
Qed.

(** A CIDR text loads as an IPv4 network when its mask has four bytes. *)
Definition v4_cidr (cidr : string) : bool :=
  match ParseCIDR cidr with
  | (_, n, None) => (length (net_Mask n) =? 4)%nat
  | _ => false
  end.

Lemma v4_cidr_spec cidr :
  v4_cidr cidr = true →
  ∃ a p, u32 a ∧ 0 ≤ p ≤ 32 ∧ ParseCIDR cidr = (mapped a, v4net a p, None) ∧
         LoadCIDR cidr = inl (v4net a p, AddrFrom4 (net_first a p), AddrFrom4 (net_last a p)).
Proof.
  unfold v4_cidr. destruct (ParseCIDR cidr) as [[ip n] [e|]] eqn:Hc; [done|]. intros H4%Nat.eqb_eq.
  pose proof Hc as Hc'. apply ParseCIDR_v4 in Hc as (a & p & Ha & Hp & -> & ->); [|done].
  exists a, p. split_and!; try done; [lia|lia|]. by apply (LoadCIDR_v4 _ (mapped a)).
Qed.

(** ** The service CIDR *)

Lemma index_of_Some x l i :
  index_of x l = Some i ↔ ∃ pre post, l = pre ++ x :: post ∧ length pre = i ∧ x ∉ pre.
Proof.
  revert i. induction l as [|y l IH]; intros i; simpl.
  - split; [done|]. by intros ([|] & ? & ? & _).
  - destruct (String.eqb_spec y x) as [->|Hne].
    + split.
      * intros [= <-]. exists [], l. split_and!; [done..|apply not_elem_of_nil].
      * intros ([|z pre] & post & Heq & Hlen & Hnot); [by simpl in Hlen; subst|].
        exfalso. apply Hnot. injection Heq as <- _. by left.
    + rewrite fmap_Some. split.
      * intros (j & Hj & ->). apply IH in Hj as (pre & post & -> & <- & Hnot).
        exists (y :: pre), post. split_and!; [done..|]. by apply not_elem_of_cons.
      * intros ([|z pre] & post & Heq & Hlen & Hnot); injection Heq as -> ->; [done|].
        apply not_elem_of_cons in Hnot as [_ Hnot]. exists (length pre). simpl in Hlen.
        split; [|done]. apply IH. by exists pre, post.
Qed.

Lemma index_of_None x l : index_of x l = None ↔ x ∉ l.
Proof.
  induction l as [|y l IH]; simpl; [split; [intros; apply not_elem_of_nil|done]|].
  destruct (String.eqb_spec y x) as [->|Hne].
  - split; [done|]. intros Hx. exfalso. apply Hx. by left.
  - rewrite fmap_None, IH, not_elem_of_cons. split; [intros; split; congruence|tauto].
Qed.

(** The service CIDR is the argument after the
    first [--service-cidr] of the node-args annotation; every node without such
    an annotation, flag or following argument is refused. *)
Theorem GetServiceCIDRFromNode_spec (node : Node) (cidr : string) :
  GetServiceCIDRFromNode node = inl cidr ↔
  ∃ annotations text args pre post,
    node_Annotations node = Some annotations ∧ annotations !! NodeArgsAnnotationKey = Some text ∧
    Unmarshal_strings text = Some args ∧
    args = pre ++ ServiceCIDRFlag :: cidr :: post ∧ ServiceCIDRFlag ∉ pre.
Proof.
  unfold GetServiceCIDRFromNode. split.
  - intros H. destruct (node_Annotations node) as [an|]; [|done].
    destruct (an !! NodeArgsAnnotationKey) as [text|] eqn:Ht; [|done].
    destruct (Unmarshal_strings text) as [args|] eqn:Hargs; [|done].
    destruct (index_of ServiceCIDRFlag args) as [i|] eqn:Hi; [|done].
    apply index_of_Some in Hi as (pre & post & -> & <- & Hnot).
    rewrite lookup_app_r in H by lia. replace (S (length pre) - length pre)%nat with 1%nat in H by lia.
    destruct post as [|c post]; simpl in H; [done|]. injection H as ->.
    by exists an, text, (pre ++ ServiceCIDRFlag :: cidr :: post), pre, post.
  - intros (an & text & args & pre & post & -> & -> & -> & -> & Hnot).
    assert (Hi : index_of ServiceCIDRFlag (pre ++ ServiceCIDRFlag :: cidr :: post) = Some (length pre)).
    { apply index_of_Some. by exists pre, (cidr :: post). }
    rewrite Hi, lookup_app_r by lia. by replace (S (length pre) - length pre)%nat with 1%nat by lia.
Qed.

(** ** Agent names *)

(** C34: whatever the namespace and name of a pool, the
    name of its agent fits a DNS label (63 characters) and ends in "-agent";
    below 58 characters the full path is kept. *)
Theorem SafeAgentConcatName_length (name : list string) :
  (String.length (SafeAgentConcatName name) ≤ 63)%nat ∧
  (∃ stem, SafeAgentConcatName name = stem +:+ "-agent") ∧
  ((String.length (Join name "-") < 58)%nat → SafeAgentConcatName name = Join name "-" +:+ "-agent").
Proof.
  unfold SafeAgentConcatName, agentConcatName, AgentSuffixName. set (full := Join name "-").
  destruct (Nat.ltb_spec (String.length full) 58) as [Hl|Hl].
  { cbn [Join app]. rewrite !length_string_app. split; [simpl; lia|]. split; [by exists full|done]. }
  set (digest := EncodeToString _).
  pose proof (length_slice full 0 51). pose proof (length_slice full 0 50).
  pose proof (length_slice digest 0 5). pose proof (length_slice digest 0 6).
  destruct (name_char _); cbn [Join app]; (split; [rewrite !length_string_app; simpl; lia|]);
    (split; [|lia]).
  - exists (slice full 0 51 +:+ "-" +:+ slice digest 0 5). by autorewrite with go_string.
  - exists (slice full 0 50 +:+ "-" +:+ slice digest 0 6). by autorewrite with go_string.
Qed.

(** ** Ranges *)

Lemma Compare_AddrFrom4 a b : Compare (AddrFrom4 a) (AddrFrom4 b) = cmp_int (v4_prefix + a ?= v4_prefix + b).
Proof. unfold AddrFrom4. by rewrite Compare_family. Qed.

(** On printed IPv4 addresses [IsIPInBetweenOf] is the closed interval test. *)
Lemma IsIPInBetweenOf_v4str n s e :
  u32 n → u32 s → u32 e → IsIPInBetweenOf (v4str n) (v4str s) (v4str e) = bool_decide (s ≤ n ≤ e).
Proof.
  intros Hn Hs He. unfold IsIPInBetweenOf. rewrite !ParseAddr_v4str by done.
  rewrite !Compare_AddrFrom4.
  pose proof (cmp_int_ge (v4_prefix + n) (v4_prefix + s)) as H1.
  pose proof (cmp_int_le (v4_prefix + n) (v4_prefix + e)) as H2.
  case_bool_decide as Hin.
  - apply andb_true_iff. rewrite !Z.leb_le, H1, H2. lia.
  - apply andb_false_iff. rewrite !Z.leb_gt.
    destruct (decide (s ≤ n)); [right|left]; apply Z.nle_gt; rewrite ?H1, ?H2; lia.
Qed.
