(* ===== verification/Agent.v ===== *)
(** * The agent ([pkg/agent], [pkg/agent/ippool])

    One agent serves one IPPool: its controller takes update events of IPPools off
    a work queue and brings the pool cache (IP to MAC) and the DHCP lease store in
    line with the pool's status.  The informer's store hands out its objects by
    reference, so the filtering of a status map reaches the stored object; the
    queue and the store are client-go's. *)

From S2P Require Import Prelude GoNet GoText Api Util.
From S2P Require Dhcp.
Local Open Scope go_scope.

(** ** State *)

(** The maps the agent's event handler, controller and DHCP server share. *)
Record AgentState : Type := mkAgentState {
  dhcpAllocator : Dhcp.DHCPAllocator;
  poolCache : gmap string string;
}.

Definition set_dhcpAllocator (s : AgentState) (d : Dhcp.DHCPAllocator) : AgentState :=
  mkAgentState d (poolCache s).
Definition set_poolCache (s : AgentState) (c : gmap string string) : AgentState :=
  mkAgentState (dhcpAllocator s) c.

(** A call of the lease store. *)
Definition with_dhcp {A} (f : Dhcp.DHCPAllocator → Dhcp.DHCPAllocator * A) : GoM AgentState A :=
  go_state (λ s, let '(d, r) := f (dhcpAllocator s) in (set_dhcpAllocator s d, r)).

(** [NewAgent] and [NewEventHandler]: the lease store and the pool cache are made
    once and shared. *)
Record Agent : Type := mkAgent {
  dryRun : bool;
  nic : string;
  poolRef_Namespace : string;
  poolRef_Name : string;
}.

Definition NewAgentState : AgentState := mkAgentState Dhcp.NewDHCPAllocator ∅.

Section update.
Context `{MapRange} `{ConditionLib}.
Context (LookupIP : string → result (list (list Z))).

(** ** ippool.go *)

(** [delete(allocated, ip)] for every marked entry, in whatever order. *)
Definition filterExcludedAndReserved (allocated : gmap string string) : gmap string string :=
  filter (λ e, e.2 ≠ ExcludedMark ∧ e.2 ≠ ReservedMark) allocated.

(** The body of the first loop: an entry of the pool cache against the latest map. *)
Definition sync_entry (latest : gmap string string) (entry : string * string) (_ : unit)
    : GoM AgentState (unit + option error) :=
  let '(ip, mac) := entry in
  match latest !! ip with
  | Some newMAC =>
      if String.eqb mac newMAC then mret (inl tt)
      else
        _ ← go_modify (λ s, set_poolCache s (<[ip := newMAC]> (poolCache s)));
        mret (inl tt)
  | None =>
      cached ← go_gets (λ s, default EmptyString (poolCache s !! ip));
      do! with_dhcp (Dhcp.DeleteLease cached) orelse err => mret (inr (Some err)) in
      _ ← go_modify (λ s, set_poolCache s (delete ip (poolCache s)));
      mret (inl tt)
  end.

(** The body of the second loop: an entry of the latest map without a lease yet. *)
Definition add_entry (cfg : IPv4Config) (entry : string * string) (_ : unit)
    : GoM AgentState (unit + option error) :=
  let '(newIP, newMAC) := entry in
  exists_ ← go_gets (λ s, bool_decide (is_Some (poolCache s !! newIP)));
  if exists_ : bool then mret (inl tt)
  else
    do! with_dhcp (Dhcp.AddLease LookupIP newMAC (ServerIP cfg) newIP (CIDR cfg) (Router cfg) (DNS cfg)
                     (DomainName cfg) (DomainSearch cfg) (NTP cfg) (LeaseTime cfg))
    orelse err => mret (inr (Some err)) in
    _ ← go_modify (λ s, set_poolCache s (<[newIP := newMAC]> (poolCache s)));
    mret (inl tt).

(** Both loops; [seed1] and [seed2] name their iterations.  The first ranges over
    the cache it changes, but each step changes the visited entry only. *)
Definition updatePoolCacheAndLeaseStore (seed1 seed2 : nat) (latest : gmap string string)
    (cfg : IPv4Config) : GoM AgentState (option error) :=
  cache ← go_gets poolCache;
  r ← for_range (range seed1 cache) (sync_entry latest) tt;
  match r with
  | inr err => mret err
  | inl _ =>
      r ← for_range (range seed2 latest) (add_entry cfg) tt;
      match r with
      | inr err => mret err
      | inl _ => mret None
      end
  end.

(** [Controller.Update]: besides the error, the object as it is left in the
    informer's store. *)
Definition Update (seed1 seed2 : nat) (ipPool : IPPool) : GoM AgentState (IPPool * option error) :=
  if negb (IsTrue CacheReady (pool_Conditions (pool_Status ipPool))) then mret (ipPool, None)
  else match IPv4 (pool_Status ipPool) with
  | None => mret (ipPool, None)
  | Some st =>
      let allocated := filterExcludedAndReserved (or_empty (st_Allocated st)) in
      let ipPool' := set_pool_Status ipPool
        (set_IPv4 (pool_Status ipPool)
           (Some (mkIPv4Status ((λ _, allocated) <$> st_Allocated st) (Used st) (Available st)))) in
      err ← updatePoolCacheAndLeaseStore seed1 seed2 allocated (ipv4Config (pool_Spec ipPool));
      mret (ipPool', err)
  end.

(** ** controller.go and event.go *)

Inductive Action : Type := ADD | UPDATE | DELETE.

#[export] Instance Action_eq_dec : EqDecision Action.
Proof using Type. solve_decision. Defined.

Record Event : Type := mkEvent {
  key : string;
  action : Action;
  poolName : string;
  poolNetworkName : string;
}.

(** The [UpdateFunc] of the informer: the event it queues for a new object. *)
Definition UpdateFunc (MetaNamespaceKeyFunc : IPPool → result string) (new : IPPool) : option Event :=
  match MetaNamespaceKeyFunc new with
  | inl key => Some (mkEvent key UPDATE (Name (pool_Meta new)) (NetworkName (pool_Spec new)))
  | inr _ => None
  end.

(** [Controller.sync] on the stored object of the event's key (an error of the
    store, or nothing under that key); returns the stored object afterwards.
    The error of [Update] is logged only. *)
Definition sync (seed1 seed2 : nat) (poolRefName : string) (stored : result (option IPPool))
    (event : Event) : GoM AgentState (result (option IPPool) * option error) :=
  match stored with
  | inr err => mret (stored, Some err)
  | inl obj =>
      if bool_decide (obj = None) && negb (bool_decide (action event = DELETE)) then mret (stored, None)
      else if negb (String.eqb (poolName event) poolRefName) then mret (stored, None)
      else match action event with
      | UPDATE =>
          match obj with
          | None => go_panic "nil IPPool"
          | Some ipPool =>
              '(ipPool', _) ← Update seed1 seed2 ipPool;
              mret (inl (Some ipPool'), None)
          end
      | _ => mret (stored, None)
      end
  end.

(** What the controller asks of the work queue. *)
Inductive QueueCall : Type :=
| Forget (e : Event)
| AddRateLimited (e : Event)
| Done (e : Event).

Definition handleErr (numRequeues : nat) (err : option error) (e : Event) : list QueueCall :=
  match err with
  | None => [Forget e]
  | Some _ => if (numRequeues <? 5)%nat then [AddRateLimited e] else [Forget e]
  end.

(** [processNextItem]: [next] is what [queue.Get] returns, nothing at shutdown. *)
Definition processNextItem (seed1 seed2 : nat) (poolRefName : string) (numRequeues : nat)
    (stored : result (option IPPool)) (next : option Event)
    : GoM AgentState (bool * list QueueCall) :=
  match next with
  | None => mret (false, [])
  | Some event =>
      '(_, err) ← sync seed1 seed2 poolRefName stored event;
      mret (true, handleErr numRequeues err event ++ [Done event])
  end.
End update.
