(* ===== verification/Webhook.v ===== *)
(** * The admission webhooks ([pkg/webhook])

    The mutator and validator of IPPools and the validator of
    VirtualMachineNetworkConfigs.  Caches are lookup functions; [netip.Addr.As4]
    panics on an address without IPv4 form, so the checks that call it return a
    [res]. *)

From S2P Require Import Prelude GoNet GoText Api Util.
From Stdlib Require Import Ascii.
Local Open Scope Z_scope.

(** wrangler's [kv.RSplit], "like split but if there is only one item return an
    empty string and the item". *)
Definition no_char (p : Ascii.ascii → bool) (s : string) : bool :=
  forallb (λ c, negb (p c)) (String.list_ascii_of_string s).

Definition plain_name (s : string) : bool :=
  no_char (λ c, bool_decide (c = "/"%char) || json_space c) s.

Class KvLib := {
  RSplit : string → string → string * string;
  RSplit_pair ns n : plain_name ns = true → plain_name n = true →
    RSplit (ns +:+ "/" +:+ n) "/" = (ns, n);
  RSplit_single n : plain_name n = true → RSplit n "/" = (EmptyString, n);
}.

(** ** common.go *)

Definition CreateErr : string := "cannot create %s %s/%s because %w".
Definition UpdateErr : string := "cannot update %s %s/%s because %w".
Definition DeleteErr : string := "cannot delete %s %s/%s because %w".

Definition webhook_error (format kind : string) (m : ObjectMeta) (err : error) : error :=
  Wrapf format [kind; Namespace m; Name m] err.

(** ** The IPPool mutator *)

Inductive PatchValue : Type :=
| PoolValue (p : Pool)
| StringValue (s : string).

Record PatchOp : Type := mkPatchOp { Op : string; Path : string; Value : PatchValue }.

(** The search for a free server address: the next address of the network that
    is not masked, if it is not the broadcast address. *)
Fixpoint assign_server (fuel : nat) (ipNet : IPNet) (masked : list Addr)
    (broadcastIPAddr serverIPAddr : Addr) : res (option string) :=
  if negb (Contains ipNet (AsSlice serverIPAddr)) then Val None
  else
    match fuel with
    | O => Diverge
    | S fuel' =>
        if IsIPAddrInList serverIPAddr masked then
          assign_server fuel' ipNet masked broadcastIPAddr (Next serverIPAddr)
        else
          s4 ← As4 serverIPAddr;
          b4 ← As4 broadcastIPAddr;
          if bool_decide (s4 = b4) then Val None else Val (Some (Addr_String serverIPAddr))
    end.

(** Each iteration but the last meets another masked address. *)
Definition assign_fuel (masked : list Addr) : nat := S (length masked).

(** [excludes] parsed in order; the first bad one is the error. *)
Fixpoint parse_excludes (excludes : list string) : result (list Addr) :=
  match excludes with
  | [] => inl []
  | exclude :: rest =>
      match ParseAddr exclude with
      | (_, Some err) => inr err
      | (a, None) => l ← parse_excludes rest; mret (a :: l)
      end
  end.

Definition ensureServerIP (server cidr router : string) (excludes : list string)
    : res (result (option string)) :=
  match LoadCIDR cidr with
  | inr err => Val (inr err)
  | inl (ipNet, networkIPAddr, broadcastIPAddr) =>
      let maskedIPAddrList := match ParseAddr router with
                              | (routerIPAddr, None) => [routerIPAddr]
                              | _ => []
                              end in
      let serverIPAddr := match ParseAddr server with
                          | (a, None) => a
                          | _ => Addr_zero
                          end in
      match parse_excludes excludes with
      | inr err => Val (inr err)
      | inl excluded =>
          if negb (IsValid serverIPAddr) then
            let masked := maskedIPAddrList ++ excluded in
            found ← assign_server (assign_fuel masked) ipNet masked broadcastIPAddr (Next networkIPAddr);
            match found with
            | Some serverIPStr => Val (inl (Some serverIPStr))
            | None => Val (inr (Errorf "fail to assign ip for dhcp server" []))
            end
          else Val (inl None)
      end
  end.

Definition addr_or_zero (s : string) : Addr :=
  match ParseAddr s with
  | (a, None) => a
  | _ => Addr_zero
  end.

Definition ensurePoolRange (pool : Pool) (cidr : string) : result (option Pool) :=
  let startIPAddr := addr_or_zero (Start pool) in
  let endIPAddr := addr_or_zero (End_ pool) in
  '(ipNet, networkIPAddr, broadcastIPAddr) ← LoadCIDR cidr;
  let '(startIPAddr, newStart) :=
    if negb (IsValid startIPAddr) then (Next networkIPAddr, Addr_String (Next networkIPAddr))
    else (startIPAddr, Start pool) in
  let '(endIPAddr, newEnd) :=
    if negb (IsValid endIPAddr) then (Prev broadcastIPAddr, Addr_String (Prev broadcastIPAddr))
    else (endIPAddr, End_ pool) in
  let newPool := mkPoolRange newStart newEnd (Exclude pool) in
  if 0 <? Compare startIPAddr endIPAddr then inr (Errorf "invalid pool range" [])
  else if negb (DeepEqual newPool pool) then inl (Some newPool)
  else inl None.

(** [Mutator.Create] *)
Definition mutate_create (ipPool : IPPool) : res (result (list PatchOp)) :=
  let cfg := ipv4Config (pool_Spec ipPool) in
  serverIP ← ensureServerIP (ServerIP cfg) (CIDR cfg) (Router cfg) (Exclude (PoolRange cfg));
  match serverIP with
  | inr err => Val (inr (webhook_error CreateErr "IPPool" (pool_Meta ipPool) err))
  | inl serverIP =>
      match ensurePoolRange (PoolRange cfg) (CIDR cfg) with
      | inr err => Val (inr (webhook_error CreateErr "IPPool" (pool_Meta ipPool) err))
      | inl pool =>
          let patch := match pool with
                       | Some p => [mkPatchOp "replace" "/spec/ipv4Config/pool" (PoolValue p)]
                       | None => []
                       end in
          let patch := match serverIP with
                       | Some s => patch ++ [mkPatchOp "replace" "/spec/ipv4Config/serverIP" (StringValue s)]
                       | None => patch
                       end in
          Val (inl patch)
      end
  end.

(** ** The IPPool validator *)

(** [x.As4() == y.As4()] *)
Definition same4 (x y : Addr) : res bool :=
  x4 ← As4 x; y4 ← As4 y; mret (bool_decide (x4 = y4)).

(** [if x.As4() == y.As4() { return err }; k] *)
Definition reject_same (x y : Addr) (err : error) (k : res (option error)) : res (option error) :=
  same ← same4 x y; if same : bool then Val (Some err) else k.

Definition check_endpoint (pi : PoolInfo) (which : string) (a : Addr) : res (option error) :=
  if IsValid a then
    if negb (Contains (IPNet_ pi) (AsSlice a)) then
      Val (Some (Errorf (which +:+ " ip %s is not within subnet") [Addr_String a]))
    else
      reject_same a (NetworkIPAddr pi)
        (Errorf (which +:+ " ip %s is the same as network ip") [Addr_String a])
      (reject_same a (BroadcastIPAddr pi)
        (Errorf (which +:+ " ip %s is the same as broadcast ip") [Addr_String a])
      (Val None))
  else Val None.

(** [if err := m; err != nil { return err }; k] *)
Definition check_then (m k : res (option error)) : res (option error) :=
  r ← m; match r with Some err => Val (Some err) | None => k end.

Definition checkPoolRange (pi : PoolInfo) : res (option error) :=
  check_then (check_endpoint pi "start" (StartIPAddr pi)) (check_endpoint pi "end" (EndIPAddr pi)).

Definition checkServerIP (pi : PoolInfo) (unallocatables : list Addr) : res (option error) :=
  let s := ServerIPAddr pi in
  if negb (IsValid s) then Val None
  else if negb (Contains (IPNet_ pi) (AsSlice s)) then
    Val (Some (Errorf "server ip %s is not within subnet" [Addr_String s]))
  else
    reject_same s (NetworkIPAddr pi) (Errorf "server ip %s is the same as network ip" [Addr_String s])
    (reject_same s (BroadcastIPAddr pi) (Errorf "server ip %s is the same as broadcast ip" [Addr_String s])
    (check_then
       (if IsValid (RouterIPAddr pi) then
          reject_same s (RouterIPAddr pi) (Errorf "server ip %s is the same as router ip" [Addr_String s])
            (Val None)
        else Val None)
       (if existsb (λ ip, bool_decide (s = ip)) unallocatables then
          Val (Some (Errorf "server ip %s is already occupied" [Addr_String s]))
        else Val None))).

Definition checkRouter (pi : PoolInfo) : res (option error) :=
  let r := RouterIPAddr pi in
  if negb (IsValid r) then Val None
  else if negb (Contains (IPNet_ pi) (AsSlice r)) then
    Val (Some (Errorf "router ip %s is not within subnet" [Addr_String r]))
  else
    reject_same r (NetworkIPAddr pi) (Errorf "router ip %s is the same as network ip" [Addr_String r])
    (reject_same r (BroadcastIPAddr pi)
       (Errorf "router ip %s is the same as broadcast ip" [Addr_String (BroadcastIPAddr pi)])
    (Val None)).

Definition checkCIDR (serviceCIDR cidr : string) : option error :=
  match LoadCIDR cidr with
  | inr _ => None
  | inl (ipNet, _, _) =>
      match LoadCIDR serviceCIDR with
      | inr err => Some err
      | inl (svcIPNet, _, _) =>
          if Contains ipNet (net_IP svcIPNet) || Contains svcIPNet (net_IP ipNet) then
            Some (Errorf "cidr %s overlaps cluster service cidr %s"
                    [cidr; IP_String (net_IP svcIPNet) +:+ "/" +:+ pretty (Mask_Size (net_Mask svcIPNet)).1])
          else None
      end
  end.

Section ippool_validator.
Context `{MapRange} `{KvLib}.
Context (serviceCIDR : string).
Context (nadCache_Get : string → string → result NAD).
Context (vmnetcfgCache_GetByIndex : string → string → result (list VmNetCfg)).

(** [if nadNamespace == "" { nadNamespace = "default" }] *)
Definition default_namespace (ns : string) : string :=
  if String.eqb ns EmptyString then "default" else ns.

Definition checkNAD (namespacedName : string) : option error :=
  let '(nadNamespace, nadName) := RSplit namespacedName "/" in
  match nadCache_Get (default_namespace nadNamespace) nadName with
  | inl _ => None
  | inr err => Some err
  end.

Definition checkVmNetCfgs (ipPool : IPPool) : option error :=
  match WhoUseIPPool vmnetcfgCache_GetByIndex ipPool with
  | inr err => Some err
  | inl [] => None
  | inl vmNetCfgs =>
      Some (Errorf ("it's still used by VirtualMachineNetworkConfig(s) %s, " +:+
                    "which must be removed at first")
              [Join ((λ v, Namespace (vnc_Meta v) +:+ "/" +:+ Name (vnc_Meta v)) <$> vmNetCfgs) ", "])
  end.

(** The checks [Create] and [Update] share, in order. *)
Definition pool_checks (ipPool : IPPool) (poolInfo : PoolInfo) (unallocatables : list Addr)
    : res (option error) :=
  check_then (Val (checkNAD (NetworkName (pool_Spec ipPool))))
  (check_then (Val (checkCIDR serviceCIDR (CIDR (ipv4Config (pool_Spec ipPool)))))
  (check_then (checkPoolRange poolInfo)
  (check_then (checkServerIP poolInfo unallocatables)
  (check_then (checkRouter poolInfo) (Val None))))).

(** Every error is wrapped with the operation and the object's name. *)
Definition wrap_check (format kind : string) (m : ObjectMeta) (r : res (option error))
    : res (option error) :=
  e ← r; Val (option_map (webhook_error format kind m) e).

Definition validate_create (ipPool : IPPool) : res (option error) :=
  wrap_check CreateErr "IPPool" (pool_Meta ipPool)
    (match LoadPool ipPool with
     | inr err => Val (Some err)
     | inl poolInfo => pool_checks ipPool poolInfo []
     end).

Definition validate_update (seed : nat) (ipPool : IPPool) : res (option error) :=
  match DeletionTimestamp (pool_Meta ipPool) with
  | Some _ => Val None
  | None =>
      wrap_check UpdateErr "IPPool" (pool_Meta ipPool)
        (match LoadPool ipPool with
         | inr err => Val (Some err)
         | inl poolInfo =>
             let '(allocatedIPAddrList, excludedIPAddrList, _) :=
               match IPv4 (pool_Status ipPool) with
               | Some st => LoadAllocated seed (or_empty (st_Allocated st))
               | None => ([], [], [])
               end in
             pool_checks ipPool poolInfo (allocatedIPAddrList ++ excludedIPAddrList)
         end)
  end.

(** [kind] is the type meta of the object, empty for typed objects. *)
Definition validate_delete (kind : string) (ipPool : IPPool) : res (option error) :=
  wrap_check DeleteErr kind (pool_Meta ipPool) (Val (checkVmNetCfgs ipPool)).
End ippool_validator.

(** ** The VirtualMachineNetworkConfig validator *)

Section vmnetcfg_validator.
Context `{KvLib}.
Context (nadCache_Get : string → string → result NAD).
Context (ippoolCache_Get : string → string → result IPPool).

Definition check_network (nc : NetworkConfig) : option error :=
  let '(nadNamespace, nadName) := RSplit (nc_NetworkName nc) "/" in
  match nadCache_Get (default_namespace nadNamespace) nadName with
  | inr err => Some err
  | inl nad =>
      match or_empty (Labels (nad_Meta nad)) !! IPPoolNamespaceLabelKey with
      | None => Some (Errorf "%s label not found" [IPPoolNamespaceLabelKey])
      | Some ipPoolNamespace =>
          match or_empty (Labels (nad_Meta nad)) !! IPPoolNameLabelKey with
          | None => Some (Errorf "%s label not found" [IPPoolNameLabelKey])
          | Some ipPoolName =>
              match ippoolCache_Get ipPoolNamespace ipPoolName with
              | inr err => Some err
              | inl _ => None
              end
          end
      end
  end.

Fixpoint check_networks (ncs : list NetworkConfig) : option error :=
  match ncs with
  | [] => None
  | nc :: rest => match check_network nc with Some err => Some err | None => check_networks rest end
  end.

Definition vmnetcfg_validate_create (vmNetCfg : VmNetCfg) : option error :=
  webhook_error CreateErr (vnc_Kind vmNetCfg) (vnc_Meta vmNetCfg) <$>
  check_networks (NetworkConfigs (vnc_Spec vmNetCfg)).
End vmnetcfg_validator.
