(* ===== verification/Fakes.v ===== *)
(** * Concrete instances of the parameters, used by the concrete runs

    A [kv.RSplit] and a conditions library that satisfy the documented behaviour
    the theorems assume, so that every hypothesis is inhabited. *)

From S2P Require Import Prelude GoNet GoText Api Webhook.
From Stdlib Require Import Ascii.

(** ** kv.RSplit *)

Definition plain_RSplit (s sep : string) : string * string :=
  match Cut s "/" with
  | Some (a, b) => (a, b)
  | None => (EmptyString, s)
  end.

Lemma plain_name_cons c s : plain_name (String c s) = true → c ≠ "/"%char ∧ plain_name s = true.
Proof.
  unfold plain_name, no_char. cbn. rewrite andb_true_iff, negb_true_iff, orb_false_iff, bool_decide_eq_false.
  by intros [[? _] ?].
Qed.

Lemma Cut_plain s t : plain_name s = true → Cut (s +:+ "/" +:+ t) "/" = Some (s, t).
Proof.
  induction s as [|c s IH]; [done|]. intros [Hc Hs]%plain_name_cons. rewrite string_app_cons. cbn [Cut].
  destruct (ascii_dec c "/"); [done|]. by rewrite IH.
Qed.

Lemma Cut_plain_None s : plain_name s = true → Cut s "/" = None.
Proof.
  induction s as [|c s IH]; [done|]. intros [Hc Hs]%plain_name_cons. cbn [Cut].
  destruct (ascii_dec c "/"); [done|]. by rewrite IH.
Qed.

Lemma Cut_inv s sep a b : Cut s sep = Some (a, b) → s = a +:+ String sep b.
Proof.
  revert a. induction s as [|c s IH]; intros a; [done|]. cbn [Cut]. destruct (ascii_dec c sep) as [->|Hc].
  - by intros [= <- <-].
  - destruct (Cut s sep) as [[a' b']|]; [|done]. intros [= <- <-]. by rewrite (IH a').
Qed.

Lemma plain_RSplit_inv s a b : plain_RSplit s "/" = (a, b) → a ≠ EmptyString → s = a +:+ "/" +:+ b.
Proof.
  unfold plain_RSplit. destruct (Cut s "/") as [[a' b']|] eqn:Hc; intros [= <- <-]; [|done].
  intros _. by apply Cut_inv in Hc.
Qed.

Definition plain_kv : KvLib.
Proof.
  refine {| RSplit := plain_RSplit |}.
  - intros ns n Hns _. unfold plain_RSplit. by rewrite Cut_plain.
  - intros n Hn. unfold plain_RSplit. by rewrite Cut_plain_None.
Defined.

(** ** Conditions: the first entry of a type counts, a missing one is appended *)

Definition blank_condition (c : string) : GenericCondition :=
  mkGenericCondition c EmptyString EmptyString EmptyString EmptyString EmptyString.

Fixpoint find_condition (c : string) (cs : Conditions) : option GenericCondition :=
  match cs with
  | [] => None
  | x :: cs' => if String.eqb (cond_Type x) c then Some x else find_condition c cs'
  end.

Fixpoint update_condition (c : string) (f : GenericCondition → GenericCondition) (cs : Conditions)
    : Conditions :=
  match cs with
  | [] => [f (blank_condition c)]
  | x :: cs' => if String.eqb (cond_Type x) c then f x :: cs' else x :: update_condition c f cs'
  end.

Definition with_status (s : string) (x : GenericCondition) : GenericCondition :=
  mkGenericCondition (cond_Type x) s (cond_LastUpdateTime x) (cond_LastTransitionTime x)
    (cond_Reason x) (cond_Message x).
Definition with_reason (r : string) (x : GenericCondition) : GenericCondition :=
  mkGenericCondition (cond_Type x) (cond_Status x) (cond_LastUpdateTime x) (cond_LastTransitionTime x)
    r (cond_Message x).
Definition with_message (m : string) (x : GenericCondition) : GenericCondition :=
  mkGenericCondition (cond_Type x) (cond_Status x) (cond_LastUpdateTime x) (cond_LastTransitionTime x)
    (cond_Reason x) m.
Definition with_updated (t : string) (x : GenericCondition) : GenericCondition :=
  mkGenericCondition (cond_Type x) (cond_Status x) t (cond_LastTransitionTime x)
    (cond_Reason x) (cond_Message x).

Definition plain_GetStatus (c : string) (cs : Conditions) : string :=
  from_option cond_Status EmptyString (find_condition c cs).

Lemma find_update c c' f cs :
  (∀ x, cond_Type (f x) = cond_Type x) →
  find_condition c' (update_condition c f cs) =
  if String.eqb c' c then Some (f (default (blank_condition c) (find_condition c cs)))
  else find_condition c' cs.
Proof.
  intros Hf. induction cs as [|x cs IH]; cbn [update_condition find_condition].
  - rewrite Hf. cbn. rewrite (String.eqb_sym c c'). by destruct (String.eqb c' c).
  - destruct (String.eqb_spec (cond_Type x) c) as [<-|Hc]; cbn [find_condition].
    + rewrite Hf. rewrite (String.eqb_sym (cond_Type x) c'). by destruct (String.eqb c' (cond_Type x)).
    + rewrite IH. destruct (String.eqb_spec (cond_Type x) c') as [<-|Hc'].
      * by destruct (String.eqb_spec (cond_Type x) c).
      * done.
Qed.

Lemma update_same c f cs :
  is_Some (find_condition c cs) → (∀ x, find_condition c cs = Some x → f x = x) →
  update_condition c f cs = cs.
Proof.
  induction cs as [|x cs IH]; cbn; [by intros [? ?]|].
  destruct (String.eqb_spec (cond_Type x) c); intros Hs Hf; f_equal; auto.
Qed.

Definition plain_error_text (e : error) : string :=
  match e with
  | Errorf f _ | Wrapf f _ _ => f
  | ParseError _ t | AddrParseError t | JSONError t | StatusError _ t | OtherError t => t
  end.

Definition plain_SetError (c reason : string) (e : option error) (cs : Conditions) : Conditions :=
  match e with
  | None => update_condition c (with_reason reason)
              (update_condition c (with_message EmptyString) (update_condition c (with_status "True") cs))
  | Some err =>
      update_condition c (with_reason (if String.eqb reason EmptyString then "Error" else reason))
        (update_condition c (with_message (plain_error_text err))
           (update_condition c (with_status "False") cs))
  end.

Definition plain_conditions : ConditionLib.
Proof.
  refine {| GetStatus := plain_GetStatus;
            IsTrue c cs := String.eqb (plain_GetStatus c cs) "True";
            IsFalse c cs := String.eqb (plain_GetStatus c cs) "False";
            SetStatus c s := update_condition c (with_status s);
            SetTrue c := update_condition c (with_status "True");
            SetFalse c := update_condition c (with_status "False");
            SetReason c r := update_condition c (with_reason r);
            SetMessage c m := update_condition c (with_message m);
            SetError := plain_SetError;
            SetLastUpdated c t := update_condition c (with_updated t) |}.
  - done.
  - done.
  - intros c s c' cs. unfold plain_GetStatus. rewrite find_update by done. by destruct (String.eqb c' c).
  - done.
  - done.
  - intros c s cs Hs Hne. unfold plain_GetStatus in Hs. apply update_same.
    + destruct (find_condition c cs); [by eexists|]. by subst s.
    + intros x Hx. rewrite Hx in Hs. cbn in Hs. subst s. by destruct x.
  - intros c r c' cs. unfold plain_GetStatus. rewrite find_update by done.
    destruct (String.eqb_spec c' c) as [->|]; [|done]. by destruct (find_condition c cs).
  - intros c r c' cs. unfold plain_GetStatus. rewrite find_update by done.
    destruct (String.eqb_spec c' c) as [->|]; [|done]. by destruct (find_condition c cs).
  - intros c r e c' cs. unfold plain_GetStatus, plain_SetError.
    destruct e; rewrite !find_update, ?String.eqb_refl by done; by destruct (String.eqb c' c).
  - intros c t c' cs. unfold plain_GetStatus. rewrite find_update by done.
    destruct (String.eqb_spec c' c) as [->|]; [|done]. by destruct (find_condition c cs).
Defined.
