(* ===== verification/WebhookFacts.v ===== *)
(** * The admission webhooks: what they let through

    First the single checks on IPv4 data, then the theorems: the addresses the
    mutator fills in, exactly which pools the validator admits, and that an
    admitted pool can be loaded by the IP address manager. *)

From S2P Require Import Prelude GoNet GoNetFacts GoText Api Util UtilFacts Webhook Fakes Ipam IpamFacts IpamSpec.
Local Open Scope Z_scope.

(** ** IPv4 fields *)

(** The text of an optional IPv4 field and the address it loads as. *)
Definition v4_opt (o : option Z) : string := from_option v4str EmptyString o.
Definition addr_opt (o : option Z) : Addr := from_option AddrFrom4 Addr_zero o.
Definition u32_opt (o : option Z) : Prop := from_option u32 True o.

Lemma parse_optional_v4 o : u32_opt o → parse_optional (v4_opt o) = inl (addr_opt o).
Proof.
  destruct o as [n|]; simpl; intros Hn; [|done]. unfold parse_optional.
  pose proof (v4str_nonempty n) as Hne%String.eqb_neq. by rewrite Hne, ParseAddr_v4str.
Qed.

Lemma IsValid_addr_opt o : IsValid (addr_opt o) = bool_decide (is_Some o).
Proof. by destruct o. Qed.

Lemma same4_v4 x y : u32 x → u32 y → same4 (AddrFrom4 x) (AddrFrom4 y) = Val (bool_decide (x = y)).
Proof.
  intros Hx Hy. unfold same4. rewrite !As4_AddrFrom4. cbn. f_equal. apply bool_decide_ext.
  split; [by apply be_bytes4_inj|by intros ->].
Qed.

Lemma reject_same_v4 x y err k :
  u32 x → u32 y →
  reject_same (AddrFrom4 x) (AddrFrom4 y) err k = if decide (x = y) then Val (Some err) else k.
Proof. intros Hx Hy. unfold reject_same. rewrite same4_v4 by done. cbn. by case_bool_decide; case_decide. Qed.

Lemma Contains_AddrFrom4 a p n :
  u32 a → 0 ≤ p ≤ 32 → u32 n →
  Contains (v4net a p) (AsSlice (AddrFrom4 n)) = bool_decide (net_first a p ≤ n ≤ net_last a p).
Proof. intros. rewrite AsSlice_AddrFrom4, Contains_4_16. by apply Contains_v4net. Qed.

(** Strictly between the network and the broadcast address. *)
Definition host (a p n : Z) : Prop := net_first a p < n < net_last a p.

#[export] Instance host_dec a p n : Decision (host a p n).
Proof. unfold host. apply _. Defined.

Lemma host_u32 a p n : u32 a → 0 ≤ p ≤ 32 → host a p n → u32 n.
Proof.
  intros Ha Hp Hn. pose proof (net_first_u32 a p Ha Hp). pose proof (net_last_u32 a p Ha Hp).
  unfold host, u32 in *. lia.
Qed.

(** What an IPv4 pool loads as. *)
Definition v4_info (a p : Z) (s e sv r : option Z) : PoolInfo :=
  mkPoolInfo (v4net a p) (AddrFrom4 (net_first a p)) (AddrFrom4 (net_last a p))
    (addr_opt s) (addr_opt e) (addr_opt sv) (addr_opt r).

(** A pool whose address fields are IPv4 texts or empty. *)
Record v4_pool (ipPool : IPPool) (a p : Z) (s e sv r : option Z) : Prop := {
  v4_base : u32 a;
  v4_plen : 0 ≤ p ≤ 32;
  v4_parse : ParseCIDR (CIDR (ipv4Config (pool_Spec ipPool))) = (mapped a, v4net a p, None);
  v4_start : Start (PoolRange (ipv4Config (pool_Spec ipPool))) = v4_opt s;
  v4_end : End_ (PoolRange (ipv4Config (pool_Spec ipPool))) = v4_opt e;
  v4_server : ServerIP (ipv4Config (pool_Spec ipPool)) = v4_opt sv;
  v4_router : Router (ipv4Config (pool_Spec ipPool)) = v4_opt r;
  v4_bounds : u32_opt s ∧ u32_opt e ∧ u32_opt sv ∧ u32_opt r;
}.

Lemma LoadPool_v4 ipPool a p s e sv r :
  v4_pool ipPool a p s e sv r → LoadPool ipPool = inl (v4_info a p s e sv r).
Proof.
  intros [Ha Hp Hc Hs He Hsv Hr (Bs & Be & Bsv & Br)]. unfold LoadPool.
  rewrite (LoadCIDR_v4 _ _ _ _ Hc Ha Hp), Hs, He, Hsv, Hr. cbn.
  by rewrite !parse_optional_v4.
Qed.

Section checks.
Context (a p : Z) (Ha : u32 a) (Hp : 0 ≤ p ≤ 32).

(** One endpoint check, whichever of the fields it is for. *)
Lemma endpoint_checks n err1 err2 err3 (k : res (option error)) :
  u32 n →
  (if negb (Contains (v4net a p) (AsSlice (AddrFrom4 n))) then Val (Some err1)
   else reject_same (AddrFrom4 n) (AddrFrom4 (net_first a p)) err2
        (reject_same (AddrFrom4 n) (AddrFrom4 (net_last a p)) err3 k))
  = if decide (host a p n) then k
    else Val (Some (if decide (net_first a p ≤ n ≤ net_last a p)
                    then (if decide (n = net_first a p) then err2 else err3) else err1)).
Proof using Ha Hp.
  intros Hn. rewrite Contains_AddrFrom4 by done. rewrite !reject_same_v4 by eauto with go.
  unfold host. case_bool_decide as Hin; cbn [negb].
  - rewrite (decide_True (P := net_first a p ≤ n ≤ net_last a p)) by done.
    repeat case_decide; try done; lia.
  - rewrite (decide_False (P := net_first a p ≤ n ≤ net_last a p)) by done.
    rewrite decide_False; [done|]. lia.
Qed.

Definition host_opt (o : option Z) : Prop := ∀ n, o = Some n → host a p n.

Lemma check_endpoint_v4 s e sv r which o :
  u32_opt o →
  ∃ x, check_endpoint (v4_info a p s e sv r) which (addr_opt o) = Val x ∧ (x = None ↔ host_opt o).
Proof using Ha Hp.
  intros Ho. unfold check_endpoint, host_opt. rewrite IsValid_addr_opt.
  destruct o as [n|]; cbn [is_Some addr_opt from_option v4_info IPNet_ NetworkIPAddr BroadcastIPAddr].
  - rewrite bool_decide_true by eauto. rewrite endpoint_checks by done.
    case_decide as Hh; eexists; (split; [done|]); split; try done.
    + by intros _ m [= <-].
    + intros Hall. by destruct Hh; apply Hall.
  - rewrite bool_decide_false by by intros [? ?]. by eexists.
Qed.

Lemma checkPoolRange_v4 s e sv r :
  u32_opt s → u32_opt e →
  ∃ x, checkPoolRange (v4_info a p s e sv r) = Val x ∧ (x = None ↔ host_opt s ∧ host_opt e).
Proof using Ha Hp.
  intros Hs He. unfold checkPoolRange, check_then.
  change (StartIPAddr (v4_info a p s e sv r)) with (addr_opt s).
  change (EndIPAddr (v4_info a p s e sv r)) with (addr_opt e).
  destruct (check_endpoint_v4 s e sv r "start" s Hs) as (x & -> & Hx). cbn.
  destruct x as [err|]; [eexists; split; [done|]; naive_solver|].
  destruct (check_endpoint_v4 s e sv r "end" e He) as (y & -> & Hy).
  eexists. split; [done|]. naive_solver.
Qed.

(** The server address, when there is one, is a host address other than the
    router's and not one of the unallocatable addresses. *)
Definition server_ok (sv r : option Z) (unallocatables : list Addr) : Prop :=
  ∀ n, sv = Some n → host a p n ∧ r ≠ Some n ∧ AddrFrom4 n ∉ unallocatables.

Lemma checkServerIP_v4 s e sv r un :
  u32_opt sv → u32_opt r →
  ∃ x, checkServerIP (v4_info a p s e sv r) un = Val x ∧ (x = None ↔ server_ok sv r un).
Proof using Ha Hp.
  intros Hsv Hr. unfold checkServerIP. cbn [ServerIPAddr v4_info]. rewrite IsValid_addr_opt.
  destruct sv as [n|].
  2: { rewrite bool_decide_false by by intros [? ?]. by eexists. }
  rewrite bool_decide_true by eauto. cbn [negb].
  cbn [addr_opt from_option v4_info IPNet_ NetworkIPAddr BroadcastIPAddr RouterIPAddr].
  rewrite endpoint_checks by done. unfold server_ok.
  case_decide as Hh; [|eexists; split; [done|]; split; [done|]; intros Hall; by destruct (Hall n)].
  set (un_check := if existsb _ un then _ else _).
  assert (Hun : ∃ x, un_check = Val x ∧ (x = None ↔ AddrFrom4 n ∉ un)).
  { subst un_check. destruct (existsb _ un) eqn:Hex; eexists; (split; [done|]); split; try done.
    - intros Hnot. apply existsb_exists in Hex as (ip & Hin & <-%bool_decide_eq_true).
      by apply list_elem_of_In in Hin.
    - intros _ Hin. rewrite <-not_true_iff_false in Hex. apply Hex, existsb_exists.
      exists (AddrFrom4 n). split; [by apply list_elem_of_In|by apply bool_decide_eq_true]. }
  destruct Hun as (x & -> & Hx). rewrite IsValid_addr_opt. unfold check_then.
  destruct r as [m|]; cbn [addr_opt from_option].
  - rewrite bool_decide_true by eauto. rewrite reject_same_v4 by done.
    case_decide as Hm; cbn; eexists; (split; [done|]).
    + split; [done|]. intros Hall. destruct (Hall n eq_refl) as (_ & Hne & _). by rewrite Hm in Hne.
    + rewrite Hx. split; [|intros Hall; by destruct (Hall n eq_refl) as (_ & _ & ?)].
      intros Hnot n' [= <-]. split; [done|]. split; [|done]. by intros [= ->].
  - rewrite bool_decide_false by by intros [? ?]. cbn. eexists. split; [done|]. rewrite Hx.
    split; [|intros Hall; by destruct (Hall n eq_refl) as (_ & _ & ?)]. by intros Hnot n' [= <-].
Qed.

Lemma checkRouter_v4 s e sv r :
  u32_opt r → ∃ x, checkRouter (v4_info a p s e sv r) = Val x ∧ (x = None ↔ host_opt r).
Proof using Ha Hp.
  intros Hr. unfold checkRouter, host_opt. cbn [RouterIPAddr v4_info]. rewrite IsValid_addr_opt.
  destruct r as [n|].
  2: { rewrite bool_decide_false by by intros [? ?]. by eexists. }
  rewrite bool_decide_true by eauto. cbn [negb].
  cbn [addr_opt from_option v4_info IPNet_ NetworkIPAddr BroadcastIPAddr].
  rewrite endpoint_checks by done. case_decide as Hh; eexists; (split; [done|]); split; try done.
  - by intros _ m [= <-].
  - intros Hall. by destruct Hh; apply Hall.
Qed.
End checks.

(** ** Overlap with the service CIDR *)

Lemma Contains_net_IP a p b q :
  u32 a → 0 ≤ p ≤ 32 → u32 b → 0 ≤ q ≤ 32 →
  Contains (v4net a p) (net_IP (v4net b q)) = bool_decide (net_first a p ≤ net_first b q ≤ net_last a p).
Proof.
  intros. cbn [net_IP v4net]. rewrite Contains_4_16. apply Contains_v4net; eauto with go.
Qed.

(** Blocks of addresses are nested or disjoint: they meet exactly when one
    contains the first address of the other. *)
Lemma blocks_meet a p b q :
  0 ≤ p ≤ 32 → 0 ≤ q ≤ 32 →
  (∃ n, net_first a p ≤ n ≤ net_last a p ∧ net_first b q ≤ n ≤ net_last b q) ↔
  net_first a p ≤ net_first b q ≤ net_last a p ∨ net_first b q ≤ net_first a p ≤ net_last b q.
Proof.
  intros Hp Hq. pose proof (net_first_le a p Hp). pose proof (net_first_le b q Hq). split.
  - intros (n & Hn1 & Hn2). lia.
  - intros [Hin|Hin]; [exists (net_first b q)|exists (net_first a p)]; lia.
Qed.

Lemma checkCIDR_v4 svc cidr a p b q x y :
  ParseCIDR cidr = (x, v4net a p, None) → u32 a → 0 ≤ p ≤ 32 →
  ParseCIDR svc = (y, v4net b q, None) → u32 b → 0 ≤ q ≤ 32 →
  checkCIDR svc cidr = None ↔
  ¬ ∃ n, net_first a p ≤ n ≤ net_last a p ∧ net_first b q ≤ n ≤ net_last b q.
Proof.
  intros Hc Ha Hp Hs Hb Hq. unfold checkCIDR.
  rewrite (LoadCIDR_v4 _ _ _ _ Hc Ha Hp), (LoadCIDR_v4 _ _ _ _ Hs Hb Hq).
  rewrite !Contains_net_IP, blocks_meet by done. rewrite <-bool_decide_or.
  by case_bool_decide as Hm; split.
Qed.

(** ** The search for a server address *)

(** The address [n] of the search, or the zero address past the last one. *)
Definition cursor (n : Z) : Addr := if decide (n < 2 ^ 32) then AddrFrom4 n else Addr_zero.

Lemma Next_cursor n : 0 ≤ n < 2 ^ 32 → Next (AddrFrom4 n) = cursor (n + 1).
Proof.
  intros Hn. unfold cursor. destruct (decide (n + 1 < 2 ^ 32)) as [Hlt|Hge].
  - apply Next_AddrFrom4. lia.
  - replace n with (2 ^ 32 - 1) by lia. apply Next_AddrFrom4_last.
Qed.

Section assign.
Context (a p : Z) (Ha : u32 a) (Hp : 0 ≤ p ≤ 32) (masked : list Addr).

Definition first_free (n : Z) : Prop :=
  host a p n ∧ (AddrFrom4 n ∉ masked) ∧ ∀ m, net_first a p < m < n → AddrFrom4 m ∈ masked.

Definition none_free : Prop := ∀ m, host a p m → AddrFrom4 m ∈ masked.

(** The addresses passed so far are masked and all different, so the search
    cannot outlast the list. *)
Lemma passed_bound c :
  net_first a p < c → (∀ m, net_first a p < m < c → AddrFrom4 m ∈ masked) →
  c - net_first a p - 1 ≤ Z.of_nat (length masked).
Proof using Type.
  intros Hc Hpass. set (l := AddrFrom4 <$> seqZ (net_first a p + 1) (c - net_first a p - 1)).
  assert (Hl : length l = Z.to_nat (c - net_first a p - 1)) by (subst l; by rewrite length_fmap, length_seqZ).
  assert (Hsub : (length l ≤ length masked)%nat); [|lia].
  apply submseteq_length, NoDup_submseteq.
  - apply NoDup_fmap; [|apply NoDup_seqZ]. intros x y. apply AddrFrom4_inj.
  - intros x. unfold l. rewrite list_elem_of_fmap. intros (m & -> & Hm%elem_of_seqZ). apply Hpass. lia.
Qed.

Lemma assign_server_v4 fuel c :
  net_first a p < c ≤ 2 ^ 32 → (∀ m, net_first a p < m < c → AddrFrom4 m ∈ masked) →
  Z.of_nat fuel + (c - net_first a p - 1) = Z.of_nat (S (length masked)) →
  (∃ n, first_free n ∧
     assign_server fuel (v4net a p) masked (AddrFrom4 (net_last a p)) (cursor c) = Val (Some (v4str n))) ∨
  (none_free ∧ assign_server fuel (v4net a p) masked (AddrFrom4 (net_last a p)) (cursor c) = Val None).
Proof using Ha Hp.
  pose proof (net_first_u32 a p Ha Hp) as Hf. pose proof (net_last_u32 a p Ha Hp) as Hl.
  unfold u32 in Hf, Hl. revert c. induction fuel as [|fuel IH]; intros c Hc Hpass Hfuel.
  { pose proof (passed_bound c ltac:(lia) Hpass). lia. }
  cbn [assign_server]. unfold cursor. destruct (decide (c < 2 ^ 32)) as [Hlt|Hge].
  2: { right. split; [|done]. intros m Hm. apply Hpass. unfold host in Hm. lia. }
  rewrite Contains_AddrFrom4 by (done || unfold u32; lia).
  case_bool_decide as Hin; cbn [negb].
  2: { right. split; [|done]. intros m Hm. apply Hpass. unfold host in Hm. lia. }
  unfold IsIPAddrInList. destruct (existsb _ masked) eqn:Hmask.
  - apply existsb_exists in Hmask as (x & Hx & <-%bool_decide_eq_true). apply list_elem_of_In in Hx.
    rewrite Next_cursor by lia. apply IH; [lia| |lia].
    intros m Hm. destruct (decide (m = c)) as [->|]; [done|]. apply Hpass. lia.
  - assert (Hfree : AddrFrom4 c ∉ masked).
    { intros Hx. rewrite <-not_true_iff_false in Hmask. apply Hmask, existsb_exists.
      exists (AddrFrom4 c). split; [by apply list_elem_of_In|by apply bool_decide_eq_true]. }
    rewrite !As4_AddrFrom4. cbn [mbind res_MBind res_bind]. case_bool_decide as Heq.
    + apply be_bytes4_inj in Heq; [|unfold u32; lia..]. right. split; [|done].
      intros m Hm. apply Hpass. unfold host in Hm. lia.
    + left. exists c. rewrite String_AddrFrom4. split; [|done].
      split; [unfold host; split; [lia|]|done]. destruct (decide (c = net_last a p)) as [->|]; [done|lia].
Qed.
End assign.

Lemma parse_excludes_spec excludes l :
  parse_excludes excludes = inl l ↔
  Forall2 (λ s a, ParseAddr s = (a, None)) excludes l.
Proof.
  revert l. induction excludes as [|s rest IH]; intros l; cbn.
  - split; [by intros [= <-]|by intros ->%Forall2_nil_inv_l].
  - destruct (ParseAddr s) as [a [err|]] eqn:Hs.
    + split; [done|]. intros (? & ? & Hp & _)%Forall2_cons_inv_l. congruence.
    + destruct (parse_excludes rest) as [l'|err] eqn:Hr; cbn.
      * split.
        -- intros [= <-]. constructor; [done|]. by apply IH.
        -- intros (a' & l'' & Hp & Hall & ->)%Forall2_cons_inv_l. apply IH in Hall.
           replace a' with a by congruence. by replace l'' with l' by congruence.
      * split; [done|]. intros (a' & l'' & Hp & Hall & ->)%Forall2_cons_inv_l. apply IH in Hall. congruence.
Qed.

(** The addresses [ensureServerIP] must avoid: the router and the excluded ones. *)
Definition router_list (router : string) : list Addr :=
  match ParseAddr router with (r, None) => [r] | _ => [] end.

(** ** Properties of the mutator *)

(** No server address given: the search. *)
Lemma ensureServerIP_search (server cidr router : string) (excludes : list string) (ex : list Addr)
    (b : list Z) (a p : Z) :
  ParseCIDR cidr = (b, v4net a p, None) → u32 a → 0 ≤ p ≤ 32 →
  IsValid (addr_or_zero server) = false → parse_excludes excludes = inl ex →
  (∃ n, first_free a p (router_list router ++ ex) n ∧
        ensureServerIP server cidr router excludes = Val (inl (Some (v4str n)))) ∨
  (none_free a p (router_list router ++ ex) ∧
        ∃ err, ensureServerIP server cidr router excludes = Val (inr err)).
Proof.
  intros Hc Ha Hp Hserver Hex. unfold ensureServerIP.
  rewrite (LoadCIDR_v4 _ _ _ _ Hc Ha Hp), Hex. fold (addr_or_zero server). rewrite Hserver. cbn [negb].
  fold (router_list router).
  pose proof (net_first_u32 a p Ha Hp) as Hf. unfold u32 in Hf. rewrite Next_cursor by lia.
  destruct (assign_server_v4 a p Ha Hp (router_list router ++ ex)
              (assign_fuel (router_list router ++ ex)) (net_first a p + 1)) as [(n & Hn & Has)|[Hn Has]].
  - lia.
  - intros m Hm. lia.
  - unfold assign_fuel. lia.
  - left. exists n. split; [done|]. unfold router_list in Has at 1 2. cbv zeta.
    fold (router_list router) in Has. by rewrite Has.
  - right. split; [done|]. cbv zeta. rewrite Has. by eexists.
Qed.

(** The first excluded address that does not parse is the error. *)
Lemma parse_excludes_bad pre exclude post err :
  Forall (λ s, (ParseAddr s).2 = None) pre → (ParseAddr exclude).2 = Some err →
  parse_excludes (pre ++ exclude :: post) = inr err.
Proof.
  induction 1 as [|s pre Hs _ IH]; intros He; cbn [app parse_excludes].
  - destruct (ParseAddr exclude) as [x [e|]]; [|done]. by injection He as ->.
  - destruct (ParseAddr s) as [x [e|]]; [done|]. by rewrite IH.
Qed.

(** C35: for an IPv4 CIDR, [ensureServerIP] always returns, without panic (for an IPv6 CIDR
    it does panic).  The first excluded address that does not parse is its error; otherwise
    a valid server address that is given is kept; otherwise it assigns the lowest host
    address (strictly between the network and the broadcast address) that is neither the
    router nor excluded, and fails exactly when there is none. *)
Theorem ensureServerIP_spec (server cidr router : string) (excludes : list string) (b : list Z) (a p : Z) :
  ParseCIDR cidr = (b, v4net a p, None) → u32 a → 0 ≤ p ≤ 32 →
  (∀ pre exclude post err, excludes = pre ++ exclude :: post →
     Forall (λ s, (ParseAddr s).2 = None) pre → (ParseAddr exclude).2 = Some err →
     ensureServerIP server cidr router excludes = Val (inr err)) ∧
  ∀ ex, Forall2 (λ s x, ParseAddr s = (x, None)) excludes ex →
    if IsValid (addr_or_zero server) then ensureServerIP server cidr router excludes = Val (inl None)
    else (∃ n, first_free a p (router_list router ++ ex) n ∧
               ensureServerIP server cidr router excludes = Val (inl (Some (v4str n)))) ∨
         (none_free a p (router_list router ++ ex) ∧
               ∃ err, ensureServerIP server cidr router excludes = Val (inr err)).
Proof.
  intros Hc Ha Hp. split.
  - intros pre exclude post err -> Hpre He. unfold ensureServerIP.
    by rewrite (LoadCIDR_v4 _ _ _ _ Hc Ha Hp), (parse_excludes_bad _ _ _ _ Hpre He).
  - intros ex Hex%parse_excludes_spec. destruct (IsValid (addr_or_zero server)) eqn:Hserver.
    + unfold ensureServerIP. rewrite (LoadCIDR_v4 _ _ _ _ Hc Ha Hp), Hex. fold (addr_or_zero server). by rewrite Hserver.
    + by eapply ensureServerIP_search.
Qed.

Lemma ParseAddr_empty : ParseAddr EmptyString = (Addr_zero, Some (AddrParseError EmptyString)).
Proof. reflexivity. Qed.

Lemma addr_or_zero_v4 o : u32_opt o → addr_or_zero (v4_opt o) = addr_opt o.
Proof.
  destruct o as [n|]; simpl; intros Hn; unfold addr_or_zero; [|done]. by rewrite ParseAddr_v4str.
Qed.

Lemma net_bounds a p :
  u32 a → 0 ≤ p < 32 → 0 ≤ net_first a p ∧ net_first a p + 1 ≤ net_last a p ∧ net_last a p < 2 ^ 32.
Proof.
  intros Ha Hp. pose proof (net_first_u32 a p Ha ltac:(lia)) as Hf.
  pose proof (net_last_u32 a p Ha ltac:(lia)) as Hl. unfold u32 in *.
  assert (2 ^ 1 ≤ 2 ^ (32 - p)) by (apply Z.pow_le_mono_r; lia). unfold net_last in *. lia.
Qed.

(** The start and end [ensurePoolRange] settles on. *)
Definition chosen_start (a p : Z) (s : option Z) : Z := default (net_first a p + 1) s.
Definition chosen_end (a p : Z) (e : option Z) : Z := default (net_last a p - 1) e.

Lemma ensurePoolRange_v4 pool cidr b a p s e :
  ParseCIDR cidr = (b, v4net a p, None) → u32 a → 0 ≤ p < 32 →
  Start pool = v4_opt s → End_ pool = v4_opt e → u32_opt s → u32_opt e →
  let s' := chosen_start a p s in
  let e' := chosen_end a p e in
  u32 s' ∧ u32 e' ∧
  if decide (s' ≤ e') then
    ∃ new, ensurePoolRange pool cidr = inl new ∧
           default pool new = mkPoolRange (v4str s') (v4str e') (Exclude pool)
  else ∃ err, ensurePoolRange pool cidr = inr err.
Proof.
  intros Hc Ha Hp Hs He Us Ue s' e'. destruct (net_bounds a p Ha Hp) as (B1 & B2 & B3).
  assert (Us' : u32 s') by (subst s'; destruct s; simpl in *; [done|unfold u32; lia]).
  assert (Ue' : u32 e') by (subst e'; destruct e; simpl in *; [done|unfold u32; lia]).
  split; [done|]. split; [done|].
  unfold ensurePoolRange. rewrite (LoadCIDR_v4 _ _ _ _ Hc Ha ltac:(lia)). cbn [mbind result_MBind].
  rewrite Hs, He, !addr_or_zero_v4, !IsValid_addr_opt by done.
  rewrite Next_AddrFrom4, Prev_AddrFrom4 by lia.
  set (sp := if negb (bool_decide (is_Some s)) then _ else _).
  assert (Hsp : sp = (AddrFrom4 s', v4str s')) by (subst sp s'; rewrite String_AddrFrom4; by destruct s).
  set (ep := if negb (bool_decide (is_Some e)) then _ else _).
  assert (Hep : ep = (AddrFrom4 e', v4str e')) by (subst ep e'; rewrite String_AddrFrom4; by destruct e).
  rewrite Hsp, Hep, Compare_AddrFrom4.
  case_decide as Hse.
  - replace (0 <? cmp_int _) with false.
    2: { symmetry. apply Z.ltb_ge, cmp_int_le. lia. }
    unfold DeepEqual. case_bool_decide as Heq; cbn [negb]; eexists; (split; [done|]); by rewrite ?Heq.
  - replace (0 <? cmp_int _) with true; [by eexists|]. symmetry. apply Z.ltb_lt, cmp_int_gt. lia.
Qed.

(** What the API server does with the patches of the mutator. *)
Definition apply_patch (o : PatchOp) (ipPool : IPPool) : IPPool :=
  let spec := pool_Spec ipPool in
  let cfg := ipv4Config spec in
  let cfg' :=
    match Value o with
    | PoolValue p => mkIPv4Config (CIDR cfg) (ServerIP cfg) p (Router cfg) (DNS cfg) (DomainName cfg)
                       (DomainSearch cfg) (NTP cfg) (LeaseTime cfg)
    | StringValue s => mkIPv4Config (CIDR cfg) s (PoolRange cfg) (Router cfg) (DNS cfg) (DomainName cfg)
                         (DomainSearch cfg) (NTP cfg) (LeaseTime cfg)
    end in
  set_pool_Spec ipPool (mkIPPoolSpec cfg' (NetworkName spec) (Paused spec)).

Definition apply_patches (os : list PatchOp) (ipPool : IPPool) : IPPool :=
  foldl (λ p o, apply_patch o p) ipPool os.

(** The pool after a successful mutation, field by field. *)
Lemma mutate_create_v4 ipPool a p s e sv r os :
  v4_pool ipPool a p s e sv r → p < 32 → mutate_create ipPool = Val (inl os) →
  let s' := chosen_start a p s in
  let e' := chosen_end a p e in
  s' ≤ e' ∧ ∃ sv', v4_pool (apply_patches os ipPool) a p (Some s') (Some e') (Some sv') r ∧
    NetworkName (pool_Spec (apply_patches os ipPool)) = NetworkName (pool_Spec ipPool) ∧
    (sv = Some sv' ∨ sv = None ∧ host a p sv' ∧ r ≠ Some sv').
Proof.
  intros [Ha Hp Hc Hs He Hsv Hr (Us & Ue & Usv & Ur)] Hp' Hmut s' e'. unfold mutate_create in Hmut.
  rewrite Hsv, Hr in Hmut.
  destruct (ensurePoolRange_v4 _ _ _ _ _ _ _ Hc Ha ltac:(lia) Hs He Us Ue) as (Us' & Ue' & Hrange).
  fold s' e' in Us', Ue', Hrange.
  assert (Hserver : ∃ ps, ensureServerIP (v4_opt sv) (CIDR (ipv4Config (pool_Spec ipPool))) (v4_opt r)
              (Exclude (PoolRange (ipv4Config (pool_Spec ipPool)))) = Val (inl ps) ∧
            ∃ sv', u32 sv' ∧ default (v4_opt sv) ps = v4str sv' ∧
              (sv = Some sv' ∨ sv = None ∧ host a p sv' ∧ r ≠ Some sv')).
  { destruct (ensureServerIP _ _ _ _) as [[ps|err]|w|] eqn:Hens; try done. exists ps. split; [done|].
    destruct sv as [sv|].
    - unfold ensureServerIP in Hens. rewrite (LoadCIDR_v4 _ _ _ _ Hc Ha Hp) in Hens.
      cbn [v4_opt from_option] in Hens. rewrite ParseAddr_v4str in Hens by done.
      destruct (parse_excludes _); [|done]. cbn in Hens. injection Hens as <-. exists sv. auto.
    - destruct (parse_excludes (Exclude (PoolRange (ipv4Config (pool_Spec ipPool))))) as [ex|] eqn:Hex.
      2: { exfalso. unfold ensureServerIP in Hens. rewrite (LoadCIDR_v4 _ _ _ _ Hc Ha Hp), Hex in Hens. done. }
      destruct (ensureServerIP_search EmptyString _ (v4_opt r) _ ex _ a p Hc Ha Hp eq_refl Hex)
        as [(n & (Hn & Hfree & _) & Heq)|(_ & err & Heq)]; cbn [v4_opt from_option] in *;
        rewrite Heq in Hens; [|done].
      injection Hens as <-. exists n. split; [by apply (host_u32 a p)|]. split; [done|]. right.
      split_and!; [done..|]. intros ->. apply Hfree. unfold router_list. cbn [v4_opt from_option].
      rewrite ParseAddr_v4str by by apply (host_u32 a p). by left. }
  destruct Hserver as (ps & Hps & sv' & Usv' & Hsv' & Hcase). rewrite Hps in Hmut.
  cbn [mbind res_MBind res_bind] in Hmut.
  case_decide as Hse.
  2: { destruct Hrange as [err Hrange]. by rewrite Hrange in Hmut. }
  destruct Hrange as (new & Hrange & Hnew). rewrite Hrange in Hmut.
  split; [done|]. exists sv'.
  assert (Hfinal : ipv4Config (pool_Spec (apply_patches os ipPool)) =
    (let cfg := ipv4Config (pool_Spec ipPool) in
    mkIPv4Config (CIDR cfg) (v4str sv') (mkPoolRange (v4str s') (v4str e') (Exclude (PoolRange cfg)))
      (Router cfg) (DNS cfg) (DomainName cfg) (DomainSearch cfg) (NTP cfg) (LeaseTime cfg)) ∧
    NetworkName (pool_Spec (apply_patches os ipPool)) = NetworkName (pool_Spec ipPool)).
  { destruct ipPool as [m [cfg nn pa] st]. cbn in *. rewrite <-Hnew, <-Hsv'.
    destruct new, ps; injection Hmut as <-; cbn; rewrite <-?Hsv; by destruct cfg. }
  destruct Hfinal as [Hcfg Hname]. split; [|done].
  constructor; rewrite ?Hcfg; cbn; try done.
Qed.

(** ** All checks of the validator together *)

Lemma check_then_spec m k (A B : Prop) :
  (∃ x, m = Val x ∧ (x = None ↔ A)) → (∃ y, k = Val y ∧ (y = None ↔ B)) →
  ∃ z, check_then m k = Val z ∧ (z = None ↔ A ∧ B).
Proof.
  intros (x & -> & Hx) (y & -> & Hy). unfold check_then. destruct x as [err|]; cbn.
  - exists (Some err). split; [done|]. split; [done|]. intros [HA _]. by apply Hx in HA.
  - exists y. split; [done|]. rewrite Hy. split; [|by intros [_ ?]]. intros HB. split; [by apply Hx|done].
Qed.

Section validator.
Context `{MapRange} `{KvLib} (svc : string) (nads : string → string → result NAD).

(** The NAD a network name refers to, "default" being the default namespace. *)
Definition nad_exists (networkName : string) : Prop :=
  ∃ nad, nads (default_namespace (RSplit networkName "/").1) (RSplit networkName "/").2 = inl nad.

Lemma checkNAD_spec networkName : checkNAD nads networkName = None ↔ nad_exists networkName.
Proof using Type.
  unfold checkNAD, nad_exists. destruct (RSplit networkName "/") as [ns n]. cbn [fst snd].
  destruct (nads _ _) as [nad|err]; split; try done; [by exists nad|by intros [? ?]].
Qed.

(** What the validator demands of an IPv4 pool, besides the service CIDR. *)
Definition pool_ok (a p : Z) (s e sv r : option Z) (un : list Addr) : Prop :=
  host_opt a p s ∧ host_opt a p e ∧ server_ok a p sv r un ∧ host_opt a p r.

Lemma pool_checks_v4 ipPool a p s e sv r un :
  v4_pool ipPool a p s e sv r →
  ∃ x, pool_checks svc nads ipPool (v4_info a p s e sv r) un = Val x ∧
    (x = None ↔ nad_exists (NetworkName (pool_Spec ipPool)) ∧
       checkCIDR svc (CIDR (ipv4Config (pool_Spec ipPool))) = None ∧ pool_ok a p s e sv r un).
Proof using Type.
  intros [Ha Hp _ _ _ _ _ (Us & Ue & Usv & Ur)]. unfold pool_checks, pool_ok.
  apply check_then_spec; [eexists; split; [done|apply checkNAD_spec]|].
  apply check_then_spec; [by eexists|].
  destruct (checkPoolRange_v4 a p Ha Hp s e sv r Us Ue) as (x & Hx & Hxi).
  destruct (check_then_spec (checkPoolRange (v4_info a p s e sv r))
     (check_then (checkServerIP (v4_info a p s e sv r) un)
        (check_then (checkRouter (v4_info a p s e sv r)) (Val None)))
     (host_opt a p s ∧ host_opt a p e) (server_ok a p sv r un ∧ host_opt a p r ∧ True))
    as (z & Hz & Hzi).
  - by apply checkPoolRange_v4.
  - apply check_then_spec; [by apply checkServerIP_v4|].
    apply check_then_spec; [by apply checkRouter_v4|]. by eexists.
  - exists z. split; [done|]. rewrite Hzi. tauto.
Qed.

Lemma wrap_check_None format kind m r : wrap_check format kind m r = Val None ↔ r = Val None.
Proof using Type. destruct r as [[err|]|w|]; cbn; split; done. Qed.
End validator.

(** The spec of an admitted pool, as numbers. *)
Lemma admitted_v4 `{KvLib} (svc : string) (nads : string → string → result NAD) (ipPool : IPPool) (os : list PatchOp)
    (a p : Z) (s e sv r : option Z) :
  v4_pool ipPool a p s e sv r → p < 32 →
  mutate_create ipPool = Val (inl os) → validate_create svc nads (apply_patches os ipPool) = Val None →
  ∃ s' e' sv', v4_pool (apply_patches os ipPool) a p (Some s') (Some e') (Some sv') r ∧
    host a p s' ∧ host a p e' ∧ host a p sv' ∧ s' ≤ e' ∧ r ≠ Some sv' ∧
    NetworkName (pool_Spec (apply_patches os ipPool)) = NetworkName (pool_Spec ipPool).
Proof.
  intros Hv4 Hp Hmut Hval.
  destruct (mutate_create_v4 _ _ _ _ _ _ _ _ Hv4 Hp Hmut) as (Hse & sv' & Hv4' & Hname & _).
  unfold validate_create in Hval. rewrite (LoadPool_v4 _ _ _ _ _ _ _ Hv4'), wrap_check_None in Hval.
  destruct (pool_checks_v4 svc nads _ _ _ _ _ _ _ [] Hv4') as (x & Hx & Hxi).
  rewrite Hx in Hval. injection Hval as ->. destruct (proj1 Hxi eq_refl) as (_ & _ & Hhs & Hhe & Hsvok & _).
  destruct (Hsvok sv' eq_refl) as (Hhsv & Hrne & _).
  exists (chosen_start a p s), (chosen_end a p e), sv'. split_and!; [done| | |done..]; [by apply Hhs|by apply Hhe].
Qed.

(** An IPPool of an IPv4 network that the mutator and
    then the validator let through on creation can be loaded: [NewIPSubnet] with
    the admitted spec succeeds, and the admitted range and server address lie
    strictly between the network and the broadcast address, the server apart
    from the router. *)
Theorem admitted_pool_initializes `{MapRange} `{KvLib} (svc : string)
    (nads : string → string → result NAD) (ipPool : IPPool) (os : list PatchOp)
    (a p : Z) (s e sv r : option Z) (alloc : IPAllocator) :
  v4_pool ipPool a p s e sv r → p < 32 →
  mutate_create ipPool = Val (inl os) →
  validate_create svc nads (apply_patches os ipPool) = Val None →
  ∃ s' e' sv', host a p s' ∧ host a p e' ∧ host a p sv' ∧ s' ≤ e' ∧ r ≠ Some sv' ∧
    let cfg := ipv4Config (pool_Spec (apply_patches os ipPool)) in
    ServerIP cfg = v4str sv' ∧
    NewIPSubnet (NetworkName (pool_Spec ipPool)) (CIDR cfg) (Start (PoolRange cfg)) (End_ (PoolRange cfg))
      alloc = (<[NetworkName (pool_Spec ipPool) := fresh_subnet a p s' e']> alloc, Val None).
Proof.
  intros Hv4 Hp Hmut Hval.
  destruct (admitted_v4 _ _ _ _ _ _ _ _ _ _ Hv4 Hp Hmut Hval) as (s' & e' & sv' & Hv4' & Hhs & Hhe & Hhsv & Hse & Hrne & Hname).
  pose proof Hv4' as [Ha Hp32 Hc Hs He Hsv Hr (Us & Ue & Usv & Ur)].
  exists s', e', sv'. split_and!; [done..|].
  cbv zeta. split; [done|]. rewrite Hs, He. cbn [v4_opt from_option].
  pose proof (NewIPSubnet_v4 (NetworkName (pool_Spec ipPool)) _ a p alloc Hc Ha Hp32 _ _ _ _ Us Ue
                (ParseIP_v4str _ Us) (ParseIP_v4str _ Ue)) as Hnew.
  assert (Hok : range_ok a p s' e' = true) by (apply range_ok_spec; unfold host in *; lia).
  by rewrite Hok in Hnew.
Qed.

(** ** Addresses recorded in the status *)

Lemma load_one_spec l acc al ex re :
  foldl load_one acc l = (al, ex, re) →
  ∀ a, a ∈ al ++ ex ↔ (a ∈ acc.1.1 ++ acc.1.2) ∨
         ∃ ip val, (ip, val) ∈ l ∧ ParseAddr ip = (a, None) ∧ val ≠ ReservedMark.
Proof.
  revert acc. induction l as [|[ip val] l IH]; intros [[al0 ex0] re0] Hf a; cbn [foldl] in Hf.
  - injection Hf as <- <- <-. cbn. split; [by left|]. intros [?|(? & ? & Hin & _)]; [done|].
    by apply elem_of_nil in Hin.
  - rewrite (IH _ Hf). cbn [load_one fst snd].
    assert (Hcons : ∀ a, (∃ ip' val', (ip', val') ∈ (ip, val) :: l ∧ ParseAddr ip' = (a, None) ∧ val' ≠ ReservedMark) ↔
      (ParseAddr ip = (a, None) ∧ val ≠ ReservedMark) ∨
      ∃ ip' val', (ip', val') ∈ l ∧ ParseAddr ip' = (a, None) ∧ val' ≠ ReservedMark).
    { intros a'. setoid_rewrite elem_of_cons. naive_solver. }
    rewrite Hcons. destruct (ParseAddr ip) as [x [err|]]; cbn [fst snd].
    { split; [tauto|]. intros [?|[[? _]|?]]; [tauto|done|tauto]. }
    destruct (String.eqb_spec val ExcludedMark) as [->|Hex]; cbn [fst snd].
    { rewrite !elem_of_app, list_elem_of_singleton. split.
      - intros [[?|[? | -> ]]|?]; [tauto..| |tauto]. right. left. done.
      - intros [?|[[[= ->] _]|?]]; tauto. }
    destruct (String.eqb_spec val ReservedMark) as [->|Hre]; cbn [fst snd].
    { split; [tauto|]. intros [?|[[_ ?]|?]]; [tauto|done|tauto]. }
    rewrite !elem_of_app, list_elem_of_singleton. split.
    + intros [[[? | -> ]|?]|?]; [tauto| |tauto..]. right. by left.
    + intros [?|[[[= ->] _]|?]]; tauto.
Qed.

(** The addresses of a status that are not marked RESERVED. *)
Definition unallocatable (status : option IPv4Status) (n : Z) : Prop :=
  ∃ st al val, status = Some st ∧ st_Allocated st = Some al ∧ al !! v4str n = Some val ∧ val ≠ ReservedMark.

Lemma LoadAllocated_spec `{MapRange} seed status n al ex re :
  u32 n →
  match status with
  | Some st => LoadAllocated seed (or_empty (st_Allocated st))
  | None => ([], [], [])
  end = (al, ex, re) →
  AddrFrom4 n ∈ al ++ ex ↔ unallocatable status n.
Proof.
  intros Hn Hload. unfold unallocatable. destruct status as [st|].
  2: { injection Hload as <- <- <-. cbn. rewrite elem_of_nil. split; [done|]. by intros (? & ? & ? & ? & _). }
  unfold LoadAllocated in Hload. rewrite (load_one_spec _ _ _ _ _ Hload). cbn [fst snd app].
  rewrite elem_of_nil. split.
  - intros [?|(ip & val & Hin & Hp & Hval)]; [done|]. apply elem_of_range in Hin.
    destruct (ParseAddr_Is4 _ _ Hp eq_refl) as (m & _ & Heq & ->). apply AddrFrom4_inj in Heq as <-.
    destruct (st_Allocated st) as [al'|] eqn:Hal; cbn in Hin; [|by rewrite lookup_empty in Hin].
    by exists st, al', val.
  - intros (st' & al' & val & [= <-] & Hal & Hl & Hval). right. exists (v4str n), val.
    rewrite elem_of_range, Hal. cbn. by rewrite ParseAddr_v4str.
Qed.

(** ** Properties of the validators *)

(** The networks of two CIDR texts share no address. *)
Definition disjoint_networks (a p b q : Z) : Prop :=
  ¬ ∃ n, net_first a p ≤ n ≤ net_last a p ∧ net_first b q ≤ n ≤ net_last b q.

Section validators.
Context `{MapRange} `{KvLib} (svc : string) (nads : string → string → result NAD).
Context (ipPool : IPPool) (a p b q : Z) (s e sv r : option Z) (y : list Z).
Context (Hv4 : v4_pool ipPool a p s e sv r) (Hsvc : ParseCIDR svc = (y, v4net b q, None)) (Hb : u32 b) (Hq : 0 ≤ q ≤ 32).

(** What creation and update demand alike. *)
Definition pool_admissible : Prop :=
  nad_exists nads (NetworkName (pool_Spec ipPool)) ∧ disjoint_networks a p b q ∧ pool_ok a p s e sv r [].

Lemma wrap_check_iff format res (A : Prop) :
  (∃ x, res = Val x ∧ (x = None ↔ A)) →
  ∃ x, wrap_check format "IPPool" (pool_Meta ipPool) res = Val x ∧ (x = None ↔ A).
Proof using Type. intros (x & -> & Hx). eexists. split; [done|]. rewrite <-Hx. by destruct x. Qed.

Lemma pool_checks_iff un :
  ∃ x, pool_checks svc nads ipPool (v4_info a p s e sv r) un = Val x ∧
    (x = None ↔ nad_exists nads (NetworkName (pool_Spec ipPool)) ∧ disjoint_networks a p b q ∧ pool_ok a p s e sv r un).
Proof using Hb Hq Hsvc Hv4.
  pose proof Hv4 as [Ha Hp Hc _ _ _ _ _].
  destruct (pool_checks_v4 svc nads _ _ _ _ _ _ _ un Hv4) as (x & Hx & Hxi). exists x. split; [done|].
  rewrite Hxi, (checkCIDR_v4 svc _ a p b q _ y Hc Ha Hp Hsvc Hb Hq). done.
Qed.

Lemma validate_create_v4 : ∃ x, validate_create svc nads ipPool = Val x ∧ (x = None ↔ pool_admissible).
Proof using Hb Hq Hsvc Hv4.
  unfold validate_create. rewrite (LoadPool_v4 _ _ _ _ _ _ _ Hv4). apply wrap_check_iff, pool_checks_iff.
Qed.

Lemma validate_update_v4 seed :
  ∃ x, validate_update svc nads seed ipPool = Val x ∧
    (x = None ↔ is_Some (DeletionTimestamp (pool_Meta ipPool)) ∨
       pool_admissible ∧ ∀ n, sv = Some n → ¬ unallocatable (IPv4 (pool_Status ipPool)) n).
Proof using Hb Hq Hsvc Hv4.
  pose proof Hv4 as [_ _ _ _ _ _ _ (_ & _ & Usv & _)].
  unfold validate_update. destruct (DeletionTimestamp (pool_Meta ipPool)) as [t|].
  { eexists. split; [done|]. split; [|done]. intros _. left. by eexists. }
  rewrite (LoadPool_v4 _ _ _ _ _ _ _ Hv4).
  destruct (match IPv4 (pool_Status ipPool) with Some st => _ | None => _ end) as [[al ex] re] eqn:Hload.
  apply wrap_check_iff. destruct (pool_checks_iff (al ++ ex)) as (x & Hx & Hxi).
  exists x. split; [done|]. rewrite Hxi. unfold pool_admissible, pool_ok, server_ok.
  assert (Hun : ∀ n, sv = Some n → AddrFrom4 n ∈ al ++ ex ↔ unallocatable (IPv4 (pool_Status ipPool)) n).
  { intros n ->. by eapply LoadAllocated_spec. }
  split.
  - intros (H1 & H2 & H3 & H4 & H5 & H6). right. split.
    + split_and!; try done. intros n Hn. destruct (H5 n Hn) as (? & ? & _). split_and!; [done..|].
      apply not_elem_of_nil.
    + intros n Hn. rewrite <-Hun by done. by destruct (H5 n Hn) as (_ & _ & ?).
  - intros [[? ?]|((H1 & H2 & H3 & H4 & H5 & H6) & H7)]; [done|]. split_and!; try done.
    intros n Hn. destruct (H5 n Hn) as (? & ? & _). split_and!; [done..|]. rewrite Hun by done. by apply H7.
Qed.

(** C36: the validator never panics on an IPv4 pool, and admits its
    creation exactly when the NAD exists, the network shares no address with the
    service network, and start, end, server and router, where given, are host
    addresses, the server apart from the router; an update must also keep the
    server address apart from every address the status records as allocated or
    excluded, while an object being deleted is always let through. *)
Theorem validate_pool_iff (seed : nat) :
  (∃ x, validate_create svc nads ipPool = Val x ∧ (x = None ↔ pool_admissible)) ∧
  ∃ x, validate_update svc nads seed ipPool = Val x ∧
    (x = None ↔ is_Some (DeletionTimestamp (pool_Meta ipPool)) ∨
       pool_admissible ∧ ∀ n, sv = Some n → ¬ unallocatable (IPv4 (pool_Status ipPool)) n).
Proof using Hb Hq Hsvc Hv4. split; [apply validate_create_v4|apply validate_update_v4]. Qed.
End validators.

(** What an index lookup of the VirtualMachineNetworkConfig cache promises. *)
Definition index_spec (objs : list VmNetCfg) (f : string → string → result (list VmNetCfg)) : Prop :=
  ∀ key, ∃ l, f VmNetCfgByNetworkIndex key = inl l ∧ ∀ v, v ∈ l ↔ v ∈ objs ∧ key ∈ VmNetCfgByNetwork v.

(** Deleting an IPPool is refused exactly when some
    VirtualMachineNetworkConfig has a network whose name is the namespace and name
    of the pool object itself (the pool's own NetworkName plays no part). *)
Theorem validate_delete_spec (objs : list VmNetCfg)
    (f : string → string → result (list VmNetCfg)) (kind : string) (ipPool : IPPool) :
  index_spec objs f →
  ∃ x, validate_delete f kind ipPool = Val x ∧
    (x = None ↔ ¬ ∃ v nc, v ∈ objs ∧ nc ∈ NetworkConfigs (vnc_Spec v) ∧
       nc_NetworkName nc = Namespace (pool_Meta ipPool) +:+ "/" +:+ Name (pool_Meta ipPool)).
Proof.
  intros Hidx. unfold validate_delete, checkVmNetCfgs, WhoUseIPPool.
  destruct (Hidx (Namespace (pool_Meta ipPool) +:+ "/" +:+ Name (pool_Meta ipPool))) as (l & -> & Hl).
  assert (Hin : (∃ v nc, v ∈ objs ∧ nc ∈ NetworkConfigs (vnc_Spec v) ∧
     nc_NetworkName nc = Namespace (pool_Meta ipPool) +:+ "/" +:+ Name (pool_Meta ipPool)) ↔ ∃ v, v ∈ l).
  { setoid_rewrite Hl. unfold VmNetCfgByNetwork. setoid_rewrite list_elem_of_fmap. naive_solver. }
  setoid_rewrite Hin. destruct l as [|v l]; eexists; (split; [done|]); cbn; split; try done.
  - intros _ [v Hv]. by apply elem_of_nil in Hv.
  - intros Hno. exfalso. apply Hno. exists v. by left.
Qed.

(** A VirtualMachineNetworkConfig is admitted exactly
    when, for every network it names, the NAD exists, carries both pool labels,
    and the IPPool they name exists. *)
Theorem vmnetcfg_validate_create_iff `{KvLib} (nads : string → string → result NAD)
    (pools : string → string → result IPPool) (v : VmNetCfg) :
  vmnetcfg_validate_create nads pools v = None ↔
  ∀ nc, nc ∈ NetworkConfigs (vnc_Spec v) →
    ∃ nad ns n ipPool,
      nads (default_namespace (RSplit (nc_NetworkName nc) "/").1) (RSplit (nc_NetworkName nc) "/").2 = inl nad ∧
      or_empty (Labels (nad_Meta nad)) !! IPPoolNamespaceLabelKey = Some ns ∧
      or_empty (Labels (nad_Meta nad)) !! IPPoolNameLabelKey = Some n ∧ pools ns n = inl ipPool.
Proof.
  unfold vmnetcfg_validate_create. rewrite fmap_None.
  assert (Hone : ∀ nc, check_network nads pools nc = None ↔ ∃ nad ns n ipPool,
      nads (default_namespace (RSplit (nc_NetworkName nc) "/").1) (RSplit (nc_NetworkName nc) "/").2 = inl nad ∧
      or_empty (Labels (nad_Meta nad)) !! IPPoolNamespaceLabelKey = Some ns ∧
      or_empty (Labels (nad_Meta nad)) !! IPPoolNameLabelKey = Some n ∧ pools ns n = inl ipPool).
  { intros nc. unfold check_network. destruct (RSplit _ _) as [x y]. cbn [fst snd].
    destruct (nads _ _) as [nad|err].
    2: { split; [done|]. by intros (? & ? & ? & ? & ? & _). }
    destruct (_ !! IPPoolNamespaceLabelKey) as [ns|] eqn:H1.
    2: { split; [done|]. intros (? & ? & ? & ? & [= <-] & Hns & _). congruence. }
    destruct (_ !! IPPoolNameLabelKey) as [n|] eqn:H2.
    2: { split; [done|]. intros (? & ? & ? & ? & [= <-] & _ & Hn & _). congruence. }
    destruct (pools ns n) as [ipPool|err] eqn:H3.
    - split; [|done]. intros _. by exists nad, ns, n, ipPool.
    - split; [done|]. intros (? & ns' & n' & ? & [= <-] & ? & ? & ?). congruence. }
  induction (NetworkConfigs (vnc_Spec v)) as [|nc ncs IH]; cbn [check_networks].
  - split; [|done]. intros _ nc Hnc. by apply elem_of_nil in Hnc.
  - setoid_rewrite elem_of_cons. destruct (check_network nads pools nc) as [err|] eqn:Hnc.
    + split; [done|]. intros Hall. rewrite <-Hnc. apply Hone, Hall. by left.
    + rewrite IH. apply Hone in Hnc. split; [|by auto]. intros Hall nc' [->|Hin]; auto.
Qed.

(** ** Concrete runs *)

(** Pool default/pool-1 of NAD default/net-1: 192.168.0.0/24, router .1, nothing
    else given. *)
Definition demo_config (server start end_ : string) : IPv4Config :=
  mkIPv4Config "192.168.0.0/24" server (mkPoolRange start end_ ["192.168.0.2"]) "192.168.0.1" []
    None [] [] None.

Definition demo_ippool (server start end_ : string) : IPPool :=
  mkIPPool (named_meta "default" "pool-1")
    (mkIPPoolSpec (demo_config server start end_) "default/net-1" None)
    (mkIPPoolStatus 0 None None []).

Definition demo_nads (ns n : string) : result NAD :=
  if String.eqb ns "default" && String.eqb n "net-1" then
    inl (mkNAD (set_Labels (named_meta "default" "net-1")
       (Some {[ IPPoolNamespaceLabelKey := "default"; IPPoolNameLabelKey := "pool-1" ]})))
  else inr (StatusError NotFound n).

Definition demo_pools (ns n : string) : result IPPool :=
  if String.eqb ns "default" && String.eqb n "pool-1" then inl (demo_ippool "" "" "")
  else inr (StatusError NotFound n).

Lemma demo_v4_pool : v4_pool (demo_ippool "" "" "") demo_net 24 None None None (Some (demo_net + 1)).
Proof. constructor; try (by vm_compute). Qed.

Lemma ensureServerIP_spec_witness :
  ((∃ n, first_free demo_net 24 (router_list "192.168.0.1" ++ [AddrFrom4 (demo_net + 2)]) n ∧
         ensureServerIP "" "192.168.0.0/24" "192.168.0.1" ["192.168.0.2"] = Val (inl (Some (v4str n)))) ∨
   (none_free demo_net 24 (router_list "192.168.0.1" ++ [AddrFrom4 (demo_net + 2)]) ∧
         ∃ err, ensureServerIP "" "192.168.0.0/24" "192.168.0.1" ["192.168.0.2"] = Val (inr err))) ∧
  ensureServerIP "" "192.168.0.0/24" "192.168.0.1" ["192.168.0.2"; "x"] = Val (inr (AddrParseError "x")).
Proof.
  split.
  - destruct (ensureServerIP_spec "" "192.168.0.0/24" "192.168.0.1" ["192.168.0.2"] (mapped demo_net) demo_net 24)
      as [_ Hgood]; [by vm_compute..|].
    apply (Hgood [AddrFrom4 (demo_net + 2)]). by repeat constructor.
  - destruct (ensureServerIP_spec "" "192.168.0.0/24" "192.168.0.1" ["192.168.0.2"; "x"] (mapped demo_net) demo_net 24)
      as [Hbad _]; [by vm_compute..|].
    apply (Hbad ["192.168.0.2"] "x" []); [reflexivity|by repeat constructor|by vm_compute].
Defined.

Example demo_server :
  ensureServerIP "" "192.168.0.0/24" "192.168.0.1" ["192.168.0.2"] = Val (inl (Some "192.168.0.3")).
Proof. vm_compute. reflexivity. Qed.

Definition demo_patches : list PatchOp :=
  [mkPatchOp "replace" "/spec/ipv4Config/pool"
     (PoolValue (mkPoolRange "192.168.0.1" "192.168.0.254" ["192.168.0.2"]));
   mkPatchOp "replace" "/spec/ipv4Config/serverIP" (StringValue "192.168.0.3")].

Lemma admitted_pool_initializes_witness :
  let pool' := apply_patches demo_patches (demo_ippool "" "" "") in
  mutate_create (demo_ippool "" "" "") = Val (inl demo_patches) ∧
  @validate_create plain_kv "10.53.0.0/16" demo_nads pool' = Val None ∧
  ∃ s' e' sv', host demo_net 24 s' ∧ host demo_net 24 e' ∧ host demo_net 24 sv' ∧ s' ≤ e' ∧
    Some (demo_net + 1) ≠ Some sv' ∧
    let cfg := ipv4Config (pool_Spec pool') in
    ServerIP cfg = v4str sv' ∧
    NewIPSubnet "default/net-1" (CIDR cfg) (Start (PoolRange cfg)) (End_ (PoolRange cfg)) ∅ =
      (<["default/net-1" := fresh_subnet demo_net 24 s' e']> ∅, Val None).
Proof.
  cbv zeta. split; [by vm_compute|]. split; [by vm_compute|].
  apply (@admitted_pool_initializes canonical_range plain_kv "10.53.0.0/16" demo_nads
           (demo_ippool "" "" "") demo_patches demo_net 24 None None None (Some (demo_net + 1)) ∅);
    [apply demo_v4_pool|by vm_compute..].
Defined.

Lemma validate_pool_iff_witness :
  let pool := demo_ippool "" "" "" in
  let common := @pool_admissible plain_kv demo_nads pool demo_net 24 171245568 16 None None None (Some (demo_net + 1)) in
  (∃ x, @validate_create plain_kv "10.53.0.0/16" demo_nads pool = Val x ∧ (x = None ↔ common)) ∧
  ∃ x, @validate_update canonical_range plain_kv "10.53.0.0/16" demo_nads 0 pool = Val x ∧
    (x = None ↔ is_Some (DeletionTimestamp (pool_Meta pool)) ∨
       common ∧ ∀ n, None = Some n → ¬ unallocatable (IPv4 (pool_Status pool)) n).
Proof.
  cbv zeta.
  refine (@validate_pool_iff canonical_range plain_kv "10.53.0.0/16" demo_nads (demo_ippool "" "" "")
           demo_net 24 171245568 16 None None None (Some (demo_net + 1)) (mapped 171245568) demo_v4_pool _ _ _ 0);
    by vm_compute.
Defined.

(** A configuration of VM vm-1 with one NIC on [networkName]. *)
Definition demo_vmnetcfg (networkName : string) : VmNetCfg :=
  mkVmNetCfg "VirtualMachineNetworkConfig" (named_meta "default" "vm-1")
    (mkVmNetCfgSpec "vm-1" [mkNetworkConfig networkName "02:00:00:00:00:01" None] None)
    (mkVmNetCfgStatus [] []).

Definition demo_index (objs : list VmNetCfg) (index key : string) : result (list VmNetCfg) :=
  inl (filter (λ v, key ∈ VmNetCfgByNetwork v) objs).

Lemma demo_index_spec objs : index_spec objs (demo_index objs).
Proof.
  intros key. eexists. split; [done|]. intros v. rewrite list_elem_of_filter. tauto.
Qed.

Lemma validate_delete_spec_witness :
  let objs := [demo_vmnetcfg "default/net-1"] in
  let pool := demo_ippool "" "" "" in
  ∃ x, validate_delete (demo_index objs) "IPPool" pool = Val x ∧
    (x = None ↔ ¬ ∃ v nc, v ∈ objs ∧ nc ∈ NetworkConfigs (vnc_Spec v) ∧
       nc_NetworkName nc = Namespace (pool_Meta pool) +:+ "/" +:+ Name (pool_Meta pool)).
Proof. cbv zeta. apply validate_delete_spec, demo_index_spec. Defined.

(** The pool of network default/net-1 may be deleted while a VM uses it. *)
Example delete_of_pool_in_use :
  validate_delete (demo_index [demo_vmnetcfg "default/net-1"]) "IPPool" (demo_ippool "" "" "") = Val None.
Proof. vm_compute. reflexivity. Qed.

(** Only a network named like the pool object blocks the deletion. *)
Example delete_blocked_by_name :
  validate_delete (demo_index [demo_vmnetcfg "default/pool-1"]) "IPPool" (demo_ippool "" "" "") ≠ Val None.
Proof. vm_compute. discriminate. Qed.
