(* ===== verification/AgentFacts.v ===== *)
(** * The agent: convergence of the lease store *)

From S2P Require Import Prelude GoNet GoNetFacts GoText Api Util Agent Fakes.
From S2P Require Dhcp DhcpFacts.

(** The lease store holds exactly one lease per entry of the pool cache, for the
    MAC and the address of that entry. *)
Record synced (s : AgentState) : Prop := {
  synced_lease : ∀ ip mac, poolCache s !! ip = Some mac →
    ∃ l, Dhcp.leases (dhcpAllocator s) !! mac = Some l ∧ Dhcp.ClientIP l = ParseIP ip;
  synced_entry : ∀ mac l, Dhcp.leases (dhcpAllocator s) !! mac = Some l →
    ∃ ip, poolCache s !! ip = Some mac;
  synced_inj : ∀ ip1 ip2 mac, poolCache s !! ip1 = Some mac → poolCache s !! ip2 = Some mac → ip1 = ip2;
}.

Lemma synced_initial : synced NewAgentState.
Proof. split; cbn; intros *; rewrite lookup_empty; done. Qed.

(** Removing an entry with its lease. *)
Lemma synced_remove s ip mac :
  synced s → poolCache s !! ip = Some mac →
  synced (mkAgentState
    (Dhcp.set_leases (dhcpAllocator s) (delete mac (Dhcp.leases (dhcpAllocator s))))
    (delete ip (poolCache s))).
Proof.
  intros [Hl He Hi] Hip. split; cbn.
  - intros ip' mac' [Hne Hip']%lookup_delete_Some. destruct (Hl _ _ Hip') as (l & Hm & Hc).
    exists l. split; [|done]. rewrite lookup_delete_ne; [done|]. intros <-. apply Hne. by eapply Hi.
  - intros mac' l [Hne Hm]%lookup_delete_Some. destruct (He _ _ Hm) as [ip' Hip'].
    exists ip'. rewrite lookup_delete_ne; [done|]. intros <-. congruence.
  - intros ip1 ip2 m [_ ?]%lookup_delete_Some [_ ?]%lookup_delete_Some. by eapply Hi.
Qed.

(** Adding an entry with a fresh lease. *)
Lemma synced_add s ip mac l :
  synced s → Dhcp.leases (dhcpAllocator s) !! mac = None → poolCache s !! ip = None →
  Dhcp.ClientIP l = ParseIP ip →
  synced (mkAgentState
    (Dhcp.set_leases (dhcpAllocator s) (<[mac := l]> (Dhcp.leases (dhcpAllocator s))))
    (<[ip := mac]> (poolCache s))).
Proof.
  intros [Hl He Hi] Hm Hip Hc.
  assert (Hfresh : ∀ ip', poolCache s !! ip' ≠ Some mac).
  { intros ip' Hip'. destruct (Hl _ _ Hip') as (? & ? & _). congruence. }
  split; cbn.
  - intros ip' mac' [[<- <-]|[Hne Hip']]%lookup_insert_Some.
    + exists l. by rewrite lookup_insert_eq.
    + destruct (Hl _ _ Hip') as (l' & Hm' & Hc'). exists l'. rewrite lookup_insert_ne by congruence. done.
  - intros mac' l' [[<- <-]|[Hne Hm']]%lookup_insert_Some.
    + exists ip. by rewrite lookup_insert_eq.
    + destruct (He _ _ Hm') as [ip' Hip']. exists ip'. by rewrite lookup_insert_ne by congruence.
  - intros ip1 ip2 m [[<- <-]|[H1 H1']]%lookup_insert_Some [[<- ?]|[H2 H2']]%lookup_insert_Some;
      [done| | |by eapply Hi]; exfalso; subst; by eapply Hfresh.
Qed.

Section converge.
Context `{MapRange}.

(** ** The first loop *)

(** The pool cache once the entries [pre] were visited: those without a
    counterpart in [latest] are gone. *)
Definition pruned (pc latest : gmap string string) (pre : list (string * string)) (ip : string)
    : option string :=
  if decide (ip ∈ pre.*1 ∧ latest !! ip = None) then None else pc !! ip.

Lemma first_loop seed latest s :
  synced s →
  (∀ ip mac mac', poolCache s !! ip = Some mac → latest !! ip = Some mac' → mac = mac') →
  wp (for_range (range seed (poolCache s)) (sync_entry latest) tt)
     (λ r s', match r with
      | inl _ => synced s' ∧ ∀ ip, poolCache s' !! ip =
                   match latest !! ip with Some _ => poolCache s !! ip | None => None end
      | inr _ => False
      end) (λ _, False) s.
Proof using Type.
  intros Hs Hsame. set (pc := poolCache s). eapply wp_mono; [| |apply (wp_for_range _
    (λ pre _ s', synced s' ∧ ∀ ip, poolCache s' !! ip = pruned pc latest pre ip) (λ _ _, False) (λ _, False))];
    [| | |split; [done|]]; [|done| |].
  - intros [[]|ret] s' Hr; [|done]. destruct Hr as [Hs' Hpc]. split; [done|]. intros ip.
    rewrite Hpc. unfold pruned. destruct (latest !! ip) as [mac'|] eqn:Hlat.
    { rewrite decide_False; [done|]. by intros [_ ?]. }
    case_decide as Hd; [done|]. destruct (pc !! ip) as [mac|] eqn:Hip; [|done].
    exfalso. apply Hd. split; [|done]. apply list_elem_of_fmap. exists (ip, mac).
    split; [done|]. by apply elem_of_range.
  - intros pre [ip mac] post [] s' Hpre [Hs' Hpc]. cbn [sync_entry].
    pose proof (NoDup_fst_range seed pc) as Hnd. rewrite Hpre, fmap_app in Hnd.
    apply NoDup_app in Hnd as (_ & Hnot & _).
    assert (Hfresh : ip ∉ pre.*1).
    { intros Hin. apply (Hnot _ Hin). cbn. left. }
    assert (Hcur : pc !! ip = Some mac).
    { apply (elem_of_range seed). rewrite Hpre. apply elem_of_app. right. left. }
    assert (Hcur' : poolCache s' !! ip = Some mac).
    { rewrite Hpc. unfold pruned. rewrite decide_False; [done|]. by intros [? _]. }
    destruct (latest !! ip) as [mac'|] eqn:Hlat.
    + rewrite (Hsame _ _ _ Hcur Hlat), String.eqb_refl. apply wp_ret. split; [done|]. intros ip'.
      rewrite Hpc. unfold pruned. rewrite fmap_app. cbn [fmap list_fmap fst].
      destruct (decide (ip' = ip)) as [->|Hne].
      * rewrite !decide_False; [done| |]; rewrite Hlat; by intros [_ ?].
      * assert (Hiff : ip' ∈ pre.*1 ++ [ip] ↔ ip' ∈ pre.*1).
        { rewrite elem_of_app, list_elem_of_singleton. tauto. }
        repeat case_decide; rewrite Hiff in *; tauto.
    + apply wp_bind, wp_gets. rewrite Hcur'. cbn [default from_option id].
      destruct (synced_lease _ Hs' _ _ Hcur') as (l & Hl & _).
      apply wp_bind, wp_state. unfold Dhcp.DeleteLease.
      assert (Hck : Dhcp.checkLease mac (dhcpAllocator s') = true)
        by (apply DhcpFacts.checkLease_spec; by eexists).
      rewrite Hck. cbn [negb fst snd]. apply wp_bind, wp_modify, wp_ret.
      split; [exact (synced_remove _ _ _ Hs' Hcur')|]. intros ip'. cbn. unfold pruned.
      rewrite fmap_app. cbn [fmap list_fmap fst].
      destruct (decide (ip' = ip)) as [->|Hne].
      * rewrite lookup_delete_eq, decide_True; [done|]. split; [|done]. apply elem_of_app. right. left.
      * rewrite lookup_delete_ne, Hpc by done. unfold pruned.
        assert (Hiff : ip' ∈ pre.*1 ++ [ip] ↔ ip' ∈ pre.*1).
        { rewrite elem_of_app, list_elem_of_singleton. tauto. }
        repeat case_decide; rewrite Hiff in *; tauto.
  - intros ip. unfold pruned. rewrite decide_False; [done|]. intros [Hin _].
    by apply elem_of_nil in Hin.
Qed.

(** ** The second loop *)

(** Name resolution of NTP servers. *)
Context (LookupIP : string → result (list (list Z))).

Lemma second_loop seed (latest pc : gmap string string) cfg s :
  synced s → poolCache s = pc →
  (∀ ip mac, pc !! ip = Some mac → latest !! ip = Some mac) →
  (∀ ip mac, latest !! ip = Some mac → is_Some (Dhcp.ParseMAC mac)) →
  (∀ ip1 ip2 mac, latest !! ip1 = Some mac → latest !! ip2 = Some mac → ip1 = ip2) →
  (ParseCIDR (CIDR cfg)).2 = None →
  wp (for_range (range seed latest) (add_entry LookupIP cfg) tt)
     (λ r s', match r with
      | inl _ => synced s' ∧ poolCache s' = latest
      | inr _ => False
      end) (λ _, False) s.
Proof using Type.
  intros Hs Hpc0 Hsub Hmac Hinj Hcidr. eapply wp_mono; [| |apply (wp_for_range _
    (λ pre _ s', synced s' ∧ ∀ ip, poolCache s' !! ip =
       if decide (ip ∈ pre.*1) then latest !! ip else pc !! ip) (λ _ _, False) (λ _, False))];
    [| | |split; [done|]]; [|done| |].
  - intros [[]|ret] s' Hr; [|done]. destruct Hr as [Hs' Hpc]. split; [done|]. apply map_eq. intros ip.
    rewrite Hpc. case_decide as Hd; [done|]. destruct (latest !! ip) as [mac|] eqn:Hlat.
    + exfalso. apply Hd, list_elem_of_fmap. exists (ip, mac). split; [done|]. by apply elem_of_range.
    + destruct (pc !! ip) as [mac|] eqn:Hip; [|done]. apply Hsub in Hip. congruence.
  - intros pre [ip mac] post [] s' Hpre [Hs' Hpc]. cbn [add_entry].
    assert (Hlat : latest !! ip = Some mac).
    { apply (elem_of_range seed). rewrite Hpre. apply elem_of_app. right. left. }
    assert (Hstep : ∀ ip', ip' ≠ ip →
      (if decide (ip' ∈ (pre ++ [(ip, mac)]).*1) then latest !! ip' else pc !! ip') =
      (if decide (ip' ∈ pre.*1) then latest !! ip' else pc !! ip')).
    { intros ip' Hne. rewrite fmap_app. cbn [fmap list_fmap fst].
      assert (Hiff : ip' ∈ pre.*1 ++ [ip] ↔ ip' ∈ pre.*1).
      { rewrite elem_of_app, list_elem_of_singleton. tauto. }
      repeat case_decide; rewrite Hiff in *; tauto. }
    assert (Hself : (if decide (ip ∈ (pre ++ [(ip, mac)]).*1) then latest !! ip else pc !! ip) = Some mac).
    { rewrite decide_True; [done|]. rewrite fmap_app. apply elem_of_app. right. left. }
    apply wp_bind, wp_gets. destruct (poolCache s' !! ip) as [m|] eqn:Hip.
    + rewrite bool_decide_true by by eexists. apply wp_ret. split; [done|]. intros ip'.
      destruct (decide (ip' = ip)) as [->|Hne]; [|by rewrite Hstep, Hpc].
      rewrite Hself, Hip. rewrite Hpc in Hip. case_decide; [congruence|]. apply Hsub in Hip. congruence.
    + rewrite bool_decide_false by by intros [? ?].
      assert (Hm : Dhcp.leases (dhcpAllocator s') !! mac = None).
      { destruct (_ !! mac) as [l|] eqn:Hl; [|done]. exfalso.
        destruct (synced_entry _ Hs' _ _ Hl) as [ip' Hip'].
        assert (Hlat' : latest !! ip' = Some mac).
        { rewrite Hpc in Hip'. case_decide; [done|]. by apply Hsub. }
        rewrite (Hinj _ _ _ Hlat' Hlat) in Hip'. congruence. }
      apply wp_bind, wp_state.
      destruct (Dhcp.AddLease _ _ _ _ _ _ _ _ _ _ _ _) as [d err] eqn:Hadd. cbn [fst snd].
      destruct (DhcpFacts.AddLease_cases _ _ _ _ _ _ _ _ _ _ _ _ _ _ Hadd)
        as [(-> & _ & _ & x & n & _ & Hd)|(_ & _ & [Hbad|[[l Hbad]|[e Hbad]]])].
      * apply wp_bind, wp_modify, wp_ret. subst d. split.
        -- by apply (synced_add s' ip mac _ Hs' Hm Hip).
        -- intros ip'. cbn. destruct (decide (ip' = ip)) as [->|Hne].
           ++ by rewrite lookup_insert_eq, Hself.
           ++ by rewrite lookup_insert_ne, Hstep, Hpc.
      * destruct (Hmac _ _ Hlat). congruence.
      * congruence.
      * congruence.
  - intros ip. rewrite decide_False; [by rewrite Hpc0|]. intros Hin. by apply elem_of_nil in Hin.
Qed.

(** ** Both loops *)

Context `{ConditionLib}.

Lemma wp_update_entries seed1 seed2 (latest : gmap string string) (cfg : IPv4Config) s :
  synced s →
  (∀ ip mac mac', poolCache s !! ip = Some mac → latest !! ip = Some mac' → mac = mac') →
  (∀ ip mac, latest !! ip = Some mac → is_Some (Dhcp.ParseMAC mac)) →
  (∀ ip1 ip2 mac, latest !! ip1 = Some mac → latest !! ip2 = Some mac → ip1 = ip2) →
  (ParseCIDR (CIDR cfg)).2 = None →
  wp (updatePoolCacheAndLeaseStore LookupIP seed1 seed2 latest cfg)
    (λ err s', err = None ∧ poolCache s' = latest ∧ synced s') (λ _, False) s.
Proof using Type.
  intros Hs Hsame Hmac Hinj Hcidr. unfold updatePoolCacheAndLeaseStore. apply wp_bind, wp_gets, wp_bind.
  eapply wp_mono; [| |by apply first_loop]; [|done].
  intros [[]|ret] s1 Hr; [|done]. destruct Hr as [Hs1 Hpc1].
  apply wp_bind. eapply wp_mono; [| |eapply (second_loop seed2 latest (poolCache s1)); try done]; [|done|].
  - intros [[]|ret] s2 Hr; [|done]. apply wp_ret. tauto.
  - intros ip mac. rewrite Hpc1. destruct (latest !! ip) as [mac'|] eqn:Hlat; [|done].
    intros Hip. by rewrite (Hsame _ _ _ Hip Hlat).
Qed.

(** [Update] of a ready pool, on the entries of its status that are leases. *)
Lemma wp_Update seed1 seed2 (ipPool : IPPool) (st : IPv4Status) s :
  let latest := filterExcludedAndReserved (or_empty (st_Allocated st)) in
  synced s →
  IsTrue CacheReady (pool_Conditions (pool_Status ipPool)) = true →
  IPv4 (pool_Status ipPool) = Some st →
  (∀ ip mac mac', poolCache s !! ip = Some mac → latest !! ip = Some mac' → mac = mac') →
  (∀ ip mac, latest !! ip = Some mac → is_Some (Dhcp.ParseMAC mac)) →
  (∀ ip1 ip2 mac, latest !! ip1 = Some mac → latest !! ip2 = Some mac → ip1 = ip2) →
  (ParseCIDR (CIDR (ipv4Config (pool_Spec ipPool)))).2 = None →
  wp (Update LookupIP seed1 seed2 ipPool) (λ r s', r.2 = None ∧ poolCache s' = latest ∧ synced s')
    (λ _, False) s.
Proof using Type.
  intros latest Hs Hready Hst Hsame Hmac Hinj Hcidr. unfold Update. rewrite Hready, Hst. cbn [negb].
  apply wp_bind. eapply wp_mono; [| |by apply wp_update_entries]; [|done]. by intros err s' ?; apply wp_ret.
Qed.

(** C29: an update whose addresses keep their MACs, with distinct
    valid MACs and a valid CIDR, succeeds in every iteration order and leaves the
    pool cache equal to the status without the marked entries, with exactly one
    lease per entry, for its MAC and its address. *)
Theorem agent_converges (seed1 seed2 : nat) (ipPool : IPPool) (st : IPv4Status) (s : AgentState) :
  let latest := filterExcludedAndReserved (or_empty (st_Allocated st)) in
  synced s →
  IsTrue CacheReady (pool_Conditions (pool_Status ipPool)) = true →
  IPv4 (pool_Status ipPool) = Some st →
  (∀ ip mac mac', poolCache s !! ip = Some mac → latest !! ip = Some mac' → mac = mac') →
  (∀ ip mac, latest !! ip = Some mac → is_Some (Dhcp.ParseMAC mac)) →
  (∀ ip1 ip2 mac, latest !! ip1 = Some mac → latest !! ip2 = Some mac → ip1 = ip2) →
  (ParseCIDR (CIDR (ipv4Config (pool_Spec ipPool)))).2 = None →
  ∃ s' ipPool', Update LookupIP seed1 seed2 ipPool s = (s', Val (ipPool', None)) ∧
    poolCache s' = latest ∧ synced s'.
Proof using Type.
  intros latest Hs Hready Hst Hsame Hmac Hinj Hcidr.
  destruct (wp_run _ _ _ (wp_Update seed1 seed2 ipPool st s Hs Hready Hst Hsame Hmac Hinj Hcidr))
    as (s' & [ipPool' err] & Hrun & Herr & Hpc & Hs'). cbn [snd] in Herr. subst err. by exists s', ipPool'.
Qed.
(** C38: when the MAC of an address changes in the status,
    the update succeeds but only the pool cache follows: the lease store still
    serves the old MAC and has no lease for the new one, and once the address is
    released every further update fails at the first step, changing nothing. *)
Theorem mac_change_keeps_old_lease (seed1 seed2 seed3 seed4 : nat) (cfg : IPv4Config) (s : AgentState)
    (ip mac mac' : string) :
  synced s → poolCache s = {[ ip := mac ]} → mac ≠ mac' →
  let s1 := mkAgentState (dhcpAllocator s) {[ ip := mac' ]} in
  updatePoolCacheAndLeaseStore LookupIP seed1 seed2 {[ ip := mac' ]} cfg s = (s1, Val None) ∧
  is_Some (Dhcp.leases (dhcpAllocator s1) !! mac) ∧ Dhcp.leases (dhcpAllocator s1) !! mac' = None ∧
  ∃ err, updatePoolCacheAndLeaseStore LookupIP seed3 seed4 ∅ cfg s1 = (s1, Val (Some err)).
Proof using Type.
  intros Hs Hpc Hne s1.
  assert (Hold : is_Some (Dhcp.leases (dhcpAllocator s) !! mac)).
  { destruct (synced_lease _ Hs ip mac) as (l & ? & _); [by rewrite Hpc, lookup_singleton_eq|by eexists]. }
  assert (Hnew : Dhcp.leases (dhcpAllocator s) !! mac' = None).
  { destruct (_ !! mac') as [l|] eqn:Hl; [|done]. destruct (synced_entry _ Hs _ _ Hl) as [ip' Hip'].
    rewrite Hpc in Hip'. apply lookup_singleton_Some in Hip' as [_ ?]. congruence. }
  split_and!; [|done..|].
  - assert (Hwp : wp (updatePoolCacheAndLeaseStore LookupIP seed1 seed2 {[ ip := mac' ]} cfg)
                    (λ r s', r = None ∧ s' = s1) (λ _, False) s).
    { unfold updatePoolCacheAndLeaseStore. apply wp_bind, wp_gets. rewrite Hpc, !range_singleton.
      apply wp_bind, wp_bind. cbn [sync_entry]. rewrite lookup_singleton_eq.
      destruct (String.eqb_spec mac mac') as [|_]; [done|]. apply wp_bind, wp_modify, wp_ret, wp_ret.
      apply wp_bind, wp_bind. cbn [add_entry]. apply wp_bind, wp_gets.
      cbn [set_poolCache poolCache]. rewrite Hpc, insert_singleton_eq, lookup_singleton_eq.
      rewrite bool_decide_true by by eexists. apply wp_ret, wp_ret, wp_ret. split; [done|].
      done. }
    apply wp_run in Hwp as (? & ? & ? & -> & ->). done.
  - assert (Hck : Dhcp.checkLease mac' (dhcpAllocator s) = false).
    { apply not_true_is_false. rewrite DhcpFacts.checkLease_spec, Hnew. by intros [? ?]. }
    assert (Hwp : wp (updatePoolCacheAndLeaseStore LookupIP seed3 seed4 ∅ cfg)
                    (λ r s', is_Some r ∧ s' = s1) (λ _, False) s1).
    { unfold updatePoolCacheAndLeaseStore. apply wp_bind, wp_gets. cbn [poolCache s1].
      rewrite range_singleton. apply wp_bind, wp_bind. cbn [sync_entry]. rewrite lookup_empty.
      apply wp_bind, wp_gets. unfold s1; cbn [poolCache]. rewrite lookup_singleton_eq.
      cbn [default from_option id]. apply wp_bind, wp_state. unfold Dhcp.DeleteLease. cbn [dhcpAllocator].
      rewrite Hck. apply wp_ret, wp_ret, wp_ret. by split; [eexists|]. }
    apply wp_run in Hwp as (? & ? & ? & [err ->] & ->). by exists err.
Qed.

(** Whatever [Update] answers, a processed event whose
    object the store could deliver is forgotten by the queue: a failed update of
    the lease store is never retried by the agent's controller. *)
Theorem update_errors_not_retried (seed1 seed2 : nat) (poolRefName : string) (numRequeues : nat)
    (obj : option IPPool) (event : Event) (s s' : AgentState) (more : bool) (calls : list QueueCall) :
  processNextItem LookupIP seed1 seed2 poolRefName numRequeues (inl obj) (Some event) s
    = (s', Val (more, calls)) →
  more = true ∧ calls = [Forget event; Done event].
Proof using Type.
  unfold processNextItem, mbind, GoM_bind, sync.
  destruct (bool_decide (obj = None) && _).
  { unfold mret, GoM_ret. cbn. by intros [= <- <- <-]. }
  destruct (negb _).
  { unfold mret, GoM_ret. cbn. by intros [= <- <- <-]. }
  destruct (action event); [by intros [= <- <- <-]| |by intros [= <- <- <-]].
  destruct obj as [ipPool|]; [|done]. unfold mbind, GoM_bind.
  destruct (Update LookupIP seed1 seed2 ipPool s) as [s1 [[p e]|w|]]; [|done..].
  unfold mret, GoM_ret. cbn. by intros [= <- <- <-].
Qed.

(** An event is put back on the queue only after an error and
    fewer than five requeues; otherwise the queue forgets it. *)
Theorem handleErr_bounded (numRequeues : nat) (err : option error) (e : Event) :
  (AddRateLimited e ∈ handleErr numRequeues err e ↔ is_Some err ∧ (numRequeues < 5)%nat) ∧
  (Forget e ∈ handleErr numRequeues err e ↔ err = None ∨ (5 ≤ numRequeues)%nat).
Proof using Type.
  unfold handleErr. destruct err as [x|].
  - destruct (Nat.ltb_spec numRequeues 5); rewrite !list_elem_of_singleton;
      split; split; intros; try (split; [by eexists|lia]); try done; try lia;
      try (right; lia); destruct_and?; destruct_or?; done || lia.
  - rewrite !list_elem_of_singleton. split; split; try done; [by intros [[? ?] _]|by left].
Qed.
End converge.

(** ** Concrete runs *)

Definition demo_cfg : IPv4Config :=
  mkIPv4Config "192.168.0.0/24" "192.168.0.3" (mkPoolRange "192.168.0.10" "192.168.0.20" []) "192.168.0.1"
    [] None [] [] None.

Definition demo_allocated : gmap string string :=
  {[ "192.168.0.10" := "02:00:00:00:00:01"; "192.168.0.11" := "02:00:00:00:00:02";
     "192.168.0.12" := ReservedMark ]}.

Definition demo_pool_object (allocated : gmap string string) : IPPool :=
  mkIPPool (named_meta "default" "pool-1") (mkIPPoolSpec demo_cfg "default/net-1" None)
    (mkIPPoolStatus 0 (Some (mkIPv4Status (Some allocated) 2 8)) None
       (@SetTrue plain_conditions CacheReady [])).

Definition demo_resolver (n : string) : result (list (list Z)) := inr (OtherError n).

Lemma demo_allocated_entries ip mac :
  filterExcludedAndReserved demo_allocated !! ip = Some mac →
  (ip = "192.168.0.10" ∧ mac = "02:00:00:00:00:01") ∨ (ip = "192.168.0.11" ∧ mac = "02:00:00:00:00:02").
Proof.
  intros Hl%elem_of_map_to_list.
  assert (Hall : Forall (λ e : string * string,
    e = ("192.168.0.10", "02:00:00:00:00:01") ∨ e = ("192.168.0.11", "02:00:00:00:00:02"))
    (map_to_list (filterExcludedAndReserved demo_allocated))).
  { apply (bool_decide_eq_true_1 _). vm_compute. reflexivity. }
  rewrite Forall_forall in Hall. destruct (Hall _ Hl) as [[= -> ->]|[= -> ->]]; auto.
Qed.

Lemma agent_converges_witness :
  ∃ s' ipPool',
    @Update canonical_range plain_conditions demo_resolver 0 1 (demo_pool_object demo_allocated) NewAgentState
      = (s', Val (ipPool', None)) ∧
    poolCache s' = filterExcludedAndReserved demo_allocated ∧ synced s'.
Proof.
  apply (@agent_converges canonical_range demo_resolver plain_conditions 0 1
    (demo_pool_object demo_allocated) (mkIPv4Status (Some demo_allocated) 2 8) NewAgentState).
  - apply synced_initial.
  - reflexivity.
  - reflexivity.
  - intros ip mac mac' Hip. exfalso. revert Hip. unfold NewAgentState. cbn [poolCache].
    by rewrite lookup_empty.
  - intros ip mac [[_ ->]|[_ ->]]%demo_allocated_entries; by eexists.
  - intros ip1 ip2 mac [[-> ->]|[-> ->]]%demo_allocated_entries [[-> ?]|[-> ?]]%demo_allocated_entries; done.
  - reflexivity.
Defined.

(** The agent after it leased .10 to the first MAC. *)
Definition demo_lease : Dhcp.DHCPLease :=
  Dhcp.mkDHCPLease (ParseIP "192.168.0.3") (ParseIP "192.168.0.10") [255; 255; 255; 0]%Z
    (ParseIP "192.168.0.1") [] "" [] [] 0%Z.

Definition demo_agent : AgentState :=
  mkAgentState (Dhcp.mkDHCPAllocator {[ "02:00:00:00:00:01" := demo_lease ]} ∅)
    {[ "192.168.0.10" := "02:00:00:00:00:01" ]}.

Lemma demo_agent_synced : synced demo_agent.
Proof.
  split; unfold demo_agent; cbn [poolCache dhcpAllocator Dhcp.leases].
  - intros ip mac [<- <-]%lookup_singleton_Some. exists demo_lease. by rewrite lookup_singleton_eq.
  - intros mac l [<- _]%lookup_singleton_Some. exists "192.168.0.10". by rewrite lookup_singleton_eq.
  - intros ip1 ip2 mac [<- _]%lookup_singleton_Some [<- _]%lookup_singleton_Some. done.
Qed.

Lemma mac_change_keeps_old_lease_witness :
  let s1 := mkAgentState (dhcpAllocator demo_agent) {[ "192.168.0.10" := "02:00:00:00:00:02" ]} in
  @updatePoolCacheAndLeaseStore canonical_range demo_resolver 0 1
    {[ "192.168.0.10" := "02:00:00:00:00:02" ]} demo_cfg demo_agent = (s1, Val None) ∧
  is_Some (Dhcp.leases (dhcpAllocator s1) !! "02:00:00:00:00:01") ∧
  Dhcp.leases (dhcpAllocator s1) !! "02:00:00:00:00:02" = None ∧
  ∃ err, @updatePoolCacheAndLeaseStore canonical_range demo_resolver 2 3 ∅ demo_cfg s1
           = (s1, Val (Some err)).
Proof.
  apply (@mac_change_keeps_old_lease canonical_range demo_resolver 0 1 2 3 demo_cfg demo_agent);
    [apply demo_agent_synced|reflexivity|done].
Defined.

Lemma update_errors_not_retried_witness :
  (@processNextItem canonical_range plain_conditions demo_resolver 0 1 "pool-1" 0
     (inl (Some (demo_pool_object {[ "192.168.0.10" := "not a mac" ]})))
     (Some (mkEvent "default/pool-1" UPDATE "pool-1" "default/net-1")) NewAgentState).2
  = Val (true, [Forget (mkEvent "default/pool-1" UPDATE "pool-1" "default/net-1");
                Done (mkEvent "default/pool-1" UPDATE "pool-1" "default/net-1")]).
Proof.
  destruct (@processNextItem canonical_range plain_conditions demo_resolver 0 1 "pool-1" 0
     (inl (Some (demo_pool_object {[ "192.168.0.10" := "not a mac" ]})))
     (Some (mkEvent "default/pool-1" UPDATE "pool-1" "default/net-1")) NewAgentState)
    as [s' [[more calls]|w|]] eqn:Hrun; [|by vm_compute in Hrun..].
  destruct (@update_errors_not_retried canonical_range demo_resolver plain_conditions _ _ _ _ _ _ _ _ _ _ Hrun)
    as [-> ->]. reflexivity.
Defined.
