(* ===== verification/Kube.v ===== *)
(** * The Kubernetes API as the controllers see it

    The pod objects the controllers build and read, the clients and informer
    caches (wrangler and client-go, parameters), and the state a controller runs
    in: the allocators shared by all controllers and the API. *)

From S2P Require Import Prelude GoNet GoText Api Util Ipam IpamSpec MacCache Metrics Leases Webhook.
Local Open Scope go_scope.

(** ** Pods (the fields [prepareAgentPod] sets and [MonitorAgent] reads) *)

Record SecurityContext : Type := mkSecurityContext {
  RunAsUser : Z;
  RunAsGroup : Z;
  AddCapabilities : list string;
}.

Record Container : Type := mkContainer {
  ctr_Name : string;
  ctr_Image : string;
  ImagePullPolicy : string;
  Command : list string;
  Args : list string;
  Env : list (string * string);
  ctr_SecurityContext : option SecurityContext;
  LivenessProbe : option (string * Z);      (* HTTP path and port *)
  ReadinessProbe : option (string * Z);
}.

Record NodeSelectorRequirement : Type := mkRequirement {
  req_Key : string;
  req_Operator : string;
  req_Values : list string;
}.

Record Pod : Type := mkPod {
  podMeta : ObjectMeta;
  NodeAffinity : list (list NodeSelectorRequirement);
  ServiceAccountName : string;
  InitContainers : list Container;
  Containers : list Container;
  podConditions : list (string * string);   (* type and status *)
}.

(** ** Clients and caches *)

Class Kube := {
  World : Type;
  (** Informer caches: reads of the local copy. *)
  nadCache_Get : World → string → string → result NAD;
  ippoolCache_Get : World → string → string → result IPPool;
  vmnetcfgCache_Get : World → string → string → result VmNetCfg;
  podCache_Get : World → string → string → result Pod;
  (** [podCache.List(namespace, selector)] *)
  podCache_List : World → string → gmap string string → result (list Pod);
  (** Clients: requests to the API server. *)
  nadClient_Update : NAD → World → World * result NAD;
  ippoolClient_UpdateStatus : IPPool → World → World * result IPPool;
  vmnetcfgClient_Create : VmNetCfg → World → World * result VmNetCfg;
  vmnetcfgClient_Update : VmNetCfg → World → World * result VmNetCfg;
  vmnetcfgClient_UpdateStatus : VmNetCfg → World → World * result VmNetCfg;
  podClient_Create : Pod → World → World * result Pod;
  podClient_Delete : string → string → World → World * option error;
  (** [controller.Enqueue(namespace, name)] of the VM controller's work queue. *)
  vmController_Enqueue : string → string → World → World;
}.

(** [retry.RetryOnConflict(backoff, fn)]: run [fn] until it does not fail with a
    conflict, at most the backoff's number of steps. *)
Fixpoint retry_conflict {S} (more : nat) (fn : GoM S (option error)) : GoM S (option error) :=
  err ← fn;
  match err, more with
  | Some e, S more' => if IsConflict e then retry_conflict more' fn else mret err
  | _, _ => mret err
  end.

Class RetryLib := {
  RetryOnConflict : ∀ {S : Type}, GoM S (option error) → GoM S (option error);
  RetryOnConflict_spec S (fn : GoM S (option error)) s :
    ∃ more, RetryOnConflict fn s = retry_conflict more fn s;
}.

(** ** The state of a controller *)

Section management.
Context `{PromLib} `{Kube}.

(** [config.Management]: the allocators are made once in [SetupManagement] and
    shared by every handler. *)
Record Management : Type := mkManagement {
  CacheAllocator_ : CacheAllocator;
  IPAllocator_ : IPAllocator;
  MetricsAllocator_ : MetricsAllocator;
  world : World;
}.

Definition SetupManagement (w : World) : Management :=
  mkManagement NewCacheAllocator NewIPAllocator NewMetricsAllocator w.

Definition set_cache (m : Management) (c : CacheAllocator) : Management :=
  mkManagement c (IPAllocator_ m) (MetricsAllocator_ m) (world m).
Definition set_ipam (m : Management) (a : IPAllocator) : Management :=
  mkManagement (CacheAllocator_ m) a (MetricsAllocator_ m) (world m).
Definition set_metrics (m : Management) (a : MetricsAllocator) : Management :=
  mkManagement (CacheAllocator_ m) (IPAllocator_ m) a (world m).
Definition set_world (m : Management) (w : World) : Management :=
  mkManagement (CacheAllocator_ m) (IPAllocator_ m) (MetricsAllocator_ m) w.

(** Calls on the parts of the state. *)
Definition on_cache {A} (f : CacheAllocator → CacheAllocator * A) : GoM Management A :=
  go_state (λ m, let '(c, r) := f (CacheAllocator_ m) in (set_cache m c, r)).
Definition on_ipam {A} (f : IPAllocator → IPAllocator * A) : GoM Management A :=
  go_state (λ m, let '(a, r) := f (IPAllocator_ m) in (set_ipam m a, r)).
Definition on_metrics (f : MetricsAllocator → MetricsAllocator) : GoM Management unit :=
  go_modify (λ m, set_metrics m (f (MetricsAllocator_ m))).
Definition request {A} (f : World → World * A) : GoM Management A :=
  go_state (λ m, let '(w, r) := f (world m) in (set_world m w, r)).

(** [NewIPSubnet] may run without end in the model; the call then does too. *)
Definition call_NewIPSubnet (name cidr start end_ : string) : GoM Management (option error) :=
  λ m, let '(a, r) := NewIPSubnet name cidr start end_ (IPAllocator_ m) in (set_ipam m a, r).

(** Read-only calls. *)
Definition ask_cache {A} (f : CacheAllocator → A) : GoM Management A := go_gets (λ m, f (CacheAllocator_ m)).
Definition ask_ipam {A} (f : IPAllocator → A) : GoM Management A := go_gets (λ m, f (IPAllocator_ m)).
Definition ask_world {A} (f : World → A) : GoM Management A := go_gets (λ m, f (world m)).

(** [return client.UpdateStatus(obj)] *)
Definition return_update {A} (m : GoM Management (result A))
    : GoM Management (option A * option error) :=
  try! obj := m catch err => mret (None, Some err) in mret (Some obj, None).

(** ** Reasoning rules *)

Lemma wp_on_cache {A} (f : CacheAllocator → CacheAllocator * A) Q E m :
  Q (f (CacheAllocator_ m)).2 (set_cache m (f (CacheAllocator_ m)).1) → wp (on_cache f) Q E m.
Proof. unfold on_cache, wp, go_state. by destruct (f (CacheAllocator_ m)). Qed.

Lemma wp_on_ipam {A} (f : IPAllocator → IPAllocator * A) Q E m :
  Q (f (IPAllocator_ m)).2 (set_ipam m (f (IPAllocator_ m)).1) → wp (on_ipam f) Q E m.
Proof. unfold on_ipam, wp, go_state. by destruct (f (IPAllocator_ m)). Qed.

Lemma wp_request {A} (f : World → World * A) Q E m :
  Q (f (world m)).2 (set_world m (f (world m)).1) → wp (request f) Q E m.
Proof. unfold request, wp, go_state. by destruct (f (world m)). Qed.

Lemma wp_on_metrics f Q E m : Q tt (set_metrics m (f (MetricsAllocator_ m))) → wp (on_metrics f) Q E m.
Proof. done. Qed.

(** A retried call establishes what every single attempt establishes, provided
    an attempt keeps the invariant it needs. *)
Lemma wp_retry (more : nat) (fn : GoM Management (option error)) (I : Management → Prop) Q E m :
  (∀ m, I m → wp fn (λ r m', I m' ∧ Q r m') E m) → I m → wp (retry_conflict more fn) Q E m.
Proof.
  intros Hfn. revert m. induction more as [|more IH]; intros m HI; cbn [retry_conflict]; apply wp_bind;
    (eapply wp_mono; [| |by apply Hfn]; [|done]); intros r m' [HI' HQ].
  - destruct r; by apply wp_ret.
  - destruct r as [e|]; [|by apply wp_ret]. destruct (IsConflict e); [by apply IH|by apply wp_ret].
Qed.

Lemma ends_retry {S} (more : nat) (fn : GoM S (option error)) : ends fn → ends (retry_conflict more fn).
Proof using Type.
  intros Hfn. induction more as [|more IH]; cbn [retry_conflict]; apply ends_bind; auto; intros [e|];
    try apply ends_ret. by destruct (IsConflict e); [|apply ends_ret].
Qed.

(** A retried call: what every attempt establishes. *)
Lemma wp_RetryOnConflict `{RetryLib} (fn : GoM Management (option error)) (I : Management → Prop) Q E m :
  (∀ m, I m → wp fn (λ r m', I m' ∧ Q r m') E m) → I m → wp (RetryOnConflict fn) Q E m.
Proof using Type.
  intros Hfn HI. destruct (RetryOnConflict_spec _ fn m) as [more Hrun]. unfold wp. rewrite Hrun.
  by apply (wp_retry more fn I).
Qed.

Lemma ends_RetryOnConflict {S} `{RetryLib} (fn : GoM S (option error)) : ends fn → ends (RetryOnConflict fn).
Proof using Type.
  intros Hfn s. destruct (RetryOnConflict_spec _ fn s) as [more ->]. by apply ends_retry.
Qed.

(** The calls end. *)
Lemma ends_on_cache {A} (f : CacheAllocator → CacheAllocator * A) : ends (on_cache f).
Proof using Type. apply ends_state. Qed.
Lemma ends_on_ipam {A} (f : IPAllocator → IPAllocator * A) : ends (on_ipam f).
Proof using Type. apply ends_state. Qed.
Lemma ends_on_metrics f : ends (on_metrics f).
Proof using Type. apply ends_modify. Qed.
Lemma ends_request {A} (f : World → World * A) : ends (request f).
Proof using Type. apply ends_state. Qed.
Lemma ends_ask_cache {A} (f : CacheAllocator → A) : ends (ask_cache f).
Proof using Type. apply ends_gets. Qed.
Lemma ends_ask_ipam {A} (f : IPAllocator → A) : ends (ask_ipam f).
Proof using Type. apply ends_gets. Qed.
Lemma ends_ask_world {A} (f : World → A) : ends (ask_world f).
Proof using Type. apply ends_gets. Qed.
(** ** The lease table of a controller's state *)

Definition leases_ok (m : Management) : Prop := coherent (CacheAllocator_ m) (IPAllocator_ m).
Definition grew (m m' : Management) : Prop :=
  extends (CacheAllocator_ m) (IPAllocator_ m) (CacheAllocator_ m') (IPAllocator_ m').
Definition holds (m : Management) (name mac ip : string) : Prop :=
  cached_text (CacheAllocator_ m) name mac = Some ip.

Lemma grew_refl m : grew m m.
Proof using Type. apply extends_refl. Qed.

Lemma grew_trans m1 m2 m3 : grew m1 m2 → grew m2 m3 → grew m1 m3.
Proof using Type. apply extends_trans. Qed.

Lemma grew_holds m m' name mac ip : grew m m' → holds m name mac ip → holds m' name mac ip.
Proof using Type. intros Hg. apply (ext_cached _ _ _ _ Hg). Qed.

Lemma leases_ok_allocated m name mac ip :
  leases_ok m → holds m name mac ip → is_allocated (IPAllocator_ m) name ip.
Proof using Type. intros Hok. apply (coh_held _ _ Hok). Qed.

Definition same_leases (m m' : Management) : Prop :=
  CacheAllocator_ m' = CacheAllocator_ m ∧ IPAllocator_ m' = IPAllocator_ m.

Lemma same_leases_trans m1 m2 m3 : same_leases m1 m2 → same_leases m2 m3 → same_leases m1 m3.
Proof using Type. intros [? ?] [? ?]. split; congruence. Qed.

Lemma same_leases_ok m m' : same_leases m m' → leases_ok m → leases_ok m'.
Proof using Type. intros [Hc Ha]. unfold leases_ok. by rewrite Hc, Ha. Qed.

Lemma same_leases_refl m : same_leases m m.
Proof using Type. done. Qed.

(** ** Code that leaves the lease table alone *)

Definition quiet {A} (f : GoM Management A) : Prop := ∀ m, same_leases m (f m).1.

Lemma quiet_ret {A} (a : A) : quiet (mret a).
Proof using Type. by intros m. Qed.
Lemma quiet_bind {A B} (f : GoM Management A) (g : A → GoM Management B) :
  quiet f → (∀ a, quiet (g a)) → quiet (f ≫= g).
Proof using Type.
  intros Hf Hg m. unfold mbind, GoM_bind. specialize (Hf m). destruct (f m) as [m1 [a|w|]]; [|done..].
  eapply same_leases_trans; [done|apply Hg].
Qed.
Lemma quiet_gets {A} (f : Management → A) : quiet (go_gets f).
Proof using Type. by intros m. Qed.
Lemma quiet_panic {A} w : quiet (go_panic w : GoM Management A).
Proof using Type. by intros m. Qed.
Lemma quiet_pure {A} (r : res A) : quiet (go_pure r).
Proof using Type. by intros m. Qed.
Lemma quiet_request {A} (f : World → World * A) : quiet (request f).
Proof using Type. intros m. unfold request, go_state. by destruct (f (world m)). Qed.
Lemma quiet_on_metrics f : quiet (on_metrics f).
Proof using Type. by intros m. Qed.
Lemma quiet_ask_cache {A} (f : CacheAllocator → A) : quiet (ask_cache f).
Proof using Type. apply quiet_gets. Qed.
Lemma quiet_ask_ipam {A} (f : IPAllocator → A) : quiet (ask_ipam f).
Proof using Type. apply quiet_gets. Qed.
Lemma quiet_ask_world {A} (f : World → A) : quiet (ask_world f).
Proof using Type. apply quiet_gets. Qed.

Lemma quiet_ok {A} (f : GoM Management A) m :
  quiet f → leases_ok m → wp f (λ _, leases_ok) leases_ok m.
Proof using Type.
  intros Hf Hok. unfold wp. specialize (Hf m). destruct (f m) as [m1 [a|w|]]; by eapply same_leases_ok.
Qed.
End management.

#[export] Hint Resolve quiet_ret quiet_gets quiet_panic quiet_pure quiet_request quiet_on_metrics
  quiet_ask_cache quiet_ask_ipam quiet_ask_world : go.

(** Through binds and branches, as [solve_ends]. *)
Ltac solve_quiet :=
  repeat first
    [ progress intros
    | solve [eauto with go nocore]
    | apply quiet_bind
    | case_match ].

#[export] Hint Resolve ends_RetryOnConflict ends_on_cache ends_on_ipam ends_on_metrics ends_request
  ends_ask_cache ends_ask_ipam ends_ask_world : go.
#[export] Hint Resolve wp_on_cache wp_on_ipam wp_request wp_on_metrics : go.
