(* ===== verification/FakeKube.v ===== *)
(** * An API server in memory, for the concrete runs

    An instance of [Kube], which is a parameter everywhere else: for witnesses, and for
    theorems that show a flaw in one environment.  Objects by namespace and name; an
    update is refused when the object is gone or was changed since it was read, and the
    informer caches are up to date ([PoolServer] has an instance whose caches lag). *)

From S2P Require Import Prelude GoNet GoText Api Util Ipam IpamSpec MacCache Metrics Leases Webhook Fakes Kube.

Record ApiServer : Type := mkApiServer {
  api_nads : gmap (string * string) NAD;
  api_pools : gmap (string * string) IPPool;
  api_vmnetcfgs : gmap (string * string) VmNetCfg;
  api_pods : gmap (string * string) Pod;
  api_queue : list (string * string);
}.

Definition empty_api : ApiServer := mkApiServer ∅ ∅ ∅ ∅ [].

Definition obj_key (m : ObjectMeta) : string * string := (Namespace m, Name m).

Definition get_in {V} (m : gmap (string * string) V) (ns name : string) : result V :=
  match m !! (ns, name) with
  | Some v => inl v
  | None => inr (StatusError NotFound name)
  end.

Lemma get_in_inl {V} (x : gmap (string * string) V) ns n v : get_in x ns n = inl v ↔ x !! (ns, n) = Some v.
Proof. unfold get_in. destruct (x !! (ns, n)); split; congruence. Qed.

(** [Update] of the part [set] of an object. *)
Definition update_in {V} (meta : V → ObjectMeta) (set_rv : V → Z → V) (merge : V → V → V) (new : V)
    (m : gmap (string * string) V) : gmap (string * string) V * result V :=
  match m !! obj_key (meta new) with
  | None => (m, inr (StatusError NotFound (Name (meta new))))
  | Some old =>
      if decide (ResourceVersion (meta old) = ResourceVersion (meta new)) then
        let v := set_rv (merge old new) (ResourceVersion (meta old) + 1)%Z in
        (<[obj_key (meta new) := v]> m, inl v)
      else (m, inr (StatusError Conflict (Name (meta new))))
  end.

Definition create_in {V} (meta : V → ObjectMeta) (new : V) (m : gmap (string * string) V)
    : gmap (string * string) V * result V :=
  match m !! obj_key (meta new) with
  | Some _ => (m, inr (StatusError AlreadyExists (Name (meta new))))
  | None => (<[obj_key (meta new) := new]> m, inl new)
  end.

Definition with_nads (w : ApiServer) x := mkApiServer x (api_pools w) (api_vmnetcfgs w) (api_pods w) (api_queue w).
Definition with_pools (w : ApiServer) x := mkApiServer (api_nads w) x (api_vmnetcfgs w) (api_pods w) (api_queue w).
Definition with_vmnetcfgs (w : ApiServer) x := mkApiServer (api_nads w) (api_pools w) x (api_pods w) (api_queue w).
Definition with_pods (w : ApiServer) x := mkApiServer (api_nads w) (api_pools w) (api_vmnetcfgs w) x (api_queue w).

Definition nad_rv (n : NAD) (v : Z) : NAD := mkNAD (set_ResourceVersion (nad_Meta n) v).
Definition pool_rv (p : IPPool) (v : Z) : IPPool := set_pool_Meta p (set_ResourceVersion (pool_Meta p) v).
Definition vnc_rv (p : VmNetCfg) (v : Z) : VmNetCfg := set_vnc_Meta p (set_ResourceVersion (vnc_Meta p) v).

(** The pods of a namespace that carry the labels asked for. *)
Definition list_pods (w : ApiServer) (ns : string) (sel : gmap string string) : result (list Pod) :=
  inl (filter (λ p, Namespace (podMeta p) = ns ∧ sel ⊆ or_empty (Labels (podMeta p)))
         (map_to_list (api_pods w)).*2).

Definition mem_kube : Kube := {|
  World := ApiServer;
  nadCache_Get w := get_in (api_nads w);
  ippoolCache_Get w := get_in (api_pools w);
  vmnetcfgCache_Get w := get_in (api_vmnetcfgs w);
  podCache_Get w := get_in (api_pods w);
  podCache_List := list_pods;
  nadClient_Update n w :=
    let '(x, r) := update_in nad_Meta nad_rv (λ _ n, n) n (api_nads w) in (with_nads w x, r);
  ippoolClient_UpdateStatus p w :=
    let '(x, r) := update_in pool_Meta pool_rv (λ o n, set_pool_Status o (pool_Status n)) p (api_pools w) in
    (with_pools w x, r);
  vmnetcfgClient_Create v w :=
    let '(x, r) := create_in vnc_Meta v (api_vmnetcfgs w) in (with_vmnetcfgs w x, r);
  vmnetcfgClient_Update v w :=
    let '(x, r) := update_in vnc_Meta vnc_rv (λ o n, set_vnc_Status n (vnc_Status o)) v (api_vmnetcfgs w) in
    (with_vmnetcfgs w x, r);
  vmnetcfgClient_UpdateStatus v w :=
    let '(x, r) := update_in vnc_Meta vnc_rv (λ o n, set_vnc_Status o (vnc_Status n)) v (api_vmnetcfgs w) in
    (with_vmnetcfgs w x, r);
  podClient_Create p w :=
    let '(x, r) := create_in podMeta p (api_pods w) in (with_pods w x, r);
  podClient_Delete ns name w :=
    match api_pods w !! (ns, name) with
    | None => (w, Some (StatusError NotFound name))
    | Some _ => (with_pods w (delete (ns, name) (api_pods w)), None)
    end;
  vmController_Enqueue ns name w :=
    mkApiServer (api_nads w) (api_pools w) (api_vmnetcfgs w) (api_pods w) (api_queue w ++ [(ns, name)]);
|}.

(** [retry.DefaultBackoff] makes four attempts. *)
Definition four_attempts : RetryLib.
Proof. refine {| RetryOnConflict S := retry_conflict 3 |}. intros S fn s. by exists 3. Defined.

(** ** A small cluster: one network, its pool, and the allocators of a controller *)

Module Demo.
#[export] Existing Instance canonical_range.
#[export] Existing Instance plain_kv.
#[export] Existing Instance plain_conditions.
#[export] Existing Instance mem_prom.
#[export] Existing Instance mem_kube.
#[export] Existing Instance four_attempts.

Definition nad : NAD := mkNAD (set_Labels (named_meta "default" "net-1")
  (Some {[ IPPoolNamespaceLabelKey := "default"; IPPoolNameLabelKey := "pool-1" ]})).

(** The pool with the records [allocated] in its status, its cache ready or not. *)
Definition pool (ready : string) (allocated : option (gmap string string)) : IPPool :=
  mkIPPool (named_meta "default" "pool-1")
    (mkIPPoolSpec (mkIPv4Config "192.168.0.0/24" "192.168.0.2"
       (mkPoolRange "192.168.0.10" "192.168.0.12" []) "192.168.0.1" [] None [] [] None) "default/net-1" None)
    (mkIPPoolStatus 0 (Some (mkIPv4Status allocated 0 3)) None (SetStatus CacheReady ready [])).

Definition api (pools : list IPPool) (vmnetcfgs : list VmNetCfg) : ApiServer :=
  mkApiServer {[ ("default", "net-1") := nad ]}
    (list_to_map ((λ p, (obj_key (pool_Meta p), p)) <$> pools))
    (list_to_map ((λ v, (obj_key (vnc_Meta v), v)) <$> vmnetcfgs)) ∅ [].

(** An object asking for one interface per entry of [ncs]. *)
Definition vmnetcfg (name : string) (paused : option bool) (ncs : list NetworkConfig)
    (statuses : list NetworkConfigStatus) (insynced : string) : VmNetCfg :=
  mkVmNetCfg "VirtualMachineNetworkConfig" (named_meta "default" name)
    (mkVmNetCfgSpec name ncs paused) (mkVmNetCfgStatus statuses (SetStatus InSynced insynced [])).

Definition nic (mac : string) (ip : option string) : NetworkConfig := mkNetworkConfig "default/net-1" mac ip.
Definition lease (mac ip : string) : NetworkConfigStatus :=
  mkNetworkConfigStatus ip mac "default/net-1" AllocatedState.

Definition mac1 : string := "02:00:00:00:00:01".
Definition mac2 : string := "02:00:00:00:00:02".
Definition mac3 : string := "02:00:00:00:00:03".

(** The state after [SetupManagement] and [BuildCache] of an empty pool. *)
Definition management (w : ApiServer) : Management :=
  mkManagement (NewMACSet "default/net-1" NewCacheAllocator).1
    (NewIPSubnet "default/net-1" "192.168.0.0/24" "192.168.0.10" "192.168.0.12" NewIPAllocator).1
    NewMetricsAllocator w.

(** ... with [mac] holding [ip]. *)
Definition with_lease (mac ip : string) (m : Management) : Management :=
  set_cache (set_ipam m (AllocateIP 0 "default/net-1" ip (IPAllocator_ m)).1)
    (AddMAC "default/net-1" mac ip (CacheAllocator_ m)).1.

Lemma demo_ok w : leases_ok (management w).
Proof.
  assert (Hnone : ∀ name mac, cached_text (CacheAllocator_ (management w)) name mac = None).
  { intros name mac. unfold cached_text, cached_ip. cbn.
    destruct (decide (name = "default/net-1")) as [->|Hne]; [by rewrite lookup_insert_eq|].
    by rewrite lookup_insert_ne. }
  constructor.
  - unfold management. cbn [IPAllocator_]. apply NewIPSubnet_wf; [vm_compute; reflexivity|].
    intros name sn Hl. unfold NewIPAllocator in Hl. by apply lookup_empty_Some in Hl.
  - intros name mac ip. by rewrite Hnone.
  - intros name mac mac' ip. by rewrite Hnone.
Qed.

Lemma demo_lease_ok mac ip m :
  leases_ok m → cached_text (CacheAllocator_ m) "default/net-1" mac = None →
  (AllocateIP 0 "default/net-1" ip (IPAllocator_ m)).2 = (ip, None) →
  (AddMAC "default/net-1" mac ip (CacheAllocator_ m)).2 = None →
  leases_ok (with_lease mac ip m) ∧ holds (with_lease mac ip m) "default/net-1" mac ip.
Proof.
  intros Hok Hn Ha Hc.
  destruct (AllocateIP 0 "default/net-1" ip (IPAllocator_ m)) as [a r] eqn:Ha'. cbn [snd] in Ha. subst r.
  destruct (AddMAC "default/net-1" mac ip (CacheAllocator_ m)) as [c r] eqn:Hc'. cbn [snd] in Hc. subst r.
  destruct (coherent_grant _ _ _ _ _ _ _ _ _ Hok Hn Ha' Hc') as (? & _ & ?).
  unfold with_lease, leases_ok, holds. cbn [CacheAllocator_ IPAllocator_ set_cache set_ipam].
  by rewrite Ha', Hc'.
Qed.
End Demo.
