(* ===== verification/Image.v ===== *)
(** * Container image references ([config.Image], [cmd/controller]) *)

From S2P Require Import Prelude GoNet GoText.
From Stdlib Require Import Ascii.

Record Image : Type := mkImage {
  Repository : string;
  Tag : string;
}.

Definition NewImage (repo tag : string) : Image := mkImage repo tag.

Definition Image_String (i : Image) : string := Repository i +:+ ":" +:+ Tag i.

(** [strings.LastIndex(s, "c")]: the position of the last occurrence. *)
Definition LastIndex (s : string) (c : ascii) : option nat :=
  (λ p, String.length p.1) <$> CutLast s c.

(** [strings.Count(s, "c")] *)
Fixpoint Count (s : string) (c : ascii) : nat :=
  match s with
  | EmptyString => 0
  | String x s' => (if ascii_dec x c then 1 else 0) + Count s' c
  end.

(** [idx <= strings.LastIndex(image, "/")], -1 being [None]. *)
Definition index_le (idx : nat) (other : option nat) : bool :=
  match other with
  | Some j => (idx <=? j)%nat
  | None => false
  end.

Definition parseImageNameAndTag (image : string) : result Image :=
  match LastIndex image ":" with
  | None => inl (NewImage image "latest")
  | Some idx =>
      if (idx =? String.length image - 1)%nat then
        inr (Errorf "invalid image name: colon without tag" [])
      else if (2 <? Count image ":")%nat then
        inr (Errorf "invalid image name: multiple colons found" [])
      else if index_le idx (LastIndex image "/") then inl (NewImage image "latest")
      else inl (NewImage (slice image 0 idx) (slice image (idx + 1) (String.length image)))
  end.

(** ** Facts *)

Lemma CutLast_none s c : CutLast s c = None ↔ Count s c = 0.
Proof.
  induction s as [|x s IH]; [done|]. cbn [CutLast Count].
  destruct (CutLast s c) as [[b a]|] eqn:Hc.
  - split; [done|]. intros H. assert (Count s c = 0) as Hs by lia. apply IH in Hs. done.
  - destruct (ascii_dec x c); [split; [done|lia]|]. split; [|done]. intros _. cbn. by apply IH.
Qed.

Lemma CutLast_app a b c :
  Count b c = 0 → CutLast (a +:+ String c b) c = Some (a, b).
Proof.
  intros Hb. induction a as [|x a IH].
  - rewrite string_app_nil_l. cbn [CutLast]. apply CutLast_none in Hb as ->. by destruct (ascii_dec c c).
  - rewrite string_app_cons. cbn [CutLast]. by rewrite IH.
Qed.

Lemma Count_app a b c : Count (a +:+ b) c = Count a c + Count b c.
Proof. induction a as [|x a IH]; [done|]. rewrite string_app_cons. cbn [Count]. rewrite IH. lia. Qed.

Lemma string_length_app a b : String.length (a +:+ b) = String.length a + String.length b.
Proof. induction a as [|x a IH]; [done|]. rewrite string_app_cons. cbn. by rewrite IH. Qed.

Lemma CutLast_length s c a b : CutLast s c = Some (a, b) → String.length s = String.length a + 1 + String.length b.
Proof.
  revert a b. induction s as [|x s IH]; intros a b; [done|]. cbn [CutLast].
  destruct (CutLast s c) as [[b' a']|] eqn:Hc.
  - intros [= <- <-]. cbn. specialize (IH _ _ eq_refl). lia.
  - destruct (ascii_dec x c); [|done]. intros [= <- <-]. done.
Qed.

Lemma substring_app_l a b : String.substring 0 (String.length a) (a +:+ b) = a.
Proof.
  induction a as [|x a IH]; [by destruct b|]. rewrite string_app_cons. cbn. by rewrite IH.
Qed.

Lemma substring_app_r a b n : String.substring (String.length a) n (a +:+ b) = String.substring 0 n b.
Proof. induction a as [|x a IH]; [done|]. rewrite string_app_cons. cbn. apply IH. Qed.

Lemma substring_all b : String.substring 0 (String.length b) b = b.
Proof. induction b as [|x b IH]; [done|]. cbn. by rewrite IH. Qed.

Lemma CutLast_slash_before a b :
  Count b "/" = 0 → index_le (String.length a) (LastIndex (a +:+ String ":" b) "/") = false.
Proof.
  intros Hb. unfold LastIndex. destruct (CutLast _ "/") as [[x y]|] eqn:Hc; [|done]. cbn.
  apply Nat.leb_gt. revert x Hc. induction a as [|z a IH]; intros x.
  - rewrite string_app_nil_l. cbn [CutLast]. apply CutLast_none in Hb as ->. by destruct (ascii_dec ":" "/").
  - rewrite string_app_cons. cbn [CutLast String.length]. destruct (CutLast (a +:+ _) "/") as [[x' y']|].
    + intros [= <- <-]. cbn. specialize (IH _ eq_refl). lia.
    + destruct (ascii_dec z "/"); [|done]. intros [= <- <-]. cbn. lia.
Qed.

(** An image whose repository holds at most one colon (a registry
    port) and whose tag is not empty and holds neither colon nor slash is read
    back from its printed form as it was. *)
Theorem image_roundtrip (i : Image) :
  (Count (Repository i) ":" ≤ 1)%nat → Tag i ≠ EmptyString → Count (Tag i) ":" = 0 → Count (Tag i) "/" = 0 →
  parseImageNameAndTag (Image_String i) = inl i.
Proof.
  destruct i as [repo tag]. cbn [Repository Tag]. intros Hr Hne Hc Hs. unfold parseImageNameAndTag, Image_String.
  cbn [Repository Tag]. change (":" +:+ tag) with (String ":" tag).
  assert (Hlast : LastIndex (repo +:+ String ":" tag) ":" = Some (String.length repo)).
  { unfold LastIndex. by rewrite CutLast_app. }
  rewrite Hlast, string_length_app, Count_app, CutLast_slash_before by done. cbn [String.length Count].
  assert (0 < String.length tag)%nat by (destruct tag; [done|cbn; lia]).
  destruct (Nat.eqb_spec (String.length repo) (String.length repo + S (String.length tag) - 1)); [lia|].
  destruct (ascii_dec ":" ":"); [|done]. rewrite Hc.
  destruct (Nat.ltb_spec 2 (Count repo ":" + (1 + 0))); [lia|]. unfold slice. do 2 f_equal.
  - rewrite Nat.sub_0_r. apply substring_app_l.
  - replace (repo +:+ String ":" tag) with ((repo +:+ ":") +:+ tag) by (by rewrite string_app_assoc).
    replace (String.length repo + 1) with (String.length (repo +:+ ":")) by (rewrite string_length_app; done).
    rewrite substring_app_r. rewrite string_length_app. cbn [String.length].
    replace (_ - _)%nat with (String.length tag) by lia. apply substring_all.
Qed.

Lemma image_roundtrip_witness :
  parseImageNameAndTag (Image_String (mkImage "registry.local:5000/rancher/agent" "v0.1.0")) =
  inl (mkImage "registry.local:5000/rancher/agent" "v0.1.0").
Proof. apply image_roundtrip; [vm_compute; lia|discriminate|reflexivity|reflexivity]. Defined.
