(* ===== verification/VmNetCfg.v ===== *)
(** * The VirtualMachineNetworkConfig controller ([pkg/controller/vmnetcfg])

    Handlers run on the shared [Management] state; [now] is the time of the call
    and [seed] names the map iterations of the IP allocator. *)

From S2P Require Import Prelude GoNet GoText Api Util Ipam MacCache Metrics Webhook Kube.
Local Open Scope go_scope.

(** ** common.go *)

Definition updateAllNetworkConfigState (ncStatuses : list NetworkConfigStatus) (state : NetworkConfigState)
    : list NetworkConfigStatus :=
  (λ n, set_State n state) <$> ncStatuses.

Section conditions.
Context `{ConditionLib}.

Definition setAllocatedCondition (v : VmNetCfg) (status reason message : string) : VmNetCfg :=
  vnc_cond (set_condition Allocated status reason message) v.
Definition setDisabledCondition (v : VmNetCfg) (status reason message : string) : VmNetCfg :=
  vnc_cond (set_condition Disabled status reason message) v.
Definition setInSyncedCondition (v : VmNetCfg) (status reason message : string) : VmNetCfg :=
  vnc_cond (set_condition InSynced status reason message) v.

(** The builder. *)
Definition NewVmNetCfgBuilder (namespace name : string) : VmNetCfg :=
  mkVmNetCfg EmptyString (named_meta namespace name) (mkVmNetCfgSpec EmptyString [] None)
    (mkVmNetCfgStatus [] []).

Definition build_Label (key value : string) (b : VmNetCfg) : VmNetCfg :=
  set_vnc_Meta b (set_Labels (vnc_Meta b) (Some (<[key := value]> (or_empty (Labels (vnc_Meta b)))))).
Definition build_OwnerRef (owner : OwnerReference) (b : VmNetCfg) : VmNetCfg :=
  set_vnc_Meta b (set_OwnerReferences (vnc_Meta b) (OwnerReferences (vnc_Meta b) ++ [owner])).
Definition build_WithVMName (name : string) (b : VmNetCfg) : VmNetCfg :=
  set_vnc_Spec b (mkVmNetCfgSpec name (NetworkConfigs (vnc_Spec b)) (vnc_Paused (vnc_Spec b))).
Definition build_Paused (b : VmNetCfg) : VmNetCfg :=
  set_vnc_Spec b (mkVmNetCfgSpec (VMName (vnc_Spec b)) (NetworkConfigs (vnc_Spec b)) (Some true)).
Definition build_UnPaused (b : VmNetCfg) : VmNetCfg :=
  set_vnc_Spec b (mkVmNetCfgSpec (VMName (vnc_Spec b)) (NetworkConfigs (vnc_Spec b)) (Some false)).
Definition build_WithNetworkConfig (ipAddress macAddress networkName : string) (b : VmNetCfg) : VmNetCfg :=
  let ip := if String.eqb ipAddress EmptyString then None else Some ipAddress in
  set_vnc_Spec b (mkVmNetCfgSpec (VMName (vnc_Spec b))
    (NetworkConfigs (vnc_Spec b) ++ [mkNetworkConfig networkName macAddress ip]) (vnc_Paused (vnc_Spec b))).
Definition build_WithNetworkConfigStatus (ipAddress macAddress networkName : string)
    (state : NetworkConfigState) (b : VmNetCfg) : VmNetCfg :=
  set_vnc_Status b (set_st_NetworkConfigs (vnc_Status b)
    (st_NetworkConfigs (vnc_Status b) ++ [mkNetworkConfigStatus ipAddress macAddress networkName state])).
Definition build_AllocatedCondition (status reason message : string) (b : VmNetCfg) : VmNetCfg :=
  setAllocatedCondition b status reason message.
Definition build_DisabledCondition (status reason message : string) (b : VmNetCfg) : VmNetCfg :=
  setDisabledCondition b status reason message.
Definition build_InSyncedCondition (status reason message : string) (b : VmNetCfg) : VmNetCfg :=
  setInSyncedCondition b status reason message.

(** The status builder. *)
Definition newVmNetCfgStatusBuilder : VmNetCfgStatus := mkVmNetCfgStatus [] [].
Definition status_WithNetworkConfigStatus (ipAddress macAddress networkName : string)
    (state : NetworkConfigState) (b : VmNetCfgStatus) : VmNetCfgStatus :=
  set_st_NetworkConfigs b
    (st_NetworkConfigs b ++ [mkNetworkConfigStatus ipAddress macAddress networkName state]).
Definition status_InSyncedCondition (status reason message : string) (b : VmNetCfgStatus) : VmNetCfgStatus :=
  set_vnc_Conditions b (set_condition InSynced status reason message (vnc_Conditions b)).
End conditions.

Definition SanitizeStatus (status : VmNetCfgStatus) : VmNetCfgStatus :=
  set_vnc_Conditions status (blank_times <$> vnc_Conditions status).

(** ** Lookups *)

Section handler.
Context `{MapRange} `{ConditionLib} `{KvLib} `{PromLib} `{Kube} `{RetryLib}.

Definition findIPAddressFromNetworkConfigStatusByMACAddress (ncStatuses : list NetworkConfigStatus)
    (macAddress : string) : result string :=
  match filter (λ s, ncs_MACAddress s = macAddress ∧ AllocatedIPAddress s ≠ EmptyString) ncStatuses with
  | s :: _ => inl (AllocatedIPAddress s)
  | [] => inr (Errorf "could not find allocated ip for mac %s" [macAddress])
  end.

Definition getIPPoolFromNetworkName (networkName : string) (w : World) : result IPPool :=
  let '(nadNamespace, nadName) := RSplit networkName "/" in
  nad ← nadCache_Get w nadNamespace nadName;
  match Labels (nad_Meta nad) with
  | None => inr (Errorf "network attachment definition %s/%s has no labels" [nadNamespace; nadName])
  | Some labels =>
      match labels !! IPPoolNamespaceLabelKey with
      | None => inr (Errorf "network attachment definition %s/%s has no label %s"
                       [nadNamespace; nadName; IPPoolNamespaceLabelKey])
      | Some ipPoolNamespace =>
          match labels !! IPPoolNameLabelKey with
          | None => inr (Errorf "network attachment definition %s/%s has no label %s"
                           [nadNamespace; nadName; IPPoolNameLabelKey])
          | Some ipPoolName => ippoolCache_Get w ipPoolNamespace ipPoolName
          end
      end
  end.

Definition getIPPoolFromNetworkConfig (nc : NetworkConfig) (w : World) : result IPPool :=
  getIPPoolFromNetworkName (nc_NetworkName nc) w.
Definition getIPPoolFromNetworkConfigStatus (ncStatus : NetworkConfigStatus) (w : World) : result IPPool :=
  getIPPoolFromNetworkName (ncs_NetworkName ncStatus) w.

Definition state_text (s : NetworkConfigState) : string :=
  match s with
  | AllocatedState => "Allocated"
  | PendingState => "Pending"
  | StaleState => "Stale"
  | NoState => EmptyString
  end.

Definition meta_key (m : ObjectMeta) : string := Namespace m +:+ "/" +:+ Name m.

Definition disabled_error (m : ObjectMeta) : error :=
  Errorf "vmnetcfg %s/%s was administratively disabled" [Namespace m; Name m].

(** ** Allocate *)

(** The status of a pool with the record [ip -> mac] added. *)
Definition record_allocated (ip mac : string) (ipPool : IPPool) : IPPool :=
  let ipv4Status := default IPv4Status_zero (IPv4 (pool_Status ipPool)) in
  let allocated := or_empty (st_Allocated ipv4Status) in
  set_pool_Status ipPool
    (set_IPv4 (pool_Status ipPool)
       (Some (mkIPv4Status (Some (<[ip := mac]> allocated)) (Used ipv4Status) (Available ipv4Status)))).

(** The address for one network config: from the cache, or a new one, the one in
    the status or the requested one being preferred. *)
Definition address_for (seed : nat) (vmNetCfg : VmNetCfg) (nc : NetworkConfig)
    : GoM Management (string + error) :=
  let! exists_ := ask_cache (HasMAC (nc_NetworkName nc) (nc_MACAddress nc))
    orelse err => mret (inr err) in
  if exists_ : bool then
    let! ip := ask_cache (GetIPByMAC (nc_NetworkName nc) (nc_MACAddress nc))
      orelse err => mret (inr err) in
    mret (inl ip)
  else
    let dIP := default (IP_String IPv4zero) (nc_IPAddress nc) in
    let dIP := match findIPAddressFromNetworkConfigStatusByMACAddress
                       (st_NetworkConfigs (vnc_Status vmNetCfg)) (nc_MACAddress nc) with
               | inl oIP => oIP
               | inr _ => dIP
               end in
    let! ip := on_ipam (AllocateIP seed (nc_NetworkName nc) dIP) orelse err => mret (inr err) in
    do! on_cache (AddMAC (nc_NetworkName nc) (nc_MACAddress nc) ip) orelse err => mret (inr err) in
    mret (inl ip).

Definition allocate_one (seed : nat) (now : Z) (vmNetCfg : VmNetCfg) (status : VmNetCfgStatus)
    (nc : NetworkConfig) (ncStatuses : list NetworkConfigStatus)
    : GoM Management (list NetworkConfigStatus + (VmNetCfgStatus * option error)) :=
  try! ipPool := ask_world (getIPPoolFromNetworkConfig nc) catch err => mret (inr (status, Some err)) in
  if negb (IsTrue CacheReady (pool_Conditions (pool_Status ipPool))) then
    mret (inr (status, Some (Errorf "ippool %s/%s is not ready"
      [Namespace (pool_Meta ipPool); Name (pool_Meta ipPool)])))
  else
    try! ip := address_for (seed + length ncStatuses) vmNetCfg nc
      catch err => mret (inr (status, Some err)) in
    let ncStatus := mkNetworkConfigStatus ip (nc_MACAddress nc) (nc_NetworkName nc) AllocatedState in
    _ ← on_metrics (UpdateVmNetCfgStatus (meta_key (vnc_Meta vmNetCfg)) (ncs_NetworkName ncStatus)
          (ncs_MACAddress ncStatus) (AllocatedIPAddress ncStatus) (state_text (State ncStatus)));
    let ipPoolCpy := record_allocated ip (nc_MACAddress nc) ipPool in
    if negb (DeepEqual ipPoolCpy ipPool) then
      try! _ := request (ippoolClient_UpdateStatus
                  (set_pool_Status ipPoolCpy (set_LastUpdate (pool_Status ipPoolCpy) now)))
        catch err => mret (inr (status, Some err)) in
      mret (inl (ncStatuses ++ [ncStatus]))
    else mret (inl (ncStatuses ++ [ncStatus])).

Definition Allocate (seed : nat) (now : Z) (vmNetCfg : VmNetCfg) (status : VmNetCfgStatus)
    : GoM Management (VmNetCfgStatus * option error) :=
  if is_paused (vnc_Paused (vnc_Spec vmNetCfg)) then
    mret (status, Some (disabled_error (vnc_Meta vmNetCfg)))
  else if IsFalse InSynced (vnc_Conditions (vnc_Status vmNetCfg)) then
    mret (status, Some (Errorf "vmnetcfg %s/%s is out-of-sync; waiting for reconcile"
      [Namespace (vnc_Meta vmNetCfg); Name (vnc_Meta vmNetCfg)]))
  else
    r ← for_range (NetworkConfigs (vnc_Spec vmNetCfg)) (allocate_one seed now vmNetCfg status) [];
    match r with
    | inr ret => mret ret
    | inl [] => mret (status, Some (Errorf "no network configs found for vmnetcfg %s/%s"
                  [Namespace (vnc_Meta vmNetCfg); Name (vnc_Meta vmNetCfg)]))
    | inl ncStatuses => mret (set_st_NetworkConfigs status ncStatuses, None)
    end.

(** ** cleanup *)

(** Delete the record of [ip] from the pool of [ncStatus]; a pool without IPv4
    status is a nil dereference. *)
Definition remove_record (now : Z) (ncStatus : NetworkConfigStatus) : GoM Management (option error) :=
  try! ipPool := ask_world (getIPPoolFromNetworkConfigStatus ncStatus) catch err => mret (Some err) in
  match IPv4 (pool_Status ipPool) with
  | None => go_panic "nil IPv4Status"
  | Some st =>
      let ipPoolCpy := set_pool_Status ipPool (set_IPv4 (pool_Status ipPool)
        (Some (mkIPv4Status (delete (AllocatedIPAddress ncStatus) <$> st_Allocated st) (Used st)
                 (Available st)))) in
      if negb (DeepEqual ipPoolCpy ipPool) then
        try! _ := request (ippoolClient_UpdateStatus
                    (set_pool_Status ipPoolCpy (set_LastUpdate (pool_Status ipPoolCpy) now)))
          catch err => mret (Some err) in
        mret None
      else mret None
  end.

Definition cleanup_one (now : Z) (cleanupStaleOnly : bool) (ncStatus : NetworkConfigStatus) (_ : unit)
    : GoM Management (unit + option error) :=
  if negb cleanupStaleOnly || bool_decide (State ncStatus = StaleState) then
    let! isAllocated := ask_ipam (IsAllocated (ncs_NetworkName ncStatus) (AllocatedIPAddress ncStatus))
      orelse err => mret (inr (Some err)) in
    do! (if isAllocated : bool then
           on_ipam (DeallocateIP (ncs_NetworkName ncStatus) (AllocatedIPAddress ncStatus))
         else mret None)
      orelse err => mret (inr (Some err)) in
    let! exists_ := ask_cache (HasMAC (ncs_NetworkName ncStatus) (ncs_MACAddress ncStatus))
      orelse err => mret (inr (Some err)) in
    do! (if exists_ : bool then
           on_cache (DeleteMAC (ncs_NetworkName ncStatus) (ncs_MACAddress ncStatus))
         else mret None)
      orelse err => mret (inr (Some err)) in
    do! RetryOnConflict (remove_record now ncStatus) orelse err => mret (inr (Some err)) in
    mret (inl tt)
  else mret (inl tt).

Definition cleanup (now : Z) (vmNetCfg : VmNetCfg) (cleanupStaleOnly : bool)
    : GoM Management (option error) :=
  _ ← (if negb cleanupStaleOnly then
         on_metrics (DeleteVmNetCfgStatus (meta_key (vnc_Meta vmNetCfg)))
       else mret tt);
  r ← for_range (st_NetworkConfigs (vnc_Status vmNetCfg)) (cleanup_one now cleanupStaleOnly) tt;
  match r with
  | inr err => mret err
  | inl _ => mret None
  end.

(** ** Sync *)

Definition mark_stale (macAddressSet : gset string) (s : NetworkConfigStatus) : NetworkConfigStatus :=
  if bool_decide (ncs_MACAddress s ∈ macAddressSet) then s else set_State s StaleState.

(** The states are written through [status]'s slice.  [shared] says whether that
    is the array of [vmNetCfg.Status.NetworkConfigs], which [cleanup] reads; the
    generated handler passes [obj] and [obj.Status], so it is. *)
Definition Sync (now : Z) (shared : bool) (vmNetCfg : VmNetCfg) (status : VmNetCfgStatus)
    : GoM Management (VmNetCfgStatus * option error) :=
  if is_paused (vnc_Paused (vnc_Spec vmNetCfg)) then
    mret (status, Some (disabled_error (vnc_Meta vmNetCfg)))
  else if IsTrue InSynced (vnc_Conditions (vnc_Status vmNetCfg)) then mret (status, None)
  else
    let macAddressSet : gset string :=
      list_to_set (nc_MACAddress <$> NetworkConfigs (vnc_Spec vmNetCfg)) in
    let marked := mark_stale macAddressSet <$> st_NetworkConfigs status in
    let nonStaleNetworkConfigs :=
      filter (λ s, ncs_MACAddress s ∈ macAddressSet) (st_NetworkConfigs status) in
    let vmNetCfg :=
      if shared then set_vnc_Status vmNetCfg (set_st_NetworkConfigs (vnc_Status vmNetCfg) marked)
      else vmNetCfg in
    do! cleanup now vmNetCfg true
      orelse err => mret (set_st_NetworkConfigs status marked, Some err) in
    mret (set_st_NetworkConfigs status nonStaleNetworkConfigs, None).

(** ** OnChange and OnRemove *)

Definition OnChange (now : Z) (vmNetCfg : option VmNetCfg)
    : GoM Management (option VmNetCfg * option error) :=
  match vmNetCfg with
  | None => mret (None, None)
  | Some vmNetCfg =>
      match DeletionTimestamp (vnc_Meta vmNetCfg) with
      | Some _ => mret (None, None)
      | None =>
          if is_paused (vnc_Paused (vnc_Spec vmNetCfg)) then
            do! cleanup now vmNetCfg false orelse err => mret (Some vmNetCfg, Some err) in
            let vmNetCfgCpy := vnc_cond (SetTrue Disabled) vmNetCfg in
            let vmNetCfgCpy := set_vnc_Status vmNetCfgCpy
              (set_st_NetworkConfigs (vnc_Status vmNetCfgCpy)
                 (updateAllNetworkConfigState (st_NetworkConfigs (vnc_Status vmNetCfgCpy)) PendingState)) in
            if negb (DeepEqual vmNetCfgCpy vmNetCfg) then
              return_update (request (vmnetcfgClient_UpdateStatus vmNetCfgCpy))
            else mret (Some vmNetCfg, None)
          else
            let vmNetCfgCpy := vnc_cond (SetFalse Disabled) vmNetCfg in
            if negb (DeepEqual vmNetCfgCpy vmNetCfg) then
              return_update (request (vmnetcfgClient_UpdateStatus vmNetCfgCpy))
            else mret (Some vmNetCfg, None)
      end
  end.

Definition OnRemove (now : Z) (vmNetCfg : option VmNetCfg)
    : GoM Management (option VmNetCfg * option error) :=
  match vmNetCfg with
  | None => mret (None, None)
  | Some vmNetCfg =>
      do! cleanup now vmNetCfg false orelse err => mret (Some vmNetCfg, Some err) in
      mret (Some vmNetCfg, None)
  end.
End handler.
