(* ===== verification/VmNetCfgFacts.v ===== *)
(** * The VirtualMachineNetworkConfig controller: its contract *)

From S2P Require Import Prelude GoNet GoNetFacts GoText Api Util Ipam IpamFacts IpamSpec MacCache Metrics Leases Webhook Kube FakeKube VmNetCfg.
Local Open Scope go_scope.

Section facts.
Context `{MapRange} `{ConditionLib} `{KvLib} `{PromLib} `{Kube}.
Implicit Types m : Management.

(** ** One address *)

Lemma wp_address_for seed v nc m :
  leases_ok m →
  wp (address_for seed v nc)
     (λ r m', leases_ok m' ∧ grew m m' ∧ world m' = world m ∧
        match r with inl ip => holds m' (nc_NetworkName nc) (nc_MACAddress nc) ip | inr _ => True end)
     (λ _, False) m.
Proof using Type.
  intros Hok. unfold address_for. apply wp_bind, wp_gets.
  destruct (HasMAC _ _ (CacheAllocator_ m)) as [b [e|]] eqn:Hhas.
  { apply wp_ret. split_and!; done || apply extends_refl. }
  apply HasMAC_cached in Hhas as ->. case_bool_decide as Hc.
  - destruct Hc as [ip Hip]. apply wp_bind, wp_gets. rewrite (GetIPByMAC_cached _ _ _ _ Hip).
    apply wp_ret. split_and!; done || apply extends_refl.
  - assert (Hnone : cached_text (CacheAllocator_ m) (nc_NetworkName nc) (nc_MACAddress nc) = None)
      by (apply eq_None_not_Some; done).
    cbv zeta. apply wp_bind, wp_on_ipam.
    destruct (AllocateIP seed _ _ (IPAllocator_ m)) as [a' [ip e]] eqn:Ho. cbn [fst snd].
    match type of Ho with AllocateIP _ ?n ?t _ = _ =>
      destruct (coherent_leak seed n t _ _ Hok) as [Hok' Hg'] end.
    rewrite Ho in Hok', Hg'. cbn [fst] in Hok', Hg'.
    destruct e as [e|]; [by apply wp_ret|].
    apply wp_bind, wp_on_cache. cbn [CacheAllocator_ set_ipam].
    destruct (AddMAC _ _ ip (CacheAllocator_ m)) as [c' [e|]] eqn:Hadd; cbn [fst snd].
    { apply wp_ret. destruct (AddMAC_spec _ _ _ _ _ _ Hadd) as [(? & _)|(-> & _ & _)]; [done|].
      by split_and!. }
    apply wp_ret. destruct (coherent_grant _ _ _ _ _ _ _ _ _ Hok Hnone Ho Hadd) as (? & ? & ?).
    by split_and!.
Qed.

(** ** Allocate *)

(** The status entry [s] reports a lease that is held. *)
Definition granted (m : Management) (nc : NetworkConfig) (s : NetworkConfigStatus) : Prop :=
  ncs_NetworkName s = nc_NetworkName nc ∧ ncs_MACAddress s = nc_MACAddress nc ∧
  State s = AllocatedState ∧ holds m (nc_NetworkName nc) (nc_MACAddress nc) (AllocatedIPAddress s).

Lemma granted_grew m m' nc s : grew m m' → granted m nc s → granted m' nc s.
Proof using Type. unfold granted. intros Hg (? & ? & ? & ?). split_and!; try done. by eapply grew_holds. Qed.

Lemma wp_allocate_one seed now v status nc acc m :
  leases_ok m →
  wp (allocate_one seed now v status nc acc)
     (λ r m', leases_ok m' ∧ grew m m' ∧
        match r with
        | inl acc' => ∃ s, acc' = acc ++ [s] ∧ granted m' nc s
        | inr (status', err) => status' = status ∧ is_Some err
        end) (λ _, False) m.
Proof using Type.
  intros Hok. unfold allocate_one. apply wp_bind, wp_gets.
  destruct (getIPPoolFromNetworkConfig nc (world m)) as [ipPool|e]; [|by apply wp_ret; (split; [done|split; [done || apply grew_refl|split; [done|by eexists]]])].
  destruct (negb _); [by apply wp_ret; (split; [done|split; [done || apply grew_refl|split; [done|by eexists]]])|].
  apply wp_bind. eapply wp_mono; [| |by apply wp_address_for]; [|done].
  intros [ip|e] m1 (Hok1 & Hg1 & _ & Hip); [|by apply wp_ret; (split; [done|split; [done || apply grew_refl|split; [done|by eexists]]])].
  cbv zeta. apply wp_bind, wp_on_metrics.
  assert (Hgr : ∀ m', grew (set_metrics m1 (MetricsAllocator_ m1)) m' →
     granted m' nc (mkNetworkConfigStatus ip (nc_MACAddress nc) (nc_NetworkName nc) AllocatedState)).
  { intros m' Hg'. split_and!; try done. by eapply grew_holds; [apply Hg'|]. }
  destruct (negb _).
  - apply wp_bind, wp_request. destruct (ippoolClient_UpdateStatus _ _) as [w [p|e]]; cbn [fst snd];
      apply wp_ret; (split; [done|]; split; [done|]); [|by eauto].
    eexists. split; [done|]. apply Hgr. apply extends_refl.
  - apply wp_ret. split; [done|]. split; [done|]. eexists. split; [done|]. apply Hgr, extends_refl.
Qed.

Lemma wp_allocate_loop seed now v status ncs m :
  leases_ok m →
  wp (for_range ncs (allocate_one seed now v status) [])
     (λ r m', leases_ok m' ∧ grew m m' ∧
        match r with
        | inl ss => Forall2 (granted m') ncs ss
        | inr (status', err) => status' = status ∧ is_Some err
        end) (λ _, False) m.
Proof using Type.
  intros Hok. eapply wp_mono; [| |apply (wp_for_range _
    (λ pre ss m', leases_ok m' ∧ grew m m' ∧ Forall2 (granted m') pre ss)
    (λ '(status', err) m', leases_ok m' ∧ grew m m' ∧ status' = status ∧ is_Some err) (λ _, False))];
    [| | |split; [done|]; split; [apply grew_refl|done]]; [|done|].
  - intros [ss|[status' err]] m'; tauto.
  - intros pre nc post ss m' _ (Hok' & Hg & Hss). eapply wp_mono; [| |by apply wp_allocate_one]; [|done].
    intros [acc|[status' err]] m2 (Hok2 & Hg2 & Hr); (split; [done|]);
      (split; [by eapply grew_trans|]); [|done].
    destruct Hr as (s & -> & Hs). apply Forall2_app; [|by constructor].
    eapply Forall2_impl; [done|]. intros nc' s'. by apply granted_grew.
Qed.

(** What a reconcile of [v] answers beside the grown lease table. *)
Definition allocate_answer (v : VmNetCfg) (status : VmNetCfgStatus) (r : VmNetCfgStatus * option error)
    (m' : Management) : Prop :=
  match r.2 with
  | Some _ => r.1 = status
  | None =>
      is_paused (vnc_Paused (vnc_Spec v)) = false ∧ IsFalse InSynced (vnc_Conditions (vnc_Status v)) = false ∧
      NetworkConfigs (vnc_Spec v) ≠ [] ∧ vnc_Conditions r.1 = vnc_Conditions status ∧
      Forall2 (granted m') (NetworkConfigs (vnc_Spec v)) (st_NetworkConfigs r.1)
  end.

Lemma wp_Allocate seed now v status m :
  leases_ok m →
  wp (Allocate seed now v status) (λ r m', leases_ok m' ∧ grew m m' ∧ allocate_answer v status r m')
     (λ _, False) m.
Proof using Type.
  intros Hok. unfold Allocate, allocate_answer.
  destruct (is_paused _); [apply wp_ret; split_and!; done || apply grew_refl|].
  destruct (IsFalse _ _); [apply wp_ret; split_and!; done || apply grew_refl|].
  apply wp_bind. eapply wp_mono; [| |by apply wp_allocate_loop]; [|done].
  intros [[|s ss]|[status' err]] m' (Hok' & Hg & Hr); apply wp_ret; (split; [done|]; split; [done|]).
  - done.
  - cbn. split_and!; try done. intros Hnil. rewrite Hnil in Hr. by inversion Hr.
  - cbn. by destruct Hr as [-> [e ->]].
Qed.

(** C9: [Allocate] always returns.  It keeps every lease and the
    coherence of allocator and cache on every path; it refuses, with the status
    as it was, when the object is paused, out of sync or has no interface, or a
    call fails; otherwise the new status lists the interfaces of the spec in
    order, each with an address that is in use and held by its MAC, and no two
    different MACs of a network share an address. *)
Theorem Allocate_spec (seed : nat) (now : Z) (v : VmNetCfg) (status : VmNetCfgStatus) (m : Management) :
  leases_ok m →
  ∃ m' status' err, Allocate seed now v status m = (m', Val (status', err)) ∧
    leases_ok m' ∧ grew m m' ∧
    match err with
    | Some _ => status' = status
    | None =>
        is_paused (vnc_Paused (vnc_Spec v)) = false ∧ IsFalse InSynced (vnc_Conditions (vnc_Status v)) = false ∧
        NetworkConfigs (vnc_Spec v) ≠ [] ∧ vnc_Conditions status' = vnc_Conditions status ∧
        Forall2 (granted m') (NetworkConfigs (vnc_Spec v)) (st_NetworkConfigs status') ∧
        (∀ s, s ∈ st_NetworkConfigs status' →
           is_allocated (IPAllocator_ m') (ncs_NetworkName s) (AllocatedIPAddress s)) ∧
        ∀ s1 s2, s1 ∈ st_NetworkConfigs status' → s2 ∈ st_NetworkConfigs status' →
          ncs_NetworkName s1 = ncs_NetworkName s2 → AllocatedIPAddress s1 = AllocatedIPAddress s2 →
          ncs_MACAddress s1 = ncs_MACAddress s2
    end.
Proof using Type.
  intros Hok. destruct (wp_run _ _ _ (wp_Allocate seed now v status m Hok))
    as (m' & [status' err] & Hrun & Hok' & Hg & Hr). exists m', status', err.
  split_and!; [done..|]. unfold allocate_answer in Hr. cbn [fst snd] in Hr. destruct err; [done|].
  destruct Hr as (? & ? & ? & ? & Hall). split_and!; try done.
  - intros s (nc & _ & Hnet & _ & _ & Hip)%(Forall2_elem_r _ _ _ _ Hall).
    rewrite Hnet. by apply (leases_ok_allocated _ _ (nc_MACAddress nc)).
  - intros s1 s2 (nc1 & _ & Hn1 & Hm1 & _ & Hip1)%(Forall2_elem_r _ _ _ _ Hall)
      (nc2 & _ & Hn2 & Hm2 & _ & Hip2)%(Forall2_elem_r _ _ _ _ Hall) Hnet Hip.
    rewrite <-Hn1, <-Hm1 in Hip1. rewrite <-Hn2, <-Hm2, <-Hnet, <-Hip in Hip2.
    by apply (coh_inj _ _ Hok' _ _ _ _ Hip1 Hip2).
Qed.

(** ** A settled object is left alone *)

(** The lease of [nc] is cached and the record is in the pool already. *)
Definition settled (m : Management) (nc : NetworkConfig) (ip : string) : Prop :=
  holds m (nc_NetworkName nc) (nc_MACAddress nc) ip ∧
  ∃ ipPool st records, getIPPoolFromNetworkConfig nc (world m) = inl ipPool ∧
    IsTrue CacheReady (pool_Conditions (pool_Status ipPool)) = true ∧
    IPv4 (pool_Status ipPool) = Some st ∧ st_Allocated st = Some records ∧
    records !! ip = Some (nc_MACAddress nc).

Definition settled_status (nc : NetworkConfig) (ip : string) : NetworkConfigStatus :=
  mkNetworkConfigStatus ip (nc_MACAddress nc) (nc_NetworkName nc) AllocatedState.

Lemma record_allocated_same ip mac ipPool st records :
  IPv4 (pool_Status ipPool) = Some st → st_Allocated st = Some records → records !! ip = Some mac →
  record_allocated ip mac ipPool = ipPool.
Proof using Type.
  intros Hst Hrec Hip. destruct ipPool as [me sp [lu v4 ref cs]]. cbn in Hst. subst v4.
  unfold record_allocated. cbn. rewrite Hrec. cbn. rewrite insert_id by done. rewrite <-Hrec. by destruct st.
Qed.

Lemma address_for_held seed v nc ip m :
  holds m (nc_NetworkName nc) (nc_MACAddress nc) ip → address_for seed v nc m = (m, Val (inl ip)).
Proof using Type.
  unfold holds. intros Hip. pose proof (GetIPByMAC_cached _ _ _ _ Hip) as Hget.
  unfold address_for, ask_cache, mbind, GoM_bind, go_gets. rewrite HasMAC_spec.
  unfold cached_text, cached_ip in Hip. destruct (CacheAllocator_ m !! nc_NetworkName nc) as [set|] eqn:Hset; [|done].
  rewrite bool_decide_eq_true_2; [by rewrite Hget|]. unfold cached_ip. rewrite Hset. by apply fmap_Some in Hip as (? & ? & _).
Qed.

Lemma allocate_settled_loop seed now v status ncs ips acc m :
  Forall2 (settled m) ncs ips →
  ∃ g, for_range ncs (allocate_one seed now v status) acc m =
    (set_metrics m g, Val (inl (acc ++ zip_with settled_status ncs ips))).
Proof using Type.
  intros Hall. revert ips acc m Hall. induction ncs as [|nc ncs IH]; intros ips acc m Hall.
  { inversion Hall. subst. exists (MetricsAllocator_ m). cbn. rewrite app_nil_r. by destruct m. }
  apply Forall2_cons_inv_l in Hall as (ip & ips' & (Hip & ipPool & st & records & Hpool & Hready & Hst & Hrec & Hin) & Hall & ->).
  set (m' := set_metrics m (UpdateVmNetCfgStatus (meta_key (vnc_Meta v)) (nc_NetworkName nc) (nc_MACAddress nc) ip
    (state_text AllocatedState) (MetricsAllocator_ m))).
  assert (Hone : allocate_one seed now v status nc acc m = (m', Val (inl (acc ++ [settled_status nc ip])))).
  { unfold allocate_one, mbind at 1, GoM_bind, ask_world, go_gets. rewrite Hpool, Hready. cbn [negb].
    unfold mbind at 1, GoM_bind. rewrite (address_for_held _ _ _ _ _ Hip).
    cbv zeta. rewrite (record_allocated_same ip (nc_MACAddress nc) ipPool st records) by done.
    unfold DeepEqual. by rewrite bool_decide_eq_true_2. }
  destruct (IH ips' (acc ++ [settled_status nc ip]) m') as [g Hg]; [done|]. exists g.
  cbn [for_range]. unfold mbind, GoM_bind. rewrite Hone, Hg. cbn [zip_with]. by rewrite <-app_assoc.
Qed.

(** Reconciling an object whose leases are cached and recorded in
    the pools writes nothing: allocator, cache and API are left as they are, and
    the status lists the leases, in order. *)
Theorem Allocate_settled (seed : nat) (now : Z) (v : VmNetCfg) (status : VmNetCfgStatus)
    (ips : list string) (m : Management) :
  is_paused (vnc_Paused (vnc_Spec v)) = false → IsFalse InSynced (vnc_Conditions (vnc_Status v)) = false →
  NetworkConfigs (vnc_Spec v) ≠ [] → Forall2 (settled m) (NetworkConfigs (vnc_Spec v)) ips →
  ∃ g, Allocate seed now v status m =
    (set_metrics m g, Val (set_st_NetworkConfigs status
       (zip_with settled_status (NetworkConfigs (vnc_Spec v)) ips), None)).
Proof using Type.
  intros Hp Hs Hne Hall. unfold Allocate. rewrite Hp, Hs.
  destruct (allocate_settled_loop seed now v status _ _ [] _ Hall) as [g Hg]. exists g.
  unfold mbind, GoM_bind. rewrite Hg. cbn [app]. inversion Hall; subst; [congruence|done].
Qed.

(** ** cleanup *)

Context `{RetryLib}.

Definition accurate_record (m : Management) (s : NetworkConfigStatus) : Prop :=
  accurate (CacheAllocator_ m) (IPAllocator_ m) (ncs_NetworkName s) (ncs_MACAddress s) (AllocatedIPAddress s).

Definition released_one (s : NetworkConfigStatus) (m m' : Management) : Prop :=
  released (ncs_NetworkName s) (ncs_MACAddress s) (AllocatedIPAddress s)
    (CacheAllocator_ m) (IPAllocator_ m) (CacheAllocator_ m') (IPAllocator_ m').

(** The state after releasing the records [rs]: they are gone, the rest is as before. *)
Record released_all (rs : list NetworkConfigStatus) (m m' : Management) : Prop := {
  all_cached : ∀ name mac, cached_text (CacheAllocator_ m') name mac =
    if decide ((name, mac) ∈ (λ s, (ncs_NetworkName s, ncs_MACAddress s)) <$> rs) then None
    else cached_text (CacheAllocator_ m) name mac;
  all_allocated : ∀ name ip, is_allocated (IPAllocator_ m') name ip ↔
    ((name, ip) ∉ (λ s, (ncs_NetworkName s, AllocatedIPAddress s)) <$> rs) ∧ is_allocated (IPAllocator_ m) name ip;
}.

Lemma released_all_nil m m' : same_leases m m' → released_all [] m m'.
Proof using Type.
  intros [Hc Ha]. constructor; intros; rewrite ?Hc, ?Ha; cbn.
  - by rewrite decide_False by apply not_elem_of_nil.
  - split; [|by intros [_ ?]]. intros ?. split; [apply not_elem_of_nil|done].
Qed.

Lemma released_all_snoc rs s m m1 m2 :
  released_all rs m m1 → released_one s m1 m2 → released_all (rs ++ [s]) m m2.
Proof using Type.
  intros [Hc Ha] [Hc' Ha']. constructor; intros name x.
  - rewrite Hc', Hc, fmap_app. cbn [fmap list_fmap].
    destruct (decide (name = ncs_NetworkName s ∧ x = ncs_MACAddress s)) as [[-> ->]|Hne].
    + rewrite decide_True; [done|]. apply elem_of_app. right. by left.
    + apply decide_ext. rewrite elem_of_app, list_elem_of_singleton. split; [by left|].
      intros [?|[= ? ?]]; [done|]. by destruct Hne.
  - rewrite Ha', Ha, fmap_app, elem_of_app. cbn [fmap list_fmap]. rewrite list_elem_of_singleton.
    split.
    + intros (Hne & Hn & ?). split; [|done]. intros [?|[= ? ?]]; [done|]. by apply Hne.
    + intros (Hn & ?). split_and!; [|by intros ?; apply Hn; left|done].
      intros [-> ->]. apply Hn. by right.
Qed.

Lemma wp_remove_record now s m0 m :
  same_leases m0 m →
  wp (remove_record now s) (λ _ m', same_leases m0 m') (same_leases m0) m.
Proof using Type.
  intros Hm. unfold remove_record. apply wp_bind, wp_gets.
  destruct (getIPPoolFromNetworkConfigStatus s (world m)) as [ipPool|e]; [|by apply wp_ret].
  destruct (IPv4 (pool_Status ipPool)) as [st|]; [|done]. cbv zeta.
  destruct (negb _); [|by apply wp_ret]. apply wp_bind, wp_request.
  by destruct (ippoolClient_UpdateStatus _ _) as [w [p|e]]; apply wp_ret.
Qed.

Lemma released_one_same s m m1 m2 : released_one s m m1 → same_leases m1 m2 → released_one s m m2.
Proof using Type. unfold released_one. by intros Hr [-> ->]. Qed.

(** Releasing the address, if it is in use. *)
Lemma wp_release_ip s m (b : bool) :
  well_formed (IPAllocator_ m) →
  (b = true ↔ is_allocated (IPAllocator_ m) (ncs_NetworkName s) (AllocatedIPAddress s)) →
  wp (if b then on_ipam (DeallocateIP (ncs_NetworkName s) (AllocatedIPAddress s)) else mret None)
    (λ e m1, (is_Some e ∧ m1 = m) ∨ (e = None ∧ well_formed (IPAllocator_ m1) ∧
        CacheAllocator_ m1 = CacheAllocator_ m ∧ (b = false → m1 = m) ∧
        ∀ n t, is_allocated (IPAllocator_ m1) n t ↔
          ¬ (n = ncs_NetworkName s ∧ t = AllocatedIPAddress s) ∧ is_allocated (IPAllocator_ m) n t))
    (λ _, False) m.
Proof using Type.
  intros Hwf Hb. destruct b.
  - apply wp_on_ipam. pose proof (DeallocateIP_wf (ncs_NetworkName s) (AllocatedIPAddress s) _ Hwf) as Hwf'.
    destruct (DeallocateIP _ _ _) as [a' [e|]] eqn:Hd; cbn [fst snd] in *.
    + left. destruct (DeallocateIP_frame _ _ _ _ _ Hd) as [[? _]|[_ ->]]; [done|]. split; [by eexists|].
      by destruct m.
    + right. split_and!; [done..|]. by apply DeallocateIP_allocated.
  - apply wp_ret. right. split_and!; [done..|]. intros n t. split; [|by intros [_ ?]].
    intros Hn. split; [|done]. intros [-> ->]. by apply Hb in Hn.
Qed.

(** Removing the cache entry, if there is one. *)
Lemma wp_release_mac s m (b : bool) :
  b = bool_decide (is_Some (cached_text (CacheAllocator_ m) (ncs_NetworkName s) (ncs_MACAddress s))) →
  wp (if b then on_cache (DeleteMAC (ncs_NetworkName s) (ncs_MACAddress s)) else mret None)
    (λ e m1, e = None ∧ IPAllocator_ m1 = IPAllocator_ m ∧ ∀ n mac, cached_text (CacheAllocator_ m1) n mac =
        if decide (n = ncs_NetworkName s ∧ mac = ncs_MACAddress s) then None
        else cached_text (CacheAllocator_ m) n mac) (λ _, False) m.
Proof using Type.
  intros Hb. destruct b; symmetry in Hb.
  - apply bool_decide_eq_true in Hb. apply wp_on_cache.
    destruct (DeleteMAC _ _ _) as [c' e] eqn:Hd. cbn [fst snd].
    assert (e = None) as ->.
    { destruct (DeleteMAC_spec _ _ _ _ _ Hd) as [(-> & _)|(_ & Hnone & _)]; [done|].
      unfold cached_text, cached_ip in Hb. rewrite Hnone in Hb. by destruct Hb. }
    split_and!; [done..|]. by apply DeleteMAC_cached.
  - apply bool_decide_eq_false in Hb. apply wp_ret. split_and!; [done..|]. intros n mac.
    case_decide as Hd; [|done]. destruct Hd as [-> ->]. by apply eq_None_not_Some.
Qed.

Lemma HasMAC_error_uncached c name mac b e :
  HasMAC name mac c = (b, Some e) → cached_text c name mac = None.
Proof using Type.
  rewrite HasMAC_spec. unfold cached_text, cached_ip. by destruct (c !! name).
Qed.

Definition to_release (only : bool) (s : NetworkConfigStatus) : bool :=
  negb only || bool_decide (State s = StaleState).

(** One round of the loop: address first, then cache entry, then the pool. *)
Lemma wp_cleanup_one now only s m :
  leases_ok m → accurate_record m s →
  wp (cleanup_one now only s tt)
     (λ r m', match r with
      | inl _ => if to_release only s then released_one s m m' else m' = m
      | inr e => is_Some e ∧ to_release only s = true ∧ (same_leases m m' ∨ released_one s m m')
      end ∧ leases_ok m')
     (λ m', to_release only s = true ∧ released_one s m m' ∧ leases_ok m') m.
Proof using Type.
  intros Hok Hacc. unfold cleanup_one. change (negb only || _) with (to_release only s).
  destruct (to_release only s); [|by apply wp_ret]. apply wp_bind, wp_gets.
  destruct (IsAllocated _ _ _) as [b [e|]] eqn:Hal; [apply wp_ret; split_and!; eauto; by left|].
  apply IsAllocated_true in Hal.
  apply wp_bind. eapply wp_mono; [| |apply wp_release_ip; [apply Hok|exact Hal]]; [|done].
  intros e m1 [[[e' ->] ->]|(-> & Hwf1 & Hc1 & Hsame & Ha1)].
  { apply wp_ret. split_and!; eauto. by left. }
  apply wp_bind, wp_gets. destruct (HasMAC _ _ _) as [b' [e|]] eqn:Hhas.
  { rewrite Hc1 in Hhas. apply HasMAC_error_uncached in Hhas as Hno. assert (b = false) as Hb.
    { destruct Hacc as [Hacc|[_ Hacc]]; [congruence|]. destruct b; [|done]. exfalso. by apply Hacc, Hal. }
    rewrite (Hsame Hb). apply wp_ret. split_and!; eauto. by left. }
  apply HasMAC_cached in Hhas.
  apply wp_bind. eapply wp_mono; [| |apply wp_release_mac; exact Hhas]; [|done].
  intros e m2 (-> & Hi2 & Hc2). assert (Hrel : released_one s m m2).
  { constructor; [by rewrite <-Hc1|by rewrite Hi2]. }
  assert (Hok2 : leases_ok m2).
  { apply (coherent_release _ _ _ _ _ _ _ Hok Hacc Hrel). by rewrite Hi2. }
  apply wp_bind. eapply wp_mono; [| |eapply (wp_RetryOnConflict _ (same_leases m2) (λ _, same_leases m2) (same_leases m2))].
  - intros [e|] m3 Hm3; apply wp_ret; (split; [|by eapply same_leases_ok]); [|by eapply released_one_same].
    split_and!; eauto. right. by eapply released_one_same.
  - intros m3 Hm3. split_and!; [done|by eapply released_one_same|by eapply same_leases_ok].
  - intros m3 Hm3. by eapply wp_mono; [| |by apply wp_remove_record].
  - by split.
Qed.

Definition released_part (rs : list NetworkConfigStatus) (m m' : Management) : Prop :=
  leases_ok m' ∧ ∃ k, released_all (take k rs) m m'.

Lemma accurate_record_released s s' m m' :
  leases_ok m → accurate_record m s → accurate_record m s' → released_one s m m' → accurate_record m' s'.
Proof using Type. intros Hok Hs Hs' Hr. by apply (accurate_release _ _ _ _ _ _ _ _ _ _ Hok Hs Hs' Hr). Qed.

Lemma take_filter_prefix {A} (P : A → Prop) `{∀ x, Decision (P x)} pre x post :
  P x → take (length (filter P pre)) (filter P (pre ++ x :: post)) = filter P pre ∧
        take (Datatypes.S (length (filter P pre))) (filter P (pre ++ x :: post)) = filter P pre ++ [x].
Proof using Type.
  intros Hx. rewrite filter_app, filter_cons_True by done. split.
  - by rewrite take_app_length.
  - rewrite cons_middle, app_assoc, take_app_length'; [done|]. rewrite length_app. cbn. lia.
Qed.

Lemma wp_cleanup_loop now only rs m :
  leases_ok m → (∀ s, s ∈ rs → to_release only s = true → accurate_record m s) →
  wp (for_range rs (cleanup_one now only) tt)
     (λ r m', match r with
      | inl _ => leases_ok m' ∧ released_all (filter (λ s, to_release only s = true) rs) m m'
      | inr e => is_Some e ∧ released_part (filter (λ s, to_release only s = true) rs) m m'
      end)
     (released_part (filter (λ s, to_release only s = true) rs) m) m.
Proof using Type.
  intros Hok Hacc. set (keep := λ s, to_release only s = true).
  eapply wp_mono; [| |apply (wp_for_range _
    (λ pre _ m', leases_ok m' ∧ released_all (filter keep pre) m m' ∧
                 ∀ s, s ∈ rs → to_release only s = true → accurate_record m' s)
    (λ e m', is_Some e ∧ released_part (filter keep rs) m m') (released_part (filter keep rs) m))];
    [| | |split_and!; [done|by apply released_all_nil|done]]; [|done|].
  { intros [[]|e] m'; [|done]. tauto. }
  intros pre s post [] m1 Hrs (Hok1 & Hrel1 & Hacc1).
  destruct (to_release only s) eqn:Hs.
  - assert (Hin : s ∈ rs) by (rewrite Hrs; apply elem_of_app; right; by left).
    destruct (take_filter_prefix keep pre s post Hs) as [Ht1 Ht2]. rewrite <-Hrs in Ht1, Ht2.
    assert (Hpart : ∀ m', leases_ok m' → released_one s m1 m' → released_part (filter keep rs) m m').
    { intros m' Hok' Hr. split; [done|]. eexists. rewrite Ht2. by eapply released_all_snoc. }
    eapply wp_mono; [| |by apply wp_cleanup_one; auto].
    + rewrite Hs. intros [[]|e] m' [Hr Hok'].
      * split_and!; [done| |].
        -- rewrite filter_app, filter_cons_True, filter_nil by done. by eapply released_all_snoc.
        -- intros s' Hs' Hk. apply (accurate_record_released s s' m1); auto.
      * destruct Hr as (He & _ & [[Hc Ha]|Hr]); (split; [done|]); [|by apply Hpart].
        split; [done|]. eexists. rewrite Ht1. destruct Hrel1 as [H1' H2']. constructor; [by rewrite Hc|by rewrite Ha].
    + intros m' (_ & Hr & Hok'). by apply Hpart.
  - unfold cleanup_one. change (negb only || _) with (to_release only s). rewrite Hs. apply wp_ret.
    split_and!; [done| |done]. rewrite filter_app, filter_cons_False, filter_nil, app_nil_r by (unfold keep; by rewrite Hs). done.
Qed.

Lemma remove_record_ends now s : ends (remove_record now s).
Proof using Type. unfold remove_record. solve_ends. Qed.

Lemma cleanup_ends now v only : ends (cleanup now v only).
Proof using Type.
  unfold cleanup, cleanup_one. pose proof (λ s, ends_RetryOnConflict _ (remove_record_ends now s)). solve_ends.
Qed.

Lemma released_all_from rs m m1 m' : same_leases m m1 → released_all rs m1 m' → released_all rs m m'.
Proof using Type. intros [Hc Ha] [H1' H2']. constructor; [by rewrite <-Hc|by rewrite <-Ha]. Qed.

Lemma wp_cleanup now v only m :
  let rs := filter (λ s, to_release only s = true) (st_NetworkConfigs (vnc_Status v)) in
  leases_ok m → (∀ s, s ∈ rs → accurate_record m s) →
  wp (cleanup now v only)
    (λ r m', match r with
      | None => leases_ok m' ∧ released_all rs m m' | Some _ => released_part rs m m' end)
    (released_part rs m) m.
Proof using Type.
  intros rs Hok Hacc. unfold cleanup. apply wp_bind.
  assert (Hpart : ∀ m1 m', same_leases m m1 → released_part rs m1 m' → released_part rs m m').
  { intros m1 m' Hm1 (? & k & ?). split; [done|]. exists k. by eapply released_all_from. }
  assert (Hloop : ∀ m1, same_leases m m1 →
    wp (r ← for_range (st_NetworkConfigs (vnc_Status v)) (cleanup_one now only) tt;
        match r with inr err => mret err | inl _ => mret None end)
    (λ r m', match r with
      | None => leases_ok m' ∧ released_all rs m m' | Some _ => released_part rs m m' end)
    (released_part rs m) m1).
  { intros m1 Hm1. apply wp_bind. eapply wp_mono; [| |apply (wp_cleanup_loop now only _ m1)].
    - intros [[]|e] m'; [intros [? ?]|intros [[e' ->] ?]]; apply wp_ret; [|by eapply Hpart].
      split; [done|]. by eapply released_all_from.
    - intros m' ?. by eapply Hpart.
    - by eapply same_leases_ok.
    - intros s Hs Hk. destruct Hm1 as [Hc Ha]. unfold accurate_record. rewrite Hc, Ha. apply Hacc.
      by apply list_elem_of_filter. }
  destruct (negb only); [apply wp_on_metrics|apply wp_ret]; by apply Hloop.
Qed.

(** C16: when every record to be released is accurate (its MAC holds its
    address, or neither is known), [cleanup] never gives anything else away:
    on success exactly the records of the status are gone (the stale ones only, if
    asked so), from the cache and from the allocator, and every other lease is as
    before; when a call fails half way, or a pool has no status and the handler
    panics, an initial part of the records is gone.  The invariant holds in every
    case, and the loop ends. *)
Theorem cleanup_spec (now : Z) (v : VmNetCfg) (only : bool) (m : Management) :
  let rs := filter (λ s, to_release only s = true) (st_NetworkConfigs (vnc_Status v)) in
  leases_ok m → (∀ s, s ∈ rs → accurate_record m s) →
  let '(m', r) := cleanup now v only m in
  leases_ok m' ∧
  match r with
  | Val None => released_all rs m m'
  | Val (Some _) | Panic _ => ∃ k, released_all (take k rs) m m'
  | Diverge => False
  end.
Proof using Type.
  intros rs Hok Hacc. pose proof (cleanup_ends now v only m) as Hend.
  pose proof (wp_cleanup now v only m Hok Hacc) as Hwp. unfold wp in Hwp.
  by destruct (cleanup now v only m) as [m' [[e|]|w|]].
Qed.

(** ** Sync *)

Lemma released_all_marked macs rs m m' :
  released_all (mark_stale macs <$> rs) m m' → released_all rs m m'.
Proof using Type.
  assert (Hk : ∀ s, ncs_NetworkName (mark_stale macs s) = ncs_NetworkName s ∧
      ncs_MACAddress (mark_stale macs s) = ncs_MACAddress s ∧
      AllocatedIPAddress (mark_stale macs s) = AllocatedIPAddress s).
  { intros s. unfold mark_stale. by case_bool_decide. }
  intros [Hc Ha]. constructor; intros; [rewrite Hc|rewrite Ha]; rewrite <-list_fmap_compose.
  - erewrite (list_fmap_ext _ (λ s, (ncs_NetworkName s, ncs_MACAddress s))); [done|].
    intros ? s _. cbn. by destruct (Hk s) as (-> & -> & _).
  - erewrite (list_fmap_ext _ (λ s, (ncs_NetworkName s, AllocatedIPAddress s))); [done|].
    intros ? s _. cbn. by destruct (Hk s) as (-> & _ & ->).
Qed.

(** The entries [Sync] gives up: the MAC left the spec, or they were stale before. *)
Definition given_up (macs : gset string) (s : NetworkConfigStatus) : Prop :=
  ncs_MACAddress s ∉ macs ∨ State s = StaleState.

#[export] Instance given_up_dec macs s : Decision (given_up macs s).
Proof using Type. unfold given_up. apply _. Defined.

Lemma to_release_marked macs (rs : list NetworkConfigStatus) :
  filter (λ s, to_release true s = true) (mark_stale macs <$> rs) = mark_stale macs <$> filter (given_up macs) rs.
Proof using Type.
  induction rs as [|s rs IH]; [done|]. rewrite fmap_cons.
  assert (Hs : to_release true (mark_stale macs s) = true ↔ given_up macs s).
  { unfold to_release, mark_stale, given_up. cbn [negb orb]. rewrite bool_decide_eq_true.
    case_bool_decide; cbn [State set_State].
    - split; [by right|]. by intros [?|?].
    - split; [by left|done]. }
  destruct (decide (given_up macs s)) as [Hg|Hg].
  - rewrite !filter_cons_True by (by rewrite ?Hs). by rewrite fmap_cons, IH.
  - rewrite !filter_cons_False by (by rewrite ?Hs). done.
Qed.

Definition spec_macs (v : VmNetCfg) : gset string :=
  list_to_set (nc_MACAddress <$> NetworkConfigs (vnc_Spec v)).

Lemma wp_Sync now v m :
  let gone := filter (given_up (spec_macs v)) (st_NetworkConfigs (vnc_Status v)) in
  is_paused (vnc_Paused (vnc_Spec v)) = false → IsTrue InSynced (vnc_Conditions (vnc_Status v)) = false →
  leases_ok m → (∀ s, s ∈ gone → accurate_record m s) →
  wp (Sync now true v (vnc_Status v))
    (λ r m', leases_ok m' ∧
       match r.2 with
       | None => released_all gone m m' ∧ r.1 = set_st_NetworkConfigs (vnc_Status v)
                   (filter (λ s, ncs_MACAddress s ∈ spec_macs v) (st_NetworkConfigs (vnc_Status v)))
       | Some _ => ∃ k, released_all (take k gone) m m'
       end)
    (released_part gone m) m.
Proof using Type.
  intros gone Hp Hs Hok Hacc. unfold Sync. rewrite Hp, Hs. cbv zeta. fold (spec_macs v).
  set (v' := set_vnc_Status v _).
  assert (Hgone : filter (λ s, to_release true s = true) (st_NetworkConfigs (vnc_Status v')) =
                  mark_stale (spec_macs v) <$> gone) by apply to_release_marked.
  assert (Hpart : ∀ m', released_part (mark_stale (spec_macs v) <$> gone) m m' → released_part gone m m').
  { intros m' (? & k & Hk). split; [done|]. exists k. rewrite <-fmap_take in Hk.
    by eapply released_all_marked. }
  pose proof (wp_cleanup now v' true m Hok) as Hwp. cbv zeta in Hwp. rewrite Hgone in Hwp.
  apply wp_bind. eapply wp_mono; [|exact Hpart|apply Hwp].
  - intros [e|] m' Hr; apply wp_ret; cbn [fst snd]; [by apply Hpart|].
    destruct Hr as [? Hrel]. split; [done|]. split; [|done]. by eapply released_all_marked.
  - intros s (s0 & -> & Hin)%list_elem_of_fmap. specialize (Hacc _ Hin). unfold mark_stale. by case_bool_decide.
Qed.

Lemma Sync_ends now shared v status : ends (Sync now shared v status).
Proof using Type. unfold Sync. pose proof (λ v, cleanup_ends now v true). solve_ends. Qed.

(** C20: on the object and its own status, as the generated handler calls it,
    [Sync] on an unpaused object that is not in sync releases exactly the entries
    whose MAC left the spec (and those already marked stale), leaves every other
    lease as it was, and on success the status lists the entries whose MAC is in
    the spec, in order, the conditions untouched. *)
Theorem Sync_spec (now : Z) (v : VmNetCfg) (m : Management) :
  let gone := filter (given_up (spec_macs v)) (st_NetworkConfigs (vnc_Status v)) in
  is_paused (vnc_Paused (vnc_Spec v)) = false → IsTrue InSynced (vnc_Conditions (vnc_Status v)) = false →
  leases_ok m → (∀ s, s ∈ gone → accurate_record m s) →
  let '(m', r) := Sync now true v (vnc_Status v) m in
  leases_ok m' ∧
  match r with
  | Val (status', None) => released_all gone m m' ∧
      status' = set_st_NetworkConfigs (vnc_Status v)
        (filter (λ s, ncs_MACAddress s ∈ spec_macs v) (st_NetworkConfigs (vnc_Status v)))
  | Val (_, Some _) | Panic _ => ∃ k, released_all (take k gone) m m'
  | Diverge => False
  end.
Proof using Type.
  intros gone Hp Hs Hok Hacc. pose proof (Sync_ends now true v (vnc_Status v) m) as Hend.
  pose proof (wp_Sync now v m Hp Hs Hok Hacc) as Hwp. unfold wp in Hwp.
  by destruct (Sync now true v (vnc_Status v) m) as [m' [[status' [e|]]|w|]].
Qed.

(** Nothing is marked, nothing is released. *)
Lemma cleanup_nothing now v m :
  (∀ s, s ∈ st_NetworkConfigs (vnc_Status v) → State s ≠ StaleState) → cleanup now v true m = (m, Val None).
Proof using Type.
  intros Hno. unfold cleanup. cbn [negb]. unfold mbind at 1, GoM_bind, mret, GoM_ret.
  enough (Hl : ∀ rs, (∀ s, s ∈ rs → State s ≠ StaleState) →
     for_range rs (cleanup_one now true) tt m = (m, Val (inl tt))) by (unfold mbind; by rewrite Hl).
  induction rs as [|s rs IH]; intros Hrs; [done|].
  assert (Hs0 : State s ≠ StaleState) by (apply Hrs; by left).
  cbn [for_range]. unfold mbind, GoM_bind, cleanup_one. cbn [negb orb].
  rewrite bool_decide_eq_false_2 by done. apply IH. intros ? ?. apply Hrs. by right.
Qed.

(** The release goes through the slice the two arguments
    share: given a status of its own, [Sync] of an object without stale marks drops
    the entries from the status and releases nothing. *)
Theorem Sync_needs_sharing (now : Z) (v : VmNetCfg) (status : VmNetCfgStatus) (m : Management) :
  is_paused (vnc_Paused (vnc_Spec v)) = false → IsTrue InSynced (vnc_Conditions (vnc_Status v)) = false →
  (∀ s, s ∈ st_NetworkConfigs (vnc_Status v) → State s ≠ StaleState) →
  Sync now false v status m =
    (m, Val (set_st_NetworkConfigs status
               (filter (λ s, ncs_MACAddress s ∈ spec_macs v) (st_NetworkConfigs status)), None)).
Proof using Type.
  intros Hp Hs Hno. unfold Sync. rewrite Hp, Hs. cbv zeta. unfold mbind, GoM_bind.
  by rewrite cleanup_nothing.
Qed.

(** ** OnChange *)

(** The records a handler may release when it runs on [v]. *)
Definition may_release (v : VmNetCfg) (s : NetworkConfigStatus) : Prop :=
  is_paused (vnc_Paused (vnc_Spec v)) = true ∨ is_Some (DeletionTimestamp (vnc_Meta v)) ∨ given_up (spec_macs v) s.

Definition release_accurate (v : VmNetCfg) (m : Management) : Prop :=
  ∀ s, s ∈ st_NetworkConfigs (vnc_Status v) → may_release v s → accurate_record m s.

Lemma wp_cleanup_ok now v m :
  leases_ok m → (∀ s, s ∈ st_NetworkConfigs (vnc_Status v) → accurate_record m s) →
  wp (cleanup now v false) (λ _, leases_ok) leases_ok m.
Proof using Type.
  intros Hok Hacc. eapply wp_mono; [| |apply wp_cleanup; [done|]].
  - by intros [e|] m' [? _].
  - by intros m' [? _].
  - intros s [_ Hs]%list_elem_of_filter. by apply Hacc.
Qed.

Lemma wp_return_update {A} (f : World → World * result A) m :
  leases_ok m → wp (return_update (request f)) (λ _, leases_ok) leases_ok m.
Proof using Type.
  intros Hok. unfold return_update. apply wp_bind, wp_request.
  by destruct (f (world m)) as [w [o|e]]; apply wp_ret.
Qed.

Lemma wp_Sync_ok now v m :
  leases_ok m → release_accurate v m → wp (Sync now true v (vnc_Status v)) (λ _, leases_ok) leases_ok m.
Proof using Type.
  intros Hok Hacc. destruct (is_paused (vnc_Paused (vnc_Spec v))) eqn:Hp.
  { unfold Sync. rewrite Hp. by apply wp_ret. }
  destruct (IsTrue InSynced (vnc_Conditions (vnc_Status v))) eqn:Hs.
  { unfold Sync. rewrite Hp, Hs. by apply wp_ret. }
  eapply wp_mono; [| |apply wp_Sync; try done].
  - by intros r m' [? _].
  - by intros m' [? _].
  - intros s [Hg Hin]%list_elem_of_filter. apply Hacc; [done|]. right. by right.
Qed.

Lemma wp_OnChange_ok now v m :
  leases_ok m → (∀ o, v = Some o → release_accurate o m) → wp (OnChange now v) (λ _, leases_ok) leases_ok m.
Proof using Type.
  intros Hok Hacc. unfold OnChange. destruct v as [v|]; [|by apply wp_ret].
  destruct (DeletionTimestamp (vnc_Meta v)); [by apply wp_ret|].
  destruct (is_paused (vnc_Paused (vnc_Spec v))) eqn:Hp; cbv zeta.
  - apply wp_bind. eapply wp_mono; [| |apply wp_cleanup_ok; [done|]]; [|done|].
    + intros [e|] m1 Hok1; [by apply wp_ret|]. destruct (negb _); [by apply wp_return_update|by apply wp_ret].
    + intros s Hs. apply (Hacc v eq_refl s Hs). by left.
  - destruct (negb _); [by apply wp_return_update|by apply wp_ret].
Qed.

Lemma wp_OnRemove_ok now v m :
  leases_ok m → (∀ o, v = Some o → is_Some (DeletionTimestamp (vnc_Meta o)) ∧ release_accurate o m) →
  wp (OnRemove now v) (λ _, leases_ok) leases_ok m.
Proof using Type.
  intros Hok Hacc. unfold OnRemove. destruct v as [v|]; [|by apply wp_ret].
  destruct (Hacc v eq_refl) as [Hdel Hv].
  apply wp_bind. eapply wp_mono; [| |apply wp_cleanup_ok; [done|]]; [|done|].
  - by intros [e|] m1 Hok1; apply wp_ret.
  - intros s Hs. apply Hv; [done|]. right. by left.
Qed.

(** An object that is not paused keeps its leases whatever
    the API server answers; once its [Disabled] condition is false, [OnChange]
    changes nothing at all. *)
Theorem OnChange_unpaused (now : Z) (v : VmNetCfg) (m : Management) :
  DeletionTimestamp (vnc_Meta v) = None → is_paused (vnc_Paused (vnc_Spec v)) = false →
  ∃ m' r, OnChange now (Some v) m = (m', Val r) ∧ same_leases m m' ∧
    MetricsAllocator_ m' = MetricsAllocator_ m ∧
    (GetStatus Disabled (vnc_Conditions (vnc_Status v)) = "False" → m' = m ∧ r = (Some v, None)).
Proof using Type.
  intros Hd Hp. unfold OnChange. rewrite Hd, Hp. cbv zeta.
  assert (Hsame : GetStatus Disabled (vnc_Conditions (vnc_Status v)) = "False" →
    vnc_cond (SetFalse Disabled) v = v).
  { intros Hs. unfold vnc_cond. rewrite SetFalse_spec, SetStatus_same by done. by destruct v as [? ? ? []]. }
  destruct (DeepEqual _ _) eqn:Heq; cbn [negb].
  { eexists _, _. split; [done|]. split_and!; done. }
  unfold return_update, mbind, GoM_bind, request, go_state.
  destruct (vmnetcfgClient_UpdateStatus _ _) as [w [o|e]]; eexists _, _; (split; [done|]);
    (split_and!; [done..|]); intros Hs; exfalso; apply bool_decide_eq_false in Heq; by apply Heq, Hsame.
Qed.

(** ** Releasing an address somebody else holds *)

Lemma quiet_retry more (fn : GoM Management (option error)) : quiet fn → quiet (retry_conflict more fn).
Proof using Type.
  intros Hf. induction more as [|more IH]; cbn [retry_conflict]; (apply quiet_bind; [done|]); intros [e|]; solve_quiet.
Qed.

Lemma quiet_remove_records now s : quiet (RetryOnConflict (remove_record now s)).
Proof using Type.
  intros m. destruct (RetryOnConflict_spec _ (remove_record now s) m) as [more ->].
  apply quiet_retry. unfold remove_record. solve_quiet.
Qed.

(** The MAC holds the address, and the IPAM offers it as free. *)
Definition held_but_free (name mac ip : string) (m : Management) : Prop :=
  holds m name mac ip ∧ well_formed (IPAllocator_ m) ∧
  ∃ sn, IPAllocator_ m !! name = Some sn ∧ sn_ips sn !! ip = Some false.

Lemma held_but_free_same name mac ip m m' :
  same_leases m m' → held_but_free name mac ip m → held_but_free name mac ip m'.
Proof using Type. intros [Hc Ha]. unfold held_but_free, holds. by rewrite Hc, Ha. Qed.

Lemma held_but_free_quiet {A} (f : GoM Management A) name mac ip m :
  quiet f → held_but_free name mac ip m → wp f (λ _, held_but_free name mac ip) (held_but_free name mac ip) m.
Proof using Type.
  intros Hf Hm. unfold wp. pose proof (Hf m) as Hs. destruct (f m) as [m' [a|w|]]; by eapply held_but_free_same.
Qed.

Lemma DeallocateIP_free name' ip' name ip a sn :
  a !! name = Some sn → sn_ips sn !! ip = Some false →
  ∃ sn', (DeallocateIP name' ip' a).1 !! name = Some sn' ∧ sn_ips sn' !! ip = Some false.
Proof using Type.
  intros Hsn Hf. destruct (DeallocateIP name' ip' a) as [a' e] eqn:Hd.
  destruct (DeallocateIP_frame _ _ _ _ _ Hd) as [(_ & sn0 & Hsn0 & _ & ->)|[_ ->]]; [|by exists sn].
  cbn [fst]. destruct (decide (name = name')) as [<-|Hne]; [|rewrite lookup_insert_ne by done; by exists sn].
  rewrite lookup_insert_eq. eexists. split; [done|]. assert (sn0 = sn) as -> by congruence. cbn.
  destruct (decide (ip = ip')) as [<-|Hi]; [by rewrite lookup_insert_eq|by rewrite lookup_insert_ne].
Qed.

(** The first of the entries to go: the address is released, whoever holds it. *)
Lemma wp_cleanup_one_lost now s mac m :
  let name := ncs_NetworkName s in
  let ip := AllocatedIPAddress s in
  leases_ok m → holds m name mac ip → ncs_MACAddress s ≠ mac →
  wp (cleanup_one now false s tt) (λ _, held_but_free name mac ip) (held_but_free name mac ip) m.
Proof using Type.
  intros name ip Hok Hh Hne. pose proof (leases_ok_allocated _ _ _ _ Hok Hh) as (sn & Hsn & Ht).
  pose proof (coh_wf _ _ Hok) as Hwf. unfold cleanup_one. cbn [negb orb]. fold name ip.
  apply wp_bind, wp_gets. unfold IsAllocated. rewrite Hsn, Ht. apply wp_bind, wp_on_ipam.
  assert (Hd : (DeallocateIP name ip (IPAllocator_ m)) = (<[name := set_ips sn (<[ip := false]> (sn_ips sn))]> (IPAllocator_ m), None)).
  { unfold DeallocateIP. rewrite Hsn, Ht. destruct (Hwf _ _ Hsn) as (b & p & P & HR).
    pose proof Ht as (n & _ & Hn)%(rep_lookup _ _ _ _ HR). rewrite Hn.
    by rewrite (proj2 (String.eqb_neq _ _) (v4str_nonempty n)). }
  pose proof (DeallocateIP_wf name ip _ Hwf) as Hwf'. rewrite Hd in Hwf' |- *. cbn [fst snd] in *.
  set (m1 := set_ipam m _). assert (Hm1 : held_but_free name mac ip m1).
  { split; [done|]. split; [done|]. eexists. unfold m1. cbn [IPAllocator_ set_ipam]. rewrite lookup_insert_eq. split; [done|].
    cbn. by rewrite lookup_insert_eq. }
  apply wp_bind, wp_gets. destruct (HasMAC _ _ _) as [b [e|]] eqn:Hhas; [by apply wp_ret|].
  apply HasMAC_cached in Hhas. apply wp_bind. eapply wp_mono; [| |apply wp_release_mac; exact Hhas]; [|done].
  intros e m2 (-> & Hi2 & Hc2). assert (Hm2 : held_but_free name mac ip m2).
  { destruct Hm1 as (Hh1 & Hrest). split; [|by rewrite Hi2]. unfold holds. rewrite Hc2, decide_False; [done|].
    intros [_ Heq]. by apply Hne. }
  apply wp_bind. eapply wp_mono; [| |apply held_but_free_quiet; [apply quiet_remove_records|exact Hm2]]; [|done].
  by intros [e|] m3 Hm3; apply wp_ret.
Qed.

(** Other entries do not mend it. *)
Lemma wp_cleanup_one_others now only s name mac ip m :
  held_but_free name mac ip m → (ncs_NetworkName s = name → ncs_MACAddress s ≠ mac) →
  wp (cleanup_one now only s tt) (λ _, held_but_free name mac ip) (held_but_free name mac ip) m.
Proof using Type.
  intros Hm Hne. unfold cleanup_one. destruct (_ || _); [|by apply wp_ret].
  apply wp_bind, wp_gets. destruct (IsAllocated _ _ _) as [b [e|]]; [by apply wp_ret|].
  apply wp_bind. eapply (wp_mono _ (λ _, held_but_free name mac ip) _ (held_but_free name mac ip)); [|done|].
  2: { destruct b; [|by apply wp_ret]. apply wp_on_ipam. destruct Hm as (Hh & Hwf & sn & Hsn & Hf).
       split; [done|]. split; [by apply DeallocateIP_wf|]. by eapply DeallocateIP_free. }
  intros [e|] m1 Hm1; [by apply wp_ret|].
  apply wp_bind, wp_gets. destruct (HasMAC _ _ _) as [b' [e|]] eqn:Hhas; [by apply wp_ret|].
  apply HasMAC_cached in Hhas. apply wp_bind. eapply wp_mono; [| |apply wp_release_mac; exact Hhas]; [|done].
  intros e m2 (-> & Hi2 & Hc2). assert (Hm2 : held_but_free name mac ip m2).
  { destruct Hm1 as (Hh1 & Hrest). split; [|by rewrite Hi2]. unfold holds. rewrite Hc2, decide_False; [done|].
    intros [Heq1 Heq2]. by apply Hne. }
  apply wp_bind. eapply wp_mono; [| |apply held_but_free_quiet; [apply quiet_remove_records|exact Hm2]]; [|done].
  by intros [e|] m3 Hm3; apply wp_ret.
Qed.

Lemma wp_cleanup_lost now v s rest mac m :
  let name := ncs_NetworkName s in
  let ip := AllocatedIPAddress s in
  leases_ok m → st_NetworkConfigs (vnc_Status v) = s :: rest → holds m name mac ip →
  (∀ s', s' ∈ s :: rest → ncs_NetworkName s' = name → ncs_MACAddress s' ≠ mac) →
  wp (cleanup now v false) (λ _, held_but_free name mac ip) (held_but_free name mac ip) m.
Proof using Type.
  intros name ip Hok Hst Hh Hne. unfold cleanup. rewrite Hst. cbn [negb]. apply wp_bind, wp_on_metrics.
  set (m0 := set_metrics m _). apply wp_bind.
  eapply wp_mono; [| |apply (wp_for_range _
    (λ pre _ m', if decide (pre = []) then m' = m0 else held_but_free name mac ip m')
    (λ _, held_but_free name mac ip) (held_but_free name mac ip))]; [|done| |by rewrite decide_True].
  - intros [[]|e] m' Hm'; apply wp_ret; done.
  - intros pre s' post [] m' Hrs Hm'. case_decide as Hpre.
    + subst pre m'. injection Hrs as <- <-. eapply wp_mono; [| |apply (wp_cleanup_one_lost now s mac m0)].
      * by intros [[]|e] m'.
      * done.
      * done.
      * done.
      * by apply Hne; [left|].
    + eapply wp_mono; [| |apply (wp_cleanup_one_others now false s' name mac ip m' Hm')].
      * intros [[]|e] m2 Hm2; [|done]. rewrite decide_False; [done|]. by destruct pre.
      * done.
      * apply Hne. rewrite Hrs. apply elem_of_app. right. left.
Qed.

(** C39: the record of a paused object is not accurate any more once its address was given
    to another MAC, and [OnChange] of the paused object releases the address again all the
    same: whatever the API server answers, and whether or not the rest of the cleanup
    fails, the other MAC still holds the address, and every further request for it is
    granted.  ([paused_twice_unsafe]: two ordinary reconciles lead to such a state.) *)
Theorem paused_release_frees_others_address (now : Z) (v : VmNetCfg) (s : NetworkConfigStatus)
    (rest : list NetworkConfigStatus) (mac : string) (m : Management) :
  let name := ncs_NetworkName s in
  let ip := AllocatedIPAddress s in
  leases_ok m → DeletionTimestamp (vnc_Meta v) = None → is_paused (vnc_Paused (vnc_Spec v)) = true →
  st_NetworkConfigs (vnc_Status v) = s :: rest → holds m name mac ip →
  (∀ s', s' ∈ s :: rest → ncs_NetworkName s' = name → ncs_MACAddress s' ≠ mac) → ip ≠ "0.0.0.0" →
  let m' := (OnChange now (Some v) m).1 in
  holds m' name mac ip ∧ ∀ seed, ∃ a', AllocateIP seed name ip (IPAllocator_ m') = (a', (ip, None)).
Proof using Type.
  cbv zeta. intros Hok Hdel Hp Hst Hh Hne Hip.
  assert (Hwp : wp (OnChange now (Some v)) (λ _, held_but_free (ncs_NetworkName s) mac (AllocatedIPAddress s))
    (held_but_free (ncs_NetworkName s) mac (AllocatedIPAddress s)) m).
  { unfold OnChange. rewrite Hdel, Hp. cbv zeta. apply wp_bind.
    eapply wp_mono; [| |by apply (wp_cleanup_lost now v s rest mac m)]; [|done].
    intros [e|] m1 Hm1; [by apply wp_ret|]. destruct (negb _); [|by apply wp_ret].
    apply held_but_free_quiet; [unfold return_update; solve_quiet|done]. }
  assert (Hend : held_but_free (ncs_NetworkName s) mac (AllocatedIPAddress s) (OnChange now (Some v) m).1).
  { unfold wp in Hwp. by destruct (OnChange now (Some v) m) as [m' [r|w|]]. }
  destruct Hend as (Hh' & Hwf & sn & Hsn & Hf). split; [done|]. intros seed.
  destruct (Hwf _ _ Hsn) as (base & plen & P & HR). pose proof Hf as (n & Hn & Heq)%(rep_lookup _ _ _ _ HR).
  rewrite Heq in *. eexists. apply (AllocateIP_take seed _ n _ _ _ _ _ Hsn HR); [| |done].
  - apply (rep_u32 HR), elem_of_union. by left.
  - intros ->. by apply Hip.
Qed.
End facts.

(** ** Concrete runs *)

Import FakeKube.Demo.

(** vm-1 holds .10; vm-2 asks for .10. *)
Definition vm1 (paused : option bool) : VmNetCfg :=
  vmnetcfg "vm-1" paused [nic mac1 None] [lease mac1 "192.168.0.10"] "True".
Definition vm2 : VmNetCfg := vmnetcfg "vm-2" None [nic mac2 (Some "192.168.0.10")] [] "True".
Definition vm3 : VmNetCfg := vmnetcfg "vm-3" None [nic mac3 (Some "192.168.0.10")] [] "True".

Definition one_lease (paused : option bool) : Management :=
  with_lease mac1 "192.168.0.10" (management
    (api [pool "True" (Some {[ "192.168.0.10" := mac1 ]})] [vm1 paused; vm2; vm3])).

Lemma one_lease_ok p : leases_ok (one_lease p) ∧ holds (one_lease p) "default/net-1" mac1 "192.168.0.10".
Proof.
  apply demo_lease_ok; [apply demo_ok|vm_compute; reflexivity..].
Qed.

Lemma Allocate_spec_witness :
  let m := management (api [pool "True" None] [vm2]) in
  let out := Allocate 0 7 vm2 (vnc_Status vm2) m in
  leases_ok out.1 ∧
  out.2 = Val (set_st_NetworkConfigs (vnc_Status vm2) [lease mac2 "192.168.0.10"], None) ∧
  is_allocated (IPAllocator_ out.1) "default/net-1" "192.168.0.10".
Proof.
  intros m out. pose proof (Allocate_spec 0 7 vm2 (vnc_Status vm2) m (demo_ok _)) as Hspec.
  assert (Hout : out.2 = Val (set_st_NetworkConfigs (vnc_Status vm2) [lease mac2 "192.168.0.10"], None))
    by (vm_compute; reflexivity).
  destruct Hspec as (m' & status' & err & Hrun & Hok & _ & Hr). fold out in Hrun.
  rewrite Hrun in Hout |- *. cbn [fst snd] in *. injection Hout as -> ->.
  destruct Hr as (_ & _ & _ & _ & _ & Hal & _). split; [exact Hok|]. split; [reflexivity|].
  apply (Hal (lease mac2 "192.168.0.10")). left.
Defined.

Lemma Allocate_settled_witness :
  ∃ g, Allocate 0 7 (vm1 None) (vnc_Status (vm1 None)) (one_lease None) =
    (set_metrics (one_lease None) g,
     Val (set_st_NetworkConfigs (vnc_Status (vm1 None)) [lease mac1 "192.168.0.10"], None)).
Proof.
  apply (Allocate_settled 0 7 (vm1 None) (vnc_Status (vm1 None)) ["192.168.0.10"] (one_lease None));
    [reflexivity|reflexivity|discriminate|].
  constructor; [|constructor]. split; [apply one_lease_ok|].
  exists (pool "True" (Some {[ "192.168.0.10" := mac1 ]})). do 2 eexists.
  split; [vm_compute; reflexivity|]. split; [reflexivity|]. split; [reflexivity|]. split; reflexivity.
Defined.

Lemma cleanup_spec_witness :
  let out := cleanup 7 (vm1 (Some true)) false (one_lease (Some true)) in
  leases_ok out.1 ∧ out.2 = Val None ∧
  ¬ is_allocated (IPAllocator_ out.1) "default/net-1" "192.168.0.10" ∧
  cached_text (CacheAllocator_ out.1) "default/net-1" mac1 = None.
Proof.
  destruct (one_lease_ok (Some true)) as [Hok Hheld].
  intros out. assert (Hout : out.2 = Val None) by (vm_compute; reflexivity).
  pose proof (cleanup_spec 7 (vm1 (Some true)) false (one_lease (Some true)) Hok) as Hspec.
  cbv zeta in Hspec. fold out in Hspec. destruct out as [m' r]. cbn [fst snd] in *. subst r.
  destruct Hspec as [Hok' [Hc Ha]].
  { intros s [_ Hs]%list_elem_of_filter. apply list_elem_of_singleton in Hs as ->. left. exact Hheld. }
  split; [exact Hok'|]. split; [reflexivity|]. split.
  - intros [Hno _]%Ha. apply Hno. left.
  - rewrite Hc, decide_True; [reflexivity|]. left.
Defined.

(** vm-2 took over from vm-1: the spec has another MAC. *)
Definition vm1_changed : VmNetCfg :=
  vmnetcfg "vm-1" None [nic mac2 None] [lease mac1 "192.168.0.10"; lease mac2 "192.168.0.11"] "False".

Lemma Sync_spec_witness :
  let out := Sync 7 true vm1_changed (vnc_Status vm1_changed) (one_lease None) in
  leases_ok out.1 ∧
  out.2 = Val (set_st_NetworkConfigs (vnc_Status vm1_changed) [lease mac2 "192.168.0.11"], None) ∧
  ¬ is_allocated (IPAllocator_ out.1) "default/net-1" "192.168.0.10".
Proof.
  destruct (one_lease_ok None) as [Hok Hheld]. intros out.
  assert (Hout : out.2 = Val (set_st_NetworkConfigs (vnc_Status vm1_changed) [lease mac2 "192.168.0.11"], None))
    by (vm_compute; reflexivity).
  assert (Hgone : filter (given_up (spec_macs vm1_changed)) (st_NetworkConfigs (vnc_Status vm1_changed)) =
    [lease mac1 "192.168.0.10"]) by (vm_compute; reflexivity).
  pose proof (Sync_spec 7 vm1_changed (one_lease None)) as Hspec. cbv zeta in Hspec. rewrite Hgone in Hspec.
  specialize (Hspec eq_refl eq_refl Hok). fold out in Hspec. destruct out as [m' r]. cbn [fst snd] in *. subst r.
  destruct Hspec as [Hok' [[_ Ha] _]].
  { intros s Hs%list_elem_of_singleton. subst s. left. exact Hheld. }
  split; [exact Hok'|]. split; [reflexivity|]. intros [Hno _]%Ha. apply Hno. left.
Defined.

Lemma Sync_needs_sharing_witness :
  Sync 7 false vm1_changed (vnc_Status vm1_changed) (one_lease None) =
    (one_lease None, Val (set_st_NetworkConfigs (vnc_Status vm1_changed) [lease mac2 "192.168.0.11"], None)).
Proof.
  refine (eq_trans (Sync_needs_sharing 7 vm1_changed (vnc_Status vm1_changed) (one_lease None) eq_refl eq_refl _) _).
  - intros s Hs. cbn in Hs. repeat (apply elem_of_cons in Hs as [->|Hs]; [discriminate|]). by apply elem_of_nil in Hs.
  - f_equal; vm_compute; reflexivity.
Defined.

Lemma OnChange_unpaused_witness :
  let v := vnc_cond (SetFalse Disabled) (vm1 None) in
  OnChange 7 (Some v) (one_lease None) = (one_lease None, Val (Some v, None)).
Proof.
  intros v. destruct (OnChange_unpaused 7 v (one_lease None)) as (m' & r & Hrun & _ & _ & Hquiet);
    [reflexivity|reflexivity|]. destruct Hquiet as [-> ->]; [vm_compute; reflexivity|exact Hrun].
Defined.

(** ** Two holders of one address *)

(** vm-1 was paused while it held .10 and is reconciled once more after vm-2 was
    given .10. *)
Definition paused_twice : Management :=
  let m := (OnChange 1 (Some (vm1 (Some true))) (one_lease (Some true))).1 in
  let m := (Allocate 0 2 vm2 (vnc_Status vm2) m).1 in
  let m := match vmnetcfgCache_Get (world m) "default" "vm-1" with
           | inl v => (OnChange 3 (Some v) m).1
           | inr _ => m
           end in
  (Allocate 0 4 vm3 (vnc_Status vm3) m).1.

(** The record of a paused object is not
    accurate any more once its address was given to another: [OnChange] of the
    paused object releases the address again, and a third interface is given it
    while the second still holds it. *)
Lemma paused_twice_unsafe :
  holds paused_twice "default/net-1" mac2 "192.168.0.10" ∧
  holds paused_twice "default/net-1" mac3 "192.168.0.10" ∧ ¬ leases_ok paused_twice.
Proof.
  assert (Ha : holds paused_twice "default/net-1" mac2 "192.168.0.10") by (vm_compute; reflexivity).
  assert (Hb : holds paused_twice "default/net-1" mac3 "192.168.0.10") by (vm_compute; reflexivity).
  split; [exact Ha|]. split; [exact Hb|]. intros Hok. by pose proof (coh_inj _ _ Hok _ _ _ _ Ha Hb).
Qed.

Lemma paused_release_frees_others_address_witness :
  let m := with_lease mac2 "192.168.0.10" (management (api [pool "True" (Some {[ "192.168.0.10" := mac2 ]})] [])) in
  let m' := (OnChange 3 (Some (vm1 (Some true))) m).1 in
  holds m' "default/net-1" mac2 "192.168.0.10" ∧
  ∃ a', AllocateIP 0 "default/net-1" "192.168.0.10" (IPAllocator_ m') = (a', ("192.168.0.10", None)).
Proof.
  intros m m'. assert (Hm : leases_ok m ∧ holds m "default/net-1" mac2 "192.168.0.10").
  { apply demo_lease_ok; [apply demo_ok|vm_compute; reflexivity..]. }
  destruct Hm as [Hok Hh].
  destruct (paused_release_frees_others_address 3 (vm1 (Some true)) (lease mac1 "192.168.0.10") [] mac2 m Hok
    eq_refl eq_refl eq_refl Hh) as [Hh' Hgrant].
  - intros s Hs _. apply list_elem_of_singleton in Hs as ->. discriminate.
  - discriminate.
  - split; [exact Hh'|apply Hgrant].
Defined.
