(* ===== verification/IpPool.v ===== *)
(** * The IPPool controller ([pkg/controller/ippool])

    Handlers run on the shared [Management] state.  [now] is the time of the call,
    [seed] names the map iterations, [h] holds the handler's options. *)

From S2P Require Import Prelude GoNet GoText Api Util Ipam MacCache Metrics Webhook Kube Image.
Local Open Scope go_scope.

(** ** Constants *)

Definition multusNetworksAnnotationKey : string := "k8s.v1.cni.cncf.io/networks".
Definition holdIPPoolAgentUpgradeAnnotationKey : string := "network.harvesterhci.io/hold-ippool-agent-upgrade".
Definition vmDHCPControllerLabelKey : string := GroupName +:+ "/vm-dhcp-controller".
Definition clusterNetworkLabelKey : string := GroupName +:+ "/clusternetwork".

(** [fmt.Sprintf(setIPAddrScript, serverIP, prefixLength)] *)
Definition setIPAddrScript (serverIP : string) (prefixLength : Z) : string :=
  "
#!/usr/bin/env sh
set -ex

ip address flush dev eth1
ip address add " +:+ serverIP +:+ "/" +:+ pretty prefixLength +:+ " dev eth1
".

Definition runAsUserID : Z := 0.
Definition runAsGroupID : Z := 0.

Record Network : Type := mkNetwork {
  net_Namespace : string;
  net_Name : string;
  InterfaceName : string;
}.

(** The options part of [Handler]; allocators and clients are in [Management]. *)
Record Handler : Type := mkHandler {
  agentNamespace : string;
  agentImage : Image;
  agentServiceAccountName : string;
  noAgent : bool;
  noDHCP : bool;
}.

(** ** common.go: the agent pod *)

(** [json.Marshal(networks)] *)
Definition Marshal_networks (networks : list Network) : string :=
  json_list ((λ n, json_object [json_field "namespace" (json_quote (net_Namespace n));
                                json_field "name" (json_quote (net_Name n));
                                json_field "interface" (json_quote (InterfaceName n))]) <$> networks).

Section pod.
Context `{KvLib}.

Definition prepareAgentPod (ipPool : IPPool) (noDHCP : bool) (agentNamespace clusterNetwork
    agentServiceAccountName : string) (agentImage : Image) : result Pod :=
  let cfg := ipv4Config (pool_Spec ipPool) in
  let ns := Namespace (pool_Meta ipPool) in
  let poolName := Name (pool_Meta ipPool) in
  let name := SafeAgentConcatName [ns; poolName] in
  let '(nadNamespace, nadName) := RSplit (NetworkName (pool_Spec ipPool)) "/" in
  let networksStr := Marshal_networks [mkNetwork nadNamespace nadName "eth1"] in
  match ParseCIDR (CIDR cfg) with
  | (_, _, Some err) => inr err
  | (_, ipNet, None) =>
      let '(prefixLength, _) := Mask_Size (net_Mask ipNet) in
      let args := ["--ippool-ref"; ns +:+ "/" +:+ poolName] in
      let args := if noDHCP then args ++ ["--dry-run"] else args in
      let root := Some (mkSecurityContext runAsUserID runAsGroupID ["NET_ADMIN"]) in
      inl (mkPod
        (mkObjectMeta agentNamespace name EmptyString
           (Some {[ vmDHCPControllerLabelKey := "agent"; IPPoolNamespaceLabelKey := ns;
                    IPPoolNameLabelKey := poolName ]})
           (Some {[ multusNetworksAnnotationKey := networksStr ]}) [] None 0)
        [[mkRequirement (GroupName +:+ "/" +:+ clusterNetwork) "In" ["true"]]]
        agentServiceAccountName
        [mkContainer "ip-setter" (Image_String agentImage) "IfNotPresent"
           ["/bin/sh"; "-c"; setIPAddrScript (ServerIP cfg) prefixLength] [] [] root None None]
        [mkContainer "agent" (Image_String agentImage) EmptyString [] args [("VM_DHCP_AGENT_NAME", name)] root
           (Some ("/healthz", 8080%Z)) (Some ("/readyz", 8080%Z))]
        [])
  end.

(** What the agent makes of its [--ippool-ref] ([cmd/agent]): the pool it watches. *)
Definition agent_IPPoolRef (ippoolRef : string) : string * string := RSplit ippoolRef "/".
End pod.

(** ** common.go: conditions and builders *)

Section conditions.
Context `{ConditionLib}.

Definition setRegisteredCondition (p : IPPool) (status reason message : string) : IPPool :=
  pool_cond (set_condition Registered status reason message) p.
Definition setCacheReadyCondition (p : IPPool) (status reason message : string) : IPPool :=
  pool_cond (set_condition CacheReady status reason message) p.
Definition setAgentReadyCondition (p : IPPool) (status reason message : string) : IPPool :=
  pool_cond (set_condition AgentReady status reason message) p.
Definition setStoppedCondition (p : IPPool) (status reason message : string) : IPPool :=
  pool_cond (set_condition Stopped status reason message) p.

(** [IPPoolBuilder] *)
Definition NewIPPoolBuilder (namespace name : string) : IPPool :=
  mkIPPool (named_meta namespace name)
    (mkIPPoolSpec (mkIPv4Config EmptyString EmptyString (mkPoolRange EmptyString EmptyString []) EmptyString
       [] None [] [] None) EmptyString None)
    (mkIPPoolStatus 0 None None []).

Definition with_config (f : IPv4Config → IPv4Config) (p : IPPool) : IPPool :=
  set_pool_Spec p (mkIPPoolSpec (f (ipv4Config (pool_Spec p))) (NetworkName (pool_Spec p)) (Paused (pool_Spec p))).
Definition with_v4status (f : IPv4Status → IPv4Status) (p : IPPool) : IPPool :=
  set_pool_Status p (set_IPv4 (pool_Status p) (Some (f (default IPv4Status_zero (IPv4 (pool_Status p)))))).

Definition pool_Annotation (key value : string) (p : IPPool) : IPPool :=
  set_pool_Meta p (set_Annotations (pool_Meta p) (Some (<[key := value]> (or_empty (Annotations (pool_Meta p)))))).
Definition pool_NetworkName (networkName : string) (p : IPPool) : IPPool :=
  set_pool_Spec p (mkIPPoolSpec (ipv4Config (pool_Spec p)) networkName (Paused (pool_Spec p))).
Definition pool_Paused (p : IPPool) : IPPool :=
  set_pool_Spec p (mkIPPoolSpec (ipv4Config (pool_Spec p)) (NetworkName (pool_Spec p)) (Some true)).
Definition pool_UnPaused (p : IPPool) : IPPool :=
  set_pool_Spec p (mkIPPoolSpec (ipv4Config (pool_Spec p)) (NetworkName (pool_Spec p)) (Some false)).
Definition pool_ServerIP (serverIP : string) : IPPool → IPPool :=
  with_config (λ c, mkIPv4Config (CIDR c) serverIP (PoolRange c) (Router c) (DNS c) (DomainName c)
    (DomainSearch c) (NTP c) (LeaseTime c)).
Definition pool_CIDR (cidr : string) : IPPool → IPPool :=
  with_config (λ c, mkIPv4Config cidr (ServerIP c) (PoolRange c) (Router c) (DNS c) (DomainName c)
    (DomainSearch c) (NTP c) (LeaseTime c)).
Definition pool_Router (router : string) : IPPool → IPPool :=
  with_config (λ c, mkIPv4Config (CIDR c) (ServerIP c) (PoolRange c) router (DNS c) (DomainName c)
    (DomainSearch c) (NTP c) (LeaseTime c)).
Definition set_PoolRange (r : Pool) (c : IPv4Config) : IPv4Config :=
  mkIPv4Config (CIDR c) (ServerIP c) r (Router c) (DNS c) (DomainName c) (DomainSearch c) (NTP c) (LeaseTime c).
Definition pool_PoolRange (start end_ : string) : IPPool → IPPool :=
  with_config (λ c, set_PoolRange (mkPoolRange start end_ (Exclude (PoolRange c))) c).
Definition pool_Exclude (ipAddressList : list string) : IPPool → IPPool :=
  with_config (λ c, set_PoolRange (mkPoolRange (Start (PoolRange c)) (End_ (PoolRange c))
    (Exclude (PoolRange c) ++ ipAddressList)) c).
Definition pool_AgentPodRef (namespace name image uid : string) (p : IPPool) : IPPool :=
  set_pool_Status p (set_AgentPodRef (pool_Status p) (Some (mkPodReference namespace name image uid))).
Definition pool_Allocated (ipAddress macAddress : string) : IPPool → IPPool :=
  with_v4status (λ s, mkIPv4Status (Some (<[ipAddress := macAddress]> (or_empty (st_Allocated s)))) (Used s) (Available s)).
Definition pool_Available (count : Z) : IPPool → IPPool :=
  with_v4status (λ s, mkIPv4Status (st_Allocated s) (Used s) count).
Definition pool_Used (count : Z) : IPPool → IPPool :=
  with_v4status (λ s, mkIPv4Status (st_Allocated s) count (Available s)).
Definition pool_RegisteredCondition (status reason message : string) (p : IPPool) : IPPool :=
  setRegisteredCondition p status reason message.
Definition pool_CacheReadyCondition (status reason message : string) (p : IPPool) : IPPool :=
  setCacheReadyCondition p status reason message.
Definition pool_AgentReadyCondition (status reason message : string) (p : IPPool) : IPPool :=
  setAgentReadyCondition p status reason message.
Definition pool_StoppedCondition (status reason message : string) (p : IPPool) : IPPool :=
  setStoppedCondition p status reason message.

(** [ipPoolStatusBuilder] *)
Definition newIPPoolStatusBuilder : IPPoolStatus := mkIPPoolStatus 0 None None [].
Definition status_AgentPodRef (namespace name image uid : string) (s : IPPoolStatus) : IPPoolStatus :=
  set_AgentPodRef s (Some (mkPodReference namespace name image uid)).
Definition status_RegisteredCondition (status reason message : string) (s : IPPoolStatus) : IPPoolStatus :=
  set_pool_Conditions s (set_condition Registered status reason message (pool_Conditions s)).
Definition status_CacheReadyCondition (status reason message : string) (s : IPPoolStatus) : IPPoolStatus :=
  set_pool_Conditions s (set_condition CacheReady status reason message (pool_Conditions s)).
Definition status_AgentReadyCondition (status reason message : string) (s : IPPoolStatus) : IPPoolStatus :=
  set_pool_Conditions s (set_condition AgentReady status reason message (pool_Conditions s)).
Definition status_StoppedCondition (status reason message : string) (s : IPPoolStatus) : IPPoolStatus :=
  set_pool_Conditions s (set_condition Stopped status reason message (pool_Conditions s)).
End conditions.

(** [podBuilder]; [PodReady] sets every time it is called, to true, and appends. *)
Definition newPodBuilder (namespace name : string) : Pod :=
  mkPod (named_meta namespace name) [] EmptyString [] [] [].
Definition pod_Container (name repository tag : string) (p : Pod) : Pod :=
  mkPod (podMeta p) (NodeAffinity p) (ServiceAccountName p) (InitContainers p)
    (Containers p ++ [mkContainer name (repository +:+ ":" +:+ tag) EmptyString [] [] [] None None None])
    (podConditions p).
Fixpoint first_ready_true (cs : list (string * string)) : list (string * string) :=
  match cs with
  | [] => []
  | (typ, status) :: cs' =>
      if String.eqb typ "Ready" then (typ, "True") :: cs' else (typ, status) :: first_ready_true cs'
  end.
Definition pod_PodReady (ready : string) (p : Pod) : Pod :=
  mkPod (podMeta p) (NodeAffinity p) (ServiceAccountName p) (InitContainers p) (Containers p)
    (first_ready_true (podConditions p) ++ [("Ready", "True")]).

(** [NetworkAttachmentDefinitionBuilder] *)
Definition NewNetworkAttachmentDefinitionBuilder (namespace name : string) : NAD :=
  mkNAD (named_meta namespace name).
Definition nad_Label (key value : string) (n : NAD) : NAD :=
  mkNAD (set_Labels (nad_Meta n) (Some (<[key := value]> (or_empty (Labels (nad_Meta n)))))).

Definition SanitizeStatus (status : IPPoolStatus) : IPPoolStatus :=
  mkIPPoolStatus 0 (IPv4 status) (AgentPodRef status) (blank_times <$> pool_Conditions status).

(** ** controller.go *)

Section handler.
Context `{MapRange} `{ConditionLib} `{KvLib} `{PromLib} `{Kube}.
Context (h : Handler).

Definition is_pool_paused (p : IPPool) : bool := is_paused (Paused (pool_Spec p)).

Definition pool_disabled_error (p : IPPool) : error :=
  Errorf "ippool %s/%s was administratively disabled" [Namespace (pool_Meta p); Name (pool_Meta p)].

(** The pools to reconcile when a pod of [namespace] changes ([relatedresource.Watch]
    in [Register]). *)
Definition ippool_trigger (namespace : string) (w : World) : result (list (string * string)) :=
  pods ← podCache_List w namespace {[ "network.harvesterhci.io/vm-dhcp-controller" := "agent" ]};
  mret ((λ pod, let labels := or_empty (Labels (podMeta pod)) in
           (default EmptyString (labels !! IPPoolNamespaceLabelKey),
            default EmptyString (labels !! IPPoolNameLabelKey))) <$> pods).

Definition isPodReady (pod : Pod) : bool :=
  match filter (λ c, c.1 = "Ready") (podConditions pod) with
  | (_, status) :: _ => String.eqb status "True"
  | [] => false
  end.

(** Only called with a pool that has an agent reference. *)
Definition getAgentImage (ipPool : IPPool) : res string :=
  match or_empty (Annotations (pool_Meta ipPool)) !! holdIPPoolAgentUpgradeAnnotationKey with
  | Some _ =>
      match AgentPodRef (pool_Status ipPool) with
      | Some ref => Val (ref_Image ref)
      | None => Panic "nil AgentPodRef"
      end
  | None => Val (Image_String (agentImage h))
  end.

Definition cleanup (ipPool : IPPool) : GoM Management (option error) :=
  match AgentPodRef (pool_Status ipPool) with
  | None => mret None
  | Some ref =>
      err ← request (podClient_Delete (ref_Namespace ref) (ref_Name ref));
      if match err with Some e => negb (IsNotFound e) | None => false end then mret err
      else
        let networkName := NetworkName (pool_Spec ipPool) in
        _ ← on_ipam (λ a, (DeleteIPSubnet networkName a, tt));
        _ ← on_cache (λ c, (DeleteMACSet networkName c, tt));
        _ ← on_metrics (DeleteIPPool networkName (CIDR (ipv4Config (pool_Spec ipPool))) networkName);
        mret None
  end.

Definition ensureNADLabels (ipPool : IPPool) : GoM Management (option error) :=
  let '(nadNamespace, nadName) := RSplit (NetworkName (pool_Spec ipPool)) "/" in
  try! nad := ask_world (λ w, nadCache_Get w nadNamespace nadName) catch err => mret (Some err) in
  let nadCpy := nad_Label IPPoolNameLabelKey (Name (pool_Meta ipPool))
                  (nad_Label IPPoolNamespaceLabelKey (Namespace (pool_Meta ipPool)) nad) in
  if negb (DeepEqual nadCpy nad) then
    try! _ := request (nadClient_Update nadCpy) catch err => mret (Some err) in mret None
  else mret None.

(** The records [OnChange] adds: reserved addresses inside the range, then the
    excluded ones. *)
Definition mark_records (cfg : IPv4Config) (allocated : gmap string string) : gmap string string :=
  let r := PoolRange cfg in
  let allocated := if IsIPInBetweenOf (ServerIP cfg) (Start r) (End_ r)
                   then <[ServerIP cfg := ReservedMark]> allocated else allocated in
  let allocated := if IsIPInBetweenOf (Router cfg) (Start r) (End_ r)
                   then <[Router cfg := ReservedMark]> allocated else allocated in
  foldl (λ m eIP, <[eIP := ExcludedMark]> m) allocated (Exclude r).

(** The part of [OnChange] after the initialization check: counters, metrics and
    records; [ipPoolCpy] has its conditions set. *)
Definition update_usage (seed : nat) (now : Z) (key : string) (ipPool ipPoolCpy : IPPool)
    : GoM Management (option IPPool * option error) :=
  let networkName := NetworkName (pool_Spec ipPool) in
  let cfg := ipv4Config (pool_Spec ipPool) in
  let ipv4Status := default IPv4Status_zero (IPv4 (pool_Status ipPoolCpy)) in
  let! used := ask_ipam (GetUsed seed networkName) orelse err => mret (None, Some err) in
  let! available := ask_ipam (GetAvailable seed networkName) orelse err => mret (None, Some err) in
  _ ← on_metrics (UpdateIPPoolUsed key (CIDR cfg) networkName used);
  _ ← on_metrics (UpdateIPPoolAvailable key (CIDR cfg) networkName available);
  let allocated := mark_records cfg (or_empty (st_Allocated ipv4Status)) in
  let allocated := if bool_decide (allocated = ∅) then None else Some allocated in
  let ipPoolCpy := set_pool_Status ipPoolCpy
    (set_IPv4 (pool_Status ipPoolCpy) (Some (mkIPv4Status allocated used available))) in
  if negb (DeepEqual ipPoolCpy ipPool) then
    return_update (request (ippoolClient_UpdateStatus
      (set_pool_Status ipPoolCpy (set_LastUpdate (pool_Status ipPoolCpy) now))))
  else mret (Some ipPool, None).

Definition OnChange (seed : nat) (now : Z) (key : string) (ipPool : option IPPool)
    : GoM Management (option IPPool * option error) :=
  match ipPool with
  | None => mret (None, None)
  | Some ipPool =>
      match DeletionTimestamp (pool_Meta ipPool) with
      | Some _ => mret (None, None)
      | None =>
          do! ensureNADLabels ipPool orelse err => mret (Some ipPool, Some err) in
          if is_pool_paused ipPool then
            do! cleanup ipPool orelse err => mret (Some ipPool, Some err) in
            let ipPoolCpy := pool_cond (SetTrue Stopped)
              (set_pool_Status ipPool (set_AgentPodRef (pool_Status ipPool) None)) in
            if negb (DeepEqual ipPoolCpy ipPool) then
              return_update (request (ippoolClient_UpdateStatus ipPoolCpy))
            else mret (Some ipPool, None)
          else
            let ipPoolCpy := pool_cond (SetFalse Stopped) ipPool in
            initialized ← ask_ipam (IsNetworkInitialized (NetworkName (pool_Spec ipPool)));
            if negb initialized then
              let ipPoolCpy := pool_cond (λ cs, SetMessage CacheReady EmptyString
                (SetReason CacheReady "NotInitialized" (SetFalse CacheReady cs))) ipPoolCpy in
              if negb (DeepEqual ipPoolCpy ipPool) then
                return_update (request (ippoolClient_UpdateStatus ipPoolCpy))
              else update_usage seed now key ipPool ipPoolCpy
            else update_usage seed now key ipPool ipPoolCpy
      end
  end.

Definition OnRemove (ipPool : option IPPool) : GoM Management (option IPPool * option error) :=
  match ipPool with
  | None => mret (None, None)
  | Some ipPool =>
      if noAgent h then mret (Some ipPool, None)
      else
        do! cleanup ipPool orelse err => mret (Some ipPool, Some err) in
        mret (Some ipPool, None)
  end.

(** ** The status handlers *)

Definition set_ref_Image (r : PodReference) (image : string) : PodReference :=
  mkPodReference (ref_Namespace r) (ref_Name r) image (ref_UID r).

(** Create the agent pod and refer to it. *)
Definition deploy (clusterNetwork : string) (ipPool : IPPool) (status : IPPoolStatus)
    : GoM Management (IPPoolStatus * option error) :=
  match prepareAgentPod ipPool (noDHCP h) (agentNamespace h) clusterNetwork
          (agentServiceAccountName h) (agentImage h) with
  | inr err => mret (status, Some err)
  | inl agent =>
      let ref := set_ref_Image (default PodReference_zero (AgentPodRef status))
                   (Image_String (agentImage h)) in
      let status := set_AgentPodRef status (Some ref) in
      try! agentPod := request (podClient_Create agent)
        catch err => (if IsAlreadyExists err then mret (status, None) else mret (status, Some err)) in
      mret (set_AgentPodRef status (Some (mkPodReference (Namespace (podMeta agentPod))
              (Name (podMeta agentPod)) (ref_Image ref) (UID (podMeta agentPod)))), None)
  end.

(** [status.AgentPodRef.Image] is written through a pointer: with no reference in
    [status] beside one in [ipPool] that is a nil dereference. *)
Definition DeployAgent (ipPool : IPPool) (status : IPPoolStatus)
    : GoM Management (IPPoolStatus * option error) :=
  if is_pool_paused ipPool then mret (status, Some (pool_disabled_error ipPool))
  else if noAgent h then mret (status, None)
  else
    let '(nadNamespace, nadName) := RSplit (NetworkName (pool_Spec ipPool)) "/" in
    try! nad := ask_world (λ w, nadCache_Get w nadNamespace nadName)
      catch err => mret (status, Some err) in
    match Labels (nad_Meta nad) ≫= (.!! clusterNetworkLabelKey) with
    | None => mret (status, Some (Errorf "could not find clusternetwork for nad %s"
                [NetworkName (pool_Spec ipPool)]))
    | Some clusterNetwork =>
        match AgentPodRef (pool_Status ipPool) with
        | None => deploy clusterNetwork ipPool status
        | Some ref =>
            image ← go_pure (getAgentImage ipPool);
            match AgentPodRef status with
            | None => go_panic "nil AgentPodRef"
            | Some sref =>
                let status := set_AgentPodRef status (Some (set_ref_Image sref image)) in
                pod ← ask_world (λ w, podCache_Get w (ref_Namespace ref) (ref_Name ref));
                match pod with
                | inr err =>
                    if negb (IsNotFound err) then mret (status, Some err)
                    else deploy clusterNetwork ipPool status
                | inl pod =>
                    match DeletionTimestamp (podMeta pod) with
                    | Some _ => mret (status, Some (Errorf "agent pod %s marked for deletion" [ref_Name ref]))
                    | None =>
                        if negb (String.eqb (UID (podMeta pod)) (ref_UID ref)) then
                          mret (status, Some (Errorf "agent pod %s uid mismatch" [ref_Name ref]))
                        else mret (status, None)
                    end
                end
            end
        end
    end.

(** The entries of the status that are marks, not leases. *)
Definition is_mark (mac : string) : bool := String.eqb mac ExcludedMark || String.eqb mac ReservedMark.

Definition revoke_one (networkName : string) (status : IPPoolStatus) (eIP : string) (_ : unit)
    : GoM Management (unit + (IPPoolStatus * option error)) :=
  do! on_ipam (RevokeIP networkName eIP) orelse err => mret (inr (status, Some err)) in
  mret (inl tt).

Definition rebuild_one (seed : nat) (networkName : string) (status : IPPoolStatus)
    (entry : string * string) (_ : unit) : GoM Management (unit + (IPPoolStatus * option error)) :=
  let '(ip, mac) := entry in
  if is_mark mac then mret (inl tt)
  else
    let! _ := on_ipam (AllocateIP seed networkName ip) orelse err => mret (inr (status, Some err)) in
    do! on_cache (AddMAC networkName mac ip) orelse err => mret (inr (status, Some err)) in
    mret (inl tt).

Definition BuildCache (seed : nat) (ipPool : IPPool) (status : IPPoolStatus)
    : GoM Management (IPPoolStatus * option error) :=
  let networkName := NetworkName (pool_Spec ipPool) in
  let cfg := ipv4Config (pool_Spec ipPool) in
  if is_pool_paused ipPool then mret (status, Some (pool_disabled_error ipPool))
  else if IsTrue CacheReady (pool_Conditions (pool_Status ipPool)) then mret (status, None)
  else
    do! call_NewIPSubnet networkName (CIDR cfg) (Start (PoolRange cfg)) (End_ (PoolRange cfg))
      orelse err => mret (status, Some err) in
    do! on_cache (NewMACSet networkName) orelse err => mret (status, Some err) in
    do! on_ipam (RevokeIP networkName (ServerIP cfg)) orelse err => mret (status, Some err) in
    do! on_ipam (RevokeIP networkName (Router cfg)) orelse err => mret (status, Some err) in
    r ← for_range (Exclude (PoolRange cfg)) (revoke_one networkName status) tt;
    match r with
    | inr ret => mret ret
    | inl _ =>
        match IPv4 (pool_Status ipPool) with
        | None => mret (status, None)
        | Some ipv4Status =>
            r ← for_range (range seed (or_empty (st_Allocated ipv4Status)))
                  (rebuild_one seed networkName status) tt;
            match r with
            | inr ret => mret ret
            | inl _ => mret (status, None)
            end
        end
    end.

Definition MonitorAgent (ipPool : IPPool) (status : IPPoolStatus)
    : GoM Management (IPPoolStatus * option error) :=
  if is_pool_paused ipPool then mret (status, Some (pool_disabled_error ipPool))
  else if noAgent h then mret (status, None)
  else
    match AgentPodRef (pool_Status ipPool) with
    | None => mret (status, Some (Errorf "agent for ippool %s/%s is not deployed"
                [Namespace (pool_Meta ipPool); Name (pool_Meta ipPool)]))
    | Some ref =>
        try! agentPod := ask_world (λ w, podCache_Get w (ref_Namespace ref) (ref_Name ref))
          catch err => mret (status, Some err) in
        obsolete ← go_pure (
          if negb (String.eqb (UID (podMeta agentPod)) (ref_UID ref)) then Val true
          else match Containers agentPod with
               | [] => Panic "index out of range"
               | c :: _ => Val (negb (String.eqb (ctr_Image c) (ref_Image ref)))
               end);
        if obsolete : bool then
          match DeletionTimestamp (podMeta agentPod) with
          | Some _ => mret (status, Some (Errorf "agent pod %s marked for deletion" [Name (podMeta agentPod)]))
          | None =>
              do! request (podClient_Delete (Namespace (podMeta agentPod)) (Name (podMeta agentPod)))
                orelse err => mret (status, Some err) in
              mret (status, Some (Errorf "agent pod %s obsolete and purged" [Name (podMeta agentPod)]))
          end
        else if negb (isPodReady agentPod) then
          mret (status, Some (Errorf "agent pod %s not ready" [Name (podMeta agentPod)]))
        else mret (status, None)
    end.
End handler.
