(* ===== verification/IpPoolFacts.v ===== *)
(** * The IPPool controller: its contract *)

From S2P Require Import Prelude GoNet GoNetFacts GoText Api Util Ipam IpamFacts IpamSpec MacCache Metrics Leases Webhook Kube FakeKube Image IpPool.
Local Open Scope go_scope.
Local Open Scope Z_scope.

(** The records of a pool's status, as [BuildCache] reads them. *)
Definition records_of (p : IPPool) : gmap string string :=
  from_option (λ st, or_empty (st_Allocated st)) ∅ (IPv4 (pool_Status p)).

(** The lease records among them. *)
Definition lease_record (records : gmap string string) (ip mac : string) : Prop :=
  records !! ip = Some mac ∧ is_mark mac = false.

Definition pool_op (p : IPPool) : ipam_op :=
  OpNew (NetworkName (pool_Spec p)) (CIDR (ipv4Config (pool_Spec p)))
    (Start (PoolRange (ipv4Config (pool_Spec p)))) (End_ (PoolRange (ipv4Config (pool_Spec p)))).

(** What [BuildCache] takes out of the range. *)
Definition revoked_of (p : IPPool) : list string :=
  ServerIP (ipv4Config (pool_Spec p)) :: Router (ipv4Config (pool_Spec p)) ::
  Exclude (PoolRange (ipv4Config (pool_Spec p))).

Section facts.
Context `{MapRange} `{ConditionLib} `{PromLib} `{Kube}.
Implicit Types m : Management.

(** ** BuildCache keeps the lease table coherent *)

Definition no_holder (m : Management) (name : string) : Prop :=
  ∀ mac, cached_text (CacheAllocator_ m) name mac = None.

Lemma wp_revoke name ip m :
  leases_ok m → no_holder m name →
  wp (on_ipam (RevokeIP name ip)) (λ _ m', leases_ok m' ∧ no_holder m' name) (λ _, False) m.
Proof using Type. intros Hok Hn. apply wp_on_ipam. split; [|done]. by apply coherent_revoke. Qed.

Lemma wp_revoke_loop name status ips m :
  leases_ok m → no_holder m name →
  wp (for_range ips (revoke_one name status) tt)
     (λ r m', leases_ok m' ∧ match r with inl _ => no_holder m' name | inr (s, e) => s = status ∧ is_Some e end)
     (λ _, False) m.
Proof using Type.
  intros Hok Hn. eapply wp_mono; [| |apply (wp_for_range _
    (λ _ _ m', leases_ok m' ∧ no_holder m' name)
    (λ '(s, e) m', leases_ok m' ∧ s = status ∧ is_Some e) (λ _, False))]; [| | |done]; [|done|].
  { intros [[]|[s e]] m'; tauto. }
  intros pre ip post [] m' _ [Hok' Hn']. apply wp_bind. eapply wp_mono; [| |by apply wp_revoke]; [|done].
  intros [e|] m2 [Hok2 Hn2]; by apply wp_ret.
Qed.

(** A key [AllocateIP] takes as the address asked for. *)
Definition usable_key (ip : string) : Prop := IsUnspecified (ParseIP ip) = false ∧ ip ≠ EmptyString.

Lemma wp_rebuild_one seed name status ip mac m :
  leases_ok m → is_mark mac = true ∨ usable_key ip →
  wp (rebuild_one seed name status (ip, mac) tt)
     (λ r m', leases_ok m' ∧ match r with inl _ => True | inr (s, e) => s = status ∧ is_Some e end)
     (λ _, False) m.
Proof using Type.
  intros Hok Hkey. unfold rebuild_one. destruct (is_mark mac) eqn:Hmark; [by apply wp_ret|].
  destruct Hkey as [?|[Hun Hne]]; [done|]. apply wp_bind, wp_on_ipam.
  destruct (coherent_leak seed name ip _ _ Hok) as [Hleak _].
  destruct (AllocateIP seed name ip (IPAllocator_ m)) as [a' [t [e|]]] eqn:Ho; cbn [fst snd] in *.
  { apply wp_ret. split; [done|]. by split; [|eexists]. }
  apply wp_bind, wp_on_cache. cbn [CacheAllocator_ set_ipam].
  destruct (AddMAC name mac ip (CacheAllocator_ m)) as [c' [e|]] eqn:Hadd; cbn [fst snd]; apply wp_ret.
  - destruct (AddMAC_spec _ _ _ _ _ _ Hadd) as [(? & _)|(-> & _ & _)]; [done|].
    split; [done|]. by split; [|eexists].
  - split; [|done]. exact (coherent_recover seed name mac ip t _ _ _ _ Hok Hun Hne Ho Hadd).
Qed.

Lemma wp_rebuild_loop seed name status entries m :
  leases_ok m → (∀ ip mac, (ip, mac) ∈ entries → is_mark mac = true ∨ usable_key ip) →
  wp (for_range entries (rebuild_one seed name status) tt)
     (λ r m', leases_ok m' ∧ match r with inl _ => True | inr (s, e) => s = status ∧ is_Some e end)
     (λ _, False) m.
Proof using Type.
  intros Hok Hkeys. eapply wp_mono; [| |apply (wp_for_range _
    (λ _ _ m', leases_ok m')
    (λ '(s, e) m', leases_ok m' ∧ s = status ∧ is_Some e) (λ _, False))]; [| | |done]; [|done|].
  { intros [[]|[s e]] m'; tauto. }
  intros pre [ip mac] post [] m' Hpre Hok'. eapply wp_mono; [| |apply wp_rebuild_one; [done|apply Hkeys]]; [|done|].
  - intros [[]|[s e]] m2; tauto.
  - rewrite Hpre. apply elem_of_app. right. by left.
Qed.

Lemma wp_call_NewIPSubnet name cidr start end_ m :
  v4_op (OpNew name cidr start end_) = true →
  wp (call_NewIPSubnet name cidr start end_)
     (λ r m', m' = set_ipam m (NewIPSubnet name cidr start end_ (IPAllocator_ m)).1 ∧ (is_Some r → m' = m))
     (λ _, False) m.
Proof using Type.
  intros H4. unfold wp, call_NewIPSubnet.
  destruct (NewIPSubnet_returns name cidr start end_ (IPAllocator_ m) H4) as (r & Hr & Hsame).
  destruct (NewIPSubnet name cidr start end_ (IPAllocator_ m)) as [a r'] eqn:Hn. cbn [fst snd] in *. subst r'.
  split; [done|]. intros Hs. rewrite (Hsame Hs). by destruct m.
Qed.

Lemma wp_BuildCache seed p status m :
  v4_op (pool_op p) = true → leases_ok m →
  (∀ ip mac, lease_record (records_of p) ip mac → usable_key ip) →
  wp (BuildCache seed p status) (λ r m', leases_ok m' ∧ r.1 = status) (λ _, False) m.
Proof using Type.
  intros H4 Hok Hkeys. unfold BuildCache. destruct (is_pool_paused p); [by apply wp_ret|].
  destruct (IsTrue _ _); [by apply wp_ret|].
  apply wp_bind. eapply wp_mono; [| |by apply wp_call_NewIPSubnet]; [|done].
  intros r m1 [-> Hsame]. destruct r as [e|]; [rewrite Hsame by eauto; by apply wp_ret|].
  apply wp_bind, wp_on_cache. change (NewMACSet _ _).2 with (None : option error). cbv iota.
  set (m2 := set_cache _ _).
  assert (Hok2 : leases_ok m2 ∧ no_holder m2 (NetworkName (pool_Spec p))).
  { split; [by apply coherent_reset|]. intros mac. cbn [m2 CacheAllocator_ set_cache].
    rewrite cached_text_NewMACSet. by rewrite decide_True. }
  destruct Hok2 as [Hok2 Hn2].
  apply wp_bind. eapply wp_mono; [| |by apply wp_revoke]; [|done]. intros [e|] m3 [Hok3 Hn3]; [by apply wp_ret|].
  apply wp_bind. eapply wp_mono; [| |by apply wp_revoke]; [|done]. intros [e|] m4 [Hok4 Hn4]; [by apply wp_ret|].
  apply wp_bind. eapply wp_mono; [| |by apply wp_revoke_loop]; [|done].
  intros [[]|[s e]] m5 [Hok5 Hr]; [|apply wp_ret; cbn; tauto].
  unfold records_of in Hkeys. destruct (IPv4 (pool_Status p)) as [st|]; [|by apply wp_ret].
  apply wp_bind. eapply wp_mono; [| |apply wp_rebuild_loop; [done|]]; [|done|].
  - intros [[]|[s e]] m6 [Hok6 Hr6]; apply wp_ret; cbn; tauto.
  - intros ip mac Hin%elem_of_range. destruct (is_mark mac) eqn:Hm; [by left|]. right. by apply (Hkeys ip mac).
Qed.

(** ** BuildCache recovers the leases *)

Definition leases_in (entries : list (string * string)) : list (string * string) :=
  filter (λ e, is_mark e.2 = false) entries.

(** The other networks, the metrics and the API are as before. *)
Definition others_same (name : string) (m m' : Management) : Prop :=
  world m' = world m ∧ MetricsAllocator_ m' = MetricsAllocator_ m ∧
  ∀ name', name' ≠ name → CacheAllocator_ m' !! name' = CacheAllocator_ m !! name' ∧
                          IPAllocator_ m' !! name' = IPAllocator_ m !! name'.

Lemma others_same_trans name m1 m2 m3 :
  others_same name m1 m2 → others_same name m2 m3 → others_same name m1 m3.
Proof using Type.
  intros (Hw & Hm & Ho) (Hw' & Hm' & Ho'). split; [congruence|]. split; [congruence|].
  intros name' Hne. destruct (Ho _ Hne), (Ho' _ Hne). split; congruence.
Qed.

Lemma others_same_insert name m c a :
  others_same name m (set_cache (set_ipam m (<[name := a]> (IPAllocator_ m))) (<[name := c]> (CacheAllocator_ m))).
Proof using Type. split_and!; [done..|]. intros name' Hne. cbn. by rewrite !lookup_insert_ne. Qed.

Lemma others_same_ipam name m a : others_same name m (set_ipam m (<[name := a]> (IPAllocator_ m))).
Proof using Type. split_and!; [done..|]. intros name' Hne. cbn. by rewrite !lookup_insert_ne. Qed.

(** The subnet [name] holds [ips], nobody of it holds an address. *)
Record prepared (name : string) (base plen : Z) (ips : gmap string bool) (m : Management) : Prop := {
  prep_subnet : ∃ sn P, IPAllocator_ m !! name = Some sn ∧ represents sn base plen P ∧ sn_ips sn = ips;
  prep_cache : CacheAllocator_ m !! name = Some (mkMACSet ∅);
}.

Lemma wp_revoke_exact name base plen ips ip m0 m :
  prepared name base plen ips m → others_same name m0 m →
  wp (on_ipam (RevokeIP name ip))
     (λ r m', r = None ∧ prepared name base plen (delete ip ips) m' ∧ others_same name m0 m') (λ _, False) m.
Proof using Type.
  intros [(sn & P & Hsn & HR & Hips) Hc] Ho. apply wp_on_ipam. unfold RevokeIP. rewrite Hsn. cbn [fst snd].
  split; [done|]. split.
  - constructor; [|done]. destruct (rep_revoke HR ip) as (P' & HR' & _). eexists _, P'. cbn [IPAllocator_ set_ipam].
    rewrite lookup_insert_eq. split; [done|]. split; [done|]. cbn. by rewrite Hips.
  - eapply others_same_trans; [done|]. apply others_same_ipam.
Qed.

Lemma wp_revoke_exact_loop name base plen status xs ips m0 m :
  prepared name base plen ips m → others_same name m0 m →
  wp (for_range xs (revoke_one name status) tt)
     (λ r m', r = inl tt ∧ prepared name base plen (foldl (λ i k, delete k i) ips xs) m' ∧ others_same name m0 m')
     (λ _, False) m.
Proof using Type.
  intros Hp Ho. eapply wp_mono; [| |apply (wp_for_range _
    (λ pre _ m', prepared name base plen (foldl (λ i k, delete k i) ips pre) m' ∧ others_same name m0 m')
    (λ _ _, False) (λ _, False))]; [| | |done]; [|done|].
  { intros [[]|?] m'; [|done]. tauto. }
  intros pre ip post [] m' _ [Hp' Ho']. apply wp_bind. eapply wp_mono; [| |by apply wp_revoke_exact]; [|done].
  intros r m2 (-> & Hp2 & Ho2). apply wp_ret. split; [|done]. by rewrite foldl_app.
Qed.

Lemma lookup_foldl_delete (ips : gmap string bool) xs k :
  foldl (λ i k, delete k i) ips xs !! k = if decide (k ∈ xs) then None else ips !! k.
Proof using Type.
  revert ips. induction xs as [|x xs IH]; intros ips; cbn [foldl].
  - by rewrite decide_False by apply not_elem_of_nil.
  - rewrite IH. destruct (decide (k ∈ xs)) as [Hin|Hin].
    + by rewrite decide_True by (by right).
    + destruct (decide (k = x)) as [->|Hne].
      * rewrite lookup_delete_eq. by rewrite decide_True by (by left).
      * rewrite lookup_delete_ne by done. rewrite decide_False; [done|]. by apply not_elem_of_cons.
Qed.

(** After the entries [done_] of the records were taken over. *)
Record recovered (name : string) (base plen : Z) (ips : gmap string bool) (done_ : list (string * string))
    (m : Management) : Prop := {
  rec_subnet : ∃ sn P, IPAllocator_ m !! name = Some sn ∧ represents sn base plen P ∧
    ∀ k, sn_ips sn !! k = if decide (k ∈ (leases_in done_).*1) then Some true else ips !! k;
  rec_set : is_Some (CacheAllocator_ m !! name);
  rec_cache : ∀ mac ip, holds m name mac ip ↔ (ip, mac) ∈ leases_in done_;
}.

Lemma leases_in_snoc_mark l ip mac : is_mark mac = true → leases_in (l ++ [(ip, mac)]) = leases_in l.
Proof using Type. intros Hm. unfold leases_in. rewrite filter_app, filter_cons_False, filter_nil, app_nil_r by (cbn; congruence). done. Qed.

Lemma leases_in_snoc l ip mac : is_mark mac = false → leases_in (l ++ [(ip, mac)]) = leases_in l ++ [(ip, mac)].
Proof using Type. intros Hm. unfold leases_in. by rewrite filter_app, filter_cons_True, filter_nil by done. Qed.

Lemma wp_recover_one seed name base plen ips status l n mac m0 m :
  recovered name base plen ips l m → others_same name m0 m →
  u32 n → n ≠ 0 → is_mark mac = false → ips !! v4str n = Some false →
  v4str n ∉ (leases_in l).*1 → mac ∉ (leases_in l).*2 →
  wp (rebuild_one seed name status (v4str n, mac) tt)
     (λ r m', r = inl tt ∧ recovered name base plen ips (l ++ [(v4str n, mac)]) m' ∧ others_same name m0 m')
     (λ _, False) m.
Proof using Type.
  intros [(sn & P & Hsn & HR & Hips) [set Hset] Hc] Ho Hn Hn0 Hmark Hfree Hip Hmac.
  unfold rebuild_one. rewrite Hmark. apply wp_bind, wp_on_ipam.
  destruct (AllocateIP_take seed name n _ _ _ _ _ Hsn HR Hn Hn0) as [Halloc HR'].
  { rewrite Hips. by rewrite decide_False. }
  rewrite Halloc. cbn [fst snd]. apply wp_bind, wp_on_cache. cbn [CacheAllocator_ set_ipam].
  unfold AddMAC at 1 2. rewrite Hset. cbn [fst snd]. apply wp_ret. split; [done|].
  split; [|eapply others_same_trans; [done|]; apply others_same_insert].
  constructor.
  - eexists _, _. cbn [IPAllocator_ set_cache set_ipam]. rewrite lookup_insert_eq.
    split; [done|]. split; [exact HR'|]. intros k. cbn [sn_ips set_ips]. rewrite leases_in_snoc, fmap_app by done.
    cbn [fmap list_fmap fst]. destruct (decide (k = v4str n)) as [->|Hk].
    + rewrite lookup_insert_eq, decide_True; [done|]. apply elem_of_app. right. by left.
    + rewrite lookup_insert_ne, Hips by done. apply decide_ext. rewrite elem_of_app, list_elem_of_singleton. tauto.
  - cbn. rewrite lookup_insert_eq. by eexists.
  - intros mac' ip'. unfold holds. cbn [CacheAllocator_ set_cache].
    assert (Hadd : AddMAC name mac (v4str n) (CacheAllocator_ m) =
      (<[name := mkMACSet (<[mac := ParseIP (v4str n)]> (macs set))]> (CacheAllocator_ m), None)).
    { unfold AddMAC. by rewrite Hset. }
    rewrite (AddMAC_cached _ _ _ _ _ Hadd). rewrite ParseIP_v4str, IP_String_mapped by done.
    rewrite leases_in_snoc, elem_of_app, list_elem_of_singleton by done. case_decide as Hd.
    + destruct Hd as [_ ->]. split; [intros [= <-]; by right|]. intros [Hin|[= ->]]; [|done].
      exfalso. apply Hmac. apply list_elem_of_fmap. by exists (ip', mac).
    + rewrite <-Hc. split; [by left|]. intros [?|[= -> ->]]; [done|]. by destruct Hd.
Qed.

Lemma wp_recover_loop seed name base plen ips status entries m :
  recovered name base plen ips [] m → NoDup entries.*1 →
  (∀ ip mac, (ip, mac) ∈ entries → is_mark mac = false →
     (∃ n, u32 n ∧ n ≠ 0 ∧ ip = v4str n) ∧ ips !! ip = Some false) →
  (∀ ip ip' mac, (ip, mac) ∈ entries → (ip', mac) ∈ entries → is_mark mac = false → ip = ip') →
  wp (for_range entries (rebuild_one seed name status) tt)
     (λ r m', r = inl tt ∧ recovered name base plen ips entries m' ∧ others_same name m m') (λ _, False) m.
Proof using Type.
  intros Hrec Hnd Hkeys Hinj. eapply wp_mono; [| |apply (wp_for_range _
    (λ pre _ m', recovered name base plen ips pre m' ∧ others_same name m m')
    (λ _ _, False) (λ _, False))]; [| | |by split]; [|done|].
  { intros [[]|?] m'; [|done]. tauto. }
  intros pre [ip mac] post [] m' Hpre [Hrec' Ho'].
  assert (Hin : (ip, mac) ∈ entries) by (rewrite Hpre; apply elem_of_app; right; by left).
  destruct (is_mark mac) eqn:Hm.
  - unfold rebuild_one. rewrite Hm. apply wp_ret. split; [|done]. destruct Hrec' as [Hs Hset Hc].
    constructor; rewrite ?leases_in_snoc_mark; done.
  - destruct (Hkeys _ _ Hin Hm) as [(n & Hn & Hn0 & ->) Hfree].
    assert (Hpre_in : ∀ x, x ∈ leases_in pre → x ∈ entries ∧ x ∈ pre).
    { intros x [_ Hx]%list_elem_of_filter. split; [|done]. rewrite Hpre. apply elem_of_app. by left. }
    assert (Hfresh : v4str n ∉ pre.*1).
    { rewrite Hpre, fmap_app in Hnd. apply NoDup_app in Hnd as (_ & Hd & _). intros Hx. apply (Hd _ Hx). by left. }
    eapply wp_mono; [| |eapply wp_recover_one; try done]; [|done| |].
    + intros r m2 (-> & Hr2 & Ho2). by split.
    + intros (x & Hx1 & Hx2)%list_elem_of_fmap. apply Hfresh, list_elem_of_fmap. exists x.
      split; [done|]. by apply Hpre_in.
    + intros ([ip' mac'] & Hx1 & Hx2)%list_elem_of_fmap. cbn in Hx1. subst mac'.
      destruct (Hpre_in _ Hx2) as [Hx3 Hx4]. apply Hfresh, list_elem_of_fmap. exists (ip', mac).
      split; [|done]. cbn. by apply (Hinj _ _ mac).
Qed.

(** The range of a pool's spec, as numbers. *)
Record pool_range (p : IPPool) (base plen s e : Z) : Prop := {
  pr_cidr : ParseCIDR (CIDR (ipv4Config (pool_Spec p))) = (mapped base, v4net base plen, None);
  pr_base : u32 base;
  pr_plen : 0 ≤ plen ≤ 32;
  pr_start : ParseIP (Start (PoolRange (ipv4Config (pool_Spec p)))) = mapped s;
  pr_end : ParseIP (End_ (PoolRange (ipv4Config (pool_Spec p)))) = mapped e;
  pr_order : net_first base plen ≤ s ≤ e;
  pr_last : e < net_last base plen;
  pr_pos : 0 < s;
}.

Lemma pool_range_u32 p base plen s e n : pool_range p base plen s e → s ≤ n ≤ e → u32 n ∧ n ≠ 0.
Proof using Type.
  intros [_ Hb Hp _ _ Ho Hl Hpos] Hn. pose proof (net_first_u32 base plen Hb Hp).
  pose proof (net_last_u32 base plen Hb Hp). unfold u32 in *. lia.
Qed.

(** The state after the subnet was made and the cache emptied. *)
Lemma wp_fresh_subnet p base plen s e m :
  pool_range p base plen s e →
  let cfg := ipv4Config (pool_Spec p) in
  wp (call_NewIPSubnet (NetworkName (pool_Spec p)) (CIDR cfg) (Start (PoolRange cfg)) (End_ (PoolRange cfg)))
     (λ r m', r = None ∧ prepared (NetworkName (pool_Spec p)) base plen (v4_range s e)
        (set_cache m' (NewMACSet (NetworkName (pool_Spec p)) (CacheAllocator_ m')).1) ∧
        others_same (NetworkName (pool_Spec p)) m
        (set_cache m' (NewMACSet (NetworkName (pool_Spec p)) (CacheAllocator_ m')).1)) (λ _, False) m.
Proof using Type.
  intros Hr cfg. destruct (pool_range_u32 _ _ _ _ _ s Hr) as [Hus _]; [destruct Hr; lia|].
  destruct (pool_range_u32 _ _ _ _ _ e Hr) as [Hue _]; [destruct Hr; lia|].
  destruct Hr as [Hc Hb Hp Hs He Ho Hl _].
  pose proof (NewIPSubnet_v4 (NetworkName (pool_Spec p)) (CIDR cfg) base plen (IPAllocator_ m) Hc Hb Hp
    (Start (PoolRange cfg)) (End_ (PoolRange cfg)) s e Hus Hue Hs He) as Hnew.
  rewrite (proj2 (range_ok_spec base plen s e)) in Hnew by lia.
  unfold wp, call_NewIPSubnet. rewrite Hnew. split; [done|]. split; [|apply (others_same_insert (NetworkName (pool_Spec p)) m (mkMACSet ∅) (fresh_subnet base plen s e))].
  constructor; [|cbn; by rewrite lookup_insert_eq].
  eexists _, _. cbn [IPAllocator_ set_cache set_ipam]. rewrite lookup_insert_eq. split; [done|].
  split; [by apply fresh_represents|done].
Qed.

Definition free_after_revoke (p : IPPool) (s e : Z) : gmap string bool :=
  foldl (λ i k, delete k i) (v4_range s e) (revoked_of p).

Lemma wp_BuildCache_exact seed p status base plen s e m :
  pool_range p base plen s e → is_pool_paused p = false →
  IsTrue CacheReady (pool_Conditions (pool_Status p)) = false →
  (∀ ip mac, lease_record (records_of p) ip mac → (ip ∉ revoked_of p) ∧ ∃ n, s ≤ n ≤ e ∧ ip = v4str n) →
  (∀ ip ip' mac, lease_record (records_of p) ip mac → lease_record (records_of p) ip' mac → ip = ip') →
  wp (BuildCache seed p status)
    (λ r m', r = (status, None) ∧ others_same (NetworkName (pool_Spec p)) m m' ∧
       recovered (NetworkName (pool_Spec p)) base plen (free_after_revoke p s e) (range seed (records_of p)) m')
    (λ _, False) m.
Proof using Type.
  intros Hr Hpaused Hready Hkeys Hinj. unfold BuildCache. rewrite Hpaused, Hready. cbv zeta.
  apply wp_bind. eapply wp_mono; [| |by apply wp_fresh_subnet]; [|done]. intros r m1 (-> & Hp1 & Ho1).
  apply wp_bind, wp_on_cache. change (NewMACSet _ _).2 with (None : option error). cbv iota.
  apply wp_bind. eapply wp_mono; [| |by apply wp_revoke_exact]; [|done]. intros r m2 (-> & Hp2 & Ho2).
  apply wp_bind. eapply wp_mono; [| |by apply wp_revoke_exact]; [|done]. intros r m3 (-> & Hp3 & Ho3).
  apply wp_bind. eapply wp_mono; [| |by apply wp_revoke_exact_loop]; [|done]. intros r m4 (-> & Hp4 & Ho4).
  change (foldl _ _ _) with (free_after_revoke p s e) in Hp4.
  assert (Hrec4 : recovered (NetworkName (pool_Spec p)) base plen (free_after_revoke p s e) [] m4).
  { destruct Hp4 as [(sn & P & Hsn & HR & Hips) Hc]. constructor.
    - exists sn, P. split; [done|]. split; [done|]. intros k. rewrite decide_False by apply not_elem_of_nil. by rewrite Hips.
    - by eexists.
    - intros mac ip. unfold holds, cached_text, cached_ip. rewrite Hc. cbn. rewrite lookup_empty. cbn.
      split; [done|]. by intros ?%elem_of_nil. }
  unfold records_of in *. destruct (IPv4 (pool_Status p)) as [st|]; cbn [from_option] in *.
  2: { apply wp_ret. split; [done|]. split; [done|]. by rewrite range_empty. }
  apply wp_bind. eapply wp_mono; [| |apply wp_recover_loop; [exact Hrec4|apply NoDup_fst_range| |]]; [|done| |].
  - intros r m5 (-> & Hr5 & Ho5). apply wp_ret. split; [done|]. split; [|done]. by eapply others_same_trans.
  - intros ip mac Hin%elem_of_range Hm. destruct (Hkeys ip mac (conj Hin Hm)) as [Hrev (n & Hn & ->)].
    destruct (pool_range_u32 _ _ _ _ _ n Hr Hn). split; [by exists n|].
    unfold free_after_revoke. rewrite lookup_foldl_delete, decide_False by done.
    destruct (pool_range_u32 _ _ _ _ _ s Hr) as [? _]; [lia|].
    destruct (pool_range_u32 _ _ _ _ _ e Hr) as [? _]; [lia|].
    apply lookup_v4_range; [done..|]. split; [done|]. by exists n.
  - intros ip ip' mac Hin%elem_of_range Hin'%elem_of_range Hm. by apply (Hinj ip ip' mac).
Qed.

(** C10: after a restart the leases are recovered from the pool's
    status: for an IPv4 pool whose lease records name distinct MACs and addresses
    inside the range that are not reserved, [BuildCache] succeeds in whatever order
    the records are visited; afterwards a MAC holds exactly the address recorded
    for it, exactly the recorded addresses are in use, the subnet offers exactly
    the range without the server, router and excluded addresses, and other
    networks, the API and the status are untouched. *)
Theorem BuildCache_recovers (seed : nat) (p : IPPool) (status : IPPoolStatus) (base plen s e : Z) (m : Management) :
  pool_range p base plen s e → is_pool_paused p = false →
  IsTrue CacheReady (pool_Conditions (pool_Status p)) = false →
  (∀ ip mac, lease_record (records_of p) ip mac → (ip ∉ revoked_of p) ∧ ∃ n, s ≤ n ≤ e ∧ ip = v4str n) →
  (∀ ip ip' mac, lease_record (records_of p) ip mac → lease_record (records_of p) ip' mac → ip = ip') →
  ∃ m' sn, BuildCache seed p status m = (m', Val (status, None)) ∧
    others_same (NetworkName (pool_Spec p)) m m' ∧
    (∀ mac ip, holds m' (NetworkName (pool_Spec p)) mac ip ↔ lease_record (records_of p) ip mac) ∧
    IPAllocator_ m' !! NetworkName (pool_Spec p) = Some sn ∧
    (∀ ip, sn_ips sn !! ip = Some true ↔ ∃ mac, lease_record (records_of p) ip mac) ∧
    ∀ ip, is_Some (sn_ips sn !! ip) ↔ (∃ n, s ≤ n ≤ e ∧ ip = v4str n) ∧ ip ∉ revoked_of p.
Proof using Type.
  intros Hr Hpaused Hready Hkeys Hinj.
  destruct (wp_run _ _ _ (wp_BuildCache_exact seed p status base plen s e m Hr Hpaused Hready Hkeys Hinj))
    as (m' & r & Hrun & -> & Ho & [(sn & P & Hsn & HR & Hips) _ Hc]).
  assert (Hin : ∀ ip mac, (ip, mac) ∈ leases_in (range seed (records_of p)) ↔ lease_record (records_of p) ip mac).
  { intros ip mac. unfold leases_in, lease_record. rewrite list_elem_of_filter, elem_of_range. cbn. tauto. }
  assert (Hkey : ∀ ip, ip ∈ (leases_in (range seed (records_of p))).*1 ↔ ∃ mac, lease_record (records_of p) ip mac).
  { intros ip. rewrite list_elem_of_fmap. split.
    - intros ([ip' mac] & -> & Hx). exists mac. by apply Hin.
    - intros [mac Hx]. exists (ip, mac). split; [done|]. by apply Hin. }
  assert (Hfree : ∀ ip b, free_after_revoke p s e !! ip = Some b ↔
     b = false ∧ (ip ∉ revoked_of p) ∧ ∃ n, s ≤ n ≤ e ∧ ip = v4str n).
  { intros ip b. unfold free_after_revoke. rewrite lookup_foldl_delete.
    destruct (pool_range_u32 _ _ _ _ _ s Hr) as [? _]; [destruct Hr; lia|].
    destruct (pool_range_u32 _ _ _ _ _ e Hr) as [? _]; [destruct Hr; lia|].
    case_decide; [split; [done|tauto]|]. rewrite lookup_v4_range by done. tauto. }
  exists m', sn. split; [done|]. split; [done|]. split; [by intros; rewrite Hc, Hin|]. split; [done|]. split.
  - intros ip. rewrite Hips, <-Hkey. case_decide as Hd; [by split|]. split; [|done].
    by intros (? & _)%Hfree.
  - intros ip. rewrite Hips. case_decide as Hd.
    + apply Hkey in Hd as [mac Hx]. destruct (Hkeys _ _ Hx) as [? ?]. split; [by split|by eexists].
    + split.
      * intros [b (_ & ? & ?)%Hfree]. by split.
      * intros [? ?]. exists false. by apply Hfree.
Qed.

(** Whatever the pool's records say, as long as each lease
    record is keyed by a specified address, [BuildCache] of an IPv4 pool ends, leaves
    the status as it was and keeps the lease table coherent on every path, failures
    half way included. *)
Theorem BuildCache_coherent (seed : nat) (p : IPPool) (status : IPPoolStatus) (m : Management) :
  v4_op (pool_op p) = true → leases_ok m →
  (∀ ip mac, lease_record (records_of p) ip mac → usable_key ip) →
  ∃ m' err, BuildCache seed p status m = (m', Val (status, err)) ∧ leases_ok m'.
Proof using Type.
  intros H4 Hok Hkeys. destruct (wp_run _ _ _ (wp_BuildCache seed p status m H4 Hok Hkeys))
    as (m' & [st err] & Hrun & Hok' & Hst). cbn in Hst. subst st. by exists m', err.
Qed.

(** ** cleanup *)

Context (h : Handler).

(** The state with the network of [p] dropped. *)
Definition dropped (p : IPPool) (m : Management) : Management :=
  let networkName := NetworkName (pool_Spec p) in
  mkManagement (DeleteMACSet networkName (CacheAllocator_ m)) (DeleteIPSubnet networkName (IPAllocator_ m))
    (DeleteIPPool networkName (CIDR (ipv4Config (pool_Spec p))) networkName (MetricsAllocator_ m)) (world m).

Lemma dropped_spec p m :
  leases_ok m →
  leases_ok (dropped p m) ∧ IsNetworkInitialized (NetworkName (pool_Spec p)) (IPAllocator_ (dropped p m)) = false ∧
  (∀ mac, HasMAC (NetworkName (pool_Spec p)) mac (CacheAllocator_ (dropped p m)) =
     (false, Some (mac_network_missing (NetworkName (pool_Spec p))))) ∧
  others_same (NetworkName (pool_Spec p)) (set_metrics m (MetricsAllocator_ (dropped p m))) (dropped p m).
Proof using Type.
  intros Hok. split; [exact (coherent_drop _ _ _ Hok)|]. split; [|split].
  - unfold IsNetworkInitialized, dropped, DeleteIPSubnet. cbn. rewrite lookup_delete_eq.
    by apply bool_decide_eq_false_2, is_Some_None.
  - intros mac. rewrite HasMAC_spec. cbn. unfold DeleteMACSet. by rewrite lookup_delete_eq.
  - split_and!; [done|done|]. intros name' Hne. cbn. unfold DeleteMACSet, DeleteIPSubnet. by rewrite !lookup_delete_ne.
Qed.

(** [cleanup] does nothing without a registered agent;
    otherwise it asks for the agent's deletion and, unless that fails with
    something else than "not found", drops the network's subnet, cache and the
    metrics published under the network's name; the lease table stays coherent. *)
Theorem pool_cleanup_spec (p : IPPool) (m : Management) :
  leases_ok m →
  match AgentPodRef (pool_Status p) with
  | None => cleanup p m = (m, Val None)
  | Some ref =>
      let '(w, err) := podClient_Delete (ref_Namespace ref) (ref_Name ref) (world m) in
      let networkName := NetworkName (pool_Spec p) in
      if from_option (λ e, negb (IsNotFound e)) false err
      then cleanup p m = (set_world m w, Val err)
      else ∃ m', cleanup p m = (m', Val None) ∧ leases_ok m' ∧ world m' = w ∧
        IsNetworkInitialized networkName (IPAllocator_ m') = false ∧
        (∀ mac, HasMAC networkName mac (CacheAllocator_ m') = (false, Some (mac_network_missing networkName))) ∧
        others_same networkName (set_metrics (set_world m w) (MetricsAllocator_ m')) m' ∧
        MetricsAllocator_ m' = DeleteIPPool networkName (CIDR (ipv4Config (pool_Spec p))) networkName
                                 (MetricsAllocator_ m)
  end.
Proof using Type.
  intros Hok. unfold cleanup. destruct (AgentPodRef (pool_Status p)) as [ref|]; [|done].
  destruct (podClient_Delete _ _ _) as [w err] eqn:Hd. cbv zeta.
  assert (Hreq : request (podClient_Delete (ref_Namespace ref) (ref_Name ref)) m = (set_world m w, Val err))
    by (unfold request, go_state; by rewrite Hd).
  destruct (dropped_spec p (set_world m w) Hok) as (Hok' & Hi & Hm & Ho).
  destruct err as [e|]; cbn [from_option]; [destruct (IsNotFound e) eqn:Hnf; cbn [negb];
    [|rewrite (bind_run _ _ _ _ _ Hreq); by rewrite Hnf]|];
    (exists (dropped p (set_world m w)); split; [rewrite (bind_run _ _ _ _ _ Hreq); by rewrite ?Hnf|]);
    do 4 (split; [done|]); by split.
Qed.

(** ** The handlers on the lease table *)

Lemma wp_pool_cleanup_ok p m : leases_ok m → wp (cleanup p) (λ _, leases_ok) leases_ok m.
Proof using Type.
  intros Hok. unfold cleanup. destruct (AgentPodRef (pool_Status p)) as [ref|]; [|by apply wp_ret].
  apply wp_bind, wp_request. destruct (podClient_Delete _ _ _) as [w err]. cbn [fst snd].
  destruct (match err with Some _ => _ | None => _ end); [by apply wp_ret|].
  apply wp_bind, wp_on_ipam, wp_bind, wp_on_cache, wp_bind, wp_on_metrics, wp_ret.
  by apply (dropped_spec p m).
Qed.

Lemma wp_pool_OnRemove_ok p m : leases_ok m → wp (OnRemove h p) (λ _, leases_ok) leases_ok m.
Proof using Type.
  intros Hok. unfold OnRemove. destruct p as [p|]; [|by apply wp_ret]. destruct (noAgent h); [by apply wp_ret|].
  apply wp_bind. eapply wp_mono; [| |by apply wp_pool_cleanup_ok]; [|done]. by intros [e|] m1 Hok1; apply wp_ret.
Qed.

Lemma quiet_DeployAgent `{KvLib} p status : quiet (DeployAgent h p status).
Proof using Type. unfold DeployAgent, deploy. solve_quiet. Qed.

Lemma quiet_MonitorAgent p status : quiet (MonitorAgent h p status).
Proof using Type. unfold MonitorAgent. solve_quiet. Qed.

Lemma quiet_ensureNADLabels `{KvLib} p : quiet (ensureNADLabels p).
Proof using Type. unfold ensureNADLabels. solve_quiet. Qed.

Lemma quiet_return_update {A} (f : World → World * result A) : quiet (return_update (request f)).
Proof using Type. unfold return_update. solve_quiet. Qed.

Lemma quiet_update_usage seed now key p p' : quiet (update_usage seed now key p p').
Proof using Type. unfold update_usage. pose proof @quiet_return_update. solve_quiet. Qed.

Lemma wp_pool_OnChange_ok `{KvLib} seed now key p m :
  leases_ok m → wp (OnChange seed now key p) (λ _, leases_ok) leases_ok m.
Proof using Type.
  intros Hok. unfold OnChange. destruct p as [p|]; [|by apply wp_ret].
  destruct (DeletionTimestamp (pool_Meta p)); [by apply wp_ret|].
  apply wp_bind. eapply wp_mono; [| |apply quiet_ok; [apply quiet_ensureNADLabels|done]]; [|done].
  intros [e|] m1 Hok1; [by apply wp_ret|]. destruct (is_pool_paused p).
  - apply wp_bind. eapply wp_mono; [| |by apply wp_pool_cleanup_ok]; [|done]. intros [e|] m2 Hok2; [by apply wp_ret|].
    cbv zeta. destruct (negb _); [apply quiet_ok; [apply quiet_return_update|done]|by apply wp_ret].
  - cbv zeta. apply quiet_ok; [|done]. pose proof @quiet_return_update. pose proof quiet_update_usage. solve_quiet.
Qed.
End facts.

(** ** Concrete runs *)

Import FakeKube.Demo.

(** The pool's status records the lease of one MAC and an excluded address. *)
Definition restarted : IPPool :=
  pool "False" (Some {[ "192.168.0.11" := mac1; "192.168.0.12" := ExcludedMark ]}).

Lemma restarted_range : pool_range restarted demo_net 24 (demo_net + 10) (demo_net + 12).
Proof. constructor; by vm_compute. Qed.

Lemma restarted_leases ip mac : lease_record (records_of restarted) ip mac → ip = "192.168.0.11" ∧ mac = mac1.
Proof.
  intros [Hl Hm]. unfold restarted, records_of, pool in Hl. cbn in Hl.
  apply lookup_insert_Some in Hl as [[<- <-]|[_ Hl]]; [done|]. by apply lookup_singleton_Some in Hl as [<- <-].
Qed.

Lemma BuildCache_recovers_witness :
  holds (BuildCache 0 restarted (pool_Status restarted) (management (api [restarted] []))).1
    "default/net-1" mac1 "192.168.0.11".
Proof.
  destruct (BuildCache_recovers 0 restarted (pool_Status restarted) demo_net 24 (demo_net + 10) (demo_net + 12)
    (management (api [restarted] []))) as (m' & sn & Hrun & _ & Hholds & _);
    [apply restarted_range|reflexivity|reflexivity| | |].
  - intros ip mac [-> ->]%restarted_leases. split; [|by exists (demo_net + 11)].
    intros Hin. cbn in Hin. repeat (apply elem_of_cons in Hin as [?|Hin]; [done|]). by apply elem_of_nil in Hin.
  - by intros ip ip' mac [-> _]%restarted_leases [-> _]%restarted_leases.
  - rewrite Hrun. apply Hholds. split; vm_compute; reflexivity.
Defined.

Lemma BuildCache_coherent_witness :
  ∃ m' err, BuildCache 0 restarted (pool_Status restarted) (management (api [restarted] [])) =
    (m', Val (pool_Status restarted, err)) ∧ leases_ok m'.
Proof.
  apply (BuildCache_coherent 0 restarted); [vm_compute; reflexivity|apply demo_ok|].
  intros ip mac [-> ->]%restarted_leases. split; [vm_compute; reflexivity|discriminate].
Defined.

(** A pool with a registered agent that is gone already. *)
Definition with_agent : IPPool := pool_AgentPodRef "harvester-system" "agent-1" "img:v1" "uid-1" (pool "True" None).

Lemma pool_cleanup_spec_witness :
  ∃ m', cleanup with_agent (management (api [with_agent] [])) = (m', Val None) ∧ leases_ok m' ∧
    IsNetworkInitialized "default/net-1" (IPAllocator_ m') = false.
Proof.
  destruct (pool_cleanup_spec with_agent (management (api [with_agent] [])) (demo_ok _))
    as (m' & Hrun & Hok & _ & Hinit & _).
  exists m'. split; [exact Hrun|]. split; [exact Hok|exact Hinit].
Defined.
