(* ===== verification/Admission.v ===== *)
(** * From admission to the allocator

    What the webhooks let through is what the IPPool controller loads: the checks of
    [pkg/webhook/ippool] against the loops of [pkg/controller/ippool] and [pkg/ipam]. *)

From S2P Require Import Prelude GoNet GoNetFacts GoText Api Util UtilFacts Ipam IpamFacts IpamSpec MacCache Metrics Leases Webhook Fakes WebhookFacts Kube FakeKube IpPool IpPoolFacts.
Local Open Scope Z_scope.

(** The mutator's patches are to the IPv4 part of the spec. *)
Lemma apply_patches_frame os p :
  pool_Status (apply_patches os p) = pool_Status p ∧ pool_Meta (apply_patches os p) = pool_Meta p ∧
  is_pool_paused (apply_patches os p) = is_pool_paused p.
Proof.
  unfold apply_patches. revert p. induction os as [|o os IH]; intros p; [done|]. cbn [foldl].
  destruct (IH (apply_patch o p)) as (-> & -> & ->). unfold apply_patch. destruct (Value o); done.
Qed.

Section admission.
Context `{MapRange} `{ConditionLib} `{KvLib} `{PromLib} `{Kube}.

(** The addresses a loaded pool hands out. *)
Definition offered (p : IPPool) (first last : Z) (ip : string) : Prop :=
  (∃ n, first ≤ n ≤ last ∧ ip = v4str n) ∧ ip ∉ revoked_of p.

Lemma records_none p : IPv4 (pool_Status p) = None → records_of p = ∅.
Proof using Type. unfold records_of. by intros ->. Qed.

(** The subnet of a pool without records is free but for the addresses taken out. *)
Lemma wp_BuildCache_fresh (seed : nat) (p : IPPool) (status : IPPoolStatus) (base plen first last : Z) (m : Management) :
  pool_range p base plen first last → is_pool_paused p = false →
  IsTrue CacheReady (pool_Conditions (pool_Status p)) = false → IPv4 (pool_Status p) = None →
  ∃ m' sn P, BuildCache seed p status m = (m', Val (status, None)) ∧
    others_same (NetworkName (pool_Spec p)) m m' ∧
    (∀ mac ip, ¬ holds m' (NetworkName (pool_Spec p)) mac ip) ∧
    IPAllocator_ m' !! NetworkName (pool_Spec p) = Some sn ∧ represents sn base plen P ∧
    ∀ ip b, sn_ips sn !! ip = Some b ↔ b = false ∧ offered p first last ip.
Proof using Type.
  intros Hr Hpaused Hready Hst. pose proof (records_none p Hst) as Hrec.
  destruct (wp_run _ _ _ (wp_BuildCache_exact seed p status base plen first last m Hr Hpaused Hready
    ltac:(rewrite Hrec; intros ip mac [Hl _]; by rewrite lookup_empty in Hl)
    ltac:(rewrite Hrec; intros ip ip' mac [Hl _]; by rewrite lookup_empty in Hl)))
    as (m' & r & Hrun & -> & Ho & [(sn & P & Hsn & HR & Hips) _ Hc]).
  rewrite Hrec, range_empty in Hips, Hc. exists m', sn, P. split; [done|]. split; [done|].
  split; [intros mac ip Hh; by apply Hc, elem_of_nil in Hh|]. split; [done|]. split; [done|].
  intros ip b. rewrite Hips, decide_False by apply not_elem_of_nil. unfold free_after_revoke.
  destruct (pool_range_u32 _ _ _ _ _ first Hr) as [? _]; [destruct Hr; lia|].
  destruct (pool_range_u32 _ _ _ _ _ last Hr) as [? _]; [destruct Hr; lia|].
  unfold offered. rewrite lookup_foldl_delete. case_decide; [split; [done|tauto]|]. rewrite lookup_v4_range by done. tauto.
Qed.

(** C18: a new IPv4 pool that mutator and validator let through is loaded by
    the controller without error, whatever the allocators held before, and is then ready
    to serve: what [AllocateIP] grants lies in the admitted range, strictly inside the
    network, and is neither the server's nor the router's address nor an excluded one;
    and as long as the range has any other address, a request is granted. *)
Theorem admitted_pool_serves (svc : string) (nads : string → string → result NAD) (ipPool : IPPool)
    (os : list PatchOp) (a p : Z) (s e sv r : option Z) (seed : nat) (status : IPPoolStatus) (m : Management) :
  v4_pool ipPool a p s e sv r → p < 32 →
  mutate_create ipPool = Val (inl os) → validate_create svc nads (apply_patches os ipPool) = Val None →
  is_pool_paused ipPool = false → IsTrue CacheReady (pool_Conditions (pool_Status ipPool)) = false →
  IPv4 (pool_Status ipPool) = None →
  let ipPool' := apply_patches os ipPool in
  let name := NetworkName (pool_Spec ipPool) in
  ∃ first last m', host a p first ∧ host a p last ∧ first ≤ last ∧
    BuildCache seed ipPool' status m = (m', Val (status, None)) ∧ others_same name m m' ∧
    (∀ mac ip, ¬ holds m' name mac ip) ∧
    (∀ seed' wanted ip a', AllocateIP seed' name wanted (IPAllocator_ m') = (a', (ip, None)) →
       offered ipPool' first last ip) ∧
    ((∃ ip, offered ipPool' first last ip) →
       ∀ seed', (AllocateIP seed' name EmptyString (IPAllocator_ m')).2.2 = None).
Proof using Type.
  intros Hv4 Hp Hmut Hval Hpaused Hready Hst ipPool' name.
  destruct (admitted_v4 _ _ _ _ _ _ _ _ _ _ Hv4 Hp Hmut Hval) as (s' & e' & sv' & Hv4' & Hhs & Hhe & _ & Hse & _ & Hname).
  fold ipPool' name in Hv4', Hname. destruct (apply_patches_frame os ipPool) as (Hst' & _ & Hpaused'). fold ipPool' in Hst', Hpaused'.
  assert (Hr : pool_range ipPool' a p s' e').
  { destruct Hv4' as [Ha Hp32 Hc Hs He _ _ (Us & Ue & _)]. unfold host in *.
    pose proof (net_first_u32 a p Ha Hp32) as [? _].
    constructor; [done|done|done|rewrite Hs; by apply ParseIP_v4str|rewrite He; by apply ParseIP_v4str|lia..]. }
  destruct (wp_BuildCache_fresh seed ipPool' status a p s' e' m Hr) as (m' & sn & P & Hrun & Ho & Hno & Hsn & HR & Hips);
    [congruence..|]. rewrite Hname in *.
  exists s', e', m'. do 6 (split; [done|]). split.
  - intros seed' wanted ip a' Hal.
    destruct (AllocateIP_frame _ _ _ _ _ _ _ Hal) as [(_ & sn' & Hsn' & Hf & _)|[[? ?] _]]; [|done].
    rewrite Hsn in Hsn'. injection Hsn' as <-. by apply Hips in Hf as [_ ?].
  - intros [ip Hip] seed'. assert (Hf : sn_ips sn !! ip = Some false) by (by apply Hips).
    apply (rep_lookup _ _ _ _ HR) in Hf as (n & Hn & _).
    destruct (AllocateIP_outcome seed' name (IPAllocator_ m') sn a p P Hsn HR EmptyString) as (P' & o & Hstep & Hout).
    change (request_of EmptyString) with Any in Hstep. inversion Hstep; simplify_eq; [by destruct Hout as [-> _]|set_solver].
Qed.

End admission.

(** ** A pool on its way *)

Import FakeKube.Demo.

Lemma admitted_pool_serves_witness :
  let ipPool := demo_ippool "" "" "" in
  let ipPool' := apply_patches demo_patches ipPool in
  ∃ m', BuildCache 0 ipPool' (pool_Status ipPool') (management (api [ipPool'] [])) =
          (m', Val (pool_Status ipPool', None)) ∧
    (∀ mac ip, ¬ holds m' "default/net-1" mac ip) ∧
    (AllocateIP 0 "default/net-1" EmptyString (IPAllocator_ m')).2 = ("192.168.0.77", None).
Proof.
  cbv zeta.
  destruct (@admitted_pool_serves canonical_range plain_conditions plain_kv mem_prom mem_kube "10.53.0.0/16" demo_nads
             (demo_ippool "" "" "") demo_patches demo_net 24 None None None (Some (demo_net + 1)) 0
             (pool_Status (apply_patches demo_patches (demo_ippool "" "" "")))
             (management (api [apply_patches demo_patches (demo_ippool "" "" "")] [])))
    as (first & last & m' & _ & _ & _ & Hrun & _ & Hno & _);
    [apply demo_v4_pool|by vm_compute..|].
  exists m'. split; [exact Hrun|]. split; [exact Hno|].
  replace m' with (BuildCache 0 (apply_patches demo_patches (demo_ippool "" "" ""))
    (pool_Status (apply_patches demo_patches (demo_ippool "" "" "")))
    (management (api [apply_patches demo_patches (demo_ippool "" "" "")] []))).1 by (by rewrite Hrun).
  vm_compute. reflexivity.
Defined.
