(* ===== verification/IpPoolAgentFacts.v ===== *)
(** * The IPPool controller: agents, network labels and usage *)

From S2P Require Import Prelude GoNet GoText Api Util Ipam MacCache Metrics Leases Webhook Kube FakeKube Image IpPool VmNetCfg.
Local Open Scope go_scope.
Local Open Scope Z_scope.

Section facts.
Context `{MapRange} `{ConditionLib} `{KvLib} `{PromLib} `{Kube}.
Implicit Types m : Management.

(** ** Network labels *)

(** The NAD as [ensureNADLabels] wants it. *)
Definition labelled (p : IPPool) (nad : NAD) : NAD :=
  nad_Label IPPoolNameLabelKey (Name (pool_Meta p))
    (nad_Label IPPoolNamespaceLabelKey (Namespace (pool_Meta p)) nad).

Lemma label_keys_differ : IPPoolNamespaceLabelKey ≠ IPPoolNameLabelKey.
Proof using Type. by vm_compute. Qed.

Lemma labelled_labels p nad :
  Labels (nad_Meta (labelled p nad)) =
    Some (<[IPPoolNameLabelKey := Name (pool_Meta p)]>
            (<[IPPoolNamespaceLabelKey := Namespace (pool_Meta p)]> (or_empty (Labels (nad_Meta nad))))).
Proof using Type. done. Qed.

Lemma labelled_idem p nad : labelled p (labelled p nad) = labelled p nad.
Proof using Type.
  destruct nad as [[ns n uid labels ann own del rv]]. unfold labelled, nad_Label. cbn.
  rewrite (insert_insert_ne _ IPPoolNamespaceLabelKey) by apply label_keys_differ.
  by rewrite !insert_insert_eq.
Qed.

(** [ensureNADLabels] sends the NAD with the pool's
    labels, and nothing when it carries them already; once the labelled NAD is in
    the cache, the VirtualMachineNetworkConfig controller resolves the network
    name to this very pool, and the next call sends nothing. *)
Theorem ensureNADLabels_resolves (p : IPPool) (nad : NAD) (m : Management) :
  let '(ns, n) := RSplit (NetworkName (pool_Spec p)) "/" in
  nadCache_Get (world m) ns n = inl nad →
  ensureNADLabels p m =
    (if decide (labelled p nad = nad) then (m, Val None)
     else let '(w, r) := nadClient_Update (labelled p nad) (world m) in
          (set_world m w, Val (match r with inl _ => None | inr e => Some e end))) ∧
  ∀ m', nadCache_Get (world m') ns n = inl (labelled p nad) →
    getIPPoolFromNetworkName (NetworkName (pool_Spec p)) (world m') =
      ippoolCache_Get (world m') (Namespace (pool_Meta p)) (Name (pool_Meta p)) ∧
    ensureNADLabels p m' = (m', Val None).
Proof using Type.
  destruct (RSplit _ _) as [ns n] eqn:Hsplit. intros Hget.
  assert (Hrun : ∀ m nad, nadCache_Get (world m) ns n = inl nad → ensureNADLabels p m =
    (if decide (labelled p nad = nad) then (m, Val None)
     else let '(w, r) := nadClient_Update (labelled p nad) (world m) in
          (set_world m w, Val (match r with inl _ => None | inr e => Some e end)))).
  { clear Hget. intros m0 nad0 Hget. unfold ensureNADLabels. rewrite Hsplit.
    rewrite (bind_run _ _ m0 m0 (inl nad0)) by (unfold ask_world, go_gets; by rewrite Hget).
    fold (labelled p nad0). unfold DeepEqual. case_decide as Hd.
    - by rewrite bool_decide_eq_true_2.
    - rewrite bool_decide_eq_false_2 by done. cbn [negb]. unfold request, go_state, mbind, GoM_bind.
      by destruct (nadClient_Update _ _) as [w [r|e]]. }
  split; [by apply Hrun|]. intros m' Hget'. split.
  - unfold getIPPoolFromNetworkName. rewrite Hsplit, Hget'. cbn [mbind result_MBind].
    rewrite labelled_labels. rewrite lookup_insert_ne by (symmetry; apply label_keys_differ).
    by rewrite !lookup_insert_eq.
  - rewrite (Hrun _ _ Hget'). by rewrite decide_True by apply labelled_idem.
Qed.

(** ** The agent pod *)

Lemma pod_selector_key : "network.harvesterhci.io/vm-dhcp-controller" = vmDHCPControllerLabelKey.
Proof using Type. by vm_compute. Qed.

(** A pod can be prepared exactly when the pool's CIDR parses.
    It carries the label the controller selects agent pods by, a change of it
    triggers the reconciliation of the pool it was made for, its main container
    runs the image of the handler's options, and the argument it is started with
    makes the agent watch that pool. *)
Theorem agent_pod_watched (p : IPPool) (noDHCP : bool) (ns cn sa : string) (image : Image) :
  match prepareAgentPod p noDHCP ns cn sa image with
  | inr e => (ParseCIDR (CIDR (ipv4Config (pool_Spec p)))).2 = Some e
  | inl pod =>
      (ParseCIDR (CIDR (ipv4Config (pool_Spec p)))).2 = None ∧
      ({[ "network.harvesterhci.io/vm-dhcp-controller" := "agent" ]} : gmap string string)
        ⊆ or_empty (Labels (podMeta pod)) ∧
      (∀ w pods, podCache_List w ns {[ "network.harvesterhci.io/vm-dhcp-controller" := "agent" ]} = inl pods →
         pod ∈ pods → ∃ keys, ippool_trigger ns w = inl keys ∧
           (Namespace (pool_Meta p), Name (pool_Meta p)) ∈ keys) ∧
      ∃ c ref rest, Containers pod = [c] ∧ ctr_Image c = Image_String image ∧
        Args c = "--ippool-ref" :: ref :: rest ∧ ("--dry-run" ∈ rest ↔ noDHCP = true) ∧
        (plain_name (Namespace (pool_Meta p)) = true → plain_name (Name (pool_Meta p)) = true →
         agent_IPPoolRef ref = (Namespace (pool_Meta p), Name (pool_Meta p)))
  end.
Proof using Type.
  unfold prepareAgentPod. destruct (RSplit (NetworkName _) _) as [nadNs nadN].
  destruct (ParseCIDR _) as [[ip ipNet] [e|]]; [done|]. destruct (Mask_Size _) as [ones bits]. cbn [podMeta Containers].
  rewrite pod_selector_key. split; [done|]. split.
  { cbn. apply map_singleton_subseteq_l. by rewrite lookup_insert_eq. }
  split.
  - intros w pods Hl Hin. unfold ippool_trigger. rewrite pod_selector_key, Hl.
    eexists. split; [done|]. apply list_elem_of_fmap. eexists. split; [|exact Hin]. cbn [podMeta Labels or_empty default from_option id].
    rewrite !(lookup_insert_ne _ vmDHCPControllerLabelKey) by (by vm_compute). rewrite lookup_insert_eq.
    rewrite lookup_insert_ne by (by vm_compute). by rewrite lookup_singleton_eq.
  - eexists _, _, (if noDHCP then ["--dry-run"] else []). split; [done|]. split; [done|]. split; [by destruct noDHCP|].
    split; [|intros ? ?; by apply RSplit_pair]. destruct noDHCP.
    + split; [done|]. intros _. by left.
    + split; [by intros ?%elem_of_nil|done].
Qed.

(** ** DeployAgent *)

Context (h : Handler).

(** The pool refers to no pod the cache knows. *)
Definition agent_missing (p : IPPool) (w : World) : Prop :=
  match AgentPodRef (pool_Status p) with
  | None => True
  | Some ref => ∃ e, podCache_Get w (ref_Namespace ref) (ref_Name ref) = inr e ∧ IsNotFound e = true
  end.

(** The pod [DeployAgent] makes for [p]. *)
Definition agent_for (p : IPPool) (pod : Pod) : Prop :=
  ∃ clusterNetwork, prepareAgentPod p (noDHCP h) (agentNamespace h) clusterNetwork
    (agentServiceAccountName h) (agentImage h) = inl pod.

(** What a successful [DeployAgent] with agents enabled leaves in the status. *)
Definition deployed (p : IPPool) (w : World) (ref : PodReference) : Prop :=
  (∃ pod, podCache_Get w (ref_Namespace ref) (ref_Name ref) = inl pod ∧
     DeletionTimestamp (podMeta pod) = None ∧ UID (podMeta pod) = ref_UID ref) ∨
  (∃ pod pod', agent_for p pod ∧ (podClient_Create pod w).2 = inl pod' ∧
     ref = mkPodReference (Namespace (podMeta pod')) (Name (podMeta pod')) (Image_String (agentImage h))
             (UID (podMeta pod'))) ∨
  (∃ pod e, agent_for p pod ∧ (podClient_Create pod w).2 = inr e ∧ IsAlreadyExists e = true ∧
     ref = set_ref_Image (default PodReference_zero (AgentPodRef (pool_Status p))) (Image_String (agentImage h))).

Definition deploy_outcome (p : IPPool) (m m' : Management)
    (out : IPPoolStatus * option error) : Prop :=
  same_leases m m' ∧ MetricsAllocator_ m' = MetricsAllocator_ m ∧
  (world m' = world m ∨ ∃ pod, agent_missing p (world m) ∧ agent_for p pod ∧
     world m' = (podClient_Create pod (world m)).1) ∧
  (out.2 = None → ∃ ref, AgentPodRef out.1 = Some ref ∧ deployed p (world m) ref).

Lemma wp_deploy cn p status m :
  agent_missing p (world m) →
  (∀ img, set_ref_Image (default PodReference_zero (AgentPodRef status)) img =
          set_ref_Image (default PodReference_zero (AgentPodRef (pool_Status p))) img) →
  wp (deploy h cn p status) (λ out m', deploy_outcome p m m' out) (λ _, False) m.
Proof using Type.
  intros Hmiss Href. unfold deploy. destruct (prepareAgentPod _ _ _ cn _ _) as [pod|e] eqn:Hpod.
  2: { apply wp_ret. split_and!; [done|done|by left|done]. }
  assert (Hfor : agent_for p pod) by by exists cn.
  apply wp_bind, wp_request. destruct (podClient_Create pod (world m)) as [w [pod'|e]] eqn:Hc; cbn [fst snd].
  - apply wp_ret. split_and!; [done|done| |].
    + right. exists pod. by rewrite Hc.
    + intros _. eexists. split; [done|]. right. left. exists pod, pod'. rewrite Hc. split_and!; [done|done|].
      cbn. done.
  - assert (Hw : w = (podClient_Create pod (world m)).1) by by rewrite Hc.
    destruct (IsAlreadyExists e) eqn:He; apply wp_ret; (split; [done|split; [done|split; [right; by exists pod|]]]); [|done].
    intros _. eexists. split; [done|]. right. right. exists pod, e. rewrite Hc. by rewrite Href.
Qed.

(** C40: on the object and its own status, [DeployAgent] returns
    without panic and touches neither leases nor metrics.  The only request it may
    send creates the pod prepared for the pool, and only when the pool is not
    paused, agents are enabled and the pod referred to is not in the cache.  It
    reports success with agents enabled only with a reference to a live pod of the
    same UID, to the pod just created, or, when the pod exists already, with the
    old reference. *)
Theorem DeployAgent_spec (p : IPPool) (m : Management) :
  ∃ m' status' err, DeployAgent h p (pool_Status p) m = (m', Val (status', err)) ∧
    if is_pool_paused p || noAgent h
    then m' = m ∧ status' = pool_Status p ∧ (err = None ↔ is_pool_paused p = false)
    else deploy_outcome p m m' (status', err).
Proof using Type.
  enough (Hwp : wp (DeployAgent h p (pool_Status p)) (λ out m',
    if is_pool_paused p || noAgent h
    then m' = m ∧ out.1 = pool_Status p ∧ (out.2 = None ↔ is_pool_paused p = false)
    else deploy_outcome p m m' out) (λ _, False) m).
  { apply wp_run in Hwp as (m' & [status' err] & Hrun & Hout). by exists m', status', err. }
  unfold DeployAgent. destruct (is_pool_paused p); [by apply wp_ret|].
  destruct (noAgent h); [by apply wp_ret|]. cbn [orb].
  assert (Hnop : ∀ status e, deploy_outcome p m m (status, Some e)).
  { intros status e. split_and!; [done|done|by left|done]. }
  destruct (RSplit _ _) as [ns n]. apply wp_bind, wp_gets. destruct (nadCache_Get _ _ _) as [nad|e]; [|by apply wp_ret].
  destruct (Labels (nad_Meta nad) ≫= _) as [cn|]; [|by apply wp_ret].
  destruct (AgentPodRef (pool_Status p)) as [ref|] eqn:Href.
  2: { apply wp_deploy; [by unfold agent_missing; rewrite Href|done]. }
  assert (Himg : ∃ image, getAgentImage h p = Val image).
  { unfold getAgentImage. rewrite Href. destruct (_ !! _); by eexists. }
  destruct Himg as [image Himg]. apply wp_bind. unfold wp at 1, go_pure. rewrite Himg.
  apply wp_bind, wp_gets.
  destruct (podCache_Get (world m) (ref_Namespace ref) (ref_Name ref)) as [pod|e] eqn:Hpod.
  - destruct (DeletionTimestamp (podMeta pod)) eqn:Hdel; [by apply wp_ret|].
    destruct (String.eqb_spec (UID (podMeta pod)) (ref_UID ref)) as [Huid|Huid]; apply wp_ret; [|apply Hnop].
    split_and!; [done|done|by left|]. intros _. eexists. split; [done|]. left. by exists pod.
  - destruct (IsNotFound e) eqn:Hnf; [|by apply wp_ret]. cbn [negb].
    apply wp_deploy; [unfold agent_missing; rewrite Href; by exists e|]. by rewrite Href.
Qed.

(** When the pod exists although the pool does not
    refer to it (the status update after its creation was lost), [DeployAgent]
    reports success with a reference that names no pod, and from then on returns
    just that reference: the pool never learns of its agent. *)
Theorem existing_agent_is_forgotten (p : IPPool) (m : Management) (cn : string) (pod : Pod) (e : error) (nad : NAD) :
  let '(ns, n) := RSplit (NetworkName (pool_Spec p)) "/" in
  let ref := mkPodReference EmptyString EmptyString (Image_String (agentImage h)) EmptyString in
  is_pool_paused p = false → noAgent h = false →
  or_empty (Annotations (pool_Meta p)) !! holdIPPoolAgentUpgradeAnnotationKey = None →
  nadCache_Get (world m) ns n = inl nad → Labels (nad_Meta nad) ≫= (.!! clusterNetworkLabelKey) = Some cn →
  prepareAgentPod p (noDHCP h) (agentNamespace h) cn (agentServiceAccountName h) (agentImage h) = inl pod →
  podClient_Create pod (world m) = (world m, inr e) → IsAlreadyExists e = true →
  (∃ e', podCache_Get (world m) EmptyString EmptyString = inr e' ∧ IsNotFound e' = true) →
  (AgentPodRef (pool_Status p) = None ∨ AgentPodRef (pool_Status p) = Some ref) →
  DeployAgent h p (pool_Status p) m = (m, Val (set_AgentPodRef (pool_Status p) (Some ref), None)).
Proof using Type.
  destruct (RSplit _ _) as [ns n] eqn:Hsplit. cbv zeta.
  intros Hpaused Hagent Hhold Hnad Hcn Hpod Hcreate He (e' & Hget & Hnf) Href.
  unfold DeployAgent. rewrite Hpaused, Hagent, Hsplit.
  rewrite (bind_run _ _ m m (inl nad)) by (unfold ask_world, go_gets; by rewrite Hnad). rewrite Hcn.
  assert (Hdeploy : ∀ status, AgentPodRef status = None ∨ (∃ r, AgentPodRef status = Some r ∧
      ref_Namespace r = EmptyString ∧ ref_Name r = EmptyString ∧ ref_UID r = EmptyString) →
    deploy h cn p status m = (m, Val (set_AgentPodRef status (Some (mkPodReference EmptyString EmptyString
      (Image_String (agentImage h)) EmptyString)), None))).
  { intros status Hst. unfold deploy. rewrite Hpod.
    rewrite (bind_run _ _ m m (inr e)) by (unfold request, go_state; rewrite Hcreate; by destruct m). rewrite He.
    destruct Hst as [->|([rn rm ri ru] & -> & Hr1 & Hr2 & Hr3)]; cbn in *; by subst. }
  destruct Href as [Href|Href]; rewrite Href.
  - apply Hdeploy. by left.
  - unfold getAgentImage. rewrite Hhold. unfold mbind at 1, GoM_bind, go_pure.
    rewrite (bind_run _ _ m m (inr e')) by (unfold ask_world, go_gets; cbn [ref_Namespace ref_Name]; by rewrite Hget). rewrite Hnf. cbn [negb].
    rewrite Hdeploy; [done|]. right. by eexists.
Qed.

(** ** MonitorAgent *)

Lemma isPodReady_spec pod :
  isPodReady pod = true ↔ ∃ l, filter (λ c, c.1 = "Ready") (podConditions pod) = ("Ready", "True") :: l.
Proof using Type.
  unfold isPodReady. destruct (filter _ _) as [|[t s] l] eqn:Hf; [split; [done|by intros [? ?]]|].
  assert (Ht : t = "Ready").
  { assert (Hin : (t, s) ∈ filter (λ c : string * string, c.1 = "Ready") (podConditions pod)) by (rewrite Hf; by left).
    by apply list_elem_of_filter in Hin as [? _]. }
  subst t. rewrite String.eqb_eq. split; [intros ->; by exists l|]. by intros [l' [= -> _]].
Qed.

(** The pod runs under the reference. *)
Definition current (ref : PodReference) (pod : Pod) : Prop :=
  UID (podMeta pod) = ref_UID ref ∧ ∃ c cs, Containers pod = c :: cs ∧ ctr_Image c = ref_Image ref.

Definition is_current (ref : PodReference) (pod : Pod) : bool :=
  String.eqb (UID (podMeta pod)) (ref_UID ref) &&
  match Containers pod with
  | [] => false
  | c :: _ => String.eqb (ctr_Image c) (ref_Image ref)
  end.

Lemma is_current_spec ref pod : is_current ref pod = true ↔ current ref pod.
Proof using Type.
  unfold is_current, current. rewrite andb_true_iff, String.eqb_eq.
  destruct (Containers pod) as [|c cs]; [split; [by intros [_ ?]|by intros (_ & ? & ? & ? & _)]|].
  rewrite String.eqb_eq. split; intros [Hu Hi]; (split; [done|]); [eauto|].
  by destruct Hi as (? & ? & [= <- <-] & ?).
Qed.

(** The part of [MonitorAgent] after the pod was found. *)
Lemma MonitorAgent_found p status ref pod m :
  is_pool_paused p = false → noAgent h = false → AgentPodRef (pool_Status p) = Some ref →
  podCache_Get (world m) (ref_Namespace ref) (ref_Name ref) = inl pod → Containers pod ≠ [] →
  ∃ m' err, MonitorAgent h p status m = (m', Val (status, err)) ∧
    (err = None ↔ is_current ref pod = true ∧ isPodReady pod = true) ∧
    (m' = m ∨ is_current ref pod = false ∧ DeletionTimestamp (podMeta pod) = None ∧
       m' = set_world m (podClient_Delete (Namespace (podMeta pod)) (Name (podMeta pod)) (world m)).1).
Proof using Type.
  intros Hp Ha Href Hget Hne. unfold MonitorAgent. rewrite Hp, Ha, Href.
  rewrite (bind_run _ _ m m (inl pod)) by (unfold ask_world, go_gets; by rewrite Hget).
  rewrite (bind_run _ _ m m (negb (is_current ref pod))).
  2: { unfold go_pure, is_current. destruct (String.eqb (UID _) _); [|done]. by destruct (Containers pod). }
  destruct (is_current ref pod); cbn [negb].
  - destruct (isPodReady pod); eexists m, _; (split; [done|]); (split; [|by left]); by split; [|intros [_ ?]].
  - destruct (DeletionTimestamp (podMeta pod)) as [t|].
    + eexists m, _. split; [done|]. split; [by split; [|intros [? _]]|by left].
    + unfold mbind, GoM_bind, request, go_state.
      destruct (podClient_Delete _ _ _) as [w [e|]]; eexists (set_world m w), _; (split; [done|]);
        (split; [by split; [|intros [? _]]|by right]).
Qed.

(** Provided the pods in the cache have a container,
    [MonitorAgent] returns without panic, leaves leases and status alone, and
    reports success exactly when the pool is not paused and agents are disabled or
    the pod referred to is current (UID and image) and ready.  The only request it
    may send deletes a pod that is not current and not being deleted already. *)
Theorem MonitorAgent_spec (p : IPPool) (status : IPPoolStatus) (m : Management) :
  (∀ ns n pod, podCache_Get (world m) ns n = inl pod → Containers pod ≠ []) →
  ∃ m' err, MonitorAgent h p status m = (m', Val (status, err)) ∧ same_leases m m' ∧
    (err = None ↔ is_pool_paused p = false ∧
       (noAgent h = true ∨ ∃ ref pod, AgentPodRef (pool_Status p) = Some ref ∧
          podCache_Get (world m) (ref_Namespace ref) (ref_Name ref) = inl pod ∧ current ref pod ∧
          isPodReady pod = true)) ∧
    (m' = m ∨ ∃ ref pod, AgentPodRef (pool_Status p) = Some ref ∧
       podCache_Get (world m) (ref_Namespace ref) (ref_Name ref) = inl pod ∧ ¬ current ref pod ∧
       DeletionTimestamp (podMeta pod) = None ∧
       m' = set_world m (podClient_Delete (Namespace (podMeta pod)) (Name (podMeta pod)) (world m)).1).
Proof using Type.
  intros Hcont. destruct (is_pool_paused p) eqn:Hp.
  { unfold MonitorAgent. rewrite Hp. eexists _, _. split; [done|].
    split; [done|]. split; [by split; [|intros [? _]]|by left]. }
  destruct (noAgent h) eqn:Ha.
  { unfold MonitorAgent. rewrite Hp, Ha. eexists _, _. split; [done|]. split; [done|]. split; [|by left]. split; auto. }
  destruct (AgentPodRef (pool_Status p)) as [ref|] eqn:Href.
  2: { unfold MonitorAgent. rewrite Hp, Ha, Href. eexists _, _. split; [done|]. split; [done|]. split; [|by left].
    split; [done|]. by intros (_ & [?|(? & ? & ? & _)]). }
  destruct (podCache_Get (world m) (ref_Namespace ref) (ref_Name ref)) as [pod|e] eqn:Hget.
  - destruct (MonitorAgent_found p status ref pod m) as (m' & err & Hrun & Herr & Hm); [done..|by eapply Hcont|].
    exists m', err. split; [done|]. split; [by destruct Hm as [->|(_ & _ & ->)]|]. split.
    + rewrite Herr, is_current_spec. split.
      * intros [? ?]. split; [done|]. right. by exists ref, pod.
      * intros [_ [?|(ref' & pod' & [= <-] & Hget' & ? & ?)]]; [done|]. rewrite Hget in Hget'. by simplify_eq.
    + destruct Hm as [->|(Hcur & Hdel & ->)]; [by left|]. right. exists ref, pod. split_and!; try done.
      rewrite <-is_current_spec. by rewrite Hcur.
  - unfold MonitorAgent. rewrite Hp, Ha, Href.
    rewrite (bind_run _ _ m m (inr e)) by (unfold ask_world, go_gets; by rewrite Hget).
    eexists _, _. split; [done|]. split; [done|]. split; [|by left]. split; [done|].
    intros [_ [?|(ref' & pod' & [= <-] & Hget' & _)]]; [done|]. rewrite Hget in Hget'. by simplify_eq.
Qed.

(** ** OnChange *)

(** A pool whose status says what [OnChange] would write. *)
Record settled_pool (seed : nat) (p : IPPool) (st : IPv4Status) (m : Management) : Prop := {
  sp_alive : DeletionTimestamp (pool_Meta p) = None;
  sp_active : is_pool_paused p = false;
  sp_labels : ∃ nad, nadCache_Get (world m) (RSplit (NetworkName (pool_Spec p)) "/").1
                       (RSplit (NetworkName (pool_Spec p)) "/").2 = inl nad ∧ labelled p nad = nad;
  sp_running : GetStatus Stopped (pool_Conditions (pool_Status p)) = "False";
  sp_status : IPv4 (pool_Status p) = Some st;
  sp_used : GetUsed seed (NetworkName (pool_Spec p)) (IPAllocator_ m) = (Used st, None);
  sp_available : GetAvailable seed (NetworkName (pool_Spec p)) (IPAllocator_ m) = (Available st, None);
  sp_records : (let al := mark_records (ipv4Config (pool_Spec p)) (or_empty (st_Allocated st)) in
     if bool_decide (al = ∅) then None else Some al) = st_Allocated st;
}.

Lemma ensureNADLabels_labelled p nad m :
  nadCache_Get (world m) (RSplit (NetworkName (pool_Spec p)) "/").1
    (RSplit (NetworkName (pool_Spec p)) "/").2 = inl nad → labelled p nad = nad →
  ensureNADLabels p m = (m, Val None).
Proof using Type.
  intros Hget Hl. unfold ensureNADLabels. destruct (RSplit _ _) as [ns n]. cbn [fst snd] in Hget.
  rewrite (bind_run _ _ m m (inl nad)) by (unfold ask_world, go_gets; by rewrite Hget).
  fold (labelled p nad). unfold DeepEqual. by rewrite bool_decide_eq_true_2.
Qed.

Lemma pool_status_same p st : IPv4 (pool_Status p) = Some st → set_pool_Status p (set_IPv4 (pool_Status p) (Some st)) = p.
Proof using Type. destruct p as [me sp [lu v4 ref cs]]. cbn. by intros ->. Qed.

(** A pool whose labels, condition, counters and records are
    up to date is left alone: [OnChange] sends nothing, changes no lease and returns
    the object; the gauges then show the pool's usage under its own key. *)
Theorem pool_OnChange_settled (seed : nat) (now : Z) (key : string) (p : IPPool) (st : IPv4Status) (m : Management) :
  settled_pool seed p st m →
  ∃ g, IpPool.OnChange seed now key (Some p) m = (set_metrics m g, Val (Some p, None)) ∧
    let l := pool_labels key (CIDR (ipv4Config (pool_Spec p))) (NetworkName (pool_Spec p)) in
    gauge_value l (ipPoolUsed g) = Some (Used st) ∧ gauge_value l (ipPoolAvailable g) = Some (Available st).
Proof using Type.
  intros [Hdel Hp (nad & Hnad & Hl) Hstop Hst Hu Ha Hrec]. unfold IpPool.OnChange. rewrite Hdel.
  rewrite (bind_run _ _ _ _ _ (ensureNADLabels_labelled p nad m Hnad Hl)). rewrite Hp.
  assert (Hcpy : pool_cond (SetFalse Stopped) p = p).
  { unfold pool_cond. rewrite SetFalse_spec, SetStatus_same by done. by destruct p as [? ? []]. }
  rewrite Hcpy. set (f := λ initialized : bool, _). unfold mbind, GoM_bind, ask_ipam, go_gets.
  assert (Hinit : IsNetworkInitialized (NetworkName (pool_Spec p)) (IPAllocator_ m) = true).
  { unfold IsNetworkInitialized, GetUsed in *. destruct (IPAllocator_ m !! _); [|done].
    by apply bool_decide_eq_true_2. }
  rewrite Hinit. unfold f. cbn [negb]. unfold update_usage.
  rewrite (bind_run _ _ m m (Used st, None)) by (unfold ask_ipam, go_gets; by rewrite Hu).
  rewrite (bind_run _ _ m m (Available st, None)) by (unfold ask_ipam, go_gets; by rewrite Ha).
  rewrite Hst. cbn [default from_option id]. cbv zeta in Hrec |- *. rewrite Hrec.
  replace (mkIPv4Status (st_Allocated st) (Used st) (Available st)) with st by (by destruct st).
  rewrite (pool_status_same p st Hst). unfold DeepEqual. rewrite bool_decide_eq_true_2 by done. cbn [negb].
  eexists. split; [reflexivity|]. cbn [set_metrics MetricsAllocator_ ipPoolUsed ipPoolAvailable UpdateIPPoolUsed UpdateIPPoolAvailable].
  by rewrite !gauge_value_Set, !decide_True.
Qed.

(** ** cleanup and the metrics *)

(** [OnChange] publishes a pool's usage under the
    pool's key, [cleanup] deletes what is published under the network's name: unless
    the two are equal, the gauges of a pool that was stopped or removed keep their
    last values. *)
Theorem pool_metrics_survive_cleanup (key : string) (p : IPPool) (m m' : Management) (r : res (option error)) :
  key ≠ NetworkName (pool_Spec p) → IpPool.cleanup p m = (m', r) →
  let l := pool_labels key (CIDR (ipv4Config (pool_Spec p))) (NetworkName (pool_Spec p)) in
  gauge_value l (ipPoolUsed (MetricsAllocator_ m')) = gauge_value l (ipPoolUsed (MetricsAllocator_ m)) ∧
  gauge_value l (ipPoolAvailable (MetricsAllocator_ m')) = gauge_value l (ipPoolAvailable (MetricsAllocator_ m)).
Proof using Type.
  intros Hkey Hrun l.
  assert (Hl : l ≠ pool_labels (NetworkName (pool_Spec p)) (CIDR (ipv4Config (pool_Spec p))) (NetworkName (pool_Spec p))).
  { intros Heq%(f_equal (.!! LabelIPPoolName)). unfold l, pool_labels in Heq.
    rewrite !lookup_insert_eq in Heq. by injection Heq. }
  assert (Hwp : wp (IpPool.cleanup p) (λ _ m', MetricsAllocator_ m' = MetricsAllocator_ m ∨
     MetricsAllocator_ m' = DeleteIPPool (NetworkName (pool_Spec p)) (CIDR (ipv4Config (pool_Spec p)))
       (NetworkName (pool_Spec p)) (MetricsAllocator_ m)) (λ _, False) m).
  { unfold IpPool.cleanup. destruct (AgentPodRef _) as [ref|]; [|apply wp_ret; by left].
    apply wp_bind, wp_request. destruct (match _ with Some _ => _ | None => _ end); [apply wp_ret; by left|].
    apply wp_bind, wp_on_ipam, wp_bind, wp_on_cache, wp_bind, wp_on_metrics, wp_ret. by right. }
  unfold wp in Hwp. rewrite Hrun in Hwp. destruct r; [|done..].
  destruct Hwp as [->| ->]; [done|]. cbn [ipPoolUsed ipPoolAvailable DeleteIPPool].
  by rewrite !gauge_value_Delete, !decide_False.
Qed.
End facts.

(** ** Concrete runs *)

Import FakeKube.Demo.

Definition demo_handler : Handler :=
  mkHandler "harvester-system" (mkImage "rancher/harvester-vm-dhcp-agent" "v1") "vdca" false false.

(** The network with its cluster network, not labelled by the controller yet. *)
Definition raw_nad : NAD := nad_Label clusterNetworkLabelKey "mgmt" (NewNetworkAttachmentDefinitionBuilder "default" "net-1").
Definition cluster (p : IPPool) (pods : list Pod) : ApiServer :=
  with_pods (with_nads (api [p] []) {[ ("default", "net-1") := raw_nad ]})
    (list_to_map ((λ q, (obj_key (podMeta q), q)) <$> pods)).

Lemma ensureNADLabels_resolves_witness :
  let p := pool "True" None in let m := management (cluster p []) in
  ∃ w, nadClient_Update (labelled p raw_nad) (world m) = (w, inl (nad_rv (labelled p raw_nad) 1)) ∧
    ensureNADLabels p m = (set_world m w, Val None).
Proof.
  intros p m. destruct (ensureNADLabels_resolves p raw_nad m) as [Hrun _]; [vm_compute; reflexivity|].
  destruct (decide (labelled p raw_nad = raw_nad)) as [Heq|_].
  - exfalso. apply (f_equal (λ n, size (or_empty (Labels (nad_Meta n))))) in Heq. vm_compute in Heq. discriminate Heq.
  - destruct (nadClient_Update (labelled p raw_nad) (world m)) as [w r] eqn:Hu. exists w.
    assert (Hr : (nadClient_Update (labelled p raw_nad) (world m)).2 = inl (nad_rv (labelled p raw_nad) 1))
      by (vm_compute; reflexivity).
    rewrite Hu in Hr. cbn [snd] in Hr. subst r. split; [reflexivity|exact Hrun].
Defined.

Definition agent_pod : Pod :=
  match prepareAgentPod (pool "True" None) false "harvester-system" "mgmt" "vdca" (agentImage demo_handler) with
  | inl pod => pod
  | inr _ => newPodBuilder "" ""
  end.

(** The pod exists, the pool does not refer to it. *)
Lemma existing_agent_is_forgotten_witness :
  let p := pool "True" None in let m := management (cluster p [agent_pod]) in
  DeployAgent demo_handler p (pool_Status p) m =
    (m, Val (set_AgentPodRef (pool_Status p)
       (Some (mkPodReference "" "" "rancher/harvester-vm-dhcp-agent:v1" "")), None)).
Proof.
  intros p m.
  refine (existing_agent_is_forgotten demo_handler p m "mgmt" agent_pod
    (StatusError AlreadyExists (Name (podMeta agent_pod))) raw_nad
    eq_refl eq_refl eq_refl _ _ _ _ eq_refl _ (or_introl eq_refl)); try (vm_compute; reflexivity).
  exists (StatusError NotFound ""). split; vm_compute; reflexivity.
Defined.

(** A pool whose agent runs an old image. *)
Definition running_agent : Pod :=
  pod_PodReady "True" (pod_Container "agent" "rancher/harvester-vm-dhcp-agent" "v1" (newPodBuilder "harvester-system" "agent-1")).
Definition upgraded : IPPool :=
  pool_AgentPodRef "harvester-system" "agent-1" "rancher/harvester-vm-dhcp-agent:v2" "" (pool "True" None).

Lemma MonitorAgent_spec_witness :
  ∃ m' err, MonitorAgent demo_handler upgraded (pool_Status upgraded) (management (cluster upgraded [running_agent])) =
    (m', Val (pool_Status upgraded, Some err)).
Proof.
  destruct (MonitorAgent_spec demo_handler upgraded (pool_Status upgraded)
    (management (cluster upgraded [running_agent]))) as (m' & err & Hrun & _ & Herr & _).
  - intros ns n q Hq. unfold podCache_Get in Hq. cbn in Hq. unfold get_in in Hq.
    destruct (_ !! _) as [q'|] eqn:Hl in Hq; [|discriminate].
    apply lookup_insert_Some in Hl as [[_ <-]|[_ Hl]]; [injection Hq as <-; discriminate|].
    by apply lookup_empty_Some in Hl.
  - exists m'. destruct err as [e|]; [exists e; exact Hrun|]. exfalso.
    destruct Herr as [Herr _]. destruct (Herr eq_refl) as [_ [?|(ref & q & Href & Hq & (_ & c & cs & Hc & Hi) & _)]]; [discriminate|].
    injection Href as <-. vm_compute in Hq. injection Hq as <-. injection Hc as <- <-. discriminate Hi.
Defined.

(** Stopped is false, the counters are those of the fresh subnet. *)
Definition quiet_pool : IPPool :=
  pool_cond (SetFalse Stopped) (mkIPPool (pool_Meta (pool "True" None)) (pool_Spec (pool "True" None))
    (pool_Status (pool "True" None))).

Lemma pool_OnChange_settled_witness :
  ∃ g, IpPool.OnChange 0 7 "default/pool-1" (Some quiet_pool) (management (api [quiet_pool] [])) =
    (set_metrics (management (api [quiet_pool] [])) g, Val (Some quiet_pool, None)).
Proof.
  destruct (pool_OnChange_settled 0 7 "default/pool-1" quiet_pool (mkIPv4Status None 0 3)
    (management (api [quiet_pool] []))) as (g & Hrun & _).
  - constructor; try (vm_compute; reflexivity). exists nad. split; vm_compute; reflexivity.
  - exists g. exact Hrun.
Defined.

Lemma pool_metrics_survive_cleanup_witness :
  let l := pool_labels "default/pool-1" "192.168.0.0/24" "default/net-1" in
  let m := set_metrics (management (api [upgraded] []))
             (UpdateIPPoolUsed "default/pool-1" "192.168.0.0/24" "default/net-1" 2 NewMetricsAllocator) in
  gauge_value l (ipPoolUsed (MetricsAllocator_ (IpPool.cleanup upgraded m).1)) = Some 2.
Proof.
  intros l m. destruct (pool_metrics_survive_cleanup "default/pool-1" upgraded m (IpPool.cleanup upgraded m).1
    (IpPool.cleanup upgraded m).2) as [Hu _]; [discriminate|by destruct (IpPool.cleanup upgraded m)|].
  refine (eq_trans Hu _). vm_compute. reflexivity.
Defined.
