(* ===== verification/Vm.v ===== *)
(** * The VirtualMachine controller ([pkg/controller/vm])

    It derives the VirtualMachineNetworkConfig of a virtual machine.  [seed] names
    the iterations over Go maps. *)

From S2P Require Import Prelude GoNet GoText Api Util Ipam MacCache Metrics Leases Webhook Kube.
Local Open Scope go_scope.

(** ** The virtual machine, as far as the controller reads it (KubeVirt's types) *)

Record Interface : Type := mkInterface {
  if_Name : string;
  if_MacAddress : string;
}.

(** [Multus] is the network name of a Multus source, [None] any other source. *)
Record VmNetwork : Type := mkVmNetwork {
  vmnet_Name : string;
  Multus : option string;
}.

Record VirtualMachine : Type := mkVirtualMachine {
  vm_APIVersion : string;
  vm_Kind : string;
  vm_Meta : ObjectMeta;
  Template : option (list Interface * list VmNetwork);
}.

(** ** common.go *)

Definition vmLabelKey : string := "harvesterhci.io/vmName".

Section vm.
Context `{MapRange}.

(** Harvester's [util.AnnotationMacAddressName]. *)
Context (AnnotationMacAddressName : string).

(** The network configs come in the map's iteration order. *)
Definition prepareVmNetCfg (seed : nat) (vm : VirtualMachine) (ncm : gmap string NetworkConfig) : VmNetCfg :=
  let name := Name (vm_Meta vm) in
  mkVmNetCfg EmptyString
    (mkObjectMeta (Namespace (vm_Meta vm)) name EmptyString (Some {[ vmLabelKey := name ]}) None
       [mkOwnerReference (vm_APIVersion vm) (vm_Kind vm) name (UID (vm_Meta vm))] None 0)
    (mkVmNetCfgSpec name (range seed ncm).*2 None)
    (mkVmNetCfgStatus [] []).

(** [vmBuilder] *)
Record vmBuilder : Type := mkVmBuilder {
  built : VirtualMachine;
  nicToMacAddress : gmap string string;
}.

Definition newVMBuilder (namespace name : string) : vmBuilder :=
  mkVmBuilder (mkVirtualMachine EmptyString EmptyString (named_meta namespace name) None) ∅.

(** Keys in byte order. *)
Definition key_le (a b : string * string) : Prop := String.leb a.1 b.1 = true.
#[export] Instance key_le_dec a b : Decision (key_le a b).
Proof. unfold key_le. apply _. Defined.

(** [json.Marshal] of a map: the keys in order. *)
Definition Marshal_map (m : gmap string string) : string :=
  json_object ((λ e : string * string, json_field e.1 (json_quote e.2)) <$>
    merge_sort key_le (map_to_list m)).

Definition set_Template (vm : VirtualMachine) (t : list Interface * list VmNetwork) : VirtualMachine :=
  mkVirtualMachine (vm_APIVersion vm) (vm_Kind vm) (vm_Meta vm) (Some t).

Definition WithInterfaceInAnnotation (macAddress nicName : string) (b : vmBuilder) : vmBuilder :=
  let macs := <[nicName := macAddress]> (nicToMacAddress b) in
  let vm := built b in
  mkVmBuilder
    (mkVirtualMachine (vm_APIVersion vm) (vm_Kind vm)
       (set_Annotations (vm_Meta vm)
          (Some (<[AnnotationMacAddressName := Marshal_map macs]> (or_empty (Annotations (vm_Meta vm))))))
       (Template vm)) macs.

Definition WithInterfaceInSpec (macAddress nicName : string) (b : vmBuilder) : vmBuilder :=
  let '(ifs, nets) := default ([], []) (Template (built b)) in
  mkVmBuilder (set_Template (built b) (ifs ++ [mkInterface nicName macAddress], nets)) (nicToMacAddress b).

Definition WithNetwork (nicName networkName : string) (b : vmBuilder) : vmBuilder :=
  let '(ifs, nets) := default ([], []) (Template (built b)) in
  let source := if String.eqb networkName EmptyString then None else Some networkName in
  mkVmBuilder (set_Template (built b) (ifs, nets ++ [mkVmNetwork nicName source])) (nicToMacAddress b).

(** ** The network configs of a virtual machine *)

Definition mac_only (mac : string) : NetworkConfig := mkNetworkConfig EmptyString mac None.

(** The MACs of the annotation; [None] when its text is no JSON object of strings. *)
Definition from_annotation (seed : nat) (vm : VirtualMachine) : option (gmap string NetworkConfig) :=
  match Annotations (vm_Meta vm) with
  | None => Some ∅
  | Some annotations =>
      let text := default EmptyString (annotations !! AnnotationMacAddressName) in
      if String.eqb text EmptyString then Some ∅
      else
        macs ← Unmarshal_map text;
        Some (foldl (λ ncm '(nic, macaddress),
                       if String.eqb macaddress EmptyString then ncm
                       else <[nic := mac_only macaddress]> ncm) ∅ (range seed macs))
  end.

Definition add_interface (ncm : gmap string NetworkConfig) (nic : Interface) : gmap string NetworkConfig :=
  if String.eqb (if_MacAddress nic) EmptyString then ncm
  else <[if_Name nic := mac_only (if_MacAddress nic)]> ncm.

Definition name_network (ncm : gmap string NetworkConfig) (network : VmNetwork) : gmap string NetworkConfig :=
  match Multus network with
  | None => ncm
  | Some networkName =>
      match ncm !! vmnet_Name network with
      | None => ncm
      | Some nc => <[vmnet_Name network := mkNetworkConfig networkName (nc_MACAddress nc) (nc_IPAddress nc)]> ncm
      end
  end.

Definition network_configs (initial : gmap string NetworkConfig) (interfaces : list Interface)
    (networks : list VmNetwork) : gmap string NetworkConfig :=
  filter (λ e, nc_NetworkName e.2 ≠ EmptyString)
    (foldl name_network (foldl add_interface initial interfaces) networks).

(** ** controller.go *)

Context `{ConditionLib} `{PromLib} `{Kube}.

(** The part of [OnChange] once the network configs are known. *)
Definition update_vmnetcfg (vm : VirtualMachine) (vmNetCfg : VmNetCfg)
    : GoM Management (option VirtualMachine * option error) :=
  let ns := Namespace (vm_Meta vm) in
  let name := Name (vm_Meta vm) in
  found ← ask_world (λ w, vmnetcfgCache_Get w ns name);
  match found with
  | inr err =>
      if IsNotFound err then
        try! _ := request (vmnetcfgClient_Create vmNetCfg) catch err => mret (Some vm, Some err) in
        mret (Some vm, None)
      else mret (Some vm, Some err)
  | inl oldVmNetCfg =>
      let vmNetCfgCpy := set_vnc_Spec oldVmNetCfg
        (mkVmNetCfgSpec (VMName (vnc_Spec oldVmNetCfg)) (NetworkConfigs (vnc_Spec vmNetCfg))
           (vnc_Paused (vnc_Spec oldVmNetCfg))) in
      if negb (DeepEqual (NetworkConfigs (vnc_Spec vmNetCfgCpy)) (NetworkConfigs (vnc_Spec oldVmNetCfg))) then
        if IsFalse InSynced (vnc_Conditions (vnc_Status oldVmNetCfg)) then
          try! _ := request (vmnetcfgClient_Update vmNetCfgCpy) catch err => mret (Some vm, Some err) in
          mret (Some vm, None)
        else
          let vmNetCfgCpy := vnc_cond (set_condition InSynced "False" "NetworkConfigChanged"
            "Network configuration of the upstrem virtual machine has been changed") vmNetCfgCpy in
          try! _ := request (vmnetcfgClient_UpdateStatus vmNetCfgCpy) catch err => mret (Some vm, Some err) in
          _ ← request (λ w, (vmController_Enqueue ns name w, tt));
          mret (Some vm, None)
      else mret (Some vm, None)
  end.

Definition OnChange (seed : nat) (vm : option VirtualMachine)
    : GoM Management (option VirtualMachine * option error) :=
  match vm with
  | None => mret (None, None)
  | Some vm =>
      match DeletionTimestamp (vm_Meta vm) with
      | Some _ => mret (None, None)
      | None =>
          match from_annotation seed vm with
          | None => mret (None, None)
          | Some initial =>
              match Template vm with
              | None => go_panic "nil Template"
              | Some (interfaces, networks) =>
                  let ncm := network_configs initial interfaces networks in
                  if bool_decide (ncm = ∅) then mret (Some vm, None)
                  else update_vmnetcfg vm (prepareVmNetCfg (S seed) vm ncm)
              end
          end
      end
  end.
End vm.
