(* ===== verification/VmFacts.v ===== *)
(** * The VirtualMachine controller: its contract *)

From S2P Require Import Prelude GoNet GoText Api Util Ipam MacCache Metrics Leases Webhook Fakes Kube FakeKube Vm.
Local Open Scope go_scope.

(** ** Which MAC and which network a NIC gets *)

(** The last interface of the name with a MAC. *)
Definition last_mac (k : string) (interfaces : list Interface) : option string :=
  last (omap (λ i, if decide (if_Name i = k ∧ if_MacAddress i ≠ EmptyString) then Some (if_MacAddress i) else None)
          interfaces).

(** The last Multus network of the name. *)
Definition last_network (k : string) (networks : list VmNetwork) : option string :=
  last (omap (λ n, if decide (vmnet_Name n = k) then Multus n else None) networks).

Lemma lookup_add_interfaces k initial interfaces :
  foldl add_interface initial interfaces !! k =
    match last_mac k interfaces with Some mac => Some (mac_only mac) | None => initial !! k end.
Proof.
  induction interfaces as [|i l IH] using rev_ind; [done|].
  rewrite foldl_snoc. unfold last_mac in *. rewrite omap_app, last_app. unfold add_interface at 1. cbn [omap list_omap].
  destruct (String.eqb_spec (if_MacAddress i) EmptyString) as [He|He].
  - rewrite decide_False by (by intros [_ ?]). cbn [last]. by rewrite IH.
  - destruct (decide (if_Name i = k)) as [Hk|Hk].
    + rewrite decide_True by done. cbn. subst k. by rewrite lookup_insert_eq.
    + rewrite decide_False by (by intros [? _]). cbn [last]. by rewrite lookup_insert_ne, IH.
Qed.

Lemma lookup_name_networks k ncm networks :
  foldl name_network ncm networks !! k =
    (λ nc, match last_network k networks with
           | Some networkName => mkNetworkConfig networkName (nc_MACAddress nc) (nc_IPAddress nc)
           | None => nc
           end) <$> ncm !! k.
Proof.
  induction networks as [|n l IH] using rev_ind.
  { cbn. by destruct (ncm !! k). }
  rewrite foldl_snoc. unfold last_network in *. rewrite omap_app, last_app. unfold name_network at 1. cbn [omap list_omap].
  destruct (Multus n) as [networkName|] eqn:Hm.
  - destruct (decide (vmnet_Name n = k)) as [Hk|Hk].
    + cbn [last]. subst k. destruct (foldl _ _ _ !! vmnet_Name n) as [nc|] eqn:Hl.
      * rewrite lookup_insert_eq. symmetry in IH. apply fmap_Some in IH as (nc0 & -> & ->). cbn.
        by destruct (last _).
      * rewrite Hl. symmetry in IH. apply fmap_None in IH as ->. done.
    + cbn [last]. rewrite <-IH. destruct (foldl _ _ _ !! vmnet_Name n); [by rewrite lookup_insert_ne|done].
  - assert (Hnone : (if decide (vmnet_Name n = k) then None else None) = (None : option string)) by by case_decide.
    rewrite Hnone. cbn [last]. by rewrite IH.
Qed.

(** A NIC is configured exactly when it has a MAC, from the
    last interface of its name that states one or else from the annotation, and a
    Multus network of non-empty name, the last one given for it; its entry is that
    MAC in that network, with no address asked for. *)
Theorem network_configs_spec (macs : gmap string string) (interfaces : list Interface)
    (networks : list VmNetwork) (k : string) (nc : NetworkConfig) :
  network_configs (mac_only <$> macs) interfaces networks !! k = Some nc ↔
    ∃ mac networkName, nc = mkNetworkConfig networkName mac None ∧ networkName ≠ EmptyString ∧
      last_network k networks = Some networkName ∧
      match last_mac k interfaces with Some mac' => Some mac' | None => macs !! k end = Some mac.
Proof.
  unfold network_configs. rewrite map_lookup_filter_Some, lookup_name_networks, lookup_add_interfaces, lookup_fmap.
  assert (Hm : match last_mac k interfaces with Some mac => Some (mac_only mac) | None => mac_only <$> macs !! k end =
    mac_only <$> match last_mac k interfaces with Some mac' => Some mac' | None => macs !! k end)
    by by destruct (last_mac k interfaces).
  rewrite Hm. clear Hm. generalize (match last_mac k interfaces with Some mac' => Some mac' | None => macs !! k end).
  intros [mac|]; cbn [fmap option_fmap option_map].
  - split.
    + intros [[= <-] Hne]. destruct (last_network k networks) as [networkName|]; [|done]. by exists mac, networkName.
    + intros (mac' & networkName & -> & Hne & -> & [= ->]). done.
  - split; [by intros [? _]|by intros (? & ? & _ & _ & _ & ?)].
Qed.

(** ** The requests of OnChange *)

Section facts.
Context `{MapRange} (AnnotationMacAddressName : string).
Context `{ConditionLib} `{PromLib} `{Kube}.
Implicit Types m : Management.

(** What the annotation contributes. *)
Definition annotation_macs (vm : VirtualMachine) : option (gmap string string) :=
  match Annotations (vm_Meta vm) with
  | None => Some ∅
  | Some annotations =>
      let text := default EmptyString (annotations !! AnnotationMacAddressName) in
      if String.eqb text EmptyString then Some ∅
      else filter (λ e, e.2 ≠ EmptyString) <$> Unmarshal_map text
  end.

Lemma foldl_add_macs (l : list (string * string)) (ncm : gmap string NetworkConfig) :
  NoDup l.*1 → (∀ k, k ∈ l.*1 → ncm !! k = None) →
  foldl (λ ncm '(nic, macaddress), if String.eqb macaddress EmptyString then ncm
           else <[nic := mac_only macaddress]> ncm) ncm l =
  (mac_only <$> filter (λ e, e.2 ≠ EmptyString) (list_to_map l : gmap string string)) ∪ ncm.
Proof using Type.
  revert ncm. induction l as [|[nic mac] l IH]; intros ncm Hnd Hnone; cbn [foldl].
  - cbn. rewrite map_filter_empty, fmap_empty. by rewrite (left_id_L ∅ (∪)).
  - cbn in Hnd, Hnone. apply NoDup_cons in Hnd as [Hnic Hnd]. cbn [list_to_map foldr fst snd].
    assert (Hl : (list_to_map l : gmap string string) !! nic = None) by by apply not_elem_of_list_to_map.
    destruct (String.eqb_spec mac EmptyString) as [He|He].
    + rewrite map_filter_insert_False by (by rewrite He; intros ?). rewrite delete_id by done.
      apply IH; [done|]. intros k Hk. apply Hnone. by right.
    + rewrite map_filter_insert_True by done. rewrite fmap_insert. rewrite IH; [|done|].
      * rewrite <-insert_union_l, insert_union_r; [done|].
        rewrite lookup_fmap. apply fmap_None. apply map_lookup_filter_None. by left.
      * intros k Hk. rewrite lookup_insert_ne by (intros ->; done). apply Hnone. by right.
Qed.

Lemma from_annotation_spec seed vm :
  from_annotation AnnotationMacAddressName seed vm =
    (λ macs : gmap string string, (mac_only <$> macs : gmap string NetworkConfig)) <$> annotation_macs vm.
Proof using Type.
  unfold from_annotation, annotation_macs. destruct (Annotations (vm_Meta vm)) as [annotations|]; [|cbn; by rewrite fmap_empty].
  cbv zeta. destruct (String.eqb _ _); [cbn; by rewrite fmap_empty|].
  destruct (Unmarshal_map _) as [macs|]; [|done]. cbn [mbind option_bind fmap option_fmap option_map]. f_equal.
  rewrite foldl_add_macs by (apply NoDup_fst_range || (intros; apply lookup_empty)).
  rewrite list_to_map_range. by rewrite (right_id_L ∅ (∪)).
Qed.

(** The network configs of a machine. *)
Definition configs_of (vm : VirtualMachine) : option (gmap string NetworkConfig) :=
  macs ← annotation_macs vm; '(interfaces, networks) ← Template vm;
  Some (network_configs (mac_only <$> macs) interfaces networks).

(** The requests [OnChange] may send for a machine with configs [ncm], and when. *)
Inductive vm_request (vm : VirtualMachine) (ncm : gmap string NetworkConfig) (w : World) : World → Prop :=
| vm_nothing : vm_request vm ncm w w
| vm_create v e :
    vmnetcfgCache_Get w (Namespace (vm_Meta vm)) (Name (vm_Meta vm)) = inr e → IsNotFound e = true →
    Namespace (vnc_Meta v) = Namespace (vm_Meta vm) → Name (vnc_Meta v) = Name (vm_Meta vm) →
    OwnerReferences (vnc_Meta v) =
      [mkOwnerReference (vm_APIVersion vm) (vm_Kind vm) (Name (vm_Meta vm)) (UID (vm_Meta vm))] →
    NetworkConfigs (vnc_Spec v) ≡ₚ (map_to_list ncm).*2 →
    vm_request vm ncm w (vmnetcfgClient_Create v w).1
| vm_update old cfgs :
    vmnetcfgCache_Get w (Namespace (vm_Meta vm)) (Name (vm_Meta vm)) = inl old →
    GetStatus InSynced (vnc_Conditions (vnc_Status old)) = "False" →
    cfgs ≡ₚ (map_to_list ncm).*2 → cfgs ≠ NetworkConfigs (vnc_Spec old) →
    vm_request vm ncm w (vmnetcfgClient_Update (set_vnc_Spec old
      (mkVmNetCfgSpec (VMName (vnc_Spec old)) cfgs (vnc_Paused (vnc_Spec old)))) w).1
| vm_mark old v cfgs w' :
    vmnetcfgCache_Get w (Namespace (vm_Meta vm)) (Name (vm_Meta vm)) = inl old →
    GetStatus InSynced (vnc_Conditions (vnc_Status old)) ≠ "False" →
    cfgs ≡ₚ (map_to_list ncm).*2 → cfgs ≠ NetworkConfigs (vnc_Spec old) →
    vnc_Meta v = vnc_Meta old → st_NetworkConfigs (vnc_Status v) = st_NetworkConfigs (vnc_Status old) →
    GetStatus InSynced (vnc_Conditions (vnc_Status v)) = "False" →
    w' = (vmnetcfgClient_UpdateStatus v w).1 ∨
    w' = vmController_Enqueue (Namespace (vm_Meta vm)) (Name (vm_Meta vm)) (vmnetcfgClient_UpdateStatus v w).1 →
    vm_request vm ncm w w'.

Lemma wp_update_vmnetcfg vm ncm seed m :
  wp (update_vmnetcfg vm (prepareVmNetCfg seed vm ncm))
    (λ r m', same_leases m m' ∧ MetricsAllocator_ m' = MetricsAllocator_ m ∧
       vm_request vm ncm (world m) (world m')) (λ _, False) m.
Proof using Type.
  assert (Hperm : NetworkConfigs (vnc_Spec (prepareVmNetCfg seed vm ncm)) ≡ₚ (map_to_list ncm).*2).
  { cbn. by rewrite range_perm. }
  unfold update_vmnetcfg. apply wp_bind, wp_gets.
  destruct (vmnetcfgCache_Get _ _ _) as [old|e] eqn:Hget.
  - unfold DeepEqual. case_bool_decide as Hd; cbn [negb]; [apply wp_ret; split_and!; done || constructor|].
    rewrite IsFalse_spec. destruct (String.eqb_spec (GetStatus InSynced (vnc_Conditions (vnc_Status old))) "False") as [Hs|Hs].
    + apply wp_bind, wp_request. destruct (vmnetcfgClient_Update _ _) as [w r] eqn:Hu. cbn [fst snd].
      assert (Hreq : vm_request vm ncm (world m) w).
      { replace w with (vmnetcfgClient_Update (set_vnc_Spec old (mkVmNetCfgSpec (VMName (vnc_Spec old))
          (NetworkConfigs (vnc_Spec (prepareVmNetCfg seed vm ncm))) (vnc_Paused (vnc_Spec old)))) (world m)).1
          by (by rewrite Hu). by constructor. }
      destruct r; by apply wp_ret.
    + apply wp_bind, wp_request. destruct (vmnetcfgClient_UpdateStatus _ _) as [w r] eqn:Hu. cbn [fst snd].
      assert (Hreq : ∀ w', w' = w ∨ w' = vmController_Enqueue (Namespace (vm_Meta vm)) (Name (vm_Meta vm)) w →
        vm_request vm ncm (world m) w').
      { intros w' Hw'. eapply vm_mark; [done|done|exact Hperm|exact Hd|..].
        4: { match type of Hu with vmnetcfgClient_UpdateStatus ?v _ = _ => instantiate (1 := v) end. by rewrite Hu. }
        - done.
        - done.
        - cbn. unfold set_condition. autorewrite with go_cond. by rewrite String.eqb_refl. }
      destruct r as [o|e]; [|apply wp_ret; split_and!; try done; apply Hreq; by left].
      apply wp_bind, wp_request, wp_ret. split_and!; try done. apply Hreq. by right.
  - destruct (IsNotFound e) eqn:Hnf; [|apply wp_ret; split_and!; done || constructor].
    apply wp_bind, wp_request. destruct (vmnetcfgClient_Create _ _) as [w r] eqn:Hc. cbn [fst snd].
    assert (Hreq : vm_request vm ncm (world m) w).
    { replace w with (vmnetcfgClient_Create (prepareVmNetCfg seed vm ncm) (world m)).1 by (by rewrite Hc).
      by eapply vm_create. }
    destruct r; by apply wp_ret.
Qed.

(** C32: for a machine that is not being deleted and has a
    template, [OnChange] returns without panic and touches no lease.  It creates the
    VirtualMachineNetworkConfig, owned by the machine, only when there is none; it
    changes the spec of an existing one only when that is marked out of sync, and
    marks it so (status only, machine enqueued again) before: the configs are those
    of the machine, in some order. *)
Theorem vm_OnChange_requests (seed : nat) (vm : VirtualMachine) (m : Management) :
  DeletionTimestamp (vm_Meta vm) = None → is_Some (Template vm) →
  ∃ m' r, OnChange AnnotationMacAddressName seed (Some vm) m = (m', Val r) ∧ same_leases m m' ∧
    match configs_of vm with
    | None => m' = m
    | Some ncm => vm_request vm ncm (world m) (world m')
    end.
Proof using Type.
  intros Hdel [[interfaces networks] Ht]. unfold OnChange, configs_of. rewrite Hdel, from_annotation_spec, Ht.
  destruct (annotation_macs vm) as [macs|]; [|eexists _, _; split; [done|]; by split].
  cbn [fmap option_fmap option_map mbind option_bind].
  set (ncm := network_configs _ interfaces networks). case_bool_decide as He.
  { eexists _, _. split; [done|]. split; [done|]. constructor. }
  destruct (wp_run _ _ _ (wp_update_vmnetcfg vm ncm (S seed) m)) as (m' & r & Hrun & Hl & _ & Hreq).
  by exists m', r.
Qed.

(** A machine with one configured NIC whose
    VirtualMachineNetworkConfig says so is left alone, whatever the iteration order. *)
Theorem vm_OnChange_single_stable (seed : nat) (vm : VirtualMachine) (k : string) (nc : NetworkConfig)
    (old : VmNetCfg) (m : Management) :
  DeletionTimestamp (vm_Meta vm) = None → configs_of vm = Some {[ k := nc ]} →
  vmnetcfgCache_Get (world m) (Namespace (vm_Meta vm)) (Name (vm_Meta vm)) = inl old →
  NetworkConfigs (vnc_Spec old) = [nc] →
  OnChange AnnotationMacAddressName seed (Some vm) m = (m, Val (Some vm, None)).
Proof using Type.
  intros Hdel Hc Hget Hold. unfold OnChange, configs_of in *. rewrite Hdel, from_annotation_spec.
  destruct (annotation_macs vm) as [macs|]; [|done]. destruct (Template vm) as [[interfaces networks]|]; [|done].
  cbn [fmap option_fmap option_map mbind option_bind] in *. injection Hc as ->.
  rewrite bool_decide_eq_false_2 by apply insert_non_empty.
  unfold update_vmnetcfg. rewrite (bind_run _ _ m m (inl old)) by (unfold ask_world, go_gets; by rewrite Hget).
  unfold DeepEqual. rewrite bool_decide_eq_true_2; [done|]. cbn. by rewrite range_singleton, Hold.
Qed.
End facts.

(** ** Concrete runs *)

Import Demo.

Definition mac_annotation : string := "harvesterhci.io/mac-address".

Definition machine (interfaces : list Interface) (networks : list VmNetwork) : VirtualMachine :=
  mkVirtualMachine "kubevirt.io/v1" "VirtualMachine" (named_meta "default" "vm-1") (Some (interfaces, networks)).

Definition one_nic : VirtualMachine :=
  machine [mkInterface "nic-1" mac1] [mkVmNetwork "nic-1" (Some "default/net-1")].
Definition two_nics : VirtualMachine :=
  machine [mkInterface "nic-1" mac1; mkInterface "nic-2" mac2]
    [mkVmNetwork "nic-1" (Some "default/net-1"); mkVmNetwork "nic-2" (Some "default/net-1")].

Lemma vm_OnChange_requests_witness :
  ∃ m' r, OnChange mac_annotation 0 (Some one_nic) (management (api [] [])) = (m', Val r) ∧
    same_leases (management (api [] [])) m' ∧
    vm_request one_nic {[ "nic-1" := nic mac1 None ]} (api [] []) (world m').
Proof. exact (vm_OnChange_requests mac_annotation 0 one_nic (management (api [] [])) eq_refl (ex_intro _ _ eq_refl)). Defined.

Definition synced_1 : VmNetCfg :=
  vmnetcfg "vm-1" None [nic mac1 None] [lease mac1 "192.168.0.10"] "True".

Lemma vm_OnChange_single_stable_witness :
  let m := management (api [] [synced_1]) in
  OnChange mac_annotation 0 (Some one_nic) m = (m, Val (Some one_nic, None)).
Proof.
  exact (vm_OnChange_single_stable mac_annotation 0 one_nic "nic-1" (nic mac1 None) synced_1
    (management (api [] [synced_1])) eq_refl eq_refl eq_refl eq_refl).
Defined.

(** An iteration order that depends on the iteration. *)
Definition alternating_range : MapRange.
Proof.
  refine {| range V seed m := if Nat.odd seed then rev (map_to_list m) else map_to_list m |}.
  intros V seed m. destruct (Nat.odd seed); [|done]. symmetry. apply Permutation_rev.
Defined.

(** The configs of a machine with two NICs are compared in map
    iteration order, so the VirtualMachineNetworkConfig that [OnChange] has just
    created for a machine may be marked out of sync by the next [OnChange] of the
    same machine. *)
Theorem vm_order_flaps :
  let on_change seed := @OnChange alternating_range mac_annotation plain_conditions
    mem_prom mem_kube seed (Some two_nics) in
  let m1 := (on_change 0 (Demo.management (Demo.api [] []))).1 in
  let m2 := (on_change 1 m1).1 in
  ∃ v1 v2,
    get_in (api_vmnetcfgs (world m1)) "default" "vm-1" = inl v1 ∧
    NetworkConfigs (vnc_Spec v1) ≡ₚ [Demo.nic Demo.mac1 None; Demo.nic Demo.mac2 None] ∧
    get_in (api_vmnetcfgs (world m2)) "default" "vm-1" = inl v2 ∧
    vnc_Spec v2 = vnc_Spec v1 ∧
    plain_GetStatus InSynced (vnc_Conditions (vnc_Status v2)) = "False".
Proof.
  eexists _, _. split; [vm_compute; reflexivity|]. split; [|split; [vm_compute; reflexivity|by split]].
  cbn. first [reflexivity | apply Permutation_swap].
Qed.
