(* ===== verification/StatusHandler.v ===== *)
(** * The generated status handlers ([pkg/generated/controllers])

    For every resource the code generator writes the same handlers around the
    controllers' functions: [sync] runs a status handler, records its outcome in a
    condition and sends the status when it changed; the generating handlers also
    apply the objects a handler returns.  They are modelled once, over the type of
    the object and of its status; the generated files are the instances. *)

From S2P Require Import Prelude GoNet GoText Api Util Ipam MacCache Metrics Leases Webhook Kube.
Local Open Scope go_scope.

(** ** What a generated handler knows of its resource *)

Class StatusObject (Obj Status : Type) := {
  obj_Meta : Obj → ObjectMeta;
  obj_Status : Obj → Status;
  put_Status : Obj → Status → Obj;
  conditions_of : Status → Conditions;
  put_Conditions : Status → Conditions → Status;
  obj_Status_put o s : obj_Status (put_Status o s) = s;
  obj_Meta_put o s : obj_Meta (put_Status o s) = obj_Meta o;
  conditions_of_put s cs : conditions_of (put_Conditions s cs) = cs;
  put_conditions_of s : put_Conditions s (conditions_of s) = s;
  put_put_Conditions s cs cs' : put_Conditions (put_Conditions s cs) cs' = put_Conditions s cs';
}.

(** [equality.Semantic.DeepEqual] of apimachinery: equality up to nil and empty
    slices and maps; conditions are structs of strings, so equal ones are equal. *)
Class SemanticEq (Obj Status : Type) `{StatusObject Obj Status} := {
  Semantic_DeepEqual : Status → Status → bool;
  Semantic_refl s : Semantic_DeepEqual s s = true;
  Semantic_conditions s s' : Semantic_DeepEqual s s' = true → conditions_of s = conditions_of s';
}.

(** Plain equality, for concrete runs. *)
Definition plain_semantic_eq {Obj Status} `{!StatusObject Obj Status} `{!EqDecision Status} : SemanticEq Obj Status.
Proof.
  refine {| Semantic_DeepEqual s s' := bool_decide (s = s') |}.
  - intros s. by apply bool_decide_eq_true_2.
  - by intros s s' ->%bool_decide_eq_true_1.
Defined.

#[export] Instance IPPool_object : StatusObject IPPool IPPoolStatus.
Proof. by refine {| obj_Meta := pool_Meta; obj_Status := pool_Status; put_Status := set_pool_Status;
  conditions_of := pool_Conditions; put_Conditions := set_pool_Conditions |}; try intros []. Defined.

#[export] Instance VmNetCfg_object : StatusObject VmNetCfg VmNetCfgStatus.
Proof. by refine {| obj_Meta := vnc_Meta; obj_Status := vnc_Status; put_Status := set_vnc_Status;
  conditions_of := vnc_Conditions; put_Conditions := set_vnc_Conditions |}; try intros []. Defined.

Definition on_conditions {Obj Status} `{StatusObject Obj Status} (f : Conditions → Conditions) (s : Status) : Status :=
  put_Conditions s (f (conditions_of s)).

(** ** The status handler *)

Section handler.
Context `{ConditionLib} `{PromLib} `{Kube}.
Context {Obj Status : Type} `{SemanticEq Obj Status}.

(** A handler gets the object and a copy of its status that shares the object's
    slices and pointers; beside its results it leaves the object, as it was or
    changed through what is shared. *)
Definition StatusHandler : Type := Obj → Status → GoM Management (Obj * Status * option error).

(** A handler that leaves the object as it was. *)
Definition only_status (f : Obj → Status → GoM Management (Status * option error)) : StatusHandler :=
  λ obj status, '(status, err) ← f obj status; mret (obj, status, err).

Record statusHandler : Type := mkStatusHandler {
  client_UpdateStatus : Obj → World → World * result Obj;
  condition : string;
  handler : StatusHandler;
}.

(** [Cond.SetError] with the outcome; a conflict counts as success. *)
Definition record_outcome (c : string) (err : option error) (status : Status) : Status :=
  if String.eqb c EmptyString then status
  else if from_option IsConflict false err then on_conditions (SetError c EmptyString None) status
  else on_conditions (SetError c EmptyString err) status.

(** [now] is the time, in RFC 3339. *)
Definition sync (a : statusHandler) (now : string) (obj : option Obj)
    : GoM Management (option Obj * option error) :=
  match obj with
  | None => mret (None, None)
  | Some obj =>
      let origStatus := obj_Status obj in
      '(obj, newStatus, err) ← handler a obj (obj_Status obj);
      let newStatus := match err with Some _ => origStatus | None => newStatus end in
      let newStatus := record_outcome (condition a) err newStatus in
      if negb (Semantic_DeepEqual origStatus newStatus) then
        let newStatus := if String.eqb (condition a) EmptyString then newStatus
                         else on_conditions (SetLastUpdated (condition a) now) newStatus in
        let obj := put_Status obj newStatus in
        updated ← request (client_UpdateStatus a obj);
        match updated with
        | inl newObj => mret (Some newObj, err)
        | inr newErr => mret (Some obj, Some (default newErr err))
        end
      else mret (Some obj, err)
  end.

(** ** The generating handler *)

(** [apply.Apply] of wrangler, with the owner and the set it is configured for. *)
Context {Object : Type}.
Context (ApplyObjects : ObjectMeta → string → list Object → World → World * option error).
Context `{KvLib}.

Definition GeneratingHandler : Type :=
  Obj → Status → GoM Management (list Object * Status * option error).

(** The handler's fields that do not change; [seen] is the state. *)
Record generatingHandler : Type := mkGeneratingHandler {
  generate : GeneratingHandler;
  UniqueApplyForResourceVersion : bool;
  setID : string;
}.

Record GenState : Type := mkGenState {
  seen : gmap string Z;
  managed : Management;
}.

Definition run_managed {A} (m : GoM Management A) : GoM GenState A :=
  go_zoom managed (λ g s, mkGenState (seen s) g) m.

Definition obj_path (obj : Obj) : string := Namespace (obj_Meta obj) +:+ "/" +:+ Name (obj_Meta obj).

Definition isNewResourceVersion (a : generatingHandler) (obj : Obj) (seen : gmap string Z) : bool :=
  if negb (UniqueApplyForResourceVersion a) then true
  else match seen !! obj_path obj with
       | None => true
       | Some previous => negb (previous =? ResourceVersion (obj_Meta obj))%Z
       end.

Definition storeResourceVersion (a : generatingHandler) (obj : Obj) (seen : gmap string Z) : gmap string Z :=
  if negb (UniqueApplyForResourceVersion a) then seen
  else <[obj_path obj := ResourceVersion (obj_Meta obj)]> seen.

Definition Remove (a : generatingHandler) (key : string) (obj : option Obj)
    : GoM GenState (option Obj * option error) :=
  match obj with
  | Some obj => mret (Some obj, None)
  | None =>
      let '(namespace, name) := RSplit key "/" in
      _ ← go_modify (λ s, if UniqueApplyForResourceVersion a
                          then mkGenState (delete key (seen s)) (managed s) else s);
      err ← run_managed (request (ApplyObjects (named_meta namespace name) (setID a) []));
      mret (None, err)
  end.

Definition Handle (a : generatingHandler) (obj : Obj) (status : Status) : GoM GenState (Status * option error) :=
  match DeletionTimestamp (obj_Meta obj) with
  | Some _ => mret (status, None)
  | None =>
      '(objs, newStatus, err) ← run_managed (generate a obj status);
      match err with
      | Some err => mret (newStatus, Some err)
      | None =>
          new ← go_gets (λ s, isNewResourceVersion a obj (seen s));
          if negb new then mret (newStatus, None)
          else
            do! run_managed (request (ApplyObjects (obj_Meta obj) (setID a) objs))
              orelse err => mret (newStatus, Some err) in
            _ ← go_modify (λ s, mkGenState (storeResourceVersion a obj (seen s)) (managed s));
            mret (newStatus, None)
      end
  end.

(** ** What a reader of the status learns *)

(** The text [sync] gives its condition. *)
Definition outcome_text (err : option error) : string :=
  match err with
  | Some e => if IsConflict e then "True" else "False"
  | None => "True"
  end.

Lemma record_outcome_status c err s :
  c ≠ EmptyString →
  GetStatus c (conditions_of (record_outcome c err s)) = outcome_text err ∧
  (∀ c', c' ≠ c → GetStatus c' (conditions_of (record_outcome c err s)) = GetStatus c' (conditions_of s)) ∧
  put_Conditions (record_outcome c err s) (conditions_of s) = s.
Proof using Type.
  intros Hc. unfold record_outcome, outcome_text. rewrite (proj2 (String.eqb_neq _ _) Hc).
  assert (Hgen : ∀ e, (GetStatus c (conditions_of (on_conditions (SetError c EmptyString e) s)) =
      match e with None => "True" | Some _ => "False" end) ∧
    (∀ c', c' ≠ c → GetStatus c' (conditions_of (on_conditions (SetError c EmptyString e) s)) =
      GetStatus c' (conditions_of s)) ∧
    put_Conditions (on_conditions (SetError c EmptyString e) s) (conditions_of s) = s).
  { intros e. unfold on_conditions. rewrite conditions_of_put, put_put_Conditions, put_conditions_of.
    autorewrite with go_cond. rewrite String.eqb_refl. split; [by destruct e|]. split; [|done].
    intros c' Hne. autorewrite with go_cond. by rewrite (proj2 (String.eqb_neq _ _) Hne). }
  destruct err as [e|]; cbn [from_option]; [destruct (IsConflict e)|]; apply Hgen.
Qed.

(** C31: [sync] reports the outcome of its handler.  The status it reaches is what the
    handler returned, or the original one when it failed, with nothing changed but the
    conditions: the handler's condition is True when it succeeded or met a conflict and
    False otherwise, every other condition is kept.  It sends exactly when that status
    differs from the original one for [equality.Semantic.DeepEqual]: when it does not, no
    request is made, the object is the handler's, and the condition said so already; when
    it does, one request is made with that status and the condition's time, and a failure
    of it is returned unless the handler had failed before. *)
Theorem sync_reports (a : statusHandler) (now : string) (obj obj1 : Obj) (st : Status) (err : option error)
    (m m1 : Management) :
  condition a ≠ EmptyString → handler a obj (obj_Status obj) m = (m1, Val (obj1, st, err)) →
  let base := match err with Some _ => obj_Status obj | None => st end in
  let reached := record_outcome (condition a) err base in
  let sent := on_conditions (SetLastUpdated (condition a) now) reached in
  (∀ s, s = reached ∨ s = sent →
    put_Conditions s (conditions_of base) = base ∧
    GetStatus (condition a) (conditions_of s) = outcome_text err ∧
    ∀ c, c ≠ condition a → GetStatus c (conditions_of s) = GetStatus c (conditions_of base)) ∧
  if Semantic_DeepEqual (obj_Status obj) reached then
    sync a now (Some obj) m = (m1, Val (Some obj1, err)) ∧
    GetStatus (condition a) (conditions_of (obj_Status obj)) = outcome_text err
  else
    let '(w, r) := client_UpdateStatus a (put_Status obj1 sent) (world m1) in
    sync a now (Some obj) m =
      (set_world m1 w, match r with
                       | inl newObj => Val (Some newObj, err)
                       | inr e => Val (Some (put_Status obj1 sent), Some (default e err))
                       end).
Proof using Type.
  intros Hc Hrun base reached sent.
  destruct (record_outcome_status (condition a) err base Hc) as (Hs & Ho & Hp).
  fold reached in Hs, Ho, Hp. split.
  - intros s [-> | ->]; [done|]. unfold sent, on_conditions. rewrite conditions_of_put, put_put_Conditions.
    split; [done|]. split; [by autorewrite with go_cond|].
    intros c Hne. autorewrite with go_cond. by apply Ho.
  - unfold sync. cbv zeta. rewrite (bind_run _ _ _ _ _ Hrun). fold base reached.
    rewrite (proj2 (String.eqb_neq _ _) Hc). fold sent. destruct (Semantic_DeepEqual _ _) eqn:Heq; cbn [negb].
    + split; [done|]. apply Semantic_conditions in Heq. by rewrite Heq.
    + unfold mbind, GoM_bind, request, go_state. by destruct (client_UpdateStatus a _ _) as [w [newObj|e]].
Qed.

(** What a handler keeps, [sync] keeps. *)
Lemma wp_sync (a : statusHandler) (now : string) (I : Management → Prop) (obj : option Obj) m :
  (∀ m w, I m → I (set_world m w)) →
  (∀ o, obj = Some o → wp (handler a o (obj_Status o)) (λ _, I) I m) → I m →
  wp (sync a now obj) (λ _, I) I m.
Proof using Type.
  intros HI Hh Hm. destruct obj as [obj|]; [|by apply wp_ret]. unfold sync. apply wp_bind.
  eapply wp_mono; [| |by apply Hh]; [|done]. intros [[obj1 st] err] m1 Hm1. cbv beta iota zeta.
  destruct (negb _); [|by apply wp_ret]. apply wp_bind, wp_request.
  destruct (client_UpdateStatus a _ _) as [w [newObj|e]]; cbn [fst snd]; apply wp_ret; by apply HI.
Qed.

(** An object is applied once per resource version. *)
Lemma Handle_once (a : generatingHandler) (obj obj2 : Obj) (status status2 st st2 : Status) (objs : list Object)
    (s s' : GenState) (m2 : Management) :
  UniqueApplyForResourceVersion a = true →
  DeletionTimestamp (obj_Meta obj) = None → DeletionTimestamp (obj_Meta obj2) = None →
  obj_path obj2 = obj_path obj → ResourceVersion (obj_Meta obj2) = ResourceVersion (obj_Meta obj) →
  Handle a obj status s = (s', Val (st, None)) →
  generate a obj2 status2 (managed s') = (m2, Val (objs, st2, None)) →
  Handle a obj2 status2 s' = (mkGenState (seen s') m2, Val (st2, None)).
Proof using Type.
  intros Hu Hd Hd2 Hpath Hver Hrun Hgen.
  assert (Hold : isNewResourceVersion a obj2 (seen s') = false).
  { unfold isNewResourceVersion. rewrite Hu, Hpath, Hver. cbn [negb].
    enough (seen s' !! obj_path obj = Some (ResourceVersion (obj_Meta obj))) as -> by (by rewrite Z.eqb_refl).
    revert Hrun. unfold Handle. rewrite Hd. unfold run_managed, go_zoom, mbind, GoM_bind, go_gets, go_modify.
    destruct (generate a obj status (managed s)) as [m1 [[[objs1 st1] [e|]]|w|]]; [done| |done..].
    destruct (isNewResourceVersion a obj (seen _)) eqn:Hnew; cbn [negb seen managed].
    - unfold request, go_state. cbn [managed]. destruct (ApplyObjects _ _ _ _) as [w [e|]]; [done|].
      cbn [seen managed]. intros [= <- _]. cbn [seen]. unfold storeResourceVersion. rewrite Hu. cbn [negb].
      apply lookup_insert_eq.
    - intros [= <- _]. cbn [seen] in *. revert Hnew. unfold isNewResourceVersion. rewrite Hu. cbn [negb].
      destruct (seen s !! obj_path obj) as [v|]; [|done]. rewrite negb_false_iff, Z.eqb_eq. by intros ->. }
  unfold Handle. rewrite Hd2. unfold run_managed, go_zoom, mbind, GoM_bind, go_gets. rewrite Hgen.
  cbn [seen]. by rewrite Hold.
Qed.
End handler.

(** ** [virtualmachinenetworkconfig.go]: the handlers of the other resource *)

Section vmnetcfg.
Context `{ConditionLib} `{PromLib} `{Kube} `{!SemanticEq VmNetCfg VmNetCfgStatus} {Object : Type}.

Definition VmNetCfg_StatusHandler : Type := StatusHandler (Obj := VmNetCfg) (Status := VmNetCfgStatus).
Definition VmNetCfg_statusHandler : Type := statusHandler (Obj := VmNetCfg) (Status := VmNetCfgStatus).
Definition VmNetCfg_sync : VmNetCfg_statusHandler → string → option VmNetCfg → GoM Management (option VmNetCfg * option error) :=
  sync (Obj := VmNetCfg) (Status := VmNetCfgStatus).

Definition VmNetCfg_GeneratingHandler : Type :=
  GeneratingHandler (Obj := VmNetCfg) (Status := VmNetCfgStatus) (Object := Object).
Definition VmNetCfg_generatingHandler : Type :=
  generatingHandler (Obj := VmNetCfg) (Status := VmNetCfgStatus) (Object := Object).
Definition VmNetCfg_isNewResourceVersion : VmNetCfg_generatingHandler → VmNetCfg → gmap string Z → bool :=
  isNewResourceVersion (Obj := VmNetCfg) (Status := VmNetCfgStatus).
Definition VmNetCfg_storeResourceVersion : VmNetCfg_generatingHandler → VmNetCfg → gmap string Z → gmap string Z :=
  storeResourceVersion (Obj := VmNetCfg) (Status := VmNetCfgStatus).

Context (ApplyObjects : ObjectMeta → string → list Object → World → World * option error) `{KvLib}.

Definition VmNetCfg_Remove : VmNetCfg_generatingHandler → string → option VmNetCfg →
    GoM GenState (option VmNetCfg * option error) :=
  Remove (Obj := VmNetCfg) (Status := VmNetCfgStatus) ApplyObjects.
Definition VmNetCfg_Handle : VmNetCfg_generatingHandler → VmNetCfg → VmNetCfgStatus →
    GoM GenState (VmNetCfgStatus * option error) :=
  Handle (Obj := VmNetCfg) (Status := VmNetCfgStatus) ApplyObjects.
End vmnetcfg.
