(* ===== verification/System.v ===== *)
(** * The controllers together ([pkg/controller/setup.go] and each [Register])

    What each controller registers, in order, and the process as a transition
    system: handlers of all controllers run one after the other on the shared
    [Management], each on any object (informers may hand over stale ones), while
    the API changes in any way between them and the process may restart. *)

From S2P Require Import Prelude GoNet GoText Api Util Ipam IpamSpec MacCache Metrics Leases Webhook Kube Image VmNetCfg VmNetCfgFacts IpPool IpPoolFacts Vm VmFacts StatusHandler.
Local Open Scope go_scope.

(** What one invocation does not control: map orders and the clock. *)
Record Call : Type := mkCall {
  call_seed : nat;
  call_now : Z;
  call_time : string;
}.

(** ** Registration *)

Section system.
Context `{MapRange} `{ConditionLib} `{KvLib} `{PromLib} `{Kube} `{RetryLib}.
Context `{!SemanticEq IPPool IPPoolStatus} `{!SemanticEq VmNetCfg VmNetCfgStatus}.
Context (h : Handler) (AnnotationMacAddressName : string).

Definition KeyHandler (Obj : Type) : Type :=
  Call → string → option Obj → GoM Management (option Obj * option error).

(** [OnRemove] handlers are called for objects that are being deleted only. *)
Inductive registration (Obj : Type) : Type :=
| Changed (name : string) (f : KeyHandler Obj)
| Removed (name : string) (f : KeyHandler Obj).
Arguments Changed {_} _ _.
Arguments Removed {_} _ _.

(** [DeployAgent] writes through the reference it shares with the object. *)
Definition DeployAgent_handler : StatusHandler := λ p status,
  '(status', err) ← DeployAgent h p status;
  mret (match AgentPodRef (pool_Status p) with
        | Some _ => set_pool_Status p (set_AgentPodRef (pool_Status p) (AgentPodRef status'))
        | None => p
        end, status', err).

(** [Sync] marks the entries in the slice it shares with the object. *)
Definition Sync_handler (now : Z) : StatusHandler := λ v status,
  '(status', err) ← Sync now true v status;
  mret (if is_paused (vnc_Paused (vnc_Spec v)) || IsTrue InSynced (vnc_Conditions (vnc_Status v)) then v
        else set_vnc_Status v (set_st_NetworkConfigs (vnc_Status v)
               (mark_stale (spec_macs v) <$> st_NetworkConfigs (vnc_Status v))), status', err).

(** [RegisterIPPoolStatusHandler], [RegisterVirtualMachineNetworkConfigStatusHandler] *)
Definition IPPool_status_handler (c name : string) (f : Call → StatusHandler) : registration IPPool :=
  Changed name (λ call _ obj, sync (mkStatusHandler ippoolClient_UpdateStatus c (f call)) (call_time call) obj).
Definition VmNetCfg_status_handler (c name : string) (f : Call → StatusHandler) : registration VmNetCfg :=
  Changed name (λ call _ obj, VmNetCfg_sync (mkStatusHandler vmnetcfgClient_UpdateStatus c (f call)) (call_time call) obj).

Definition ippool_Register : list (registration IPPool) :=
  [IPPool_status_handler Registered "ippool-register" (λ _, DeployAgent_handler);
   IPPool_status_handler CacheReady "ippool-cache-builder"
     (λ call, only_status (BuildCache (call_seed call)));
   IPPool_status_handler AgentReady "ippool-agent-monitor" (λ _, only_status (MonitorAgent h));
   Changed "vm-dhcp-ippool-controller" (λ call key obj, IpPool.OnChange (call_seed call) (call_now call) key obj);
   Removed "vm-dhcp-ippool-controller" (λ _ _ obj, IpPool.OnRemove h obj)].

Definition vm_Register : list (registration VirtualMachine) :=
  [Changed "vm-dhcp-vm-controller" (λ call _ obj, Vm.OnChange AnnotationMacAddressName (call_seed call) obj)].

Definition vmnetcfg_Register : list (registration VmNetCfg) :=
  [VmNetCfg_status_handler Allocated "vmnetcfg-allocate"
     (λ call, only_status (Allocate (call_seed call) (call_now call)));
   VmNetCfg_status_handler InSynced "vmnetcfg-sync" (λ call, Sync_handler (call_now call));
   Changed "vm-dhcp-vmnetcfg-controller" (λ call _ obj, VmNetCfg.OnChange (call_now call) obj);
   Removed "vm-dhcp-vmnetcfg-controller" (λ call _ obj, VmNetCfg.OnRemove (call_now call) obj)].

(** ** The process *)

(** An IPv4 pool whose lease records are keyed by addresses. *)
Definition loadable (p : IPPool) : Prop :=
  v4_op (pool_op p) = true ∧ ∀ ip mac, lease_record (records_of p) ip mac → usable_key ip.

Inductive step : Management → Management → Prop :=
| step_ippool name f call key obj m :
    Changed name f ∈ ippool_Register → (∀ p, obj = Some p → loadable p) → step m (f call key obj m).1
| step_ippool_removed name f call key obj m :
    Removed name f ∈ ippool_Register → step m (f call key obj m).1
| step_vm name f call key obj m :
    Changed name f ∈ vm_Register → step m (f call key obj m).1
| step_vmnetcfg name f call key obj m :
    Changed name f ∈ vmnetcfg_Register → (∀ v, obj = Some v → release_accurate v m) → step m (f call key obj m).1
| step_vmnetcfg_removed name f call key obj m :
    Removed name f ∈ vmnetcfg_Register →
    (∀ v, obj = Some v → is_Some (DeletionTimestamp (vnc_Meta v)) ∧ release_accurate v m) → step m (f call key obj m).1
| step_world w m : step m (set_world m w)
| step_restart m : step m (SetupManagement (world m)).

(** ** The invariant *)

Lemma leases_ok_setup w : leases_ok (SetupManagement w).
Proof using Type.
  assert (Hnone : ∀ name mac, cached_text (CacheAllocator_ (SetupManagement w)) name mac = None).
  { intros name mac. unfold cached_text, cached_ip. cbn. unfold NewCacheAllocator. by rewrite lookup_empty. }
  constructor.
  - intros name sn Hl. cbn in Hl. unfold NewIPAllocator in Hl. by rewrite lookup_empty in Hl.
  - intros name mac ip. by rewrite Hnone.
  - intros name mac mac' ip. by rewrite Hnone.
Qed.

(** A handler's result wrapped for [sync] keeps what the handler keeps. *)
Lemma wp_wrapped {A B} (f : GoM Management A) (g : A → B) m :
  wp f (λ _, leases_ok) leases_ok m → wp (a ← f; mret (g a)) (λ _, leases_ok) leases_ok m.
Proof using Type. intros Hf. apply wp_bind. by eapply wp_mono; [| |exact Hf]. Qed.

Lemma wp_ok_run {A} (f : GoM Management A) m : wp f (λ _, leases_ok) leases_ok m → leases_ok (f m).1.
Proof using Type. unfold wp. by destruct (f m) as [m' [a|w|]]. Qed.

Lemma ippool_changed_ok name f call key obj m :
  Changed name f ∈ ippool_Register → (∀ p, obj = Some p → loadable p) → leases_ok m →
  wp (f call key obj) (λ _, leases_ok) leases_ok m.
Proof using Type.
  intros Hin Hload Hok. unfold ippool_Register in Hin.
  repeat (apply elem_of_cons in Hin as [[= -> ->]|Hin]); [..|by apply elem_of_nil in Hin].
  - apply wp_sync; [done| |done]. intros p ->. cbn [handler]. apply quiet_ok; [|done].
    unfold DeployAgent_handler. pose proof quiet_DeployAgent. solve_quiet.
  - apply wp_sync; [done| |done]. intros p ->. destruct (Hload p eq_refl) as [Hv4 Hkeys]. cbn [handler].
    unfold only_status. apply wp_bind. eapply wp_mono; [| |by apply wp_BuildCache]; [|done].
    by intros [st err] m' [? _].
  - apply wp_sync; [done| |done]. intros p ->. cbn [handler]. apply quiet_ok; [|done].
    unfold only_status. pose proof quiet_MonitorAgent. solve_quiet.
  - by apply wp_pool_OnChange_ok.
Qed.

Lemma ippool_removed_ok name f call key obj m :
  Removed name f ∈ ippool_Register → leases_ok m → wp (f call key obj) (λ _, leases_ok) leases_ok m.
Proof using Type.
  intros Hin Hok. unfold ippool_Register in Hin.
  repeat (apply elem_of_cons in Hin as [Heq|Hin]; [try discriminate Heq|]); [|by apply elem_of_nil in Hin].
  injection Heq as -> ->. by apply wp_pool_OnRemove_ok.
Qed.

Lemma quiet_vm_OnChange seed obj : quiet (Vm.OnChange AnnotationMacAddressName seed obj).
Proof using Type. unfold Vm.OnChange, update_vmnetcfg. solve_quiet. Qed.

Lemma vm_changed_ok name f call key obj m :
  Changed name f ∈ vm_Register → leases_ok m → wp (f call key obj) (λ _, leases_ok) leases_ok m.
Proof using Type.
  intros [= -> ->]%list_elem_of_singleton Hok. apply quiet_ok; [|done]. apply quiet_vm_OnChange.
Qed.

Lemma vmnetcfg_changed_ok name f call key obj m :
  Changed name f ∈ vmnetcfg_Register → (∀ v, obj = Some v → release_accurate v m) → leases_ok m →
  wp (f call key obj) (λ _, leases_ok) leases_ok m.
Proof using Type.
  intros Hin Hacc Hok. unfold vmnetcfg_Register in Hin.
  repeat (apply elem_of_cons in Hin as [[= -> ->]|Hin]); [..|by apply elem_of_nil in Hin].
  - apply wp_sync; [done| |done]. intros v ->. cbn [handler]. unfold only_status. apply wp_bind.
    eapply wp_mono; [| |by apply wp_Allocate]; [|done]. by intros [st err] m' [? _].
  - apply wp_sync; [done| |done]. intros v ->. cbn [handler]. unfold Sync_handler. apply wp_bind.
    eapply wp_mono; [| |apply wp_Sync_ok; [done|by apply Hacc]]; [|done]. by intros [st err] m' ?.
  - by apply wp_OnChange_ok.
Qed.

Lemma vmnetcfg_removed_ok name f call key obj m :
  Removed name f ∈ vmnetcfg_Register →
  (∀ v, obj = Some v → is_Some (DeletionTimestamp (vnc_Meta v)) ∧ release_accurate v m) → leases_ok m →
  wp (f call key obj) (λ _, leases_ok) leases_ok m.
Proof using Type.
  intros Hin Hacc Hok. unfold vmnetcfg_Register in Hin.
  repeat (apply elem_of_cons in Hin as [Heq|Hin]; [try discriminate Heq|]); [|by apply elem_of_nil in Hin].
  injection Heq as -> ->. by apply wp_OnRemove_ok.
Qed.

Lemma step_ok m m' : step m m' → leases_ok m → leases_ok m'.
Proof using Type.
  intros Hstep Hok. destruct Hstep; [apply wp_ok_run..|done|apply leases_ok_setup].
  - by eapply ippool_changed_ok.
  - by eapply ippool_removed_ok.
  - by eapply vm_changed_ok.
  - by eapply vmnetcfg_changed_ok.
  - by eapply vmnetcfg_removed_ok.
Qed.

(** C5: from a fresh process, through any sequence of handler runs of
    the three controllers on any objects, failures, API changes and restarts
    between them, as long as pools are loadable and records that are released are
    accurate: every address a MAC holds is marked as taken in its network, and no two
    MACs of a network ever hold the same address. *)
Theorem system_coherent (w : World) (m : Management) :
  rtc step (SetupManagement w) m →
  well_formed (IPAllocator_ m) ∧
  ∀ networkName mac mac' ip, holds m networkName mac ip →
    is_allocated (IPAllocator_ m) networkName ip ∧ (holds m networkName mac' ip → mac = mac').
Proof using Type.
  intros Hr. assert (Hok : leases_ok m).
  { remember (SetupManagement w) as m0 eqn:Hm0. assert (leases_ok m0) as Hok0 by (subst; apply leases_ok_setup).
    clear Hm0. induction Hr as [|m0 m1 m2 Hstep _ IH]; [done|]. by apply IH, (step_ok m0). }
  split; [apply Hok|]. intros networkName mac mac' ip Hip. split; [by eapply leases_ok_allocated|].
  by apply (coh_inj _ _ Hok).
Qed.
End system.
