(* ===== verification/Interleaving.v ===== *)
(** * Handlers call by call

    The controllers' workers run at the same time.  Between two calls of a handler on the
    shared allocators or on the API, handlers of other workers may make theirs; a single
    call is one step ([IpamThreadsFacts], [MacThreads]).  Here a handler is a tree of its
    calls, workers run such trees interleaved, and the lease table is followed through all
    interleavings in which no network is changed while another worker is half way through
    changing it. *)

From S2P Require Import Prelude GoNet GoText Api Util Ipam IpamFacts IpamSpec MacCache Metrics Leases Webhook Kube.
Local Open Scope go_scope.

(** Calls that do not touch the lease table. *)
Class Quiet `{PromLib} `{Kube} {A} (m : GoM Management A) : Prop := quiet_call : quiet m.

Section calls.
Context `{MapRange} `{PromLib} `{Kube}.

(** The calls handlers make; [forMAC] of a release is the MAC of the record that is being
    released, for the reader only. *)
Inductive call : Type → Type :=
| CallAllocateIP (seed : nat) (name ipAddress : string) : call (string * option error)
| CallDeallocateIP (forMAC name ipAddress : string) : call (option error)
| CallRevokeIP (name ipAddress : string) : call (option error)
| CallIsAllocated (name ipAddress : string) : call (bool * option error)
| CallNewIPSubnet (name cidr start end_ : string) : call (option error)
| CallDeleteIPSubnet (name : string) : call ()
| CallHasMAC (name macAddress : string) : call (bool * option error)
| CallGetIPByMAC (name macAddress : string) : call (string * option error)
| CallAddMAC (name macAddress ipAddress : string) : call (option error)
| CallDeleteMAC (name macAddress : string) : call (option error)
| CallNewMACSet (name : string) : call (option error)
| CallDeleteMACSet (name : string) : call ()
| CallOther {A} (m : GoM Management A) (Hm : Quiet m) : call A.

Definition perform {A} (o : call A) : GoM Management A :=
  match o in call A return GoM Management A with
  | CallAllocateIP seed name ip => on_ipam (AllocateIP seed name ip)
  | CallDeallocateIP _ name ip => on_ipam (DeallocateIP name ip)
  | CallRevokeIP name ip => on_ipam (RevokeIP name ip)
  | CallIsAllocated name ip => ask_ipam (IsAllocated name ip)
  | CallNewIPSubnet name cidr start end_ => call_NewIPSubnet name cidr start end_
  | CallDeleteIPSubnet name => on_ipam (λ a, (DeleteIPSubnet name a, tt))
  | CallHasMAC name mac => ask_cache (HasMAC name mac)
  | CallGetIPByMAC name mac => ask_cache (GetIPByMAC name mac)
  | CallAddMAC name mac ip => on_cache (AddMAC name mac ip)
  | CallDeleteMAC name mac => on_cache (DeleteMAC name mac)
  | CallNewMACSet name => on_cache (NewMACSet name)
  | CallDeleteMACSet name => on_cache (λ c, (DeleteMACSet name c, tt))
  | CallOther m _ => m
  end.

(** ** Handlers as trees of calls *)

Inductive prog (A : Type) : Type :=
| Done (r : res A)
| Do {B} (o : call B) (k : B → prog A).
Arguments Done {_} _.
Arguments Do {_ _} _ _.

#[export] Instance prog_ret : MRet prog := λ A a, Done (Val a).
Fixpoint prog_bind_ {A B} (f : A → prog B) (p : prog A) : prog B :=
  match p with
  | Done (Val a) => f a
  | Done (Panic w) => Done (Panic w)
  | Done Diverge => Done Diverge
  | Do o k => Do o (λ x, prog_bind_ f (k x))
  end.
#[export] Instance prog_bind : MBind prog := @prog_bind_.

Definition once {A} (o : call A) : prog A := Do o (λ x, Done (Val x)).
Definition other {A} (m : GoM Management A) {Hm : Quiet m} : prog A := once (CallOther m Hm).

(** [for_range] over calls. *)
Fixpoint prog_range {X A R} (xs : list X) (body : X → A → prog (A + R)) (acc : A) : prog (A + R) :=
  match xs with
  | [] => mret (inl acc)
  | x :: xs' =>
      r ← body x acc;
      match r with
      | inl acc' => prog_range xs' body acc'
      | inr ret => mret (inr ret)
      end
  end.

(** All its calls one after the other. *)
Fixpoint run {A} (p : prog A) : GoM Management A :=
  match p with
  | Done r => go_pure r
  | Do o k => x ← perform o; run (k x)
  end.

(** ** What a run does is what the handler does *)

Definition runs {A} (p : prog A) (f : GoM Management A) : Prop := ∀ m, run p m = f m.

Lemma runs_ret {A} (a : A) : runs (mret a) (mret a).
Proof using Type. done. Qed.

Lemma runs_bind {A B} (p : prog A) (f : GoM Management A) (k : A → prog B) (g : A → GoM Management B) :
  runs p f → (∀ a, runs (k a) (g a)) → runs (p ≫= k) (f ≫= g).
Proof using Type.
  intros Hp Hk m. unfold mbind at 2, GoM_bind. rewrite <-Hp. clear Hp f. revert m.
  induction p as [[a|w|]|C o c IH]; intros m; [apply Hk|done..|].
  change (run (Do o c ≫= k) m) with ((perform o ≫= λ x, run (c x ≫= k)) m). cbn [run].
  unfold mbind at 1 3, GoM_bind. destruct (perform o m) as [m' [x|w|]]; [apply IH|done..].
Qed.

Lemma runs_once {A} (o : call A) (f : GoM Management A) : (∀ m, perform o m = f m) → runs (once o) f.
Proof using Type.
  intros Hf m. cbn. unfold mbind, GoM_bind. rewrite Hf. by destruct (f m) as [m' [a|w|]].
Qed.

Lemma runs_other {A} (f : GoM Management A) {Hf : Quiet f} : runs (other f) f.
Proof using Type. by apply runs_once. Qed.

Lemma runs_range {X A R} (xs : list X) (body : X → A → prog (A + R)) (body' : X → A → GoM Management (A + R)) acc :
  (∀ x a, runs (body x a) (body' x a)) → runs (prog_range xs body acc) (for_range xs body' acc).
Proof using Type.
  intros Hb. revert acc. induction xs as [|x xs IH]; intros acc; [apply runs_ret|].
  cbn [prog_range for_range]. apply runs_bind; [apply Hb|]. intros [a|r]; [apply IH|apply runs_ret].
Qed.

(** ** Half way through a change *)

(** The network a worker is changing, and whether until the end of the handler.  Taking or
    releasing an address is half a change: the MAC cache follows; making or dropping a
    subnet begins one that lasts. *)
Definition busy : Type := option (string * bool).

Definition changing (name : string) (b : busy) : Prop := fst <$> b = Some name.

Definition lasting (b : busy) (next : busy) : busy :=
  match b with
  | Some (_, true) => b
  | _ => next
  end.

Definition succeeds (err : option error) (name : string) (last : bool) : busy :=
  match err with
  | None => Some (name, last)
  | Some _ => None
  end.

(** After call [o] answered [r]. *)
Definition advance {A} (o : call A) (r : A) (b : busy) : busy :=
  match o in call A return A → busy with
  | CallAllocateIP _ name _ => λ r, lasting b (succeeds r.2 name false)
  | CallDeallocateIP _ name _ => λ r, lasting b (succeeds r name false)
  | CallNewIPSubnet name _ _ _ => λ r, lasting b (succeeds r name true)
  | CallDeleteIPSubnet name => λ _, lasting b (Some (name, true))
  | CallHasMAC _ _ => λ _, b
  | _ => λ _, lasting b None
  end r.

(** The network a call changes. *)
Definition changes {A} (o : call A) : option string :=
  match o with
  | CallAllocateIP _ name _ | CallDeallocateIP _ name _ | CallRevokeIP name _ | CallNewIPSubnet name _ _ _
  | CallDeleteIPSubnet name | CallAddMAC name _ _ | CallDeleteMAC name _ | CallNewMACSet name
  | CallDeleteMACSet name => Some name
  | _ => None
  end.

(** What a release says of the lease table: nobody but the MAC of the record holds its
    address. *)
Definition rightful {A} (o : call A) (m : Management) : Prop :=
  match o with
  | CallDeallocateIP mac name ip => ∀ mac', holds m name mac' ip → mac' = mac
  | _ => True
  end.

(** ** Workers *)

Record workers : Type := mkWorkers {
  shared : Management;
  running : gmap nat (prog () * busy);
}.

(** No other worker is half way through a change of the network [o] changes. *)
Definition alone {A} (ws : gmap nat (prog () * busy)) (t : nat) (o : call A) : Prop :=
  ∀ name t' p b, changes o = Some name → t' ≠ t → ws !! t' = Some (p, b) → ¬ changing name b.

(** Workers begin handlers of [handlers], make their calls as [rule] permits, and end; the
    API changes; the process restarts. *)
Section steps.
Context (handlers : prog () → Prop) (rule : ∀ A, workers → nat → call A → Prop).

Inductive wstep (σ : workers) : workers → Prop :=
| w_begin t p : running σ !! t = None → handlers p → wstep σ (mkWorkers (shared σ) (<[t := (p, None)]> (running σ)))
| w_call t b A (o : call A) k r m' :
    running σ !! t = Some (Do o k, b) → rule A σ t o → perform o (shared σ) = (m', Val r) →
    wstep σ (mkWorkers m' (<[t := (k r, advance o r b)]> (running σ)))
| w_end t b : running σ !! t = Some (Done (Val tt), b) → wstep σ (mkWorkers (shared σ) (delete t (running σ)))
| w_world w : wstep σ (mkWorkers (set_world (shared σ) w) (running σ))
| w_restart : wstep σ (mkWorkers (SetupManagement (world (shared σ))) ∅).

Definition w_start (m : Management) : workers := mkWorkers m ∅.
End steps.

(** The discipline: change a network alone, release what the record's MAC holds. *)
Definition disciplined A (σ : workers) (t : nat) (o : call A) : Prop :=
  alone (running σ) t o ∧ rightful o (shared σ).

(** No discipline: what the program does. *)
Definition unrestrained A (σ : workers) (t : nat) (o : call A) : Prop := True.

(** ** Schedules, to run concrete interleavings *)

Inductive action : Type :=
| Begins (t : nat) (p : prog ())
| Calls (t : nat)
| Ends (t : nat).

Definition act (check : ∀ A, workers → nat → call A → bool) (σ : workers) (a : action) : option workers :=
  match a with
  | Begins t p =>
      match running σ !! t with
      | None => Some (mkWorkers (shared σ) (<[t := (p, None)]> (running σ)))
      | Some _ => None
      end
  | Calls t =>
      match running σ !! t with
      | Some (Do o k, b) =>
          if check _ σ t o then
            match perform o (shared σ) with
            | (m', Val r) => Some (mkWorkers m' (<[t := (k r, advance o r b)]> (running σ)))
            | _ => None
            end
          else None
      | _ => None
      end
  | Ends t =>
      match running σ !! t with
      | Some (Done (Val tt), _) => Some (mkWorkers (shared σ) (delete t (running σ)))
      | _ => None
      end
  end.

Fixpoint play (check : ∀ A, workers → nat → call A → bool) (script : list action) (σ : workers) : option workers :=
  match script with
  | [] => Some σ
  | a :: script' =>
      match act check σ a with
      | Some σ' => play check script' σ'
      | None => None
      end
  end.

Definition begins (handlers : prog () → Prop) (a : action) : Prop :=
  match a with
  | Begins _ p => handlers p
  | _ => True
  end.

Lemma act_step handlers (rule : ∀ A, workers → nat → call A → Prop) check σ a σ' :
  (∀ A σ t (o : call A), check A σ t o = true → rule A σ t o) → begins handlers a →
  act check σ a = Some σ' → wstep handlers rule σ σ'.
Proof using Type.
  intros Hcheck Hb Hact. destruct a as [t p|t|t]; cbn [act] in Hact.
  - destruct (running σ !! t) eqn:Ht; [done|]. injection Hact as <-. by apply w_begin.
  - destruct (running σ !! t) as [[[r|C o k] b]|] eqn:Ht; [done| |done].
    destruct (check _ σ t o) eqn:Ho; [|done]. destruct (perform o (shared σ)) as [m' [r|w|]] eqn:Hrun; [|done..].
    injection Hact as <-. eapply w_call; [done|by apply Hcheck|done].
  - destruct (running σ !! t) as [[[[[]|w|]|C o k] b]|] eqn:Ht; [|done..]. injection Hact as <-. by eapply w_end.
Qed.

Lemma play_reaches handlers (rule : ∀ A, workers → nat → call A → Prop) check script σ σ' :
  (∀ A σ t (o : call A), check A σ t o = true → rule A σ t o) → Forall (begins handlers) script →
  play check script σ = Some σ' → rtc (wstep handlers rule) σ σ'.
Proof using Type.
  intros Hcheck Hb. revert σ. induction Hb as [|a script Ha _ IH]; intros σ Hplay; cbn [play] in Hplay.
  - injection Hplay as <-. done.
  - destruct (act check σ a) as [σ1|] eqn:Hact; [|done].
    apply (rtc_l _ _ σ1); [by eapply act_step|by apply IH].
Qed.

(** The discipline, for schedules that release nothing. *)
Definition check_disciplined A (σ : workers) (t : nat) (o : call A) : bool :=
  forallb (λ e : nat * (prog () * busy), (e.1 =? t) || negb (bool_decide (is_Some (changes o) ∧ fst <$> e.2.2 = changes o)))
    (map_to_list (running σ)) &&
  match o with CallDeallocateIP _ _ _ => false | _ => true end.

Lemma check_disciplined_ok A (σ : workers) t (o : call A) : check_disciplined A σ t o = true → disciplined A σ t o.
Proof using Type.
  unfold check_disciplined. intros [Hall Hrel]%andb_prop. split; [|by destruct o].
  intros name t' p b Hch Hne Ht Hb. rewrite forallb_forall in Hall.
  specialize (Hall (t', (p, b))). rewrite <-list_elem_of_In, elem_of_map_to_list in Hall. specialize (Hall Ht). cbn in Hall.
  apply orb_true_iff in Hall as [->%Nat.eqb_eq|Hn]; [done|]. apply negb_true_iff, bool_decide_eq_false in Hn.
  apply Hn. unfold changing in Hb. rewrite Hch. by split.
Qed.

(** ** What a worker knows of the network it is changing *)

Implicit Types m : Management.

(** Every held address is marked as taken. *)
Definition taken (name : string) m : Prop := ∀ mac ip, holds m name mac ip → is_allocated (IPAllocator_ m) name ip.

(** What holds whatever anybody is doing: no two MACs of a network hold one address. *)
Record sane m : Prop := {
  sane_wf : well_formed (IPAllocator_ m);
  sane_inj : ∀ name mac mac' ip, holds m name mac ip → holds m name mac' ip → mac = mac';
}.

Inductive claim : Type :=
| Idle
| Granted (name ip : string) (last : bool)    (* an address taken for a MAC *)
| Released (name mac : string)                (* an address given back, its MAC still cached *)
| Reset (name : string)                       (* a subnet made or dropped, the MAC set still there *)
| Empty (name : string)
| Settled (name : string) (last : bool).

Definition claim_busy (c : claim) : busy :=
  match c with
  | Idle => None
  | Granted name _ last | Settled name last => Some (name, last)
  | Released name _ => Some (name, false)
  | Reset name | Empty name => Some (name, true)
  end.

Definition claim_ok (c : claim) m : Prop :=
  match c with
  | Idle | Reset _ => True
  | Granted name ip _ => taken name m ∧ is_allocated (IPAllocator_ m) name ip ∧ ∀ mac, ¬ holds m name mac ip
  | Released name mac => ∀ mac' ip, mac' ≠ mac → holds m name mac' ip → is_allocated (IPAllocator_ m) name ip
  | Empty name => ∀ mac ip, ¬ holds m name mac ip
  | Settled name _ => taken name m
  end.

(** Before a call under the discipline, and after it. *)
Record ready {A} (c : claim) (o : call A) m : Prop := {
  ready_sane : sane m;
  ready_claim : claim_ok c m;
  ready_rightful : rightful o m;
  ready_taken : ∀ name, changes o = Some name → ¬ changing name (claim_busy c) → taken name m;
}.

Record settles {A} (c : claim) (o : call A) (r : A) m' (c' : claim) : Prop := {
  settles_sane : sane m';
  settles_claim : claim_ok c' m';
  settles_busy : claim_busy c' = advance o r (claim_busy c);
  settles_taken : ∀ name, changing name (claim_busy c) ∨ changes o = Some name →
    ¬ changing name (claim_busy c') → taken name m';
}.

(** A handler that keeps its claims from call to call, and ends in [Q]. *)
Fixpoint psafe {A} (c : claim) (p : prog A) (Q : claim → A → Prop) : Prop :=
  match p with
  | Done (Val a) => Q c a
  | Done _ => True
  | Do o k => ∀ m m' r, ready c o m → perform o m = (m', Val r) → ∃ c', settles c o r m' c' ∧ psafe c' (k r) Q
  end.

(** A handler may end half way through nothing. *)
Definition closed (c : claim) : Prop := ∀ m name, claim_ok c m → changing name (claim_busy c) → taken name m.
Definition safe {A} (p : prog A) : Prop := psafe Idle p (λ c _, closed c).

Lemma psafe_bind {A B} c (p : prog A) (k : A → prog B) Q :
  psafe c p (λ c' a, psafe c' (k a) Q) → psafe c (p ≫= k) Q.
Proof using Type.
  revert c. induction p as [[a|w|]|C o f IH]; intros c Hp; [done..|].
  intros m m' r Hr Hrun. destruct (Hp m m' r Hr Hrun) as (c' & Hs & Hk). exists c'. split; [done|]. by apply IH.
Qed.

Lemma psafe_mono {A} c (p : prog A) (Q Q' : claim → A → Prop) :
  (∀ c' a, Q c' a → Q' c' a) → psafe c p Q → psafe c p Q'.
Proof using Type.
  intros HQ. revert c. induction p as [[a|w|]|C o f IH]; intros c Hp; [by apply HQ|done..|].
  intros m m' r Hr Hrun. destruct (Hp m m' r Hr Hrun) as (c' & Hs & Hk). exists c'. split; [done|]. by apply IH.
Qed.

Lemma psafe_once {A} c (o : call A) (Q : claim → A → Prop) :
  (∀ m m' r, ready c o m → perform o m = (m', Val r) → ∃ c', settles c o r m' c' ∧ Q c' r) → psafe c (once o) Q.
Proof using Type. done. Qed.

Lemma psafe_range {X A R} c (xs : list X) (body : X → A → prog (A + R)) acc (I : claim → Prop) (Q : claim → R → Prop) :
  (∀ x a c, x ∈ xs → I c → psafe c (body x a) (λ c' r, match r with inl _ => I c' | inr ret => Q c' ret end)) → I c →
  psafe c (prog_range xs body acc) (λ c' r, match r with inl _ => I c' | inr ret => Q c' ret end).
Proof using Type.
  revert c acc. induction xs as [|x xs IH]; intros c acc Hb HI; [done|]. cbn [prog_range]. apply psafe_bind.
  eapply psafe_mono; [|by apply Hb; [left|]]. intros c' [a|r] Hr; [|done].
  apply IH; [|done]. intros x' a' c'' Hx. apply Hb. by right.
Qed.

(** ** Others are not disturbed *)

Definition same_network (name : string) m m' : Prop :=
  CacheAllocator_ m' !! name = CacheAllocator_ m !! name ∧ IPAllocator_ m' !! name = IPAllocator_ m !! name.

Lemma same_network_holds name m m' mac ip : same_network name m m' → holds m' name mac ip ↔ holds m name mac ip.
Proof using Type. intros [Hc _]. unfold holds, cached_text, cached_ip. by rewrite Hc. Qed.

Lemma same_network_allocated name m m' ip :
  same_network name m m' → is_allocated (IPAllocator_ m') name ip ↔ is_allocated (IPAllocator_ m) name ip.
Proof using Type. intros [_ Ha]. unfold is_allocated. by rewrite Ha. Qed.

Lemma same_network_taken name m m' : same_network name m m' → taken name m → taken name m'.
Proof using Type.
  intros Hs Ht mac ip. rewrite (same_network_holds name m m' mac ip Hs), (same_network_allocated name m m' ip Hs). apply Ht.
Qed.

Lemma same_network_claim c m m' :
  (∀ name, changing name (claim_busy c) → same_network name m m') → claim_ok c m → claim_ok c m'.
Proof using Type.
  intros Hs. destruct c as [|name ip last|name mac|name|name|name last]; try done; specialize (Hs name eq_refl); simpl.
  - setoid_rewrite (same_network_holds name m m' _ ip Hs). rewrite (same_network_allocated name m m' ip Hs).
    intros (? & ? & ?). split; [by eapply same_network_taken|done].
  - intros Hok mac' ip Hne. rewrite (same_network_holds name m m' _ ip Hs), (same_network_allocated name m m' ip Hs). eauto.
  - intros Hok mac ip. rewrite (same_network_holds name m m' _ ip Hs). apply Hok.
  - by apply same_network_taken.
Qed.

Lemma same_network_on_ipam {A} (f : IPAllocator → IPAllocator * A) m m' r name :
  on_ipam f m = (m', Val r) → (f (IPAllocator_ m)).1 !! name = IPAllocator_ m !! name → same_network name m m'.
Proof using Type. unfold on_ipam, go_state. destruct (f (IPAllocator_ m)) as [a' r']. by intros [= <- <-]. Qed.

Lemma same_network_on_cache {A} (f : CacheAllocator → CacheAllocator * A) m m' r name :
  on_cache f m = (m', Val r) → (f (CacheAllocator_ m)).1 !! name = CacheAllocator_ m !! name → same_network name m m'.
Proof using Type. unfold on_cache, go_state. destruct (f (CacheAllocator_ m)) as [c' r']. by intros [= <- <-]. Qed.

Lemma perform_frame {A} (o : call A) m m' r name :
  perform o m = (m', Val r) → changes o ≠ Some name → same_network name m m'.
Proof using Type.
  destruct o as [seed n ip|mac n ip|n ip|n ip|n cidr start end_|n|n mac|n mac|n mac ip|n mac|n|n|B f Hf];
    cbn [perform changes]; intros Hrun Hne; try (injection Hrun as <- _; done).
  - apply (same_network_on_ipam _ _ _ _ _ Hrun). destruct (AllocateIP seed n ip _) as [a' [t err]] eqn:Ho.
    destruct (AllocateIP_frame _ _ _ _ _ _ _ Ho) as [(_ & sn & _ & _ & ->)|[_ ->]]; [|done].
    apply lookup_insert_ne. congruence.
  - apply (same_network_on_ipam _ _ _ _ _ Hrun). destruct (DeallocateIP n ip _) as [a' err] eqn:Ho.
    destruct (DeallocateIP_frame _ _ _ _ _ Ho) as [(_ & sn & _ & _ & ->)|[_ ->]]; [|done].
    apply lookup_insert_ne. congruence.
  - apply (same_network_on_ipam _ _ _ _ _ Hrun). unfold RevokeIP. case_match; [|done].
    apply lookup_insert_ne. congruence.
  - unfold call_NewIPSubnet in Hrun. pose proof (NewIPSubnet_frame n cidr start end_ (IPAllocator_ m) name) as Hf.
    destruct (NewIPSubnet n cidr start end_ _) as [a' r']. injection Hrun as <- _. split; [done|]. apply Hf. congruence.
  - apply (same_network_on_ipam _ _ _ _ _ Hrun). apply lookup_delete_ne. congruence.
  - apply (same_network_on_cache _ _ _ _ _ Hrun). unfold AddMAC. case_match; [|done]. apply lookup_insert_ne. congruence.
  - apply (same_network_on_cache _ _ _ _ _ Hrun). unfold DeleteMAC. case_match; [|done]. apply lookup_insert_ne. congruence.
  - apply (same_network_on_cache _ _ _ _ _ Hrun). apply lookup_insert_ne. congruence.
  - apply (same_network_on_cache _ _ _ _ _ Hrun). apply lookup_delete_ne. congruence.
  - destruct (Hf m) as [Hc Ha]. rewrite Hrun in Hc, Ha. cbn in Hc, Ha. split; by rewrite ?Hc, ?Ha.
Qed.

Lemma changing_lasting name b next : changing name (lasting b next) → changing name b ∨ changing name next.
Proof using Type. destruct b as [[n []]|]; cbn; tauto. Qed.

Lemma changing_advance {A} (o : call A) (r : A) b name :
  changing name (advance o r b) → changing name b ∨ changes o = Some name.
Proof using Type.
  destruct o; cbn [advance changes]; intros Hc; try (by left);
    apply changing_lasting in Hc as [Hc|Hc]; try (by left); right; unfold succeeds in Hc;
    repeat case_match; unfold changing in Hc; cbn in Hc; congruence.
Qed.

(** ** The discipline keeps the lease table in order *)

Record orderly (σ : workers) (claims : nat → claim) : Prop := {
  ord_sane : sane (shared σ);
  ord_worker t p b : running σ !! t = Some (p, b) →
    claim_busy (claims t) = b ∧ claim_ok (claims t) (shared σ) ∧ psafe (claims t) p (λ c _, closed c);
  ord_apart t t' p p' b b' name : running σ !! t = Some (p, b) → running σ !! t' = Some (p', b') →
    changing name b → changing name b' → t = t';
  ord_taken name : (∀ t p b, running σ !! t = Some (p, b) → ¬ changing name b) → taken name (shared σ);
}.

(** One call of one worker. *)
Lemma orderly_call σ claims t b A (o : call A) k r m' :
  orderly σ claims → running σ !! t = Some (Do o k, b) → disciplined A σ t o → perform o (shared σ) = (m', Val r) →
  ∃ c', orderly (mkWorkers m' (<[t := (k r, advance o r b)]> (running σ))) (λ t', if decide (t' = t) then c' else claims t').
Proof using Type.
  intros [Hsane Hworker Hapart Htaken] Ht [Halone Hright] Hrun.
  destruct (Hworker _ _ _ Ht) as (Hb & Hc & Hp).
  assert (Hready : ready (claims t) o (shared σ)).
  { constructor; [done..|]. intros name Hn Hself. apply Htaken. intros t' p' b' Ht' Hch.
    destruct (decide (t' = t)) as [->|Hne]; [|by apply (Halone name t' p' b')].
    rewrite Ht in Ht'. injection Ht' as <- <-. by rewrite Hb in Hself. }
  destruct (Hp _ _ _ Hready Hrun) as (c' & [Hsane' Hc' Hbusy Htaken'] & Hk). rewrite Hb in Hbusy, Htaken'.
  assert (Hothers : ∀ t' p' b' name, t' ≠ t → running σ !! t' = Some (p', b') → changing name b' →
                      ¬ changing name (advance o r b) ∧ same_network name (shared σ) m').
  { intros t' p' b' name Hne Ht' Hch.
    assert (Ho : changes o ≠ Some name) by (intros Ho; by apply (Halone name t' p' b')). split; [|by eapply perform_frame].
    intros [Hold|?]%changing_advance; [|done]. apply Hne. by eapply Hapart. }
  exists c'. constructor; cbn [shared running].
  - done.
  - intros t' p' b'. rewrite lookup_insert_Some. intros [[<- [= <- <-]]|[Hne Ht']].
    + rewrite decide_True by done. done.
    + rewrite decide_False by congruence. destruct (Hworker _ _ _ Ht') as (Hb' & Hok & Hp'). split; [done|]. split; [|done].
      apply (same_network_claim _ (shared σ)); [|done]. intros name Hch. rewrite Hb' in Hch. by eapply Hothers.
  - intros t1 t2 p1 p2 b1 b2 name. rewrite !lookup_insert_Some.
    intros [[<- [= <- <-]]|[Hne1 Ht1]] [[<- [= <- <-]]|[Hne2 Ht2]] Hch1 Hch2; [done| | |by eapply Hapart].
    + by destruct (Hothers t2 p2 b2 name) as [? _].
    + by destruct (Hothers t1 p1 b1 name) as [? _].
  - intros name Hfree. pose proof (Hfree t (k r) (advance o r b) (lookup_insert_eq _ _ _)) as Hself.
    rewrite <-Hbusy in Hself.
    destruct (decide (changes o = Some name)) as [Ho|Ho]; [by apply Htaken'; [right|]|].
    destruct (decide (fst <$> b = Some name)) as [Hch|Hch]; [by apply Htaken'; [left|]|].
    apply (same_network_taken name (shared σ)); [by eapply perform_frame|]. apply Htaken. intros t' p' b' Ht' Hch'.
    destruct (decide (t' = t)) as [->|Hne]; [rewrite Ht in Ht'; by injection Ht' as <- <-|].
    apply (Hfree t' p' b'); [by rewrite lookup_insert_ne|done].
Qed.

Lemma setup_holds w name mac ip : ¬ holds (SetupManagement w) name mac ip.
Proof using Type. unfold holds, cached_text, cached_ip, SetupManagement, NewCacheAllocator. cbn. by rewrite lookup_empty. Qed.

Lemma orderly_start w : orderly (w_start (SetupManagement w)) (λ _, Idle).
Proof using Type.
  constructor; cbn [shared running w_start].
  - constructor; [intros name sn Hl; cbn in Hl; unfold NewIPAllocator in Hl; by rewrite lookup_empty in Hl|].
    intros name mac mac' ip Hh. by apply setup_holds in Hh.
  - intros t p b. by rewrite lookup_empty.
  - intros t t' p p' b b' name. by rewrite lookup_empty.
  - intros name _ mac ip Hh. by apply setup_holds in Hh.
Qed.

Lemma orderly_step handlers σ σ' claims :
  (∀ p, handlers p → safe p) → orderly σ claims → wstep handlers disciplined σ σ' → ∃ claims', orderly σ' claims'.
Proof using Type.
  intros Hsafe Hord Hstep.
  destruct Hstep as [t p Ht Hh|t b A o k r m' Ht Hrule Hrun|t b Ht|w|]; [| |pose proof Hord as [Hsane Hworker Hapart Htaken]..|].
  - destruct Hord as [Hsane Hworker Hapart Htaken]. exists (λ t', if decide (t' = t) then Idle else claims t').
    constructor; cbn [shared running]; [done| | |].
    + intros t' p' b'. rewrite lookup_insert_Some. intros [[<- [= <- <-]]|[Hne Ht']].
      * rewrite decide_True by done. split; [done|]. split; [done|]. by apply Hsafe.
      * rewrite decide_False by congruence. by apply Hworker.
    + intros t1 t2 p1 p2 b1 b2 name. rewrite !lookup_insert_Some.
      intros [[<- [= <- <-]]|[Hne1 Ht1]] [[<- [= <- <-]]|[Hne2 Ht2]] Hch1 Hch2; try done. by eapply Hapart.
    + intros name Hfree. apply Htaken. intros t' p' b' Ht'. apply (Hfree t' p'). rewrite lookup_insert_ne; [done|]. congruence.
  - destruct (orderly_call _ _ _ _ _ _ _ _ _ Hord Ht Hrule Hrun) as [c' Hc']. by eexists.
  - destruct (Hworker _ _ _ Ht) as (Hb & Hc & Hclosed). cbn [psafe] in Hclosed. exists claims.
    constructor; cbn [shared running]; [done| | |].
    + intros t' p' b' [_ Ht']%lookup_delete_Some. by apply Hworker.
    + intros t1 t2 p1 p2 b1 b2 name [_ Hl1]%lookup_delete_Some [_ Hl2]%lookup_delete_Some. by eapply Hapart.
    + intros name Hfree. destruct (decide (fst <$> b = Some name)) as [Hch|Hch].
      * apply (Hclosed (shared σ) name Hc). by rewrite Hb.
      * apply Htaken. intros t' p' b' Ht' Hch'. destruct (decide (t' = t)) as [->|Hne]; [congruence|].
        apply (Hfree t' p' b'); [by rewrite lookup_delete_ne|done].
  - exists claims. constructor; cbn [shared running]; [by destruct Hsane; constructor| |done..|].
    + intros t p b Ht. destruct (Hworker _ _ _ Ht) as (Hb & Hc & Hp). split; [done|]. split; [|done].
      by apply (same_network_claim _ (shared σ)).
    + intros name Hfree. by apply Htaken.
  - eexists. apply orderly_start.
Qed.

(** Through every disciplined interleaving. *)
Lemma orderly_reachable handlers w σ :
  (∀ p, handlers p → safe p) → rtc (wstep handlers disciplined) (w_start (SetupManagement w)) σ →
  ∃ claims, orderly σ claims.
Proof using Type.
  intros Hsafe Hr. assert (Hgen : ∀ σ0 claims, orderly σ0 claims → rtc (wstep handlers disciplined) σ0 σ → ∃ claims, orderly σ claims).
  { clear Hr. intros σ0 claims Hord Hr. revert claims Hord. induction Hr as [|σ0 σ1 σ2 Hstep _ IH]; intros claims Hord; [by eexists|].
    destruct (orderly_step _ _ _ _ Hsafe Hord Hstep) as [claims' Hord']. by apply (IH claims'). }
  by eapply Hgen, Hr; apply orderly_start.
Qed.

(** ** What each call does to a claim *)

Lemma on_ipam_inv {A} (f : IPAllocator → IPAllocator * A) m m' r :
  on_ipam f m = (m', Val r) → f (IPAllocator_ m) = (IPAllocator_ m', r) ∧ CacheAllocator_ m' = CacheAllocator_ m.
Proof using Type. unfold on_ipam, go_state. destruct (f (IPAllocator_ m)) as [a' r']. by intros [= <- <-]. Qed.

Lemma on_cache_inv {A} (f : CacheAllocator → CacheAllocator * A) m m' r :
  on_cache f m = (m', Val r) → f (CacheAllocator_ m) = (CacheAllocator_ m', r) ∧ IPAllocator_ m' = IPAllocator_ m.
Proof using Type. unfold on_cache, go_state. destruct (f (CacheAllocator_ m)) as [a' r']. by intros [= <- <-]. Qed.

Lemma holds_same m m' : CacheAllocator_ m' = CacheAllocator_ m → ∀ name mac ip, holds m' name mac ip ↔ holds m name mac ip.
Proof using Type. intros Hc name mac ip. unfold holds. by rewrite Hc. Qed.

(** Reads, and calls that have nothing to do with leases. *)
Definition rest (c : claim) : claim :=
  match claim_busy c with
  | Some (_, true) => c
  | _ => Idle
  end.

Lemma sane_same m m' : (∀ name, same_network name m m') → sane m → sane m'.
Proof using Type.
  intros Hs [Hwf Hinj]. constructor.
  - intros name sn Hl. apply (Hwf name). by rewrite <-(proj2 (Hs name)).
  - intros name mac mac' ip. rewrite !(same_network_holds name m m' _ _ (Hs name)). apply Hinj.
Qed.

Lemma psafe_look {A} c (o : call A) (Q : claim → A → Prop) :
  changes o = None → (∀ r b, advance o r b = lasting b None) → closed c → (∀ r, Q (rest c) r) → psafe c (once o) Q.
Proof using Type.
  intros Hno Hadv Hclosed HQ. apply psafe_once. intros m m' r [Hsane Hc _ _] Hrun. exists (rest c). split; [|apply HQ].
  assert (Hs : ∀ name, same_network name m m') by (intros name; eapply perform_frame; [done|by rewrite Hno]).
  constructor.
  - by eapply sane_same.
  - assert (Hc' : claim_ok c m') by (by apply (same_network_claim c m)).
    unfold rest. destruct (claim_busy c) as [[n []]|]; done.
  - rewrite Hadv. unfold rest. destruct (claim_busy c) as [[n []]|] eqn:Hb; [done..|]. done.
  - intros name [Hch|Hch] _; [|congruence]. apply (same_network_taken name m); [done|]. by apply Hclosed.
Qed.

Lemma psafe_HasMAC c n mac (Q : claim → bool * option error → Prop) :
  (∀ r, Q c r) → psafe c (once (CallHasMAC n mac)) Q.
Proof using Type.
  intros HQ. apply psafe_once. intros m m' r [Hsane Hc _ _] Hrun. injection Hrun as <- _. exists c. split; [|apply HQ].
  by constructor; [..|intros name [?|?]].
Qed.

(** After a release: the MAC is to be deleted, or there is nothing to delete. *)
Lemma psafe_HasMAC_released n mac (Q : claim → bool * option error → Prop) :
  Q (Released n mac) (true, None) → (∀ err, Q (Settled n false) (false, err)) →
  psafe (Released n mac) (once (CallHasMAC n mac)) Q.
Proof using Type.
  intros Htrue Hfalse. apply psafe_once. intros m m' r [Hsane Hc _ _] Hrun. injection Hrun as <- <-.
  rewrite HasMAC_spec. destruct (CacheAllocator_ m !! n) as [set|] eqn:Hset.
  - case_bool_decide as Hmac.
    + exists (Released n mac). split; [|done]. by constructor; [..|intros name [?|?]].
    + exists (Settled n false). split; [|done]. constructor; [done| |done|by intros name [?|?]].
      intros mac' ip Hh. apply (Hc mac' ip); [|done]. intros ->. apply Hmac. unfold holds, cached_text in Hh.
      by apply fmap_Some in Hh as (x & -> & _).
  - exists (Settled n false). split; [|done]. constructor; [done| |done|by intros name [?|?]].
    intros mac' ip Hh. unfold holds, cached_text, cached_ip in Hh. by rewrite Hset in Hh.
Qed.

(** An address may be asked for when nothing is half done, or within a rebuild. *)
Definition open_for (n : string) (c : claim) : Prop := c = Idle ∨ c = Empty n ∨ c = Settled n true.
Definition is_lasting (c : claim) : bool := match claim_busy c with Some (_, last) => last | None => false end.

Lemma open_taken n c m : open_for n c → claim_ok c m → (¬ changing n (claim_busy c) → taken n m) → taken n m.
Proof using Type.
  intros [-> |[-> | ->]] Hc Ht; [by apply Ht|intros mac ip Hh; by apply Hc in Hh|done].
Qed.

Lemma psafe_AllocateIP c seed n s (Q : claim → string * option error → Prop) :
  open_for n c →
  (∀ ip, IP_String (ParseIP ip) = ip → ((IsUnspecified (ParseIP s) = false ∧ s ≠ EmptyString) → ip = IP_String (ParseIP s)) → Q (Granted n ip (is_lasting c)) (ip, None)) →
  (∀ t e, Q c (t, Some e)) → psafe c (once (CallAllocateIP seed n s)) Q.
Proof using Type.
  intros Hopen Hgrant Hfail. apply psafe_once. intros m m' r [Hsane Hc _ Ht] Hrun.
  apply on_ipam_inv in Hrun as [Ho Hcache]. pose proof Hsane as [Hwf Hinj].
  assert (Htaken : taken n m) by (apply (open_taken n c); [done..|by apply Ht]).
  pose proof (holds_same m m' Hcache) as Hh.
  assert (Hwf' : well_formed (IPAllocator_ m')) by (change (IPAllocator_ m') with ((IPAllocator_ m'), r).1; rewrite <-Ho; by apply AllocateIP_wf).
  assert (Hsane' : sane m') by (constructor; [done|]; intros name mac mac' ip; rewrite !Hh; apply Hinj).
  destruct r as [ip [e|]].
  - apply AllocateIP_error in Ho as Heq. exists c. split; [|apply Hfail].
    assert (Hs : ∀ name, same_network name m m') by (intros name; split; by rewrite ?Hcache, ?Heq).
    constructor; [done|by apply (same_network_claim c m)| |].
    + destruct Hopen as [-> |[-> | ->]]; done.
    + intros name [Hch|[= <-]] _; [|by apply (same_network_taken n m)]. apply (same_network_taken name m); [done|].
      destruct Hopen as [-> |[-> | ->]]; [done| |]; injection Hch as <-; done.
  - destruct (AllocateIP_allocated _ _ _ _ _ _ Ho) as [Hfree Hal]. exists (Granted n ip (is_lasting c)).
    split; [|apply Hgrant; [by apply (AllocateIP_text _ _ _ _ _ _ Hwf Ho)|]].
    2: { intros [Hun Hne]. by apply (AllocateIP_designated _ _ _ _ _ _ Hun Hne Hwf Ho). }
    constructor; [done| | |].
    + split; [|split].
      * intros mac' ip' Hl%Hh. apply Hal. right. by apply (Htaken mac').
      * apply Hal. by left.
      * intros mac Hl%Hh. by apply Hfree, (Htaken mac).
    + destruct Hopen as [-> |[-> | ->]]; done.
    + intros name [Hch|[= <-]] Hno; [|done]. exfalso. apply Hno. destruct Hopen as [-> |[-> | ->]]; done.
Qed.

(** The MAC cache changes, the subnets do not. *)
Lemma sane_on_cache m m' :
  sane m → IPAllocator_ m' = IPAllocator_ m →
  (∀ name mac mac' ip, holds m' name mac ip → holds m' name mac' ip → mac = mac') → sane m'.
Proof using Type. intros [Hwf _] Ha Hinj. constructor; [by rewrite Ha|done]. Qed.

Lemma psafe_AddMAC n ip (last : bool) mac s (Q : claim → option error → Prop) :
  IP_String (ParseIP s) = ip → (∀ err, Q (if last then Settled n true else Idle) err) →
  psafe (Granted n ip last) (once (CallAddMAC n mac s)) Q.
Proof using Type.
  intros Hs HQ. apply psafe_once. intros m m' err [Hsane (Ht & Hal & Hno) _ _] Hrun.
  apply on_cache_inv in Hrun as [Hadd Hipam]. pose proof Hsane as [Hwf Hinj].
  exists (if last then Settled n true else Idle). split; [|apply HQ].
  assert (Hh : ∀ name mac' ip', holds m' name mac' ip' →
            holds m name mac' ip' ∨ name = n ∧ mac' = mac ∧ ip' = ip).
  { intros name mac' ip' Hl. destruct err as [e|].
    - unfold AddMAC in Hadd. destruct (CacheAllocator_ m !! n); [done|]. injection Hadd as Hc _. left.
      by apply (holds_same m m' (eq_sym Hc)).
    - unfold holds in *. rewrite (AddMAC_cached _ _ _ _ _ Hadd), Hs in Hl. case_decide as Hd; [|by left].
      destruct Hd as [-> ->]. injection Hl as <-. by right. }
  assert (Htaken : taken n m').
  { intros mac' ip' Hl. rewrite Hipam. destruct (Hh n mac' ip' Hl) as [?|(_ & -> & ->)]; [by apply (Ht mac')|done]. }
  constructor; [|by destruct last|by destruct last|].
  - apply (sane_on_cache m); [done..|]. intros name mac1 mac2 ip'.
    intros [Hl1|(? & ? & ?)]%Hh [Hl2|(? & ? & ?)]%Hh; subst; [by eapply Hinj| | |done]; exfalso; by eapply Hno.
  - by intros name [[= <-]|[= <-]] _.
Qed.

Lemma psafe_DeallocateIP mac n ip (Q : claim → option error → Prop) :
  Q (Released n mac) None → (∀ e, Q Idle (Some e)) → psafe Idle (once (CallDeallocateIP mac n ip)) Q.
Proof using Type.
  intros Hok Hfail. apply psafe_once. intros m m' err [Hsane _ Hright Ht] Hrun.
  apply on_ipam_inv in Hrun as [Ho Hcache]. pose proof (holds_same m m' Hcache) as Hh. cbn [rightful] in Hright.
  assert (Htaken : taken n m) by (by apply Ht).
  assert (Hsane' : sane m').
  { pose proof Hsane as [Hwf Hinj]. constructor; [|intros name mac1 mac2 ip'; rewrite !Hh; apply Hinj].
    pose proof (DeallocateIP_wf n ip _ Hwf) as Hwf'. by rewrite Ho in Hwf'. }
  destruct err as [e|].
  - exists Idle. split; [|apply Hfail]. destruct (DeallocateIP_frame _ _ _ _ _ Ho) as [[? _]|[_ Ha]]; [done|].
    constructor; [done..|]. intros name [?|[= <-]] _; [done|]. apply (same_network_taken n m); [|done]. split; by rewrite ?Hcache, ?Ha.
  - exists (Released n mac). split; [|done]. pose proof (DeallocateIP_allocated _ _ _ _ Ho) as Hal.
    constructor; [done| |done|by intros name [?|[= <-]]].
    intros mac' ip' Hne Hl%Hh. apply Hal. split; [|by apply (Htaken mac')]. intros [_ ->]. by apply Hne, Hright.
Qed.

Lemma psafe_DeleteMAC c n mac (Q : claim → option error → Prop) :
  c = Idle ∨ c = Settled n false ∨ c = Released n mac → (∀ err, Q Idle err) →
  psafe c (once (CallDeleteMAC n mac)) Q.
Proof using Type.
  intros Hcs HQ. apply psafe_once. intros m m' err [Hsane Hc _ Ht] Hrun.
  apply on_cache_inv in Hrun as [Hdel Hipam]. exists Idle. split; [|apply HQ].
  assert (Hh : ∀ name mac' ip', holds m' name mac' ip' → holds m name mac' ip' ∧ (err = None → ¬ (name = n ∧ mac' = mac))).
  { intros name mac' ip' Hl. unfold holds in *. destruct err as [e|].
    - unfold DeleteMAC in Hdel. destruct (CacheAllocator_ m !! n); [done|]. injection Hdel as Hcm _. by rewrite Hcm.
    - rewrite (DeleteMAC_cached _ _ _ _ Hdel) in Hl. by case_decide. }
  assert (Hsome : ∀ e, err = Some e → ∀ mac' ip', ¬ holds m n mac' ip').
  { intros e -> mac' ip' Hl. unfold DeleteMAC in Hdel. unfold holds, cached_text, cached_ip in Hl.
    by destruct (CacheAllocator_ m !! n). }
  constructor; [|done| |].
  - apply (sane_on_cache m); [done..|]. intros name mac1 mac2 ip' [? _]%Hh [? _]%Hh. by eapply (sane_inj m Hsane).
  - by destruct Hcs as [-> |[-> | ->]].
  - intros name Hname _. assert (name = n) as ->.
    { destruct Hname as [Hch|[= <-]]; [|done]. destruct Hcs as [-> |[-> | ->]]; unfold changing in Hch; cbn in Hch; congruence. }
    intros mac' ip' Hl. destruct (Hh _ _ _ Hl) as [Hl' Hne]. rewrite Hipam. destruct Hcs as [-> |[-> | ->]].
    + by apply (Ht n eq_refl) in Hl'.
    + by apply Hc in Hl'.
    + destruct err as [e|]; [by destruct (Hsome e eq_refl mac' ip')|]. apply (Hc mac'); [|done]. intros ->. by apply Hne.
Qed.

Lemma psafe_NewIPSubnet n cidr start end_ (Q : claim → option error → Prop) :
  v4_op (OpNew n cidr start end_) = true → Q (Reset n) None → (∀ e, Q Idle (Some e)) →
  psafe Idle (once (CallNewIPSubnet n cidr start end_)) Q.
Proof using Type.
  intros H4 Hok Hfail. apply psafe_once. intros m m' err [Hsane _ _ Ht] Hrun. cbn [perform] in Hrun.
  destruct (NewIPSubnet_returns n cidr start end_ (IPAllocator_ m) H4) as (r & Hr & Herr).
  pose proof (NewIPSubnet_wf n cidr start end_ (IPAllocator_ m) H4 (sane_wf m Hsane)) as Hwf.
  unfold call_NewIPSubnet in Hrun. destruct (NewIPSubnet n cidr start end_ _) as [a' r']. cbn [fst snd] in Hr, Herr, Hwf.
  subst r'. injection Hrun as <- <-.
  assert (Hsane' : sane (set_ipam m a')) by (by constructor; [|apply (sane_inj m Hsane)]).
  destruct r as [e|]; [exists Idle|exists (Reset n)]; (split; [|done]); constructor; try done; intros name [?|[= <-]] Hno; try done.
  rewrite Herr by done. by apply Ht.
Qed.

Lemma psafe_DeleteIPSubnet n (Q : claim → () → Prop) :
  Q (Reset n) tt → psafe Idle (once (CallDeleteIPSubnet n)) Q.
Proof using Type.
  intros HQ. apply psafe_once. intros m m' [] [Hsane _ _ Ht] Hrun. cbn [perform] in Hrun. apply on_ipam_inv in Hrun as [[= Ha] Hcache].
  exists (Reset n). split; [|done]. constructor; [|done|done|by intros name [?|[= <-]]].
  constructor.
  - rewrite <-Ha. intros name sn Hl. unfold DeleteIPSubnet in Hl. apply lookup_delete_Some in Hl as [_ Hl]. by apply (sane_wf m Hsane name).
  - intros name mac mac' ip. rewrite !(holds_same m m' Hcache). apply (sane_inj m Hsane).
Qed.

(** The MAC set of a network is emptied. *)
Lemma empties n m m' :
  sane m → (∀ name mac, cached_text (CacheAllocator_ m') name mac =
              if decide (name = n) then None else cached_text (CacheAllocator_ m) name mac) →
  IPAllocator_ m' = IPAllocator_ m → sane m' ∧ claim_ok (Empty n) m'.
Proof using Type.
  intros Hsane Hc Ha. split.
  - apply (sane_on_cache m); [done..|]. intros name mac mac' ip. unfold holds. rewrite !Hc. case_decide; [done|].
    apply (sane_inj m Hsane).
  - intros mac ip. unfold holds. by rewrite Hc, decide_True.
Qed.

Lemma psafe_NewMACSet n (Q : claim → option error → Prop) :
  Q (Empty n) None → psafe (Reset n) (once (CallNewMACSet n)) Q.
Proof using Type.
  intros HQ. apply psafe_once. intros m m' err [Hsane _ _ Ht] Hrun. cbn [perform] in Hrun. apply on_cache_inv in Hrun as [[= Hc <-] Ha].
  exists (Empty n). split; [|done]. destruct (empties n m m' Hsane) as [? ?]; [|done|].
  - intros name mac. rewrite <-Hc. apply (cached_text_NewMACSet n).
  - by constructor; [..|intros name [[= <-]|[= <-]]].
Qed.

Lemma psafe_DeleteMACSet n (Q : claim → () → Prop) :
  Q (Empty n) tt → psafe (Reset n) (once (CallDeleteMACSet n)) Q.
Proof using Type.
  intros HQ. apply psafe_once. intros m m' [] [Hsane _ _ Ht] Hrun. cbn [perform] in Hrun. apply on_cache_inv in Hrun as [[= Hc] Ha].
  exists (Empty n). split; [|done]. destruct (empties n m m' Hsane) as [? ?]; [|done|].
  - intros name mac. rewrite <-Hc. unfold cached_text, cached_ip, DeleteMACSet. case_decide as Hn.
    + subst. by rewrite lookup_delete_eq.
    + by rewrite lookup_delete_ne.
  - by constructor; [..|intros name [[= <-]|[= <-]]].
Qed.

Lemma psafe_RevokeIP n ip (Q : claim → option error → Prop) :
  (∀ err, Q (Empty n) err) → psafe (Empty n) (once (CallRevokeIP n ip)) Q.
Proof using Type.
  intros HQ. apply psafe_once. intros m m' err [Hsane Hc _ _] Hrun. apply on_ipam_inv in Hrun as [Ho Hcache].
  pose proof (holds_same m m' Hcache) as Hh. exists (Empty n). split; [|done].
  constructor; [| |done|by intros name [[= <-]|[= <-]]].
  - constructor; [|intros name mac mac' ip'; rewrite !Hh; apply (sane_inj m Hsane)].
    pose proof (ipam_apply_wf (OpRevoke n ip) _ eq_refl (sane_wf m Hsane)) as Hwf. cbn [ipam_apply] in Hwf. by rewrite Ho in Hwf.
  - intros mac ip' Hl%Hh. by apply Hc in Hl.
Qed.
End calls.
Arguments Done {_ _ _} _.
Arguments Do {_ _ _ _} _ _.
Arguments prog {_ _} _.
Arguments Begins {_ _} _ _.
Arguments Calls {_ _} _.
Arguments Ends {_ _} _.
