(* ===== verification/HandlerCalls.v ===== *)
(** * The handlers of the controllers, call by call

    Every handler of [System] as the tree of its calls on the IP allocator and the MAC
    cache.  Calls that do not touch them (the API, the metrics, questions to the
    allocators) are steps of their own or, between two calls that matter, one step
    together.  [registered_handlers_run]: run without interruption they are the handlers
    of [System]. *)

From S2P Require Import Prelude GoNet GoText Api Util Ipam IpamFacts IpamSpec MacCache Metrics Leases Webhook Kube Image VmNetCfg VmNetCfgFacts IpPool IpPoolFacts Vm VmFacts StatusHandler System Interleaving.
Local Open Scope go_scope.

(** ** Calls that leave the lease table alone *)

Section quiet.
Context `{MapRange} `{ConditionLib} `{KvLib} `{PromLib} `{Kube} `{RetryLib}.

#[export] Instance Quiet_request {A} (f : World → World * A) : Quiet (request f).
Proof using Type. apply quiet_request. Qed.
#[export] Instance Quiet_on_metrics f : Quiet (on_metrics f).
Proof using Type. apply quiet_on_metrics. Qed.
#[export] Instance Quiet_ask_world {A} (f : World → A) : Quiet (ask_world f).
Proof using Type. apply quiet_ask_world. Qed.
#[export] Instance Quiet_ask_ipam {A} (f : IPAllocator → A) : Quiet (ask_ipam f).
Proof using Type. apply quiet_ask_ipam. Qed.
#[export] Instance Quiet_return_update {A} (f : World → World * result A) : Quiet (return_update (request f)).
Proof using Type. apply quiet_return_update. Qed.
#[export] Instance Quiet_ensureNADLabels p : Quiet (ensureNADLabels p).
Proof using Type. apply quiet_ensureNADLabels. Qed.
#[export] Instance Quiet_update_usage seed now key p p' : Quiet (update_usage seed now key p p').
Proof using Type. apply quiet_update_usage. Qed.

#[export] Instance Quiet_RetryOnConflict (fn : GoM Management (option error)) : Quiet fn → Quiet (RetryOnConflict fn).
Proof using Type. intros Hf m. destruct (RetryOnConflict_spec _ fn m) as [more ->]. by apply quiet_retry. Qed.

#[export] Instance Quiet_remove_record now s : Quiet (remove_record now s).
Proof using Type. unfold Quiet, remove_record. solve_quiet. Qed.

Context `{!SemanticEq IPPool IPPoolStatus} (h : Handler).

#[export] Instance Quiet_DeployAgent_handler p status : Quiet (DeployAgent_handler h p status).
Proof using Type. unfold Quiet, DeployAgent_handler. pose proof quiet_DeployAgent. solve_quiet. Qed.
#[export] Instance Quiet_MonitorAgent p status : Quiet (MonitorAgent h p status).
Proof using Type. apply quiet_MonitorAgent. Qed.
#[export] Instance Quiet_vm_OnChange (AnnotationMacAddressName : string) seed obj :
  Quiet (Vm.OnChange AnnotationMacAddressName seed obj).
Proof using Type. apply quiet_vm_OnChange. Qed.
End quiet.

(** ** [pkg/controller/vmnetcfg] *)

Section handlers.
Context `{MapRange} `{ConditionLib} `{KvLib} `{PromLib} `{Kube} `{RetryLib}.

Definition address_for_calls (seed : nat) (vmNetCfg : VmNetCfg) (nc : NetworkConfig) : prog (string + error) :=
  let! exists_ := once (CallHasMAC (nc_NetworkName nc) (nc_MACAddress nc)) orelse err => mret (inr err) in
  if exists_ : bool then
    let! ip := once (CallGetIPByMAC (nc_NetworkName nc) (nc_MACAddress nc)) orelse err => mret (inr err) in
    mret (inl ip)
  else
    let dIP := default (IP_String IPv4zero) (nc_IPAddress nc) in
    let dIP := match findIPAddressFromNetworkConfigStatusByMACAddress
                       (st_NetworkConfigs (vnc_Status vmNetCfg)) (nc_MACAddress nc) with
               | inl oIP => oIP
               | inr _ => dIP
               end in
    let! ip := once (CallAllocateIP seed (nc_NetworkName nc) dIP) orelse err => mret (inr err) in
    do! once (CallAddMAC (nc_NetworkName nc) (nc_MACAddress nc) ip) orelse err => mret (inr err) in
    mret (inl ip).

Definition allocate_one_calls (seed : nat) (now : Z) (vmNetCfg : VmNetCfg) (status : VmNetCfgStatus)
    (nc : NetworkConfig) (ncStatuses : list NetworkConfigStatus)
    : prog (list NetworkConfigStatus + (VmNetCfgStatus * option error)) :=
  try! ipPool := other (A := IPPool + error) (ask_world (getIPPoolFromNetworkConfig nc)) catch err => mret (inr (status, Some err)) in
  if negb (IsTrue CacheReady (pool_Conditions (pool_Status ipPool))) then
    mret (inr (status, Some (Errorf "ippool %s/%s is not ready"
      [Namespace (pool_Meta ipPool); Name (pool_Meta ipPool)])))
  else
    try! ip := address_for_calls (seed + length ncStatuses) vmNetCfg nc
      catch err => mret (inr (status, Some err)) in
    let ncStatus := mkNetworkConfigStatus ip (nc_MACAddress nc) (nc_NetworkName nc) AllocatedState in
    _ ← other (on_metrics (UpdateVmNetCfgStatus (meta_key (vnc_Meta vmNetCfg)) (ncs_NetworkName ncStatus)
          (ncs_MACAddress ncStatus) (AllocatedIPAddress ncStatus) (state_text (State ncStatus))));
    let ipPoolCpy := record_allocated ip (nc_MACAddress nc) ipPool in
    if negb (DeepEqual ipPoolCpy ipPool) then
      try! _ := other (A := IPPool + error) (request (ippoolClient_UpdateStatus
                  (set_pool_Status ipPoolCpy (set_LastUpdate (pool_Status ipPoolCpy) now))))
        catch err => mret (inr (status, Some err)) in
      mret (inl (ncStatuses ++ [ncStatus]))
    else mret (inl (ncStatuses ++ [ncStatus])).

Definition Allocate_calls (seed : nat) (now : Z) (vmNetCfg : VmNetCfg) (status : VmNetCfgStatus)
    : prog (VmNetCfgStatus * option error) :=
  if is_paused (vnc_Paused (vnc_Spec vmNetCfg)) then
    mret (status, Some (disabled_error (vnc_Meta vmNetCfg)))
  else if IsFalse InSynced (vnc_Conditions (vnc_Status vmNetCfg)) then
    mret (status, Some (Errorf "vmnetcfg %s/%s is out-of-sync; waiting for reconcile"
      [Namespace (vnc_Meta vmNetCfg); Name (vnc_Meta vmNetCfg)]))
  else
    r ← prog_range (NetworkConfigs (vnc_Spec vmNetCfg)) (allocate_one_calls seed now vmNetCfg status) [];
    match r with
    | inr ret => mret ret
    | inl [] => mret (status, Some (Errorf "no network configs found for vmnetcfg %s/%s"
                  [Namespace (vnc_Meta vmNetCfg); Name (vnc_Meta vmNetCfg)]))
    | inl ncStatuses => mret (set_st_NetworkConfigs status ncStatuses, None)
    end.

Definition cleanup_one_calls (now : Z) (cleanupStaleOnly : bool) (ncStatus : NetworkConfigStatus) (_ : unit)
    : prog (unit + option error) :=
  let name := ncs_NetworkName ncStatus in
  let mac := ncs_MACAddress ncStatus in
  let ip := AllocatedIPAddress ncStatus in
  if negb cleanupStaleOnly || bool_decide (State ncStatus = StaleState) then
    let! isAllocated := once (CallIsAllocated name ip) orelse err => mret (inr (Some err)) in
    do! (if isAllocated : bool then once (CallDeallocateIP mac name ip) else mret None)
      orelse err => mret (inr (Some err)) in
    let! exists_ := once (CallHasMAC name mac) orelse err => mret (inr (Some err)) in
    do! (if exists_ : bool then once (CallDeleteMAC name mac) else mret None)
      orelse err => mret (inr (Some err)) in
    do! other (RetryOnConflict (remove_record now ncStatus)) orelse err => mret (inr (Some err)) in
    mret (inl tt)
  else mret (inl tt).

Definition cleanup_calls (now : Z) (vmNetCfg : VmNetCfg) (cleanupStaleOnly : bool) : prog (option error) :=
  _ ← (if negb cleanupStaleOnly then
         other (on_metrics (DeleteVmNetCfgStatus (meta_key (vnc_Meta vmNetCfg))))
       else mret tt);
  r ← prog_range (st_NetworkConfigs (vnc_Status vmNetCfg)) (cleanup_one_calls now cleanupStaleOnly) tt;
  match r with
  | inr err => mret err
  | inl _ => mret None
  end.

Definition Sync_calls (now : Z) (shared : bool) (vmNetCfg : VmNetCfg) (status : VmNetCfgStatus)
    : prog (VmNetCfgStatus * option error) :=
  if is_paused (vnc_Paused (vnc_Spec vmNetCfg)) then
    mret (status, Some (disabled_error (vnc_Meta vmNetCfg)))
  else if IsTrue InSynced (vnc_Conditions (vnc_Status vmNetCfg)) then mret (status, None)
  else
    let macAddressSet : gset string :=
      list_to_set (nc_MACAddress <$> NetworkConfigs (vnc_Spec vmNetCfg)) in
    let marked := mark_stale macAddressSet <$> st_NetworkConfigs status in
    let nonStaleNetworkConfigs :=
      filter (λ s, ncs_MACAddress s ∈ macAddressSet) (st_NetworkConfigs status) in
    let vmNetCfg :=
      if shared then set_vnc_Status vmNetCfg (set_st_NetworkConfigs (vnc_Status vmNetCfg) marked)
      else vmNetCfg in
    do! cleanup_calls now vmNetCfg true
      orelse err => mret (set_st_NetworkConfigs status marked, Some err) in
    mret (set_st_NetworkConfigs status nonStaleNetworkConfigs, None).

Definition vmnetcfg_OnChange_calls (now : Z) (vmNetCfg : option VmNetCfg) : prog (option VmNetCfg * option error) :=
  match vmNetCfg with
  | None => mret (None, None)
  | Some vmNetCfg =>
      match DeletionTimestamp (vnc_Meta vmNetCfg) with
      | Some _ => mret (None, None)
      | None =>
          if is_paused (vnc_Paused (vnc_Spec vmNetCfg)) then
            do! cleanup_calls now vmNetCfg false orelse err => mret (Some vmNetCfg, Some err) in
            let vmNetCfgCpy := vnc_cond (SetTrue Disabled) vmNetCfg in
            let vmNetCfgCpy := set_vnc_Status vmNetCfgCpy
              (set_st_NetworkConfigs (vnc_Status vmNetCfgCpy)
                 (updateAllNetworkConfigState (st_NetworkConfigs (vnc_Status vmNetCfgCpy)) PendingState)) in
            if negb (DeepEqual vmNetCfgCpy vmNetCfg) then
              other (return_update (request (vmnetcfgClient_UpdateStatus vmNetCfgCpy)))
            else mret (Some vmNetCfg, None)
          else
            let vmNetCfgCpy := vnc_cond (SetFalse Disabled) vmNetCfg in
            if negb (DeepEqual vmNetCfgCpy vmNetCfg) then
              other (return_update (request (vmnetcfgClient_UpdateStatus vmNetCfgCpy)))
            else mret (Some vmNetCfg, None)
      end
  end.

Definition vmnetcfg_OnRemove_calls (now : Z) (vmNetCfg : option VmNetCfg) : prog (option VmNetCfg * option error) :=
  match vmNetCfg with
  | None => mret (None, None)
  | Some vmNetCfg =>
      do! cleanup_calls now vmNetCfg false orelse err => mret (Some vmNetCfg, Some err) in
      mret (Some vmNetCfg, None)
  end.
(** ** [pkg/controller/ippool] *)

Context (h : Handler).

Definition pool_cleanup_calls (ipPool : IPPool) : prog (option error) :=
  match AgentPodRef (pool_Status ipPool) with
  | None => mret None
  | Some ref =>
      err ← other (request (podClient_Delete (ref_Namespace ref) (ref_Name ref)));
      if match err with Some e => negb (IsNotFound e) | None => false end then mret err
      else
        let networkName := NetworkName (pool_Spec ipPool) in
        _ ← once (CallDeleteIPSubnet networkName);
        _ ← once (CallDeleteMACSet networkName);
        _ ← other (on_metrics (DeleteIPPool networkName (CIDR (ipv4Config (pool_Spec ipPool))) networkName));
        mret None
  end.

Definition ippool_OnChange_calls (seed : nat) (now : Z) (key : string) (ipPool : option IPPool)
    : prog (option IPPool * option error) :=
  match ipPool with
  | None => mret (None, None)
  | Some ipPool =>
      match DeletionTimestamp (pool_Meta ipPool) with
      | Some _ => mret (None, None)
      | None =>
          do! other (ensureNADLabels ipPool) orelse err => mret (Some ipPool, Some err) in
          if is_pool_paused ipPool then
            do! pool_cleanup_calls ipPool orelse err => mret (Some ipPool, Some err) in
            let ipPoolCpy := pool_cond (SetTrue Stopped)
              (set_pool_Status ipPool (set_AgentPodRef (pool_Status ipPool) None)) in
            if negb (DeepEqual ipPoolCpy ipPool) then
              other (return_update (request (ippoolClient_UpdateStatus ipPoolCpy)))
            else mret (Some ipPool, None)
          else
            let ipPoolCpy := pool_cond (SetFalse Stopped) ipPool in
            initialized ← other (ask_ipam (IsNetworkInitialized (NetworkName (pool_Spec ipPool))));
            if negb initialized then
              let ipPoolCpy := pool_cond (λ cs, SetMessage CacheReady EmptyString
                (SetReason CacheReady "NotInitialized" (SetFalse CacheReady cs))) ipPoolCpy in
              if negb (DeepEqual ipPoolCpy ipPool) then
                other (return_update (request (ippoolClient_UpdateStatus ipPoolCpy)))
              else other (update_usage seed now key ipPool ipPoolCpy)
            else other (update_usage seed now key ipPool ipPoolCpy)
      end
  end.

Definition ippool_OnRemove_calls (ipPool : option IPPool) : prog (option IPPool * option error) :=
  match ipPool with
  | None => mret (None, None)
  | Some ipPool =>
      if noAgent h then mret (Some ipPool, None)
      else
        do! pool_cleanup_calls ipPool orelse err => mret (Some ipPool, Some err) in
        mret (Some ipPool, None)
  end.

Definition revoke_one_calls (networkName : string) (status : IPPoolStatus) (eIP : string) (_ : unit)
    : prog (unit + (IPPoolStatus * option error)) :=
  do! once (CallRevokeIP networkName eIP) orelse err => mret (inr (status, Some err)) in
  mret (inl tt).

Definition rebuild_one_calls (seed : nat) (networkName : string) (status : IPPoolStatus)
    (entry : string * string) (_ : unit) : prog (unit + (IPPoolStatus * option error)) :=
  let '(ip, mac) := entry in
  if is_mark mac then mret (inl tt)
  else
    let! _ := once (CallAllocateIP seed networkName ip) orelse err => mret (inr (status, Some err)) in
    do! once (CallAddMAC networkName mac ip) orelse err => mret (inr (status, Some err)) in
    mret (inl tt).

Definition BuildCache_calls (seed : nat) (ipPool : IPPool) (status : IPPoolStatus) : prog (IPPoolStatus * option error) :=
  let networkName := NetworkName (pool_Spec ipPool) in
  let cfg := ipv4Config (pool_Spec ipPool) in
  if is_pool_paused ipPool then mret (status, Some (pool_disabled_error ipPool))
  else if IsTrue CacheReady (pool_Conditions (pool_Status ipPool)) then mret (status, None)
  else
    do! once (CallNewIPSubnet networkName (CIDR cfg) (Start (PoolRange cfg)) (End_ (PoolRange cfg)))
      orelse err => mret (status, Some err) in
    do! once (CallNewMACSet networkName) orelse err => mret (status, Some err) in
    do! once (CallRevokeIP networkName (ServerIP cfg)) orelse err => mret (status, Some err) in
    do! once (CallRevokeIP networkName (Router cfg)) orelse err => mret (status, Some err) in
    r ← prog_range (Exclude (PoolRange cfg)) (revoke_one_calls networkName status) tt;
    match r with
    | inr ret => mret ret
    | inl _ =>
        match IPv4 (pool_Status ipPool) with
        | None => mret (status, None)
        | Some ipv4Status =>
            r ← prog_range (range seed (or_empty (st_Allocated ipv4Status)))
                  (rebuild_one_calls seed networkName status) tt;
            match r with
            | inr ret => mret ret
            | inl _ => mret (status, None)
            end
        end
    end.

(** ** The generated status handlers around them *)

Context {Obj Status : Type} `{SemanticEq Obj Status}.

Definition sync_calls (UpdateStatus : Obj → World → World * (Obj + error)) (c : string)
    (f : Obj → Status → prog (Obj * Status * option error)) (now : string) (obj : option Obj)
    : prog (option Obj * option error) :=
  match obj with
  | None => mret (None, None)
  | Some obj =>
      let origStatus := obj_Status obj in
      '(obj, newStatus, err) ← f obj (obj_Status obj);
      let newStatus := match err with Some _ => origStatus | None => newStatus end in
      let newStatus := record_outcome c err newStatus in
      if negb (Semantic_DeepEqual origStatus newStatus) then
        let newStatus := if String.eqb c EmptyString then newStatus
                         else on_conditions (SetLastUpdated c now) newStatus in
        let obj := put_Status obj newStatus in
        updated ← other (request (UpdateStatus obj));
        match updated with
        | inl newObj => mret (Some newObj, err)
        | inr newErr => mret (Some obj, Some (default newErr err))
        end
      else mret (Some obj, err)
  end.

Definition only_status_calls (f : Obj → Status → prog (Status * option error)) : Obj → Status → prog (Obj * Status * option error) :=
  λ obj status, '(status, err) ← f obj status; mret (obj, status, err).
End handlers.

Section registered.
Context `{MapRange} `{ConditionLib} `{KvLib} `{PromLib} `{Kube} `{RetryLib}.
Context `{!SemanticEq IPPool IPPoolStatus} `{!SemanticEq VmNetCfg VmNetCfgStatus}.
Context (h : Handler) (AnnotationMacAddressName : string).

Definition Sync_handler_calls (now : Z) (v : VmNetCfg) (status : VmNetCfgStatus)
    : prog (VmNetCfg * VmNetCfgStatus * option error) :=
  '(status', err) ← Sync_calls now true v status;
  mret (if is_paused (vnc_Paused (vnc_Spec v)) || IsTrue InSynced (vnc_Conditions (vnc_Status v)) then v
        else set_vnc_Status v (set_st_NetworkConfigs (vnc_Status v)
               (mark_stale (spec_macs v) <$> st_NetworkConfigs (vnc_Status v))), status', err).

(** ** What the workers run *)

Definition ignoring {A} (p : prog A) : prog () := _ ← p; mret tt.

(** The handlers' trees, for any time, map order and object of a call.  One restriction is
    not the code's: [BuildCache] is run on [loadable] pools only (an IPv4 network, lease
    records keyed by specified addresses), while [BuildCache] itself has no such check. *)
Inductive controller_handler : prog () → Prop :=
| ch_deploy call obj : controller_handler (ignoring (sync_calls ippoolClient_UpdateStatus Registered
    (λ p status, other (DeployAgent_handler h p status)) (call_time call) obj))
| ch_build call obj : (∀ p, obj = Some p → loadable p) →
    controller_handler (ignoring (sync_calls ippoolClient_UpdateStatus CacheReady
      (only_status_calls (BuildCache_calls (call_seed call))) (call_time call) obj))
| ch_monitor call obj : controller_handler (ignoring (sync_calls ippoolClient_UpdateStatus AgentReady
    (only_status_calls (λ p status, other (MonitorAgent h p status))) (call_time call) obj))
| ch_pool_changed call key obj :
    controller_handler (ignoring (ippool_OnChange_calls (call_seed call) (call_now call) key obj))
| ch_pool_removed obj : controller_handler (ignoring (ippool_OnRemove_calls h obj))
| ch_vm call obj :
    controller_handler (ignoring (other (Vm.OnChange AnnotationMacAddressName (call_seed call) obj)))
| ch_allocate call obj : controller_handler (ignoring (sync_calls vmnetcfgClient_UpdateStatus Allocated
    (only_status_calls (Allocate_calls (call_seed call) (call_now call))) (call_time call) obj))
| ch_sync call obj : controller_handler (ignoring (sync_calls vmnetcfgClient_UpdateStatus InSynced
    (Sync_handler_calls (call_now call)) (call_time call) obj))
| ch_changed call obj : controller_handler (ignoring (vmnetcfg_OnChange_calls (call_now call) obj))
| ch_removed call obj : controller_handler (ignoring (vmnetcfg_OnRemove_calls (call_now call) obj)).
End registered.
