(* ===== verification/HandlerCallsFacts.v ===== *)
(** * Concurrent controllers: what holds and what does not *)

From S2P Require Import Prelude GoNet GoNetFacts GoText Api Util Ipam IpamFacts IpamSpec MacCache Metrics Leases Webhook Kube FakeKube Image VmNetCfg VmNetCfgFacts IpPool IpPoolFacts Vm VmFacts StatusHandler System Interleaving HandlerCalls.
Local Open Scope go_scope.

(** Call by call. *)
Ltac solve_runs :=
  repeat first
    [ progress intros
    | apply runs_ret
    | apply runs_other
    | solve [eauto with runs nocore]
    | apply runs_once; solve [done]
    | apply runs_range
    | apply runs_bind
    | case_match ].

Create HintDb runs.

Section runs.
Context `{MapRange} `{ConditionLib} `{KvLib} `{PromLib} `{Kube} `{RetryLib}.
Context (h : Handler).

Lemma Allocate_runs seed now v status : runs (Allocate_calls seed now v status) (Allocate seed now v status).
Proof using Type. unfold Allocate_calls, Allocate, allocate_one_calls, allocate_one, address_for_calls, address_for. solve_runs. Qed.

Lemma cleanup_runs now v b : runs (cleanup_calls now v b) (VmNetCfg.cleanup now v b).
Proof using Type. unfold cleanup_calls, VmNetCfg.cleanup, cleanup_one_calls, cleanup_one. solve_runs. Qed.

Lemma Sync_runs now sh v status : runs (Sync_calls now sh v status) (Sync now sh v status).
Proof using Type. pose proof cleanup_runs. unfold Sync_calls, Sync. solve_runs. Qed.

Lemma vmnetcfg_OnChange_runs now v : runs (vmnetcfg_OnChange_calls now v) (VmNetCfg.OnChange now v).
Proof using Type. pose proof cleanup_runs. unfold vmnetcfg_OnChange_calls, VmNetCfg.OnChange. solve_runs. Qed.

Lemma vmnetcfg_OnRemove_runs now v : runs (vmnetcfg_OnRemove_calls now v) (VmNetCfg.OnRemove now v).
Proof using Type. pose proof cleanup_runs. unfold vmnetcfg_OnRemove_calls, VmNetCfg.OnRemove. solve_runs. Qed.

Lemma pool_cleanup_runs p : runs (pool_cleanup_calls p) (IpPool.cleanup p).
Proof using Type. unfold pool_cleanup_calls, IpPool.cleanup. solve_runs. Qed.

Lemma ippool_OnChange_runs seed now key p : runs (ippool_OnChange_calls seed now key p) (IpPool.OnChange seed now key p).
Proof using Type. pose proof pool_cleanup_runs. unfold ippool_OnChange_calls, IpPool.OnChange. solve_runs. Qed.

Lemma ippool_OnRemove_runs p : runs (ippool_OnRemove_calls h p) (IpPool.OnRemove h p).
Proof using Type. pose proof pool_cleanup_runs. unfold ippool_OnRemove_calls, IpPool.OnRemove. solve_runs. Qed.

Lemma BuildCache_runs seed p status : runs (BuildCache_calls seed p status) (BuildCache seed p status).
Proof using Type. unfold BuildCache_calls, BuildCache, revoke_one_calls, revoke_one, rebuild_one_calls, rebuild_one. solve_runs. Qed.
End runs.

Section sync.
Context `{MapRange} `{ConditionLib} `{PromLib} `{Kube}.
Context {Obj Status : Type} `{SemanticEq Obj Status}.

Lemma sync_runs (U : Obj → World → World * (Obj + error)) c (p : Obj → Status → prog (Obj * Status * option error))
    (f : StatusHandler) now obj :
  (∀ o s, runs (p o s) (f o s)) → runs (sync_calls U c p now obj) (sync (mkStatusHandler U c f) now obj).
Proof using Type.
  intros Hp. unfold sync_calls, sync. cbn [handler condition client_UpdateStatus]. solve_runs.
Qed.

Lemma only_status_runs (p : Obj → Status → prog (Status * option error)) (f : Obj → Status → GoM Management (Status * option error)) :
  (∀ o s, runs (p o s) (f o s)) → ∀ o s, runs (only_status_calls p o s) (only_status f o s).
Proof using Type. intros Hp o s. unfold only_status_calls, only_status. solve_runs. Qed.
End sync.

(** ** The trees keep their claims *)

Section idle.
Context `{MapRange} `{PromLib} `{Kube}.

(** Code that is half way through nothing when it ends. *)
Definition idle {A} (p : prog A) : Prop := psafe Idle p (λ c _, c = Idle).

Lemma closed_idle : closed Idle.
Proof using Type. done. Qed.

Lemma closed_settled n b : closed (Settled n b).
Proof using Type. by intros m name Hc [= ->]. Qed.

Lemma closed_empty n : closed (Empty n).
Proof using Type. intros m name Hc [= ->] mac ip Hh. by apply Hc in Hh. Qed.

Lemma idle_safe {A} (p : prog A) : idle p → safe p.
Proof using Type. apply psafe_mono. by intros c _ ->. Qed.

Lemma idle_bind {A B} (p : prog A) (k : A → prog B) : idle p → (∀ a, idle (k a)) → idle (p ≫= k).
Proof using Type. intros Hp Hk. apply psafe_bind. eapply psafe_mono, Hp. intros c a ->. apply Hk. Qed.

Lemma idle_range {X A R} (xs : list X) (body : X → A → prog (A + R)) acc :
  (∀ x a, idle (body x a)) → idle (prog_range xs body acc).
Proof using Type.
  intros Hb. eapply psafe_mono; [|apply (psafe_range Idle xs body acc (λ c, c = Idle) (λ c _, c = Idle)); [|done]].
  - by intros c [a|r].
  - intros x a c _ ->. eapply psafe_mono, Hb. by intros c [a'|r].
Qed.

Lemma idle_look {A} (o : call A) : changes o = None → (∀ r b, advance o r b = lasting b None) → idle (once o).
Proof using Type. intros Hch Hadv. by apply psafe_look. Qed.

Lemma idle_other {A} (m : GoM Management A) {Hm : Quiet m} : idle (other m).
Proof using Type. by apply idle_look. Qed.

Lemma closed_rest c : closed c → closed (rest c).
Proof using Type. unfold rest. by destruct (claim_busy c) as [[n []]|]. Qed.

(** Code that has nothing to do with leases. *)
Definition calm {A} (p : prog A) : Prop := ∀ c, closed c → psafe c p (λ c' _, closed c').

Lemma calm_ret {A} (a : A) : calm (mret a).
Proof using Type. by intros c Hc. Qed.

Lemma calm_other {A} (m : GoM Management A) {Hm : Quiet m} : calm (other m).
Proof using Type. intros c Hc. apply psafe_look; [done..|]. intros _. by apply closed_rest. Qed.

Lemma calm_bind {A B} (p : prog A) (k : A → prog B) : calm p → (∀ a, calm (k a)) → calm (p ≫= k).
Proof using Type. intros Hp Hk c Hc. apply psafe_bind. eapply psafe_mono, Hp, Hc. intros c' a. apply Hk. Qed.

Lemma calm_safe {A} (p : prog A) : calm p → safe p.
Proof using Type. intros Hp. by apply Hp. Qed.

Lemma safe_bind {A B} (p : prog A) (k : A → prog B) : safe p → (∀ a, calm (k a)) → safe (p ≫= k).
Proof using Type. intros Hp Hk. apply psafe_bind. eapply psafe_mono, Hp. intros c' a. apply Hk. Qed.

Lemma safe_after {A B} (p : prog A) (k : A → prog B) : idle p → (∀ a, safe (k a)) → safe (p ≫= k).
Proof using Type. intros Hp Hk. apply psafe_bind. eapply psafe_mono, Hp. intros c a ->. apply Hk. Qed.
End idle.

Create HintDb idle.
Ltac solve_idle :=
  repeat first
    [ progress intros
    | match goal with |- idle (mret _) => done end
    | apply idle_other
    | solve [eauto with idle nocore]
    | apply idle_range
    | apply idle_bind
    | case_match ].

Section handlers.
Context `{MapRange} `{ConditionLib} `{KvLib} `{PromLib} `{Kube} `{RetryLib}.
Context (h : Handler).

Lemma address_for_idle seed v nc : idle (address_for_calls seed v nc).
Proof using Type.
  unfold address_for_calls. apply psafe_bind, psafe_HasMAC. intros [[] [e|]]; [done| |done|].
  - apply idle_bind; [by apply idle_look|]. by intros [ip [e|]].
  - apply psafe_bind, psafe_AllocateIP; [by left| |done]. intros ip Hip _.
    apply psafe_bind, psafe_AddMAC; [done|]. by intros [e|].
Qed.

Lemma Allocate_idle seed now v status : idle (Allocate_calls seed now v status).
Proof using Type.
  pose proof address_for_idle. unfold Allocate_calls, allocate_one_calls. solve_idle.
Qed.

(** A released address and its MAC: both are gone, or the handler ends. *)
Lemma cleanup_one_safe now b s u :
  psafe Idle (cleanup_one_calls now b s u) (λ c r, match r with inl _ => c = Idle | inr _ => closed c end).
Proof using Type.
  unfold cleanup_one_calls. destruct (_ || _); [|done].
  set (record := ncs_MACAddress s). set (n := ncs_NetworkName s).
  assert (Htail : ∀ c, c = Idle ∨ c = Settled n false →
            psafe c (do! other (RetryOnConflict (remove_record now s)) orelse err => mret (inr (Some err)) in mret (inl tt))
              (λ c r, match r : () + option error with inl _ => c = Idle | inr _ => closed c end)).
  { intros c Hc. apply psafe_bind, psafe_look; [done..| |].
    - destruct Hc as [-> | ->]; [apply closed_idle|apply closed_settled].
    - assert (rest c = Idle) as -> by (by destruct Hc as [-> | ->]). by intros [e|]. }
  assert (Hdelete : ∀ c, c = Idle ∨ c = Settled n false ∨ c = Released n record →
            psafe c (do! once (CallDeleteMAC n record) orelse err => mret (inr (Some err)) in
                     do! other (RetryOnConflict (remove_record now s)) orelse err => mret (inr (Some err)) in mret (inl tt))
              (λ c r, match r : () + option error with inl _ => c = Idle | inr _ => closed c end)).
  { intros c Hc. apply psafe_bind, psafe_DeleteMAC; [done|]. intros [e|]; [done|]. apply Htail. by left. }
  apply psafe_bind, psafe_look; [done..|]. cbn [rest claim_busy]. intros [[] [e|]]; [done| |done|].
  - apply psafe_bind, psafe_DeallocateIP; [|done]. apply psafe_bind, psafe_HasMAC_released.
    + apply Hdelete. by right; right.
    + intros [e|]; [apply closed_settled|]. apply Htail. by right.
  - apply psafe_bind, psafe_HasMAC. intros [[] [e|]]; [done|apply Hdelete|done|apply Htail]; by left.
Qed.

Lemma cleanup_safe now v b : safe (cleanup_calls now v b).
Proof using Type.
  unfold cleanup_calls. apply psafe_bind.
  assert (Hstart : psafe Idle (if negb b then other (on_metrics (DeleteVmNetCfgStatus (meta_key (vnc_Meta v)))) else mret tt) (λ c _, c = Idle)).
  { destruct b; [done|]. by apply idle_other. }
  eapply psafe_mono, Hstart. intros c _ ->. apply psafe_bind.
  eapply psafe_mono; [|apply (psafe_range Idle _ _ _ (λ c, c = Idle) (λ c _, closed c)); [|done]].
  - by intros c [[]|e]; [intros ->|].
  - intros x [] c _ ->. apply cleanup_one_safe.
Qed.

Lemma Sync_safe now sh v status : safe (Sync_calls now sh v status).
Proof using Type.
  unfold Sync_calls. destruct (is_paused _); [done|]. destruct (IsTrue _ _); [done|].
  apply safe_bind; [apply cleanup_safe|]. intros [e|]; apply calm_ret.
Qed.

(** *** The pool handlers *)

Lemma pool_cleanup_safe p : safe (pool_cleanup_calls p).
Proof using Type.
  unfold pool_cleanup_calls. destruct (AgentPodRef _) as [ref|]; [|done].
  apply psafe_bind, psafe_look; [done..|]. intros err. destruct (match err with Some e => _ | None => _ end); [done|].
  apply psafe_bind, psafe_DeleteIPSubnet. apply psafe_bind, psafe_DeleteMACSet. apply psafe_bind.
  eapply psafe_mono, (calm_other _ (Empty _)), closed_empty. done.
Qed.

Lemma rebuild_one_safe seed n status ip mac c :
  c = Empty n ∨ c = Settled n true → is_mark mac = true ∨ usable_key ip →
  psafe c (rebuild_one_calls seed n status (ip, mac) tt)
    (λ c' r, match r with inl _ => c' = Empty n ∨ c' = Settled n true | inr _ => closed c' end).
Proof using Type.
  intros Hc Hkey. assert (Hclosed : closed c) by (destruct Hc as [-> | ->]; [apply closed_empty|apply closed_settled]).
  unfold rebuild_one_calls. destruct (is_mark mac); [done|]. destruct Hkey as [?|Hkey]; [done|].
  apply psafe_bind, psafe_AllocateIP; [by right| |done]. intros ip' _ Hip.
  assert (is_lasting c = true) as -> by (by destruct Hc as [-> | ->]).
  apply psafe_bind, psafe_AddMAC; [by rewrite Hip|]. intros [e|]; [apply closed_settled|by right].
Qed.

Lemma BuildCache_safe seed p status : loadable p → safe (BuildCache_calls seed p status).
Proof using Type.
  intros [Hv4 Hkeys]. unfold BuildCache_calls. set (n := NetworkName (pool_Spec p)).
  destruct (is_pool_paused p); [done|]. destruct (IsTrue _ _); [done|].
  apply psafe_bind, psafe_NewIPSubnet; [done| |done]. apply psafe_bind, psafe_NewMACSet.
  apply psafe_bind, psafe_RevokeIP. intros [e|]; [apply closed_empty|].
  apply psafe_bind, psafe_RevokeIP. intros [e|]; [apply closed_empty|].
  apply psafe_bind. eapply psafe_mono; [|apply (psafe_range (Empty n) _ _ _ (λ c, c = Empty n) (λ c _, c = Empty n)); [|done]].
  - intros c [[]|e] ->; [|apply closed_empty]. unfold records_of in Hkeys.
    destruct (IPv4 (pool_Status p)) as [st|]; [|apply closed_empty]. apply psafe_bind.
    eapply psafe_mono; [|apply (psafe_range (Empty n) _ _ _ (λ c, c = Empty n ∨ c = Settled n true) (λ c _, closed c)); [|by left]].
    + intros c [[]|r]; [intros [-> | ->]; [apply closed_empty|apply closed_settled]|done].
    + intros [ip mac] [] c Hin%elem_of_range Hc. apply rebuild_one_safe; [done|].
      destruct (is_mark mac) eqn:Hm; [by left|]. right. by apply (Hkeys ip mac).
  - intros ip [] c _ ->. unfold revoke_one_calls. apply psafe_bind, psafe_RevokeIP. by intros [e|].
Qed.
End handlers.

Create HintDb safe.
#[export] Hint Resolve calm_ret calm_other closed_idle Allocate_idle cleanup_safe Sync_safe pool_cleanup_safe : safe.
Ltac solve_safe :=
  repeat first
    [ progress intros
    | solve [eauto with safe nocore]
    | apply safe_bind
    | apply calm_bind
    | case_match
    | apply calm_safe ].

Section wrappers.
Context `{MapRange} `{ConditionLib} `{KvLib} `{PromLib} `{Kube} `{RetryLib}.
Context (h : Handler).

Lemma vmnetcfg_OnChange_safe now v : safe (vmnetcfg_OnChange_calls now v).
Proof using Type. unfold vmnetcfg_OnChange_calls. solve_safe. Qed.

Lemma vmnetcfg_OnRemove_safe now v : safe (vmnetcfg_OnRemove_calls now v).
Proof using Type. unfold vmnetcfg_OnRemove_calls. solve_safe. Qed.

Lemma ippool_OnChange_safe seed now key p : safe (ippool_OnChange_calls seed now key p).
Proof using Type. 
  unfold ippool_OnChange_calls. destruct p as [p|]; [|done]. destruct (DeletionTimestamp _) as [t|]; [done|].
  apply safe_after; [apply idle_other|]. solve_safe.
Qed.

Lemma ippool_OnRemove_safe p : safe (ippool_OnRemove_calls h p).
Proof using Type. unfold ippool_OnRemove_calls. solve_safe. Qed.

Context {Obj Status : Type} `{SemanticEq Obj Status}.

Lemma sync_safe (U : Obj → World → World * (Obj + error)) c (p : Obj → Status → prog (Obj * Status * option error)) now obj :
  (∀ o s, obj = Some o → safe (p o s)) → safe (sync_calls U c p now obj).
Proof using Type. intros Hp. unfold sync_calls. destruct obj as [o|]; [|done]. apply safe_bind; [by apply Hp|]. solve_safe. Qed.

Lemma only_status_safe (p : Obj → Status → prog (Status * option error)) o s : safe (p o s) → safe (only_status_calls p o s).
Proof using Type. intros Hp. unfold only_status_calls. solve_safe. Qed.

Lemma ignoring_safe {A} (p : prog A) : safe p → safe (ignoring p).
Proof using Type. intros Hp. unfold ignoring. solve_safe. Qed.
End wrappers.

Section registered.
Context `{MapRange} `{ConditionLib} `{KvLib} `{PromLib} `{Kube} `{RetryLib}.
Context `{!SemanticEq IPPool IPPoolStatus} `{!SemanticEq VmNetCfg VmNetCfgStatus}.
Context (h : Handler) (AnnotationMacAddressName : string).
#[local] Abbreviation handlers := (controller_handler h AnnotationMacAddressName).

Lemma Sync_handler_runs now v status : runs (Sync_handler_calls now v status) (Sync_handler now v status).
Proof using Type. pose proof Sync_runs. unfold Sync_handler_calls, Sync_handler. solve_runs. Qed.

Definition ignored {A} (f : GoM Management A) : GoM Management () := _ ← f; mret tt.

Lemma ignoring_runs {A} (p : prog A) (f : GoM Management A) : runs p f → runs (ignoring p) (ignored f).
Proof using Type. intros Hp. unfold ignoring, ignored. solve_runs. Qed.

Lemma handlers_safe p : handlers p → safe p.
Proof using Type.
  intros [call obj|call obj Hload|call obj|call key obj|obj|call obj|call obj|call obj|call obj|call obj]; apply ignoring_safe.
  - apply sync_safe. intros o s _. apply calm_safe, calm_other.
  - apply sync_safe. intros o s Ho. apply only_status_safe, BuildCache_safe. by apply Hload.
  - apply sync_safe. intros o s _. apply only_status_safe, calm_safe, calm_other.
  - apply ippool_OnChange_safe.
  - apply ippool_OnRemove_safe.
  - apply calm_safe, calm_other.
  - apply sync_safe. intros o s _. apply only_status_safe, idle_safe, Allocate_idle.
  - apply sync_safe. intros o s _. unfold Sync_handler_calls. apply safe_bind; [apply Sync_safe|]. solve_safe.
  - apply vmnetcfg_OnChange_safe.
  - apply vmnetcfg_OnRemove_safe.
Qed.

(** The trees are the handlers: for any call of a handler the three controllers register,
    on pools that are loadable, there is a tree of [controller_handler] which, run without
    interruption, leaves the same state and panics or ends alike. *)
Lemma registered_handlers_run :
  (∀ name f call key obj, Changed _ name f ∈ ippool_Register h ∨ Removed _ name f ∈ ippool_Register h →
     (∀ p, obj = Some p → loadable p) → ∃ p, handlers p ∧ runs p (ignored (f call key obj))) ∧
  (∀ name f call key obj, Changed _ name f ∈ vm_Register AnnotationMacAddressName →
     ∃ p, handlers p ∧ runs p (ignored (f call key obj))) ∧
  (∀ name f call key obj, Changed _ name f ∈ vmnetcfg_Register ∨ Removed _ name f ∈ vmnetcfg_Register →
     ∃ p, handlers p ∧ runs p (ignored (f call key obj))).
Proof using Type.
  split; [|split].
  - intros name f call key obj Hin Hload. unfold ippool_Register in Hin.
    destruct Hin as [Hin|Hin]; repeat (apply elem_of_cons in Hin as [Heq|Hin]; [try discriminate Heq; injection Heq as -> ->|]);
      try (by apply elem_of_nil in Hin).
    + eexists. split; [apply ch_deploy|]. apply ignoring_runs, sync_runs. intros p s. apply runs_other.
    + eexists. split; [by apply ch_build|]. apply ignoring_runs, sync_runs, only_status_runs. apply BuildCache_runs.
    + eexists. split; [apply ch_monitor|]. apply ignoring_runs, sync_runs, only_status_runs. intros p s. apply runs_other.
    + eexists. split; [apply ch_pool_changed|]. apply ignoring_runs, ippool_OnChange_runs.
    + eexists. split; [apply ch_pool_removed|]. apply ignoring_runs, ippool_OnRemove_runs.
  - intros name f call key obj [= -> ->]%list_elem_of_singleton.
    eexists. split; [apply ch_vm|]. apply ignoring_runs, runs_other.
  - intros name f call key obj Hin. unfold vmnetcfg_Register in Hin.
    destruct Hin as [Hin|Hin]; repeat (apply elem_of_cons in Hin as [Heq|Hin]; [try discriminate Heq; injection Heq as -> ->|]);
      try (by apply elem_of_nil in Hin).
    + eexists. split; [apply ch_allocate|]. apply ignoring_runs, sync_runs, only_status_runs. apply Allocate_runs.
    + eexists. split; [apply ch_sync|]. apply ignoring_runs, sync_runs. apply Sync_handler_runs.
    + eexists. split; [apply ch_changed|]. apply ignoring_runs, vmnetcfg_OnChange_runs.
    + eexists. split; [apply ch_removed|]. apply ignoring_runs, vmnetcfg_OnRemove_runs.
Qed.

(** C6: however the workers' calls interleave, as long as no network
    is changed while another worker is half way through changing it and records are
    released by whom they name, and as long as [BuildCache] is run on loadable pools only
    (IPv4 networks, lease records keyed by specified addresses: the code has no such
    check), no two MACs of a network ever hold one address, and every
    address held in a network nobody is half way through changing is marked as taken. *)
Theorem interleaved_leases_unique w σ :
  rtc (wstep handlers disciplined) (w_start (SetupManagement w)) σ →
  (∀ name mac mac' ip, holds (shared σ) name mac ip → holds (shared σ) name mac' ip → mac = mac') ∧
  ∀ name, (∀ t p b, running σ !! t = Some (p, b) → ¬ changing name b) →
    ∀ mac ip, holds (shared σ) name mac ip → is_allocated (IPAllocator_ (shared σ)) name ip.
Proof using Type.
  intros Hr. destruct (orderly_reachable _ _ _ handlers_safe Hr) as [claims Hord].
  split; [apply (sane_inj _ (ord_sane _ _ Hord))|]. apply (ord_taken _ _ Hord).
Qed.
End registered.

(** ** A rebuild in between *)

Section rebuild.
Context `{MapRange} `{ConditionLib} `{PromLib} `{Kube}.

(** Rebuilding a network's cache from a pool that has no record of an address leaves the
    address free, whoever had taken it. *)
Lemma BuildCache_frees seed p status base plen first last n m :
  pool_range p base plen first last → is_pool_paused p = false →
  IsTrue CacheReady (pool_Conditions (pool_Status p)) = false →
  (∀ ip mac, lease_record (records_of p) ip mac → (ip ∉ revoked_of p) ∧ ∃ n, (first ≤ n ≤ last)%Z ∧ ip = v4str n) →
  (∀ ip ip' mac, lease_record (records_of p) ip mac → lease_record (records_of p) ip' mac → ip = ip') →
  (first ≤ n ≤ last)%Z → v4str n ∉ revoked_of p → (∀ mac, ¬ lease_record (records_of p) (v4str n) mac) →
  ∃ m' sn P, BuildCache seed p status m = (m', Val (status, None)) ∧
    IPAllocator_ m' !! NetworkName (pool_Spec p) = Some sn ∧ represents sn base plen P ∧
    sn_ips sn !! v4str n = Some false ∧ is_Some (CacheAllocator_ m' !! NetworkName (pool_Spec p)) ∧
    ∀ mac ip, holds m' (NetworkName (pool_Spec p)) mac ip → lease_record (records_of p) ip mac.
Proof using Type.
  intros Hr Hp Hready Hkeys Hinj Hn Hrev Hno.
  destruct (wp_run _ _ _ (wp_BuildCache_exact seed p status base plen first last m Hr Hp Hready Hkeys Hinj))
    as (m' & r & Hrun & -> & _ & [(sn & P & Hsn & HR & Hips) Hset Hc]).
  assert (Hin : ∀ ip mac, (ip, mac) ∈ leases_in (range seed (records_of p)) → lease_record (records_of p) ip mac).
  { intros ip mac. unfold leases_in, lease_record. rewrite list_elem_of_filter, elem_of_range. cbn. tauto. }
  exists m', sn, P. do 3 (split; [done|]). split; [|split; [done|]].
  - rewrite Hips, decide_False.
    + unfold free_after_revoke. rewrite lookup_foldl_delete, decide_False by done.
      destruct (pool_range_u32 _ _ _ _ _ first Hr) as [? _]; [destruct Hr; lia|].
      destruct (pool_range_u32 _ _ _ _ _ last Hr) as [? _]; [destruct Hr; lia|].
      apply lookup_v4_range; [done..|]. split; [done|]. by exists n.
    + intros ([ip mac] & Heq & Hl)%list_elem_of_fmap. cbn in Heq. subst ip. by eapply Hno, Hin.
  - intros mac ip Hh. by apply Hin, Hc.
Qed.

(** An interface without a lease that asks for a free address gets it. *)
Lemma address_for_wanted seed v nc n sn base plen P m :
  st_NetworkConfigs (vnc_Status v) = [] → nc_IPAddress nc = Some (v4str n) → u32 n → n ≠ 0%Z →
  IPAllocator_ m !! nc_NetworkName nc = Some sn → represents sn base plen P → sn_ips sn !! v4str n = Some false →
  is_Some (CacheAllocator_ m !! nc_NetworkName nc) → cached_text (CacheAllocator_ m) (nc_NetworkName nc) (nc_MACAddress nc) = None →
  ∃ m', address_for seed v nc m = (m', Val (inl (v4str n))) ∧
    holds m' (nc_NetworkName nc) (nc_MACAddress nc) (v4str n) ∧ is_Some (CacheAllocator_ m' !! nc_NetworkName nc).
Proof using Type.
  intros Hst Hwant Hu Hn0 Hsn HR Hfree [set Hset] Hnone.
  destruct (AllocateIP_take seed _ n _ _ _ _ _ Hsn HR Hu Hn0 Hfree) as [Ha _].
  unfold address_for. rewrite Hwant, Hst. cbn [default filter findIPAddressFromNetworkConfigStatusByMACAddress list_filter].
  unfold ask_cache, on_cache, on_ipam, go_gets, go_state, mbind, GoM_bind. rewrite HasMAC_spec, Hset.
  rewrite bool_decide_false.
  2: { intros [ip Hip]. unfold cached_text in Hnone. by rewrite Hip in Hnone. }
  change (id (v4str n)) with (v4str n). rewrite Ha. cbn [CacheAllocator_ set_ipam].
  destruct (AddMAC (nc_NetworkName nc) (nc_MACAddress nc) (v4str n) (CacheAllocator_ m)) as [c err] eqn:Hadd.
  destruct (AddMAC_spec _ _ _ _ _ _ Hadd) as [(-> & _ & _ & Hkeep)|(_ & Hmiss & _)]; [|congruence].
  eexists. split; [reflexivity|]. split; [|apply Hkeep; by exists set].
  unfold holds. cbn [CacheAllocator_ set_cache]. rewrite (AddMAC_cached _ _ _ _ _ Hadd), decide_True by done.
  by rewrite ParseIP_v4str, IP_String_mapped.
Qed.

(** C12: what goes wrong without the discipline.  One worker is between the two calls of
    its allocation: [AllocateIP] has given it [ip], and its MAC is not cached yet; no
    record of the lease can be on any pool.  Another worker runs [BuildCache] of the network
    from a pool that is not marked ready (it read it before).  It succeeds, and the next
    machine that asks for the address is given it although nobody released it; the first
    worker then caches its own MAC without error, and two MACs of the network hold one
    address.  ([unlocked_rebuild_double_allocates] is the same as a run of the workers.) *)
Theorem rebuild_frees_taken_address (seed1 seed2 seed3 : nat) (p : IPPool) (status : IPPoolStatus)
    (base plen first last n : Z) (m : Management) (mac wanted : string) (a1 : IPAllocator)
    (v : VmNetCfg) (nc : NetworkConfig) :
  let name := NetworkName (pool_Spec p) in
  let ip := v4str n in
  pool_range p base plen first last → is_pool_paused p = false →
  IsTrue CacheReady (pool_Conditions (pool_Status p)) = false →
  (∀ ip mac, lease_record (records_of p) ip mac → (ip ∉ revoked_of p) ∧ ∃ n, (first ≤ n ≤ last)%Z ∧ ip = v4str n) →
  (∀ ip ip' mac, lease_record (records_of p) ip mac → lease_record (records_of p) ip' mac → ip = ip') →
  (first ≤ n ≤ last)%Z → ip ∉ revoked_of p → (∀ mac, ¬ lease_record (records_of p) ip mac) →
  AllocateIP seed1 name wanted (IPAllocator_ m) = (a1, (ip, None)) →
  nc_NetworkName nc = name → nc_IPAddress nc = Some ip → nc_MACAddress nc ≠ mac →
  st_NetworkConfigs (vnc_Status v) = [] → (∀ ip', ¬ lease_record (records_of p) ip' (nc_MACAddress nc)) →
  is_allocated a1 name ip ∧
  ∃ m2 m3 c4,
    BuildCache seed2 p status (set_ipam m a1) = (m2, Val (status, None)) ∧ ¬ is_allocated (IPAllocator_ m2) name ip ∧
    address_for seed3 v nc m2 = (m3, Val (inl ip)) ∧
    AddMAC name mac ip (CacheAllocator_ m3) = (c4, None) ∧
    holds (set_cache m3 c4) name mac ip ∧ holds (set_cache m3 c4) name (nc_MACAddress nc) ip.
Proof using Type.
  cbv zeta. intros Hr Hp Hready Hkeys Hinj Hn Hrev Hno Hal Hname Hwant Hne Hst Hfresh.
  destruct (pool_range_u32 _ _ _ _ _ n Hr Hn) as [Hu Hn0].
  destruct (BuildCache_frees seed2 p status base plen first last n (set_ipam m a1) Hr Hp Hready Hkeys Hinj Hn Hrev Hno)
    as (m2 & sn & P & Hbuild & Hsn & HR & Hfree & Hset & Hheld).
  assert (Hnone : cached_text (CacheAllocator_ m2) (nc_NetworkName nc) (nc_MACAddress nc) = None).
  { destruct (cached_text _ _ _) as [ip'|] eqn:Hh; [|done]. rewrite Hname in Hh. by apply Hheld, Hfresh in Hh. }
  rewrite <-Hname in Hsn, Hset. rewrite <-Hname.
  destruct (address_for_wanted seed3 v nc n sn base plen P m2 Hst Hwant Hu Hn0 Hsn HR Hfree Hset Hnone)
    as (m3 & Haddr & Hh & Hset3).
  destruct (AddMAC (nc_NetworkName nc) mac (v4str n) (CacheAllocator_ m3)) as [c4 err] eqn:Hadd.
  destruct (AddMAC_spec _ _ _ _ _ _ Hadd) as [(-> & _)|(_ & Hmiss & _)]; [|rewrite Hmiss in Hset3; by destruct Hset3].
  split; [rewrite Hname; apply AllocateIP_allocated in Hal as [? Hal]; apply Hal; auto|].
  exists m2, m3, c4. split; [done|]. split; [intros (sn' & Hsn' & Hf); congruence|]. do 2 (split; [done|]). unfold holds. cbn [CacheAllocator_ set_cache].
  rewrite !(AddMAC_cached _ _ _ _ _ Hadd). split.
  - by rewrite decide_True, ParseIP_v4str, IP_String_mapped.
  - rewrite decide_False; [done|]. by intros [_ ?].
Qed.
End rebuild.

(** ** Concrete interleavings *)

Import FakeKube.Demo.

#[local] Instance plain_equality : SemanticEq VmNetCfg VmNetCfgStatus := plain_semantic_eq.
#[local] Instance plain_pool_equality : SemanticEq IPPool IPPoolStatus := plain_semantic_eq.

Definition some_handler : Handler := mkHandler "harvester-system" (mkImage "agent" "v1") "sa" true false.
Definition some_call : Call := mkCall 0 7 "now".

(** Two machines of one network whose cache is ready. *)
Definition machine_a : VmNetCfg := vmnetcfg "vm-a" None [nic mac1 None] [] "True".
Definition machine_b : VmNetCfg := vmnetcfg "vm-b" None [nic mac2 None] [] "True".
Definition ready_pool : IPPool := pool "True" None.
Definition early_pool : IPPool := pool "False" None.

Definition allocating (v : VmNetCfg) : prog () :=
  ignoring (sync_calls vmnetcfgClient_UpdateStatus Allocated (only_status_calls (Allocate_calls 0 7)) "now" (Some v)).
Definition building (p : IPPool) : prog () :=
  ignoring (sync_calls ippoolClient_UpdateStatus CacheReady (only_status_calls (BuildCache_calls 0)) "now" (Some p)).

Definition at_start : Management := SetupManagement (api [ready_pool] [machine_a; machine_b]).
Definition turns (n t : nat) : list action := replicate n (Calls t).

#[local] Abbreviation demo_handlers := (controller_handler some_handler "mac").

Lemma early_loadable : loadable early_pool.
Proof. split; [by vm_compute|]. intros ip mac [Hl _]. by vm_compute in Hl. Qed.

Lemma building_registered : demo_handlers (building early_pool).
Proof. apply (ch_build some_handler "mac" some_call). intros p [= <-]. apply early_loadable. Qed.

Lemma allocating_registered v : demo_handlers (allocating v).
Proof. apply (ch_allocate some_handler "mac" some_call). Qed.

(** The cache is built; two machines are given addresses, call by call in turns. *)
Definition side_by_side : list action :=
  Begins 0 (building early_pool) :: turns 5 0 ++ [Ends 0] ++
  [Begins 1 (allocating machine_a); Begins 2 (allocating machine_b)] ++ turns 1 1 ++ turns 2 2 ++
  turns 3 1 ++ turns 5 2 ++ turns 3 1 ++ [Ends 1; Ends 2].

(** A machine has been given an address that is not in the MAC cache yet while the pool
    controller builds the cache again, from a pool object it read before. *)
Definition rebuilt_meanwhile : list action :=
  Begins 0 (building early_pool) :: turns 5 0 ++ [Ends 0] ++
  [Begins 1 (allocating machine_a)] ++ turns 3 1 ++
  [Begins 2 (building early_pool)] ++ turns 5 2 ++ [Ends 2] ++
  turns 4 1 ++ [Ends 1] ++ [Begins 3 (allocating machine_b)] ++ turns 7 3 ++ [Ends 3].

(** What a schedule leaves: are workers still running, and who holds what. *)
Definition left_behind (check : ∀ A, workers → nat → call A → bool) (script : list action) : option (bool * option string * option string) :=
  match play check script (w_start at_start) with
  | Some σ => Some (bool_decide (running σ = ∅), cached_text (CacheAllocator_ (shared σ)) "default/net-1" mac1,
                    cached_text (CacheAllocator_ (shared σ)) "default/net-1" mac2)
  | None => None
  end.

Lemma left_behind_reached (rule : ∀ A, workers → nat → call A → Prop) check script ip1 ip2 :
  (∀ A σ t (o : call A), check A σ t o = true → rule A σ t o) → Forall (begins demo_handlers) script →
  left_behind check script = Some (true, Some ip1, Some ip2) →
  ∃ σ, rtc (wstep demo_handlers rule) (w_start at_start) σ ∧ running σ = ∅ ∧
    holds (shared σ) "default/net-1" mac1 ip1 ∧ holds (shared σ) "default/net-1" mac2 ip2.
Proof.
  intros Hcheck Hb Hl. unfold left_behind in Hl. destruct (play check script (w_start at_start)) as [σ|] eqn:Hp; [|done].
  injection Hl as He Hl1 Hl2. exists σ. split; [by eapply play_reaches|]. split; [by apply bool_decide_eq_true_1 in He|done].
Qed.

Lemma demo_begins script :
  Forall (λ a, match a with Begins _ p => p = building early_pool ∨ ∃ v, p = allocating v | _ => True end) script →
  Forall (begins demo_handlers) script.
Proof.
  intros Hs. eapply Forall_impl; [exact Hs|]. intros [t p|t|t]; [|done..]. intros [-> |[v ->]]; [apply building_registered|apply allocating_registered].
Qed.

Lemma interleaved_leases_unique_witness :
  ∃ σ, rtc (wstep demo_handlers disciplined) (w_start at_start) σ ∧
    holds (shared σ) "default/net-1" mac1 "192.168.0.11" ∧ holds (shared σ) "default/net-1" mac2 "192.168.0.12" ∧
    ∀ mac, holds (shared σ) "default/net-1" mac "192.168.0.11" → mac = mac1.
Proof.
  destruct (left_behind_reached disciplined check_disciplined side_by_side "192.168.0.11" "192.168.0.12") as (σ & Hr & _ & Hl1 & Hl2).
  - apply check_disciplined_ok.
  - apply demo_begins. repeat (constructor; [first [done | by left | by right; eexists]|]). constructor.
  - vm_compute. reflexivity.
  - exists σ. split; [done|]. split; [done|]. split; [done|]. intros mac Hl.
    by apply (proj1 (interleaved_leases_unique some_handler "mac" _ σ Hr) "default/net-1" mac mac1 "192.168.0.11").
Defined.

(** The same as a run of the workers: the discipline is not kept by the program.  One
    worker has taken an address for a machine and is about to cache its MAC; the pool
    controller builds the cache again from a pool object it read before the cache was
    marked ready; the next machine is then given the same address. *)
Lemma unlocked_rebuild_double_allocates :
  ∃ σ, rtc (wstep demo_handlers unrestrained) (w_start at_start) σ ∧ running σ = ∅ ∧ mac1 ≠ mac2 ∧
    holds (shared σ) "default/net-1" mac1 "192.168.0.11" ∧ holds (shared σ) "default/net-1" mac2 "192.168.0.11".
Proof.
  destruct (left_behind_reached unrestrained (λ _ _ _ _, true) rebuilt_meanwhile "192.168.0.11" "192.168.0.11") as (σ & Hr & He & Hl).
  - done.
  - apply demo_begins. repeat (constructor; [first [done | by left | by right; eexists]|]). constructor.
  - vm_compute. reflexivity.
  - exists σ. by split_and!; [..|apply Hl|apply Hl].
Qed.

(** The second machine asks for the address the first one was given. *)
Definition wishing : NetworkConfig := nic mac2 (Some "192.168.0.11").
Definition midway : Management := management (api [early_pool] []).

Lemma early_records ip mac : ¬ lease_record (records_of early_pool) ip mac.
Proof. intros [Hl _]. by vm_compute in Hl. Qed.

Lemma early_range : pool_range early_pool demo_net 24 (demo_net + 10) (demo_net + 12).
Proof. constructor; by vm_compute. Qed.

Lemma early_offered : v4str (demo_net + 11) ∉ revoked_of early_pool.
Proof.
  replace (revoked_of early_pool) with ["192.168.0.2"; "192.168.0.1"] by (vm_compute; reflexivity).
  replace (v4str (demo_net + 11)) with "192.168.0.11" by (vm_compute; reflexivity).
  intros Hin. repeat (apply elem_of_cons in Hin as [?|Hin]; [done|]). by apply elem_of_nil in Hin.
Qed.

Lemma rebuild_frees_taken_address_witness :
  let a1 := (AllocateIP 0 "default/net-1" "" (IPAllocator_ midway)).1 in
  (AllocateIP 0 "default/net-1" "" (IPAllocator_ midway)).2 = ("192.168.0.11", None) ∧
  ∃ m2 m3 c4,
    BuildCache 1 early_pool (pool_Status early_pool) (set_ipam midway a1) = (m2, Val (pool_Status early_pool, None)) ∧
    address_for 2 machine_b wishing m2 = (m3, Val (inl "192.168.0.11")) ∧
    AddMAC "default/net-1" mac1 "192.168.0.11" (CacheAllocator_ m3) = (c4, None) ∧
    holds (set_cache m3 c4) "default/net-1" mac1 "192.168.0.11" ∧
    holds (set_cache m3 c4) "default/net-1" mac2 "192.168.0.11".
Proof.
  cbv zeta. assert (Hal : (AllocateIP 0 "default/net-1" "" (IPAllocator_ midway)).2 = ("192.168.0.11", None))
    by (vm_compute; reflexivity).
  split; [exact Hal|].
  destruct (rebuild_frees_taken_address 0 1 2 early_pool (pool_Status early_pool) demo_net 24 (demo_net + 10) (demo_net + 12)
    (demo_net + 11) midway mac1 "" (AllocateIP 0 "default/net-1" "" (IPAllocator_ midway)).1 machine_b wishing)
    as (_ & m2 & m3 & c4 & Hb & _ & Ha & Hadd & Hh).
  - exact early_range.
  - reflexivity.
  - vm_compute. reflexivity.
  - intros ip mac Hr. destruct (early_records _ _ Hr).
  - intros ip ip' mac Hr. destruct (early_records _ _ Hr).
  - vm_compute. split; discriminate.
  - exact early_offered.
  - intros mac. apply early_records.
  - apply injective_projections; [reflexivity|exact Hal].
  - reflexivity.
  - vm_compute. reflexivity.
  - vm_compute. discriminate.
  - reflexivity.
  - intros ip. apply early_records.
  - exists m2, m3, c4. split; [exact Hb|]. split; [exact Ha|]. split; [exact Hadd|]. exact Hh.
Defined.
