(* ===== verification/PoolServer.v ===== *)
(** * What the controllers rely on of the API server that keeps the IPPools

    The clients and informer caches of [Kube] are parameters without laws.  The
    theorems on what becomes of a recorded lease need the server's contract, which is
    stated here as a class: updates are optimistic (they are refused unless they carry
    the resource version of the stored object), a status update replaces the status
    only, and the informer caches may lag behind by any number of versions. *)

From S2P Require Import Prelude GoNet GoText Api Util Ipam IpamSpec MacCache Metrics Leases Webhook Fakes Kube FakeKube VmNetCfg IpPoolFacts.
Local Open Scope go_scope.

(** No law says that a request succeeds, nor what the server holds after one that
    failed; between two requests of a run the stored pools change by nothing else. *)
Class PoolServer `{Kube} := {
  (** The pools on the server. *)
  stored : World → gmap (string * string) IPPool;
  (** The versions of a pool the server has had. *)
  had : World → string * string → IPPool → Prop;
  (** The versions the informer cache shows, or may show until it has caught up. *)
  shown : World → string * string → IPPool → Prop;
  server_ok : World → Prop;

  stored_key w k p : server_ok w → stored w !! k = Some p → obj_key (pool_Meta p) = k;
  had_key w k p : server_ok w → had w k p → obj_key (pool_Meta p) = k;
  cache_shown w ns n p : server_ok w → ippoolCache_Get w ns n = inl p → shown w (ns, n) p;
  shown_had w k p : server_ok w → shown w k p → had w k p;
  (** A resource version names one version of the object. *)
  same_version w k p q : server_ok w → had w k p → stored w !! k = Some q →
    ResourceVersion (pool_Meta p) = ResourceVersion (pool_Meta q) → p = q;

  update_stored p w w' o : server_ok w → ippoolClient_UpdateStatus p w = (w', inl o) →
    ∃ old, stored w !! obj_key (pool_Meta p) = Some old ∧
      ResourceVersion (pool_Meta old) = ResourceVersion (pool_Meta p) ∧
      pool_Spec o = pool_Spec old ∧ pool_Status o = pool_Status p ∧
      stored w' = <[obj_key (pool_Meta p) := o]> (stored w);
  update_shown p w w' o : server_ok w → ippoolClient_UpdateStatus p w = (w', inl o) →
    server_ok w' ∧ ∀ k q, shown w' k q → shown w k q ∨ (k = obj_key (pool_Meta p) ∧ q = o);
  nad_update n w w' r : server_ok w → nadClient_Update n w = (w', r) →
    server_ok w' ∧ ∀ k q, had w k q → had w' k q;
}.

(** ** Leases on the server and in the caches *)

Section leases.
Context `{KvLib} `{PromLib} `{PoolServer}.
Implicit Types w : World.
Implicit Types m : Management.

(** The labels of a network's NAD lead to the network's own pool, in every world the
    run can be in. *)
Definition networks_own_pools : Prop := ∀ w networkName p,
  server_ok w → getIPPoolFromNetworkName networkName w = inl p → NetworkName (pool_Spec p) = networkName.

(** A pool on the server records [mac] for [ip] of the network. *)
Definition recorded_at (w : World) (k : string * string) (p : IPPool) (name mac ip : string) : Prop :=
  stored w !! k = Some p ∧ NetworkName (pool_Spec p) = name ∧ records_of p !! ip = Some mac.
Definition recorded (w : World) (name mac ip : string) : Prop := ∃ k p, recorded_at w k p name mac ip.

(** No cache may still show a record of the lease that the server no longer has. *)
Definition caches_fresh (w : World) (name mac ip : string) : Prop :=
  ∀ k q, shown w k q → NetworkName (pool_Spec q) = name → records_of q !! ip = Some mac → recorded w name mac ip.

Lemma pool_of_network_cached networkName w p :
  getIPPoolFromNetworkName networkName w = inl p → ∃ ns n, ippoolCache_Get w ns n = inl p.
Proof using Type.
  unfold getIPPoolFromNetworkName. destruct (RSplit networkName "/") as [ns n].
  unfold mbind, result_MBind. destruct (nadCache_Get w ns n) as [nad|]; [|done].
  destruct (Labels (nad_Meta nad)) as [labels|]; [|done].
  destruct (labels !! IPPoolNamespaceLabelKey) as [a|]; [|done].
  destruct (labels !! IPPoolNameLabelKey) as [b|]; [|done]. by exists a, b.
Qed.

(** The pool a network leads to, as the cache shows it. *)
Lemma pool_of_network_shown networkName w p :
  server_ok w → getIPPoolFromNetworkName networkName w = inl p → shown w (obj_key (pool_Meta p)) p.
Proof using Type.
  intros Hok (ns & n & Hget)%pool_of_network_cached. apply cache_shown in Hget; [|done].
  by rewrite (had_key _ _ _ Hok (shown_had _ _ _ Hok Hget)).
Qed.

(** A status update that goes through was made from the version the server holds. *)
Lemma update_current q p w w' o :
  server_ok w → had w (obj_key (pool_Meta q)) q → pool_Meta p = pool_Meta q →
  ippoolClient_UpdateStatus p w = (w', inl o) →
  stored w !! obj_key (pool_Meta q) = Some q ∧ pool_Spec o = pool_Spec q ∧ pool_Status o = pool_Status p ∧
  stored w' = <[obj_key (pool_Meta q) := o]> (stored w).
Proof using Type.
  intros Hok Hq Hmeta Hup. destruct (update_stored _ _ _ _ Hok Hup) as (old & Hold & Hrv & Hspec & Hst & Hw').
  rewrite Hmeta in Hold, Hrv, Hw'.
  assert (q = old) as <- by (eapply same_version; [done..|by symmetry]). done.
Qed.

(** The records of a pool with [ip -> mac] added. *)
Lemma records_of_added ip mac p o now :
  (let p' := record_allocated ip mac p in
   pool_Status o = set_LastUpdate (pool_Status p') now) →
  records_of o = <[ip := mac]> (records_of p).
Proof using Type.
  cbv zeta. intros Hst. unfold records_of at 1. rewrite Hst. unfold records_of. cbn.
  by destruct (IPv4 (pool_Status p)).
Qed.

Lemma records_of_same ip mac p : record_allocated ip mac p = p → records_of p !! ip = Some mac.
Proof using Type.
  intros <-. unfold records_of, record_allocated. cbn. by rewrite lookup_insert_eq.
Qed.

(** Recording a lease in the pool just read: the lease is then on the server, every
    other record stays unless it is of the same address, and so do fresh caches. *)
Lemma record_written networkName mac ip q now w w' o :
  server_ok w → networks_own_pools → getIPPoolFromNetworkName networkName w = inl q →
  (let p' := record_allocated ip mac q in
   ippoolClient_UpdateStatus (set_pool_Status p' (set_LastUpdate (pool_Status p') now)) w = (w', inl o)) →
  server_ok w' ∧ recorded w' networkName mac ip ∧
  ∀ name' mac' ip', (name' = networkName → ip' = ip → mac' = mac) →
    (recorded w name' mac' ip' → recorded w' name' mac' ip') ∧
    (caches_fresh w name' mac' ip' → caches_fresh w' name' mac' ip').
Proof using Type.
  cbv zeta. intros Hok Hown Hget Hup. pose proof (Hown _ _ _ Hok Hget) as Hname.
  pose proof (pool_of_network_shown _ _ _ Hok Hget) as Hq.
  destruct (update_shown _ _ _ _ Hok Hup) as [Hok' Hshown].
  apply (update_current q) in Hup as (Hold & Hspec & Hst & Hw'); [|done|by apply shown_had|done].
  pose proof (records_of_added ip mac q o now Hst) as Hrec. set (k := obj_key (pool_Meta q)) in *.
  assert (Hnew : recorded w' networkName mac ip).
  { exists k, o. split; [by rewrite Hw', lookup_insert_eq|]. rewrite Hspec, Hrec. by rewrite lookup_insert_eq. }
  split; [done|]. split; [done|]. intros name' mac' ip' Hsame.
  assert (Hkeep : recorded w name' mac' ip' → recorded w' name' mac' ip').
  { intros (k' & p & Hp & Hn & Hr). destruct (decide (k' = k)) as [->|Hne].
    - assert (p = q) as -> by congruence. exists k, o. split; [by rewrite Hw', lookup_insert_eq|].
      split; [congruence|]. rewrite Hrec. destruct (decide (ip' = ip)) as [->|Hi]; [|by rewrite lookup_insert_ne].
      rewrite lookup_insert_eq. f_equal. symmetry. apply Hsame; [congruence|done].
    - exists k', p. split; [|done]. by rewrite Hw', lookup_insert_ne. }
  split; [done|]. intros Hfresh k' p Hp Hn Hr.
  destruct (Hshown _ _ Hp) as [Hp'|[-> ->]]; [by eapply Hkeep, Hfresh|]. rewrite Hrec in Hr.
  apply lookup_insert_Some in Hr as [[<- <-]|[_ Hr]].
  - rewrite Hspec, Hname in Hn. by subst name'.
  - apply Hkeep. apply (Hfresh k q); [done|congruence|done].
Qed.
End leases.

(** ** A server whose caches do not catch up *)

(** The server of [FakeKube] with informer caches of their own, which during the runs
    looked at receive nothing of what is written. *)
Record Lagging : Type := mkLagging { server : ApiServer; caches : ApiServer }.

Definition to_server {A} (f : ApiServer → ApiServer * A) (w : Lagging) : Lagging * A :=
  let '(s, r) := f (server w) in (mkLagging s (caches w), r).

Definition lagging_kube : Kube := {|
  World := Lagging;
  nadCache_Get w := @nadCache_Get mem_kube (caches w);
  ippoolCache_Get w := @ippoolCache_Get mem_kube (caches w);
  vmnetcfgCache_Get w := @vmnetcfgCache_Get mem_kube (caches w);
  podCache_Get w := @podCache_Get mem_kube (caches w);
  podCache_List w := @podCache_List mem_kube (caches w);
  nadClient_Update n := to_server (@nadClient_Update mem_kube n);
  ippoolClient_UpdateStatus p := to_server (@ippoolClient_UpdateStatus mem_kube p);
  vmnetcfgClient_Create v := to_server (@vmnetcfgClient_Create mem_kube v);
  vmnetcfgClient_Update v := to_server (@vmnetcfgClient_Update mem_kube v);
  vmnetcfgClient_UpdateStatus v := to_server (@vmnetcfgClient_UpdateStatus mem_kube v);
  podClient_Create p := to_server (@podClient_Create mem_kube p);
  podClient_Delete ns n := to_server (@podClient_Delete mem_kube ns n);
  vmController_Enqueue ns n w := mkLagging (@vmController_Enqueue mem_kube ns n (server w)) (caches w);
|}.

Section lagging.
Context {kv : KvLib}.

(** A cache shows an earlier version of what the server has, or the same; the labels of
    every NAD lead to a pool of its network. *)
Record lagging_ok (w : Lagging) : Prop := {
  lag_server_key k p : api_pools (server w) !! k = Some p → obj_key (pool_Meta p) = k;
  lag_cache_key k p : api_pools (caches w) !! k = Some p → obj_key (pool_Meta p) = k;
  lag_version k p q : api_pools (caches w) !! k = Some p → api_pools (server w) !! k = Some q →
    (ResourceVersion (pool_Meta p) ≤ ResourceVersion (pool_Meta q))%Z ∧
    (ResourceVersion (pool_Meta p) = ResourceVersion (pool_Meta q) → p = q);
  lag_networks networkName p : @getIPPoolFromNetworkName _ mem_kube networkName (caches w) = inl p →
    NetworkName (pool_Spec p) = networkName;
}.

Lemma mem_update_pool p s s' o :
  @ippoolClient_UpdateStatus mem_kube p s = (s', inl o) →
  ∃ old, api_pools s !! obj_key (pool_Meta p) = Some old ∧
    ResourceVersion (pool_Meta old) = ResourceVersion (pool_Meta p) ∧
    o = pool_rv (set_pool_Status old (pool_Status p)) (ResourceVersion (pool_Meta old) + 1)%Z ∧
    api_pools s' = <[obj_key (pool_Meta p) := o]> (api_pools s).
Proof using Type.
  cbn [ippoolClient_UpdateStatus mem_kube]. unfold update_in.
  destruct (api_pools s !! obj_key (pool_Meta p)) as [old|]; [|done]. case_decide; [|done].
  intros [= <- <-]. by exists old.
Qed.

Lemma lagging_update p w w' o :
  @ippoolClient_UpdateStatus lagging_kube p w = (w', inl o) →
  caches w' = caches w ∧ ∃ old, api_pools (server w) !! obj_key (pool_Meta p) = Some old ∧
    ResourceVersion (pool_Meta old) = ResourceVersion (pool_Meta p) ∧
    o = pool_rv (set_pool_Status old (pool_Status p)) (ResourceVersion (pool_Meta old) + 1)%Z ∧
    api_pools (server w') = <[obj_key (pool_Meta p) := o]> (api_pools (server w)).
Proof using Type.
  cbn [ippoolClient_UpdateStatus lagging_kube]. unfold to_server.
  destruct (@ippoolClient_UpdateStatus mem_kube p (server w)) as [s r] eqn:Hup. intros [= <- ->].
  split; [done|]. by apply mem_update_pool.
Qed.

Lemma mem_nad_update n s : api_pools (@nadClient_Update mem_kube n s).1 = api_pools s.
Proof using Type. cbn [nadClient_Update mem_kube]. by destruct (update_in _ _ _ _ _). Qed.

Definition lagging_server : @PoolServer lagging_kube.
Proof using kv.
  refine (@Build_PoolServer lagging_kube (λ w, api_pools (server w))
    (λ w k p, api_pools (caches w) !! k = Some p ∨ api_pools (server w) !! k = Some p)
    (λ w k p, api_pools (caches w) !! k = Some p ∨ api_pools (server w) !! k = Some p)
    lagging_ok _ _ _ _ _ _ _ _).
  - intros w k p Hok. by apply lag_server_key.
  - intros w k p Hok [Hp|Hp]; [by eapply lag_cache_key|by eapply lag_server_key].
  - intros w ns n p Hok Hget. left. by apply get_in_inl.
  - done.
  - intros w k p q Hok [Hp|Hp] Hq Hrv; [by eapply lag_version|congruence].
  - intros p w w' o Hok (_ & old & Hold & Hrv & -> & Hw')%lagging_update. by exists old.
  - intros p w w' o Hok (Hc & old & Hold & Hrv & -> & Hw')%lagging_update.
    pose proof (lag_server_key _ Hok _ _ Hold) as Hkey. set (o := pool_rv _ _) in *. split.
    + constructor.
      * intros k q. rewrite Hw'. intros [[<- <-]|[_ Hl]]%lookup_insert_Some; [done|by eapply lag_server_key].
      * intros k q. rewrite Hc. by eapply lag_cache_key.
      * intros k q q'. rewrite Hc, Hw'. intros Hq [[<- <-]|[_ Hl]]%lookup_insert_Some; [|by eapply lag_version].
        destruct (lag_version _ Hok _ _ _ Hq Hold) as [Hle _]. unfold o. cbn. split; lia.
      * intros name q. rewrite Hc. by apply lag_networks.
    + intros k q. rewrite Hc, Hw'. intros [Hq|[[<- <-]|[_ Hl]]%lookup_insert_Some]; auto.
  - intros n w w' r Hok. cbn [nadClient_Update lagging_kube]. unfold to_server.
    pose proof (mem_nad_update n (server w)) as Hp. destruct (@nadClient_Update mem_kube n (server w)) as [s r'].
    cbn [fst] in Hp. intros [= <- <-]. split; [|intros k q; cbn; by rewrite Hp].
    destruct Hok. constructor; cbn; rewrite ?Hp; done.
Defined.

Lemma lagging_networks : @networks_own_pools _ lagging_kube lagging_server.
Proof using Type. intros w name p Hok Hget. by apply (lag_networks w Hok). Qed.
End lagging.
