(* ===== verification/Durability.v ===== *)
(** * Leases survive a restart

    [Allocate] reports a lease only after it is recorded in the status of the network's
    pool on the API server, and [BuildCache] takes the records over; the two are composed
    here, with the restart of the process in between, over any server that keeps the
    contract [PoolServer], its informer caches lagging behind. *)

From S2P Require Import Prelude GoNet GoNetFacts GoText Api Util Ipam IpamFacts IpamSpec MacCache Metrics Leases Webhook Fakes Kube FakeKube Image VmNetCfg VmNetCfgFacts IpPool IpPoolFacts IpPoolAgentFacts PoolServer.
Local Open Scope go_scope.

Section durability.
Context `{MapRange} `{ConditionLib} `{KvLib} `{PromLib} `{PoolServer}.
Implicit Types m : Management.

(** ** Allocate records what it reports *)

Section lease.
Context (name mac ip : string) (Hown : networks_own_pools).

(** The lease is listed among the statuses. *)
Definition lists (ss : list NetworkConfigStatus) : Prop :=
  ∃ s, s ∈ ss ∧ ncs_NetworkName s = name ∧ ncs_MACAddress s = mac ∧ AllocatedIPAddress s = ip.
(** Another MAC holds the address, so that the lease cannot be [mac]'s. *)
Definition taken (m : Management) : Prop := ∃ mac', mac' ≠ mac ∧ holds m name mac' ip.

Record tracked (ss : list NetworkConfigStatus) (m : Management) : Prop := {
  trk_leases : leases_ok m;
  trk_server : server_ok (world m);
  trk_fresh : caches_fresh (world m) name mac ip ∨ taken m;
  trk_listed : lists ss → holds m name mac ip ∧ (recorded (world m) name mac ip ∨ taken m);
}.

Lemma taken_grew m m' : grew m m' → taken m → taken m'.
Proof using Type. intros Hg (mac' & Hne & Hh). exists mac'. split; [done|by eapply grew_holds]. Qed.

Lemma tracked_grew ss m m' : leases_ok m' → grew m m' → world m' = world m → tracked ss m → tracked ss m'.
Proof using Type.
  intros Hok Hg Hw [_ Hs Hf Hl]. constructor; rewrite ?Hw; [done..| |].
  - destruct Hf; [by left|right; by eapply taken_grew].
  - intros [Hh Hr]%Hl. split; [by eapply grew_holds|]. destruct Hr; [by left|right; by eapply taken_grew].
Qed.

(** The entry just made, its lease recorded or that of another MAC. *)
Lemma tracked_snoc ss m name' mac' ip' :
  tracked ss m → holds m name' mac' ip' →
  (name' = name → mac' = mac → ip' = ip → recorded (world m) name mac ip ∨ taken m) →
  tracked (ss ++ [mkNetworkConfigStatus ip' mac' name' AllocatedState]) m.
Proof using Type.
  intros [Hok Hs Hf Hl] Hh Hr. constructor; [done..|].
  intros (s & [Hin|Hin]%elem_of_app & Hn & Hm & Hi); [apply Hl; by exists s|].
  apply list_elem_of_singleton in Hin as ->. cbn in Hn, Hm, Hi. subst. auto.
Qed.

(** A lease of the network written by its own holder. *)
Lemma tracked_written ss m name' mac' ip' q now w' o :
  tracked ss m → holds m name' mac' ip' → getIPPoolFromNetworkName name' (world m) = inl q →
  (let p' := record_allocated ip' mac' q in
   ippoolClient_UpdateStatus (set_pool_Status p' (set_LastUpdate (pool_Status p') now)) (world m) = (w', inl o)) →
  tracked ss (set_world m w') ∧ recorded w' name' mac' ip'.
Proof using Hown.
  intros [Hok Hs Hf Hl] Hh Hget Hup.
  destruct (record_written _ _ _ _ _ _ _ _ Hs Hown Hget Hup) as (Hs' & Hrec & Hkeep). split; [|done].
  destruct (decide (name = name' ∧ ip = ip' ∧ mac ≠ mac')) as [(Hn & Hi & Hne)|Hd].
  - assert (Ht : taken (set_world m w')) by (exists mac'; split; [congruence|rewrite Hn, Hi; exact Hh]).
    constructor; [done|done|by right|]. intros [? _]%Hl. auto.
  - destruct (Hkeep name mac ip) as [Hr Hfr]; [intros Hn Hi; apply dec_stable; intros Hne; apply Hd; auto|].
    constructor; [done|done| |].
    + destruct Hf; [left; by apply Hfr|by right].
    + intros [? Hc]%Hl. split; [done|]. destruct Hc; [left; by apply Hr|by right].
Qed.

Lemma wp_allocate_one_tracked seed now v status nc acc m :
  tracked acc m →
  wp (allocate_one seed now v status nc acc)
     (λ r m', match r with inl acc' => tracked acc' m' | inr (_, err) => is_Some err end) (λ _, True) m.
Proof using Hown.
  intros Ht. unfold allocate_one. apply wp_bind, wp_gets.
  destruct (getIPPoolFromNetworkConfig nc (world m)) as [q|e] eqn:Hget; [|apply wp_ret; by eauto].
  destruct (IsTrue CacheReady _) eqn:Hready; cbn [negb]; [|apply wp_ret; by eauto].
  apply wp_bind. eapply wp_mono; [| |apply wp_address_for, Ht]; [|done].
  intros [a|e] m1 (Hok1 & Hg1 & Hw1 & Ha); [|apply wp_ret; by eauto].
  cbv zeta. apply wp_bind, wp_on_metrics. set (m2 := set_metrics m1 _).
  assert (Ht2 : tracked acc m2) by (eapply tracked_grew; [exact Hok1|exact Hg1|exact Hw1|done]).
  change (holds m2 (nc_NetworkName nc) (nc_MACAddress nc) a) in Ha.
  change (getIPPoolFromNetworkName (nc_NetworkName nc) (world m) = inl q) in Hget.
  change (world m1) with (world m2) in Hw1. rewrite <-Hw1 in Hget.
  unfold DeepEqual. case_bool_decide as Heq; cbn [negb].
  - apply wp_ret, tracked_snoc; [done..|]. intros Hn Hm Hi. destruct (trk_fresh _ _ Ht2) as [Hf|]; [left|by right].
    apply (Hf (obj_key (pool_Meta q)) q); [by eapply pool_of_network_shown, Hget; apply Ht2| |].
    + rewrite <-Hn. eapply Hown; [apply Ht2|done].
    + rewrite <-Hm, <-Hi. by apply records_of_same.
  - apply wp_bind, wp_request. destruct (ippoolClient_UpdateStatus _ (world m2)) as [w' [o|e]] eqn:Hup; cbn [fst snd]; apply wp_ret; [|by eauto].
    destruct (tracked_written _ _ _ _ _ _ _ _ _ Ht2 Ha Hget Hup) as [Ht3 Hrec].
    apply tracked_snoc; [done..|]. intros Hn Hm Hi. left. by rewrite <-Hn, <-Hm, <-Hi.
Qed.

Lemma wp_Allocate_tracked seed now v status m :
  leases_ok m → server_ok (world m) → caches_fresh (world m) name mac ip →
  wp (Allocate seed now v status) (λ r m', r.2 = None → tracked (st_NetworkConfigs r.1) m') (λ _, True) m.
Proof using Hown.
  intros Hok Hs Hf. unfold Allocate. destruct (is_paused _); [by apply wp_ret|].
  destruct (IsFalse _ _); [by apply wp_ret|].
  apply wp_bind. eapply wp_mono; [| |apply (wp_for_range _
    (λ _ ss m', tracked ss m') (λ r m', is_Some r.2) (λ _, True))]; [|done| |].
  - intros [[|s ss]|[st err]] m' Hr; apply wp_ret; [done|by intros _|].
    cbn in *. destruct Hr as [? ->]. done.
  - intros pre nc post ss m' _ Hss. eapply wp_mono; [| |by apply wp_allocate_one_tracked]; [|done].
    by intros [acc|[st err]] m2 Hr.
  - constructor; [done|done|by left|]. by intros (s & ?%elem_of_nil & _).
Qed.
End lease.

(** A lease [Allocate] reports is held and on the server's record. *)
Lemma Allocate_recorded seed now v status status' m m' s :
  networks_own_pools → leases_ok m → server_ok (world m) →
  caches_fresh (world m) (ncs_NetworkName s) (ncs_MACAddress s) (AllocatedIPAddress s) →
  Allocate seed now v status m = (m', Val (status', None)) → s ∈ st_NetworkConfigs status' →
  recorded (world m') (ncs_NetworkName s) (ncs_MACAddress s) (AllocatedIPAddress s).
Proof using Type.
  intros Hown Hok Hs Hf Hrun Hin.
  pose proof (wp_Allocate_tracked _ _ _ Hown seed now v status m Hok Hs Hf) as Hwp. unfold wp in Hwp.
  rewrite Hrun in Hwp. destruct (Hwp eq_refl) as [Hok' _ _ Hl].
  destruct Hl as [Hh [Hr|(mac' & Hne & Hh')]]; [by exists s|done|].
  destruct Hne. by eapply (coh_inj _ _ Hok'), Hh.
Qed.

(** ** After the restart *)

(** The process started anew in the world [w]. *)
Definition started (w : World) : Management := SetupManagement w.

Lemma wp_ensureNADLabels_had k q p m :
  server_ok (world m) → had (world m) k q →
  wp (ensureNADLabels p) (λ _ m', server_ok (world m') ∧ had (world m') k q ∧ IPAllocator_ m' = IPAllocator_ m)
     (λ _, True) m.
Proof using Type.
  intros Hok Hq. unfold ensureNADLabels. destruct (RSplit _ "/") as [ns n]. apply wp_bind, wp_gets.
  destruct (nadCache_Get (world m) ns n) as [nad|e]; [|by apply wp_ret].
  cbv zeta. destruct (negb _); [|by apply wp_ret]. apply wp_bind, wp_request.
  destruct (nadClient_Update _ (world m)) as [w' r] eqn:Hup. cbn [fst snd].
  destruct (nad_update _ _ _ _ Hok Hup) as [Hok' Hhad]. destruct r; apply wp_ret; split; auto.
Qed.

(** The first [OnChange] of the new process that goes through leaves the pool's cache
    marked as not ready. *)
Lemma wp_OnChange_started seed now key p w :
  server_ok w → had w (obj_key (pool_Meta p)) p → DeletionTimestamp (pool_Meta p) = None → is_pool_paused p = false →
  wp (IpPool.OnChange seed now key (Some p))
     (λ r _, r.2 = None → ∃ p', r.1 = Some p' ∧ pool_Spec p' = pool_Spec p ∧ records_of p' = records_of p ∧
        IsTrue CacheReady (pool_Conditions (pool_Status p')) = false) (λ _, True) (started w).
Proof using Type.
  intros Hok Hhad Hdel Hp. unfold IpPool.OnChange. rewrite Hdel. apply wp_bind.
  eapply wp_mono; [| |by apply (wp_ensureNADLabels_had (obj_key (pool_Meta p)) p p)]; [|done].
  intros [e|] m (Hok1 & Hhad1 & Hnone); [by apply wp_ret|]. rewrite Hp. cbv zeta. apply wp_bind, wp_gets.
  assert (Hmiss : IPAllocator_ m !! NetworkName (pool_Spec p) = None) by (rewrite Hnone; apply lookup_empty).
  unfold IsNetworkInitialized. rewrite Hmiss, bool_decide_eq_false_2 by (by intros [? ?]). cbn [negb].
  set (cpy := pool_cond _ (pool_cond _ p)). destruct (negb (DeepEqual cpy p)).
  - apply wp_bind, wp_request. destruct (ippoolClient_UpdateStatus cpy (world m)) as [w' [o|e]] eqn:Hup;
      cbn [fst snd]; apply wp_ret; [|done]. intros _. exists o. split; [done|].
    apply (update_current p) in Hup as (_ & Hspec & Hst & _); [|done..]. split; [done|].
    split; [unfold records_of; by rewrite Hst|]. rewrite Hst. unfold cpy, pool_cond. cbn.
    autorewrite with go_cond. by rewrite String.eqb_refl.
  - unfold update_usage. cbv zeta. apply wp_bind, wp_gets. unfold GetUsed. rewrite Hmiss. by apply wp_ret.
Qed.

(** A pool whose leases [BuildCache] takes over: alive, not paused, with an IPv4 range
    and lease records of distinct MACs for addresses of the range. *)
Record recoverable (p : IPPool) (base plen first last : Z) : Prop := {
  rcv_live : DeletionTimestamp (pool_Meta p) = None;
  rcv_unpaused : is_pool_paused p = false;
  rcv_range : pool_range p base plen first last;
  rcv_keys ip mac : lease_record (records_of p) ip mac →
    (ip ∉ revoked_of p) ∧ ∃ n, (first ≤ n ≤ last)%Z ∧ ip = v4str n;
  rcv_inj ip ip' mac : lease_record (records_of p) ip mac → lease_record (records_of p) ip' mac → ip = ip';
}.

Lemma BuildCache_takes_over seed p p' base plen first last m ip mac :
  recoverable p base plen first last → pool_Spec p' = pool_Spec p → records_of p' = records_of p →
  IsTrue CacheReady (pool_Conditions (pool_Status p')) = false → lease_record (records_of p) ip mac →
  ∃ m2, BuildCache seed p' (pool_Status p') m = (m2, Val (pool_Status p', None)) ∧
    holds m2 (NetworkName (pool_Spec p)) mac ip.
Proof using Type.
  intros [_ Hp Hrange Hkeys Hinj] Hspec Hrecs Hnot Hlease.
  assert (Hrange' : pool_range p' base plen first last) by (destruct Hrange; constructor; by rewrite ?Hspec).
  assert (Hrev : revoked_of p' = revoked_of p) by (unfold revoked_of; by rewrite Hspec).
  assert (Hp' : is_pool_paused p' = false) by (unfold is_pool_paused; by rewrite Hspec).
  destruct (wp_run _ _ _ (wp_BuildCache_exact seed p' (pool_Status p') base plen first last m Hrange' Hp' Hnot
    ltac:(rewrite Hrecs, Hrev; exact Hkeys) ltac:(rewrite Hrecs; exact Hinj)))
    as (m2 & r & Hbuild & -> & _ & [_ _ Hc]).
  exists m2. split; [done|]. rewrite <-Hspec. apply Hc. unfold leases_in.
  apply list_elem_of_filter. split; [by destruct Hlease|]. apply elem_of_range. rewrite Hrecs. by destruct Hlease.
Qed.

(** The pool the sync handlers get after [OnChange] returned [o] and [err] for [p]. *)
Definition handed_on (p : IPPool) (o : option IPPool) (err : option error) : IPPool :=
  match err with
  | None => default p o
  | Some _ => p
  end.

(** C8: a lease [Allocate] reports is not lost when the process is restarted right after
    it, its memory gone, although the informer caches lag behind the API server.  A pool
    of the lease's network on the server then records the lease; and when the new process
    gets that version of the pool, and its [OnChange] goes through, or fails on a pool that
    is marked as not ready already, [BuildCache] succeeds on the pool handed to it and the
    same MAC holds the same address of the same network.  Conditions: every network leads
    to its own pool, no cache may still show a record of this very lease that the server no
    longer has (see [stale_cache_lease_not_recorded]), the pools are written by nobody else
    during the call, and the recorded pool is [recoverable]. *)
Theorem leases_survive_restart (seed seed1 seed2 : nat) (now now1 : Z) (key : string) (v : VmNetCfg)
    (status status' : VmNetCfgStatus) (m m' : Management) (s : NetworkConfigStatus) :
  networks_own_pools → leases_ok m → server_ok (world m) →
  caches_fresh (world m) (ncs_NetworkName s) (ncs_MACAddress s) (AllocatedIPAddress s) →
  Allocate seed now v status m = (m', Val (status', None)) → s ∈ st_NetworkConfigs status' →
  is_mark (ncs_MACAddress s) = false →
  ∃ k p, recorded_at (world m') k p (ncs_NetworkName s) (ncs_MACAddress s) (AllocatedIPAddress s) ∧
    ∀ base plen first last w m1 o err,
      recoverable p base plen first last → server_ok w → had w k p →
      IpPool.OnChange seed1 now1 key (Some p) (started w) = (m1, Val (o, err)) →
      err = None ∨ IsTrue CacheReady (pool_Conditions (pool_Status p)) = false →
      (let p' := handed_on p o err in
       ∃ m2, BuildCache seed2 p' (pool_Status p') m1 = (m2, Val (pool_Status p', None)) ∧
         holds m2 (ncs_NetworkName s) (ncs_MACAddress s) (AllocatedIPAddress s)).
Proof using Type.
  intros Hown Hok Hs Hf Hrun Hin Hmark.
  destruct (Allocate_recorded _ _ _ _ _ _ _ _ Hown Hok Hs Hf Hrun Hin) as (k & p & Hst & Hname & Hrec).
  exists k, p. split; [done|]. intros base plen first last w m1 o err Hrcv Hw Hhad Hchange Hcase.
  assert (Hlease : lease_record (records_of p) (AllocatedIPAddress s) (ncs_MACAddress s)) by done. rewrite <-Hname.
  destruct err as [e|]; [destruct Hcase as [|Hnot]; [done|]; by apply (BuildCache_takes_over _ p p base plen first last)|].
  pose proof (had_key _ _ _ Hw Hhad) as <-.
  pose proof (wp_OnChange_started seed1 now1 key p w Hw Hhad (rcv_live _ _ _ _ _ Hrcv) (rcv_unpaused _ _ _ _ _ Hrcv)) as Hwp.
  unfold wp in Hwp. rewrite Hchange in Hwp. destruct (Hwp eq_refl) as (p' & Ho & Hspec & Hrecs & Hnot).
  cbn [fst] in Ho. subst o. by apply (BuildCache_takes_over _ p p' base plen first last).
Qed.

(** ** When a cache is behind on the lease itself *)

(** C13: [Allocate] compares the pool with the copy in its informer cache only: when that
    copy still shows a record of the lease that was removed from the server meanwhile (the
    object was deleted and made again, or its interface taken out and put back), [Allocate]
    sends nothing and reports the lease all the same.  The MAC holds the address, and the
    server has no record of it that a restart could take over. *)
Theorem stale_cache_lease_not_recorded (seed : nat) (now : Z) (v : VmNetCfg) (status : VmNetCfgStatus)
    (nc : NetworkConfig) (m m1 : Management) (q : IPPool) (ip : string) :
  let name := nc_NetworkName nc in
  let mac := nc_MACAddress nc in
  leases_ok m →
  is_paused (vnc_Paused (vnc_Spec v)) = false → IsFalse InSynced (vnc_Conditions (vnc_Status v)) = false →
  NetworkConfigs (vnc_Spec v) = [nc] →
  getIPPoolFromNetworkName name (world m) = inl q → IsTrue CacheReady (pool_Conditions (pool_Status q)) = true →
  records_of q !! ip = Some mac → ¬ recorded (world m) name mac ip →
  address_for seed v nc m = (m1, Val (inl ip)) →
  ∃ m', Allocate seed now v status m =
          (m', Val (set_st_NetworkConfigs status [mkNetworkConfigStatus ip mac name AllocatedState], None)) ∧
    holds m' name mac ip ∧ ¬ recorded (world m') name mac ip.
Proof using Type.
  cbv zeta. intros Hok Hpause Hsync Hone Hget Hready Hrec Hnot Haddr.
  assert (Hsame : record_allocated ip (nc_MACAddress nc) q = q).
  { revert Hrec. unfold record_allocated, records_of. destruct q as [meta spec [lu [st|] ref cs]]; [|done].
    destruct st as [[al|] u a]; [|done]. cbn. intros Hl. by rewrite insert_id. }
  pose proof (wp_address_for seed v nc m Hok) as Hwp. unfold wp in Hwp. rewrite Haddr in Hwp.
  destruct Hwp as (_ & _ & Hw & Hh).
  unfold Allocate. rewrite Hpause, Hsync, Hone. eexists. split; [|split].
  - cbn [for_range]. unfold allocate_one at 1. unfold getIPPoolFromNetworkConfig, ask_world, go_gets, mbind, GoM_bind.
    rewrite Hget, Hready. cbn [negb length]. rewrite Nat.add_0_r, Haddr. cbv zeta.
    unfold DeepEqual. rewrite Hsame, bool_decide_eq_true_2 by done. cbn [negb app]. reflexivity.
  - exact Hh.
  - cbn [world set_metrics]. by rewrite Hw.
Qed.
End durability.

(** ** Concrete runs, the caches receiving nothing *)

Import FakeKube.Demo.
#[local] Existing Instance lagging_kube.
#[local] Existing Instance lagging_server.

Definition one_vm : VmNetCfg := vmnetcfg "vm-1" None [nic mac1 None] [] "True".
Definition fresh_pool : IPPool := pool "True" None.
Definition empty_version (w : ApiServer) : Prop := ∀ k p, api_pools w !! k = Some p →
  k = ("default", "pool-1") ∧ obj_key (pool_Meta p) = k ∧ NetworkName (pool_Spec p) = "default/net-1".

Lemma one_pool_version p vs :
  obj_key (pool_Meta p) = ("default", "pool-1") → NetworkName (pool_Spec p) = "default/net-1" →
  empty_version (api [p] vs).
Proof.
  intros Hk Hn k q Hq. cbn in Hq. rewrite Hk in Hq. by apply lookup_insert_Some in Hq as [[<- <-]|[_ Hq]].
Qed.

(** The cached pool [q] is the server's, or an earlier version of it. *)
Definition cluster (p q : IPPool) : Lagging := mkLagging (api [p] [one_vm]) (api [q] [one_vm]).

Lemma cluster_ok p q :
  empty_version (api [p] [one_vm]) → empty_version (api [q] [one_vm]) →
  (ResourceVersion (pool_Meta q) < ResourceVersion (pool_Meta p))%Z ∨ q = p → server_ok (cluster p q).
Proof.
  intros Hp Hq Hv.
  assert (Hone : ∀ r, empty_version (api [r] [one_vm]) → ∀ k r', api_pools (api [r] [one_vm]) !! k = Some r' → r' = r).
  { intros r _ k r' Hl. cbn in Hl. by apply lookup_insert_Some in Hl as [[_ <-]|[_ Hl]]. }
  constructor.
  - intros k r Hr. by apply (Hp k r Hr).
  - intros k r Hr. by apply (Hq k r Hr).
  - intros k r r' Hr Hr'. apply (Hone q Hq) in Hr as ->. apply (Hone p Hp) in Hr' as ->.
    destruct Hv as [Hlt| ->]; [split; lia|done].
  - intros name r Hget. unfold getIPPoolFromNetworkName in Hget. destruct (RSplit name "/") as [ns n] eqn:Hsplit.
    cbn [nadCache_Get mem_kube caches cluster api api_nads] in Hget. unfold get_in at 1 in Hget.
    destruct (_ !! (ns, n)) as [nad'|] eqn:Hn; [|done].
    apply lookup_singleton_Some in Hn as [[= <- <-] <-]. apply plain_RSplit_inv in Hsplit as ->; [|done]. cbn in Hget.
    apply get_in_inl in Hget. by destruct (Hq _ _ Hget) as (_ & _ & ->).
Qed.

(** The allocators after [BuildCache] of an empty pool. *)
Definition lag_management (w : Lagging) : Management :=
  mkManagement (CacheAllocator_ (management empty_api)) (IPAllocator_ (management empty_api)) NewMetricsAllocator w.

Lemma lag_management_ok w : leases_ok (lag_management w).
Proof. exact (demo_ok empty_api). Qed.

Definition before : Management := lag_management (cluster fresh_pool fresh_pool).

Lemma before_ok : server_ok (world before).
Proof. apply cluster_ok; [by apply one_pool_version..|by right]. Qed.

Lemma before_fresh name mac ip : caches_fresh (world before) name mac ip.
Proof.
  intros k q Hq _ Hr. assert (q = fresh_pool) as ->; [|vm_compute in Hr; discriminate].
  destruct Hq as [Hq|Hq]; cbn in Hq; by apply lookup_insert_Some in Hq as [[_ <-]|[_ Hq]].
Qed.

Definition after : Management := (Allocate 0 0 one_vm (vnc_Status one_vm) before).1.
Definition leased : VmNetCfgStatus :=
  set_st_NetworkConfigs (vnc_Status one_vm) [lease mac1 "192.168.0.11"].

Lemma demo_allocates : Allocate 0 0 one_vm (vnc_Status one_vm) before = (after, Val (leased, None)).
Proof.
  rewrite (surjective_pairing (Allocate 0 0 one_vm (vnc_Status one_vm) before)). fold after.
  by replace (Allocate 0 0 one_vm (vnc_Status one_vm) before).2 with (Val (leased, None : option error))
    by (vm_compute; reflexivity).
Qed.

(** The pool with the new record, on the server. *)
Definition leased_pool : IPPool := default fresh_pool (stored (world after) !! ("default", "pool-1")).

Lemma stored_keys : (map_to_list (stored (world after))).*1 = [("default", "pool-1")].
Proof. vm_compute. reflexivity. Qed.

Lemma leased_pool_stored k p : stored (world after) !! k = Some p → k = ("default", "pool-1") ∧ p = leased_pool.
Proof.
  intros Hp. pose proof Hp as Hk. apply elem_of_map_to_list, (list_elem_of_fmap_2 fst) in Hk.
  rewrite stored_keys in Hk.
  apply list_elem_of_singleton in Hk. cbn in Hk. subst k.
  split; [reflexivity|]. exact (eq_sym (f_equal (default fresh_pool) Hp)).
Qed.

Lemma leased_pool_records ip mac : lease_record (records_of leased_pool) ip mac → ip = "192.168.0.11" ∧ mac = mac1.
Proof.
  intros [Hl _]. replace (records_of leased_pool) with ({[ "192.168.0.11" := mac1 ]} : gmap string string) in Hl
    by (vm_compute; reflexivity). by apply lookup_singleton_Some in Hl as [<- <-].
Qed.

Lemma leased_pool_recoverable : recoverable leased_pool demo_net 24 (demo_net + 10) (demo_net + 12).
Proof.
  constructor; [by vm_compute|by vm_compute|constructor; by vm_compute| |].
  - intros ip mac [-> ->]%leased_pool_records. split; [|exists (demo_net + 11)%Z; by vm_compute].
    replace (revoked_of leased_pool) with ["192.168.0.2"; "192.168.0.1"] by (vm_compute; reflexivity).
    intros Hin. repeat (apply elem_of_cons in Hin as [?|Hin]; [done|]). by apply elem_of_nil in Hin.
  - by intros ip ip' mac [-> _]%leased_pool_records [-> _]%leased_pool_records.
Qed.

(** The world the new process finds: its caches start from the server's objects. *)
Definition relisted (w : Lagging) : Lagging := mkLagging (server w) (server w).

Lemma relisted_ok : server_ok (relisted (world after)).
Proof.
  assert (Hw : relisted (world after) = cluster leased_pool leased_pool) by (vm_compute; reflexivity). rewrite Hw.
  apply cluster_ok; [by apply one_pool_version; vm_compute..|by right].
Qed.

(** [OnChange] of the new process. *)
Definition rechanged : Management * res (option IPPool * option error) :=
  IpPool.OnChange 1 0 "default/pool-1" (Some leased_pool) (started (relisted (world after))).

Lemma leases_survive_restart_witness :
  stored (world after) !! ("default", "pool-1") = Some leased_pool ∧
  records_of leased_pool !! "192.168.0.11" = Some mac1 ∧
  ∃ p' m2, rechanged.2 = Val (Some p', None) ∧
    BuildCache 2 p' (pool_Status p') rechanged.1 = (m2, Val (pool_Status p', None)) ∧
    holds m2 "default/net-1" mac1 "192.168.0.11".
Proof.
  destruct (leases_survive_restart 0 1 2 0 0 "default/pool-1" one_vm (vnc_Status one_vm) leased before after
    (lease mac1 "192.168.0.11") lagging_networks (lag_management_ok _) before_ok (before_fresh _ _ _)
    demo_allocates (list_elem_of_here _ _) eq_refl) as (k & p & (Hst & _ & Hrec) & Hrestart).
  destruct (leased_pool_stored k p Hst) as [-> ->]. split; [exact Hst|]. split; [exact Hrec|].
  assert (Hres : match rechanged.2 with Val (Some _, None) => true | _ => false end = true)
    by (vm_compute; reflexivity).
  destruct rechanged as [m1 [[[p'|] [e|]]|w|]] eqn:Hrun; [done| |done..]. exists p'.
  destruct (Hrestart demo_net 24%Z (demo_net + 10)%Z (demo_net + 12)%Z (relisted (world after)) m1 (Some p') None
    leased_pool_recoverable relisted_ok (or_introl Hst) Hrun (or_introl eq_refl)) as (m2 & Hb & Hh).
  exists m2. split; [reflexivity|]. split; [exact Hb|exact Hh].
Defined.

(** The lease was removed from the server's pool, and the cache has not heard of it. *)
Definition recorded_version : IPPool := pool "True" (Some {[ "192.168.0.11" := mac1 ]}).
Definition released_version : IPPool := pool_rv (pool "True" (Some ∅)) 1.
Definition behind : Management := lag_management (cluster released_version recorded_version).

Lemma behind_ok : server_ok (world behind).
Proof. apply cluster_ok; [by apply one_pool_version..|by left]. Qed.

Lemma behind_unrecorded name mac ip : ¬ recorded (world behind) name mac ip.
Proof.
  intros (k & p & Hp & _ & Hr). cbn in Hp. apply lookup_insert_Some in Hp as [[_ <-]|[_ Hp]]; [|done].
  vm_compute in Hr. discriminate.
Qed.

Lemma behind_address : address_for 0 one_vm (nic mac1 None) behind =
  ((address_for 0 one_vm (nic mac1 None) behind).1, Val (inl "192.168.0.11")).
Proof.
  rewrite (surjective_pairing (address_for 0 one_vm (nic mac1 None) behind)) at 1. by f_equal.
Qed.

Lemma stale_cache_lease_not_recorded_witness :
  server_ok (world behind) ∧
  ∃ m', Allocate 0 0 one_vm (vnc_Status one_vm) behind = (m', Val (leased, None)) ∧
    holds m' "default/net-1" mac1 "192.168.0.11" ∧ ¬ recorded (world m') "default/net-1" mac1 "192.168.0.11".
Proof.
  split; [exact behind_ok|].
  apply (stale_cache_lease_not_recorded 0 0 one_vm (vnc_Status one_vm) (nic mac1 None) behind
    (address_for 0 one_vm (nic mac1 None) behind).1 recorded_version "192.168.0.11" (lag_management_ok _)).
  - reflexivity.
  - reflexivity.
  - reflexivity.
  - vm_compute. reflexivity.
  - reflexivity.
  - vm_compute. reflexivity.
  - apply behind_unrecorded.
  - exact behind_address.
Defined.
