(* ===== verification/EndToEnd.v ===== *)
(** * From the allocation to the client

    The controller records a lease in the IPPool's status, the pool's agent takes
    the status over into its lease store, and the agent's DHCP server answers from
    the store: the three programs meet in the IPPool object only. *)

From S2P Require Import Prelude GoNet GoNetFacts GoText Api Util Ipam IpamSpec MacCache Metrics Leases Agent AgentFacts Webhook Fakes Kube FakeKube Image VmNetCfg VmNetCfgFacts IpPool IpPoolFacts IpPoolAgentFacts PoolServer Durability.
From S2P Require Dhcp DhcpFacts.
Local Open Scope go_scope.

Section served.
Context `{MapRange} `{ConditionLib} `{KvLib} `{PromLib} `{PoolServer} `{Dhcp.DHCPOptions}.
Context (LookupIP : string → result (list (list Z))).
Context (NewReplyFromRequest : Dhcp.DHCPv4 → result Dhcp.DHCPv4).

(** What the agent keeps of a status are its lease records. *)
Lemma filtered_lease_record (st : IPv4Status) (p : IPPool) ip mac :
  IPv4 (pool_Status p) = Some st →
  filterExcludedAndReserved (or_empty (st_Allocated st)) !! ip = Some mac ↔ lease_record (records_of p) ip mac.
Proof using Type.
  intros Hst. unfold filterExcludedAndReserved, lease_record, records_of, is_mark. rewrite Hst. cbn [from_option].
  rewrite map_lookup_filter_Some. cbn [snd]. rewrite orb_false_iff, !String.eqb_neq. done.
Qed.

(** The lease records of a pool an agent can serve. *)
Record servable (p : IPPool) : Prop := {
  srv_ready : IsTrue CacheReady (pool_Conditions (pool_Status p)) = true;
  srv_cidr : (ParseCIDR (CIDR (ipv4Config (pool_Spec p)))).2 = None;
  srv_keys : ∀ ip mac, lease_record (records_of p) ip mac →
    is_Some (Dhcp.ParseMAC mac) ∧ ∃ n, u32 n ∧ ip = v4str n;
  srv_inj : ∀ ip ip' mac, lease_record (records_of p) ip mac → lease_record (records_of p) ip' mac → ip = ip';
}.

(** A client that asks for an address. *)
Definition asks_address (msg : Dhcp.DHCPv4) : Prop :=
  Dhcp.OpCode msg = Dhcp.OpcodeBootRequest ∧
  (Dhcp.message_type msg = Dhcp.MessageTypeDiscover ∨ Dhcp.message_type msg = Dhcp.MessageTypeRequest).
Definition asks (mac : string) (msg : Dhcp.DHCPv4) : Prop :=
  Dhcp.HardwareAddr_String (Dhcp.ClientHWAddr msg) = mac ∧ asks_address msg.

(** An agent in step with the records of [p] serves exactly them. *)
Lemma served_record (p : IPPool) (s : AgentState) ip mac :
  (∀ ip mac, poolCache s !! ip = Some mac ↔ lease_record (records_of p) ip mac) → synced s → servable p →
  lease_record (records_of p) ip mac →
  (∀ msg base, asks mac msg → NewReplyFromRequest msg = inl base →
     ∃ r, Dhcp.dhcpHandler NewReplyFromRequest (dhcpAllocator s) (Some msg) = Some r ∧
       Dhcp.YourIPAddr r = ParseIP ip) ∧
  ∀ msg r, Dhcp.dhcpHandler NewReplyFromRequest (dhcpAllocator s) (Some msg) = Some r →
    Dhcp.YourIPAddr r = ParseIP ip → Dhcp.HardwareAddr_String (Dhcp.ClientHWAddr msg) = mac.
Proof using Type.
  intros Hcache [Hlease Hentry _] [_ _ Hkeys _] Hrec. destruct (Hkeys _ _ Hrec) as [_ (n & Hn & ->)].
  destruct (Hlease (v4str n) mac) as (l & Hl & Hcl); [by apply Hcache|]. split.
  - intros msg base (Hmac & Hop & Ht) Hbase.
    assert (Ha : DhcpFacts.answerable (dhcpAllocator s) msg l).
    { split; [done|]. split; [by rewrite Hmac|]. split; [|done]. rewrite Hcl, ParseIP_v4str by done.
      intros Heq%(f_equal length). by rewrite length_mapped in Heq. }
    eexists. split; [by apply (DhcpFacts.dhcpHandler_run NewReplyFromRequest _ _ _ _ Hbase Ha)|].
    destruct (DhcpFacts.filled_answers msg base l) as [[Hyour _] _ _ _ _ _ _ _ _ _ _]. by rewrite Hyour.
  - intros msg r Hr Hyour.
    destruct (DhcpFacts.dhcpHandler_answerable _ _ _ _ Hr) as (l' & base & _ & (_ & Hl' & _) & [[Hans _] _ _ _ _ _ _ _ _ _ _]).
    destruct (Hentry _ _ Hl') as [ip' Hip']. destruct (Hlease _ _ Hip') as (l2 & Hl2 & Hcl2).
    assert (l2 = l') as -> by congruence. pose proof Hip' as Hrec'. apply Hcache in Hrec'.
    destruct (Hkeys _ _ Hrec') as [_ (n' & Hn' & ->)].
    assert (n' = n) as ->.
    { apply mapped_inj; [done..|]. rewrite <-!ParseIP_v4str by done. congruence. }
    apply Hcache in Hrec. congruence.
Qed.

(** The agent takes the records of a servable pool over. *)
Lemma Update_servable (seed1 seed2 : nat) (p : IPPool) (s : AgentState) :
  servable p → synced s →
  (∀ ip mac mac', poolCache s !! ip = Some mac → lease_record (records_of p) ip mac' → mac = mac') →
  (∃ ip mac, lease_record (records_of p) ip mac) →
  ∃ s' p', Update LookupIP seed1 seed2 p s = (s', Val (p', None)) ∧
    (∀ ip mac, poolCache s' !! ip = Some mac ↔ lease_record (records_of p) ip mac) ∧ synced s'.
Proof using Type.
  intros [Hready Hcidr Hkeys Hinj] Hs Hagree (ip0 & mac0 & Hrec & _).
  assert (Hst : ∃ st, IPv4 (pool_Status p) = Some st).
  { unfold records_of in Hrec. destruct (IPv4 (pool_Status p)) as [st|]; [by exists st|]. cbn in Hrec. by rewrite lookup_empty in Hrec. }
  destruct Hst as [st Hst]. pose proof (λ ip mac, filtered_lease_record st p ip mac Hst) as Hfil.
  destruct (wp_run _ _ _ (wp_Update LookupIP seed1 seed2 p st s Hs Hready Hst
    ltac:(intros ip mac mac' Hip Hlat; apply (Hagree ip); [done|by apply Hfil])
    ltac:(intros ip mac Hlat; by apply (Hkeys ip), Hfil)
    ltac:(intros ip1 ip2 mac H1' H2'; apply (Hinj ip1 ip2 mac); by apply Hfil) Hcidr))
    as (s' & [p' err] & Hup & Herr & Hpc & Hs'). cbn [snd] in Herr. subst err.
  exists s', p'. split; [done|]. split; [|done]. intros ip mac. rewrite Hpc. apply Hfil.
Qed.

(** C7: once [Allocate] reports a lease, a pool of the lease's network on the API server
    records it, and when the pool's agent, empty or agreeing with that version of the pool,
    has taken it over, the agent's server answers a DISCOVER or REQUEST that carries the
    interface's hardware address with exactly the allocated address, and gives that address
    to no other client.  Conditions: the MAC is written the way the server prints hardware
    addresses, otherwise the interface is never served ([noncanonical_lease_never_served]);
    the pool is marked ready and its records name distinct, valid MACs and IPv4 addresses;
    the informer caches may lag, but show no record of this very lease that the server no
    longer has; every network leads to its own pool. *)
Theorem allocated_address_is_served (seed seed1 seed2 : nat) (now : Z) (v : VmNetCfg)
    (status status' : VmNetCfgStatus) (m m' : Management) (e : NetworkConfigStatus) (hw : list Z) :
  networks_own_pools → leases_ok m → server_ok (world m) →
  caches_fresh (world m) (ncs_NetworkName e) (ncs_MACAddress e) (AllocatedIPAddress e) →
  Allocate seed now v status m = (m', Val (status', None)) → e ∈ st_NetworkConfigs status' →
  is_mark (ncs_MACAddress e) = false →
  Dhcp.HardwareAddr_String hw = ncs_MACAddress e →
  ∃ k p, recorded_at (world m') k p (ncs_NetworkName e) (ncs_MACAddress e) (AllocatedIPAddress e) ∧
    ∀ s : AgentState, servable p → synced s →
      (∀ ip mac mac', poolCache s !! ip = Some mac → lease_record (records_of p) ip mac' → mac = mac') →
      ∃ s' p', Update LookupIP seed1 seed2 p s = (s', Val (p', None)) ∧
        (∀ msg base, Dhcp.ClientHWAddr msg = hw → asks_address msg → NewReplyFromRequest msg = inl base →
           ∃ r, Dhcp.dhcpHandler NewReplyFromRequest (dhcpAllocator s') (Some msg) = Some r ∧
             Dhcp.YourIPAddr r = ParseIP (AllocatedIPAddress e)) ∧
        ∀ msg r, Dhcp.dhcpHandler NewReplyFromRequest (dhcpAllocator s') (Some msg) = Some r →
          Dhcp.YourIPAddr r = ParseIP (AllocatedIPAddress e) →
          Dhcp.HardwareAddr_String (Dhcp.ClientHWAddr msg) = Dhcp.HardwareAddr_String hw.
Proof using Type.
  intros Hown Hok Hs Hf Hrun He Hmark Hcanon.
  destruct (Allocate_recorded _ _ _ _ _ _ _ _ Hown Hok Hs Hf Hrun He) as (k & p & Hst & Hname & Hrec).
  exists k, p. split; [done|]. intros s Hsrv Hsync Hagree.
  assert (Hlease : lease_record (records_of p) (AllocatedIPAddress e) (ncs_MACAddress e)) by done.
  destruct (Update_servable seed1 seed2 p s Hsrv Hsync Hagree) as (s' & p' & Hup & Hpc & Hs'); [by eexists _, _|].
  exists s', p'. split; [done|].
  destruct (served_record p s' _ _ Hpc Hs' Hsrv Hlease) as [Hserve Honly]. split.
  - intros msg base Hhw Hask Hbase. apply (Hserve msg base); [|done]. split; [by rewrite Hhw|done].
  - intros msg r Hr Hyour. rewrite Hcanon. by eapply Honly.
Qed.
End served.

(** ** A concrete run: from the first allocation to the offer *)

Import FakeKube.Demo.
#[local] Existing Instance lagging_kube.
#[local] Existing Instance lagging_server.

Lemma leased_pool_servable : servable leased_pool.
Proof.
  constructor; [vm_compute; reflexivity|vm_compute; reflexivity| |].
  - intros ip mac [-> ->]%leased_pool_records. split; [by eexists; vm_compute|].
    exists (demo_net + 11)%Z. split; [by vm_compute|]. by vm_compute.
  - by intros ip ip' mac [-> _]%leased_pool_records [-> _]%leased_pool_records.
Qed.

Definition discover : @Dhcp.DHCPv4 DhcpFacts.map_options := DhcpFacts.demo_request Dhcp.MessageTypeDiscover.

Definition hw1 : list Z := [2; 0; 0; 0; 0; 1]%Z.

Lemma allocated_address_is_served_witness :
  ∃ s' p', Update (λ n, inr (OtherError n)) 0 0 leased_pool NewAgentState = (s', Val (p', None)) ∧
    ∃ r, Dhcp.dhcpHandler DhcpFacts.demo_NewReply (dhcpAllocator s') (Some discover) = Some r ∧
      Dhcp.YourIPAddr r = ParseIP "192.168.0.11".
Proof.
  destruct (allocated_address_is_served (λ n, inr (OtherError n)) DhcpFacts.demo_NewReply 0 0 0 0 one_vm
    (vnc_Status one_vm) leased before after (lease mac1 "192.168.0.11") hw1 lagging_networks (lag_management_ok _)
    before_ok (before_fresh _ _ _) demo_allocates (list_elem_of_here _ _) eq_refl)
    as (k & p & (Hst & _) & Hserved).
  - vm_compute. reflexivity.
  - destruct (leased_pool_stored k p Hst) as [_ ->].
    destruct (Hserved NewAgentState leased_pool_servable synced_initial) as (s' & p' & Hup & Hserve & _).
    { intros ip mac mac' Hip. cbn in Hip. by rewrite lookup_empty in Hip. }
    exists s', p'. split; [exact Hup|]. eapply Hserve; [vm_compute; reflexivity| |reflexivity].
    split; [reflexivity|]. by left.
Defined.
