(* ===== verification/AgentLoop.v ===== *)
(** * The agent's event loop

    [EventListener] and [Controller.Run] of [pkg/agent/ippool]: an informer keeps a store
    of the pools of the agent's namespace and queues an event for every update; one worker
    takes events off the queue, fetches the pool from the store and brings the lease store
    in line.  Informer and worker are goroutines: here they take turns in any order, and
    what holds when they have come to rest is what the DHCP server answers from.  The
    informer's shutdown with the process is left out. *)

From S2P Require Import Prelude GoNet GoNetFacts GoText Api Util IpamSpec Agent AgentFacts Webhook Fakes Kube FakeKube IpPool IpPoolFacts EndToEnd.
From S2P Require Dhcp DhcpFacts.
Local Open Scope go_scope.

#[export] Instance Event_eq_dec : EqDecision Event.
Proof. solve_decision. Defined.

(** ** client-go *)

(** [workqueue.TypedRateLimitingInterface]: a set of events that wait to be handed out and
    the events being processed.  An event is not handed out while it is being processed,
    but may be added again, and then waits. *)
Class WorkQueue := {
  Queue : Type;
  NewQueue : Queue;
  queue_Add : Event → Queue → Queue;
  queue_Get : Queue → option (Event * Queue);    (* [None]: [Get] waits *)
  queue_Done : Event → Queue → Queue;
  queue_Forget : Event → Queue → Queue;
  queue_AddRateLimited : Event → Queue → Queue;
  queue_NumRequeues : Event → Queue → nat;
  waiting : Queue → list Event;
  processing : Queue → list Event;
  waiting_new : waiting NewQueue = [];
  processing_new : processing NewQueue = [];
  waiting_Add e q : waiting (queue_Add e q) ≡ₚ if bool_decide (e ∈ waiting q) then waiting q else e :: waiting q;
  processing_Add e q : processing (queue_Add e q) = processing q;
  Get_Some q e q' : queue_Get q = Some (e, q') → waiting q ≡ₚ e :: waiting q' ∧ processing q' ≡ₚ e :: processing q;
  Get_None q e : queue_Get q = None → e ∈ waiting q → e ∈ processing q;
  waiting_Done e q : waiting (queue_Done e q) = waiting q;
  processing_Done e q e' : e' ∈ processing (queue_Done e q) ↔ e' ∈ processing q ∧ e' ≠ e;
  waiting_Forget e q : waiting (queue_Forget e q) = waiting q;
  processing_Forget e q : processing (queue_Forget e q) = processing q;
}.

(** [cache.MetaNamespaceKeyFunc], the key of an object in the informer's store. *)
Class KeyLib := {
  MetaNamespaceKeyFunc : IPPool → result string;
  MetaNamespaceKeyFunc_spec p : Namespace (pool_Meta p) ≠ EmptyString →
    MetaNamespaceKeyFunc p = inl (Namespace (pool_Meta p) +:+ "/" +:+ Name (pool_Meta p));
}.

Section agent_loop.
Context `{MapRange} `{ConditionLib} `{WorkQueue} `{KeyLib}.
Context (LookupIP : string → result (list (list Z))) (agent : Agent).

(** ** The state of the goroutines *)

(** How an object came into the store; for the statements only. *)
Inductive Origin : Type := Listed | Updated.

(** The worker: before [queue.Get], before [indexer.GetByKey], and before [Update].  The
    object it holds is the one in the store as long as the informer has not replaced it. *)
Inductive WorkerState : Type :=
| Waiting
| Handling (e : Event)
| Holding (e : Event) (obj : option IPPool) (current : bool).

Record Loop : Type := mkLoop {
  store : gmap string (Origin * IPPool);
  notifying : option Event;          (* the informer is about to queue it *)
  queue : Queue;
  worker : WorkerState;
  leasing : AgentState;
}.

(** [NewController] on the maps of [NewAgent], before the first list. *)
Definition NewLoop : Loop := mkLoop ∅ None NewQueue Waiting NewAgentState.

(** The informer replaces the object under [k]. *)
Definition replaced (k : string) (w : WorkerState) : WorkerState :=
  match w with
  | Holding e obj _ => if String.eqb (key e) k then Holding e obj false else w
  | _ => w
  end.

Definition set_store (σ : Loop) (k : string) (entry : option (Origin * IPPool)) (n : option Event) : Loop :=
  mkLoop (match entry with Some x => <[k := x]> (store σ) | None => delete k (store σ) end) n
    (queue σ) (replaced k (worker σ)) (leasing σ).

(** An object that is new to the store: there is no [AddFunc]. *)
Definition OnAdd (new : IPPool) (σ : Loop) : option Loop :=
  match notifying σ, MetaNamespaceKeyFunc new with
  | None, inl k => match store σ !! k with
                   | None => Some (set_store σ k (Some (Listed, new)) None)
                   | Some _ => None
                   end
  | _, _ => None
  end.

Definition OnUpdate (new : IPPool) (σ : Loop) : option Loop :=
  match notifying σ, MetaNamespaceKeyFunc new with
  | None, inl k => match store σ !! k with
                   | Some _ => Some (set_store σ k (Some (Updated, new)) (UpdateFunc MetaNamespaceKeyFunc new))
                   | None => None
                   end
  | _, _ => None
  end.

(** There is no [DeleteFunc] either. *)
Definition OnDelete (k : string) (σ : Loop) : option Loop :=
  match notifying σ with
  | None => Some (set_store σ k None None)
  | Some _ => None
  end.

(** [queue.Add] at the end of [UpdateFunc]. *)
Definition notify (σ : Loop) : option Loop :=
  match notifying σ with
  | Some e => Some (mkLoop (store σ) None (queue_Add e (queue σ)) (worker σ) (leasing σ))
  | None => None
  end.

(** [processNextItem], in three pieces. *)
Definition take (σ : Loop) : option Loop :=
  match worker σ, queue_Get (queue σ) with
  | Waiting, Some (e, q) => Some (mkLoop (store σ) (notifying σ) q (Handling e) (leasing σ))
  | _, _ => None
  end.

Definition fetch (σ : Loop) : option Loop :=
  match worker σ with
  | Handling e => Some (mkLoop (store σ) (notifying σ) (queue σ) (Holding e (snd <$> store σ !! key e) true) (leasing σ))
  | _ => None
  end.

Definition queue_call (c : QueueCall) (q : Queue) : Queue :=
  match c with
  | Forget e => queue_Forget e q
  | AddRateLimited e => queue_AddRateLimited e q
  | Done e => queue_Done e q
  end.

Definition handle (seed1 seed2 : nat) (σ : Loop) : option Loop :=
  match worker σ with
  | Holding e obj current =>
      match sync LookupIP seed1 seed2 (poolRef_Name agent) (inl obj) e (leasing σ) with
      | (leasing', Val (stored, err)) =>
          let store' := match stored with
                        | inl (Some p) => if current : bool then alter (λ x, (fst x, p)) (key e) (store σ) else store σ
                        | _ => store σ
                        end in
          let calls := handleErr (queue_NumRequeues e (queue σ)) err e ++ [Done e] in
          Some (mkLoop store' (notifying σ) (foldl (λ q c, queue_call c q) (queue σ) calls) Waiting leasing')
      | _ => None
      end
  | _ => None
  end.

(** ** Runs *)

(** What the informer's list and watch deliver: pools of the agent's namespace. *)
Definition delivered (new : IPPool) : Prop := Namespace (pool_Meta new) = poolRef_Namespace agent.

(** The API: pools appear, change and disappear. *)
Inductive heard (added changed : IPPool → Prop) (σ σ' : Loop) : Prop :=
| heard_add new : delivered new → added new → OnAdd new σ = Some σ' → heard added changed σ σ'
| heard_update new : delivered new → changed new → OnUpdate new σ = Some σ' → heard added changed σ σ'
| heard_delete k : OnDelete k σ = Some σ' → heard added changed σ σ'.

Inductive works (σ σ' : Loop) : Prop :=
| works_notify : notify σ = Some σ' → works σ σ'
| works_take : take σ = Some σ' → works σ σ'
| works_fetch : fetch σ = Some σ' → works σ σ'
| works_handle seed1 seed2 : handle seed1 seed2 σ = Some σ' → works σ σ'.

Definition loop_step (added changed : IPPool → Prop) (σ σ' : Loop) : Prop := heard added changed σ σ' ∨ works σ σ'.

Definition at_rest (σ : Loop) : Prop := notifying σ = None ∧ worker σ = Waiting ∧ waiting (queue σ) = [].

(** ** Pools whose leases do not move *)

(** The store key of the agent's pool. *)
Definition target : string := poolRef_Namespace agent +:+ "/" +:+ poolRef_Name agent.
Definition ours (p : IPPool) : Prop := Name (pool_Meta p) = poolRef_Name agent.

Definition lease_of (p : IPPool) (ip mac : string) : Prop :=
  ∃ st, IPv4 (pool_Status p) = Some st ∧ filterExcludedAndReserved (or_empty (st_Allocated st)) !! ip = Some mac.

(** The versions of the agent's pool agree on whose an address is; their leases name
    distinct, valid MACs and IPv4 addresses. *)
Record steady (owner : string → string) (p : IPPool) : Prop := {
  steady_owner ip mac : lease_of p ip mac → owner ip = mac;
  steady_keys ip mac : lease_of p ip mac → is_Some (Dhcp.ParseMAC mac) ∧ ∃ n, u32 n ∧ ip = v4str n;
  steady_inj ip ip' mac : lease_of p ip mac → lease_of p ip' mac → ip = ip';
  steady_cidr : (ParseCIDR (CIDR (ipv4Config (pool_Spec p)))).2 = None;
}.

Definition serving (p : IPPool) : Prop :=
  IsTrue CacheReady (pool_Conditions (pool_Status p)) = true ∧ is_Some (IPv4 (pool_Status p)).

Definition follows (s : AgentState) (p : IPPool) : Prop :=
  serving p → ∀ ip mac, poolCache s !! ip = Some mac ↔ lease_of p ip mac.

(** A pool object the agent can work with, as far as it is the agent's. *)
Definition steady_if_ours (owner : string → string) (p : IPPool) : Prop := ours p → steady owner p.

(** ** What one update does *)

Section steady.
Context (owner : string → string).

(** The agent is in step with some version of its pool. *)
Record in_step (s : AgentState) : Prop := {
  step_synced : synced s;
  step_owner ip mac : poolCache s !! ip = Some mac → owner ip = mac;
}.

(** The object the worker leaves in the store says the same. *)
Definition same_pool (p p' : IPPool) : Prop :=
  pool_Meta p' = pool_Meta p ∧ pool_Spec p' = pool_Spec p ∧
  (serving p' ↔ serving p) ∧ ∀ ip mac, lease_of p' ip mac ↔ lease_of p ip mac.

Lemma same_pool_refl p : same_pool p p.
Proof using Type. done. Qed.

Lemma same_pool_steady p p' : same_pool p p' → steady owner p → steady owner p'.
Proof using Type.
  intros (_ & Hspec & _ & Hl) [Ho Hk Hi Hc]. constructor.
  - intros ip mac. rewrite Hl. apply Ho.
  - intros ip mac. rewrite Hl. apply Hk.
  - intros ip ip' mac. rewrite !Hl. apply Hi.
  - by rewrite Hspec.
Qed.

Lemma same_pool_follows s p p' : same_pool p p' → follows s p → follows s p'.
Proof using Type. intros (_ & _ & Hs & Hl) Hf Hserv ip mac. rewrite Hl. by apply Hf, Hs. Qed.

Lemma filter_filtered (m : gmap string string) : filterExcludedAndReserved (filterExcludedAndReserved m) = filterExcludedAndReserved m.
Proof using Type. unfold filterExcludedAndReserved. by rewrite map_filter_filter_r by naive_solver. Qed.

Lemma Update_steady seed1 seed2 p s :
  steady owner p → in_step s →
  ∃ s' p' err, Update LookupIP seed1 seed2 p s = (s', Val (p', err)) ∧ in_step s' ∧ follows s' p ∧ same_pool p p'.
Proof using Type.
  intros Hst [Hs Ho]. unfold Update.
  destruct (IsTrue CacheReady _) eqn:Hready; [|exists s, p, None; split; [done|]; split; [by constructor|]; split; [intros [? _]; congruence|done]].
  destruct (IPv4 (pool_Status p)) as [st|] eqn:Hv4; [|exists s, p, None; split; [done|]; split; [by constructor|]; split; [by intros [_ [? ?]]; congruence|done]].
  cbn [negb]. set (latest := filterExcludedAndReserved (or_empty (st_Allocated st))).
  assert (Hl : ∀ ip mac, lease_of p ip mac ↔ latest !! ip = Some mac).
  { intros ip mac. unfold lease_of. rewrite Hv4. split; [by intros (? & [= <-] & ?)|by exists st]. }
  destruct Hst as [Howner Hkeys Hinj Hcidr].
  destruct (wp_run _ _ _ (wp_update_entries LookupIP seed1 seed2 latest (ipv4Config (pool_Spec p)) s Hs
    ltac:(intros ip mac mac' Hc Hlat%Hl; apply Ho in Hc; apply Howner in Hlat; congruence)
    ltac:(intros ip mac Hlat%Hl; by apply (Hkeys ip))
    ltac:(intros ip1 ip2 mac Hl1%Hl Hl2%Hl; by apply (Hinj ip1 ip2 mac)) Hcidr)) as (s' & err & Hrun & -> & Hpc & Hs').
  eexists s', _, None. split; [unfold mbind, GoM_bind; by rewrite Hrun|]. split; [|split].
  - constructor; [done|]. intros ip mac. rewrite Hpc, <-Hl. apply Howner.
  - intros _ ip mac. by rewrite Hpc, Hl.
  - split; [done|]. split; [done|]. split.
    + unfold serving. cbn. rewrite Hv4. split; intros [? _]; (split; [done|by eexists]).
    + intros ip mac. rewrite Hl. unfold lease_of. cbn. split.
      * intros (st' & [= <-] & Hlook). cbn in Hlook. destruct (st_Allocated st) as [m|] eqn:Hm; [|done].
        cbn in Hlook. unfold latest in *. cbn in *. by rewrite filter_filtered in Hlook.
      * intros Hlook. eexists. split; [done|]. cbn. destruct (st_Allocated st) as [m|] eqn:Hm; [|done].
        cbn. unfold latest in *. cbn in *. by rewrite filter_filtered.
Qed.

(** ** The invariant *)

Definition pool_key (name : string) : string := poolRef_Namespace agent +:+ "/" +:+ name.

Lemma pool_key_inj name name' : pool_key name = pool_key name' → name = name'.
Proof using Type.
  unfold pool_key. generalize (poolRef_Namespace agent). intros ns. induction ns as [|c ns IH].
  - rewrite !string_app_nil_l, !string_app_cons, !string_app_nil_l. by intros [= ->].
  - rewrite !string_app_cons. intros [= Heq]. by apply IH.
Qed.

Definition handled (w : WorkerState) : option Event :=
  match w with
  | Waiting => None
  | Handling e | Holding e _ _ => Some e
  end.

(** An event on its way: it will make the worker fetch what the store holds now. *)
Definition owed (σ : Loop) : Prop :=
  ∃ e, key e = target ∧ (notifying σ = Some e ∨ e ∈ waiting (queue σ) ∨ worker σ = Handling e ∨
                         ∃ obj, worker σ = Holding e obj true).

Definition well_kept (k : string) (p : IPPool) : Prop :=
  delivered p ∧ k = pool_key (Name (pool_Meta p)) ∧ (ours p → steady owner p).

Definition well_formed_event (e : Event) : Prop := action e = UPDATE ∧ key e = pool_key (poolName e).

Record loop_inv (σ : Loop) : Prop := {
  inv_step : in_step (leasing σ);
  inv_store k o p : store σ !! k = Some (o, p) → well_kept k p;
  inv_held e p c : worker σ = Holding e (Some p) c → well_kept (key e) p;
  inv_current e obj : worker σ = Holding e obj true → obj = snd <$> store σ !! key e;
  inv_notifying e : notifying σ = Some e → well_formed_event e;
  inv_waiting e : e ∈ waiting (queue σ) → well_formed_event e;
  inv_handled e : handled (worker σ) = Some e → well_formed_event e;
  inv_processing e : e ∈ processing (queue σ) → handled (worker σ) = Some e;
  inv_news p : store σ !! target = Some (Updated, p) →
    owed σ ∨ follows (leasing σ) p ∧ ∀ e obj c, worker σ = Holding e obj c → key e ≠ target;
}.

Lemma loop_inv_start : loop_inv NewLoop.
Proof using Type.
  constructor; cbn; try done.
  - intros e. rewrite waiting_new. by intros ?%elem_of_nil.
  - intros e. rewrite processing_new. by intros ?%elem_of_nil.
Qed.

(** [sync] on an event the informer queued. *)
Lemma sync_event seed1 seed2 e obj s :
  action e = UPDATE → (∀ p, obj = Some p → poolName e = poolRef_Name agent → steady owner p) → in_step s →
  ∃ s' obj', sync LookupIP seed1 seed2 (poolRef_Name agent) (inl obj) e s = (s', Val (inl obj', None)) ∧ in_step s' ∧
    match obj with
    | Some p => if decide (poolName e = poolRef_Name agent) then ∃ p', obj' = Some p' ∧ same_pool p p' ∧ follows s' p
                else s' = s ∧ obj' = Some p
    | None => s' = s ∧ obj' = None
    end.
Proof using Type.
  intros He Hsteady Hs. unfold sync. rewrite He. destruct obj as [p|].
  - rewrite bool_decide_false by done. cbn [andb]. case_decide as Hn.
    + rewrite Hn, String.eqb_refl. cbn [negb].
      destruct (Update_steady seed1 seed2 p s) as (s' & p' & err & Hrun & Hs' & Hf & Hsame); [by apply Hsteady|done|].
      exists s', (Some p'). split; [unfold mbind, GoM_bind; by rewrite Hrun|]. split; [done|]. by exists p'.
    + destruct (String.eqb_spec (poolName e) (poolRef_Name agent)); [done|]. by exists s, (Some p).
  - rewrite bool_decide_true by done. by exists s, None.
Qed.

(** *** The informer *)

Lemma replaced_handled k w : handled (replaced k w) = handled w.
Proof using Type. destruct w as [| |e obj c]; [done..|]. cbn. by case_match. Qed.

(** The informer writes under [k] and, after an update, is about to queue its event. *)
Lemma loop_inv_set_store σ k entry n :
  loop_inv σ → notifying σ = None → (∀ o p, entry = Some (o, p) → well_kept k p) →
  (∀ e, n = Some e → well_formed_event e) →
  (k = target → ∀ p, entry = Some (Updated, p) → ∃ e, n = Some e ∧ key e = target) →
  loop_inv (set_store σ k entry n).
Proof using Type.
  intros [Hstep Hstore Hheld Hcur Hnot Hwait Hhand Hproc Hnews] Hn Hentry Hevent Htold.
  assert (Hlook : ∀ k', store (set_store σ k entry n) !! k' = if decide (k' = k) then entry else store σ !! k').
  { intros k'. cbn. destruct entry as [x|]; case_decide as Hk; subst;
      by rewrite ?lookup_insert_eq, ?lookup_delete_eq, ?lookup_insert_ne, ?lookup_delete_ne. }
  assert (Hrep : ∀ e obj c, worker (set_store σ k entry n) = Holding e obj c →
            (key e = k ∧ c = false ∧ ∃ c', worker σ = Holding e obj c') ∨ key e ≠ k ∧ worker σ = Holding e obj c).
  { intros e obj c. cbn. destruct (worker σ) as [| |e' obj' c']; [done..|]. cbn.
    destruct (String.eqb_spec (key e') k); intros [= <- <- <-]; [left|right]; eauto. }
  constructor; try done.
  - intros k' o p. rewrite Hlook. case_decide as Hk; [intros ->; subst; by eapply Hentry|apply Hstore].
  - intros e p c [(_ & _ & c' & Hw)|[_ Hw]]%Hrep; by eapply Hheld.
  - intros e obj [(_ & ? & _)|[Hk Hw]]%Hrep; [done|]. rewrite Hlook, decide_False by done. by apply Hcur.
  - intros e. cbn. rewrite replaced_handled. apply Hhand.
  - intros e He. cbn. rewrite replaced_handled. by apply Hproc.
  - intros p. rewrite Hlook. case_decide as Hk.
    + intros ->. left. destruct (Htold (eq_sym Hk) p eq_refl) as (e & -> & He). exists e. by split; [|left].
    + intros Hp. destruct (Hnews p Hp) as [(e & He & Hcase)|[Hf Hno]].
      * left. exists e. split; [done|]. cbn [notifying queue worker set_store].
        destruct Hcase as [?|[?|[Hw|[obj Hw]]]]; [congruence|by right; left| |]; right; right; rewrite Hw; cbn; [by left|right].
        exists obj. by destruct (String.eqb_spec (key e) k); [congruence|].
      * right. split; [done|]. intros e obj c [(? & _ & c' & Hw)|[_ Hw]]%Hrep; by eapply Hno.
Qed.

Lemma MetaNamespaceKey p : poolRef_Namespace agent ≠ EmptyString → delivered p →
  MetaNamespaceKeyFunc p = inl (pool_key (Name (pool_Meta p))).
Proof using Type. intros Hns Hd. rewrite MetaNamespaceKeyFunc_spec by (by rewrite Hd). by rewrite Hd. Qed.

Lemma loop_inv_heard σ σ' :
  poolRef_Namespace agent ≠ EmptyString → loop_inv σ → heard (steady_if_ours owner) (steady_if_ours owner) σ σ' → loop_inv σ'.
Proof using Type.
  intros Hns Hinv Hh. destruct Hh as [new Hd Hst Hrun|new Hd Hst Hrun|k Hrun].
  - unfold OnAdd in Hrun. rewrite (MetaNamespaceKey new Hns Hd) in Hrun.
    destruct (notifying σ) eqn:Hn; [done|]. destruct (store σ !! _) as [old|]; [done|]. injection Hrun as <-.
    apply loop_inv_set_store; [done..| | |]; try done. by intros o p [= <- <-].
  - unfold OnUpdate, UpdateFunc in Hrun. rewrite (MetaNamespaceKey new Hns Hd) in Hrun.
    destruct (notifying σ) eqn:Hn; [done|]. destruct (store σ !! _) as [old|]; [|done]. injection Hrun as <-.
    apply loop_inv_set_store; [done..| | |].
    + by intros o p [= <- <-].
    + by intros e [= <-].
    + intros Hk p _. by eexists.
  - unfold OnDelete in Hrun. destruct (notifying σ) eqn:Hn; [done|]. injection Hrun as <-.
    by apply loop_inv_set_store.
Qed.

(** *** The worker *)

Lemma loop_inv_notify σ σ' : loop_inv σ → notify σ = Some σ' → loop_inv σ'.
Proof using Type.
  intros [Hstep Hstore Hheld Hcur Hnot Hwait Hhand Hproc Hnews] Hrun. unfold notify in Hrun.
  destruct (notifying σ) as [e|] eqn:Hn; [|done]. injection Hrun as <-.
  assert (Hin : ∀ e', e' ∈ waiting (queue_Add e (queue σ)) ↔ e' = e ∨ e' ∈ waiting (queue σ)).
  { intros e'. rewrite waiting_Add. case_bool_decide as He; [|by rewrite elem_of_cons]. split; [by right|by intros [->|?]]. }
  constructor; cbn [store notifying queue worker leasing]; try done.
  - intros e' [->|He']%Hin; [by apply Hnot|by apply Hwait].
  - intros e'. rewrite processing_Add. apply Hproc.
  - intros p Hp. destruct (Hnews p Hp) as [(e' & He' & Hcase)|?]; [left|by right]. exists e'. split; [done|].
    cbn [store notifying queue worker]. rewrite Hin, Hn in *. destruct Hcase as [[= ->]|Hcase]; [by right; left; left|right].
    destruct Hcase as [?|?]; [left; by right|by right].
Qed.

Lemma loop_inv_take σ σ' : loop_inv σ → take σ = Some σ' → loop_inv σ'.
Proof using Type.
  intros [Hstep Hstore Hheld Hcur Hnot Hwait Hhand Hproc Hnews] Hrun. unfold take in Hrun.
  destruct (worker σ) eqn:Hw; [|done..]. destruct (queue_Get (queue σ)) as [[e q]|] eqn:Hget; [|done].
  injection Hrun as <-. destruct (Get_Some _ _ _ Hget) as [Hwq Hpq].
  assert (Hin : ∀ e', e' ∈ waiting (queue σ) ↔ e' = e ∨ e' ∈ waiting q) by (intros e'; by rewrite Hwq, elem_of_cons).
  constructor; cbn [store notifying queue worker leasing handled]; try done.
  - intros e' He'. apply Hwait, Hin. by right.
  - intros e' [= <-]. apply Hwait, Hin. by left.
  - intros e'. rewrite Hpq, elem_of_cons. intros [->|He']; [done|]. by apply Hproc in He'; rewrite ?Hw in He'.
  - intros p Hp. destruct (Hnews p Hp) as [(e' & He' & Hcase)|[Hf _]]; [left|by right].
    exists e'. split; [done|]. cbn [notifying queue worker].
    destruct Hcase as [?|[[->|?]%Hin|[?|[obj ?]]]]; [by left|right; right; by left|right; by left|congruence..].
Qed.

Lemma loop_inv_fetch σ σ' : loop_inv σ → fetch σ = Some σ' → loop_inv σ'.
Proof using Type.
  intros [Hstep Hstore Hheld Hcur Hnot Hwait Hhand Hproc Hnews] Hrun. unfold fetch in Hrun.
  destruct (worker σ) as [|e|] eqn:Hw; [done| |done]. injection Hrun as <-.
  constructor; cbn [store notifying queue worker leasing handled]; try done.
  - intros e' p c [= <- Hp <-]. apply fmap_Some in Hp as ([o p'] & Hp & ->). by eapply Hstore.
  - by intros e' obj [= <- <-].
  - intros p Hp. destruct (Hnews p Hp) as [(e' & He' & Hcase)|[Hf Hno]].
    + left. exists e'. split; [done|]. cbn [notifying queue worker].
      rewrite Hw in Hcase. destruct Hcase as [?|[?|[[= ->]|[obj ?]]]]; [by left|right; by left| |done]. right. right. right. by eexists.
    + destruct (decide (key e = target)) as [He|He].
      * left. exists e. split; [done|]. cbn [worker]. right. right. right. by eexists.
      * right. split; [done|]. by intros e' obj c [= <- _ _].
Qed.

(** The worker finishes with an event: it never gets stuck, and if it held the stored object
    of the agent's pool the lease store now follows it. *)
Lemma handle_event σ seed1 seed2 e obj c :
  loop_inv σ → worker σ = Holding e obj c →
  ∃ s' store', handle seed1 seed2 σ =
      Some (mkLoop store' (notifying σ) (queue_Done e (queue_Forget e (queue σ))) Waiting s') ∧
    in_step s' ∧
    (∀ k o p', store' !! k = Some (o, p') → ∃ p, store σ !! k = Some (o, p) ∧ same_pool p p') ∧
    (key e = target → c = true → ∀ o p', store' !! target = Some (o, p') → follows s' p') ∧
    (key e ≠ target → s' = leasing σ).
Proof using Type.
  intros Hinv Hw. destruct (inv_handled σ Hinv e) as [Hact Hkey]; [by rewrite Hw|].
  assert (Hours : poolName e = poolRef_Name agent ↔ key e = target).
  { rewrite Hkey. split; [by intros ->|apply pool_key_inj]. }
  destruct (sync_event seed1 seed2 e obj (leasing σ) Hact) as (s' & obj' & Hrun & Hs' & Hobj); [|apply (inv_step σ Hinv)|].
  { intros p -> Hn. destruct (inv_held σ Hinv e p c Hw) as (_ & Hk & Hsteady). apply Hsteady. unfold ours.
    rewrite Hkey in Hk. apply pool_key_inj in Hk. congruence. }
  assert (Hsame : ∀ p, obj = Some p → ∃ p', obj' = Some p' ∧ same_pool p p').
  { intros p ->. case_decide; [destruct Hobj as (p' & ? & ? & _)|destruct Hobj as [_ ->]]; eauto using same_pool_refl. }
  set (store' := match obj' with
                 | Some p => if c : bool then alter (λ x, (x.1, p)) (key e) (store σ) else store σ
                 | None => store σ
                 end).
  exists s', store'. split; [unfold handle; rewrite Hw, Hrun; by destruct obj'|]. split; [done|].
  assert (Hback : ∀ k o p', store' !! k = Some (o, p') → ∃ p, store σ !! k = Some (o, p) ∧ same_pool p p' ∧
            (key e = k → c = true → obj = Some p ∧ obj' = Some p')).
  { intros k o p' Hl. unfold store' in Hl.
    destruct c; [|by exists p'; destruct obj'; eauto using same_pool_refl].
    pose proof (inv_current σ Hinv e obj Hw) as Hcur. destruct obj as [p|].
    - destruct (Hsame p eq_refl) as (p'' & -> & Hpp). symmetry in Hcur. apply fmap_Some in Hcur as ([o1 p1] & Hst & ->).
      apply lookup_alter_Some in Hl as [(<- & [o2 p2] & Hst2 & [= -> ->])|[Hne Hl]].
      + rewrite Hst in Hst2. injection Hst2 as <- <-. by exists p1.
      + exists p'. split; [done|]. by split; [apply same_pool_refl|].
    - destruct obj' as [p''|]; [by destruct Hobj|]. exists p'. split; [done|]. split; [apply same_pool_refl|].
      intros <- _. by rewrite Hl in Hcur. }
  split; [|split].
  - intros k o p' Hl. destruct (Hback k o p' Hl) as (p & ? & ? & _). eauto.
  - intros He -> o p' Hl. destruct (Hback _ _ _ Hl) as (p & _ & Hpp & Hobjs). destruct (Hobjs He eq_refl) as [-> _].
    rewrite decide_True in Hobj by by apply Hours. destruct Hobj as (p2 & _ & _ & Hf). by eapply same_pool_follows.
  - intros He. destruct obj as [p|]; [|by destruct Hobj]. rewrite decide_False in Hobj by (by intros ?%Hours). by destruct Hobj.
Qed.

Lemma loop_inv_handle σ seed1 seed2 σ' : loop_inv σ → handle seed1 seed2 σ = Some σ' → loop_inv σ'.
Proof using Type.
  intros Hinv Hrun. destruct (worker σ) as [|e|e obj c] eqn:Hw; [by unfold handle in Hrun; rewrite Hw in Hrun..|].
  destruct (handle_event σ seed1 seed2 e obj c Hinv Hw) as (s' & store' & Hrun' & Hs' & Hback & Hdone & Hother).
  rewrite Hrun' in Hrun. injection Hrun as <-.
  destruct Hinv as [Hstep Hstore Hheld Hcur Hnot Hwait Hhand Hproc Hnews].
  assert (Hin : ∀ e', e' ∈ waiting (queue_Done e (queue_Forget e (queue σ))) ↔ e' ∈ waiting (queue σ)).
  { intros e'. by rewrite waiting_Done, waiting_Forget. }
  constructor; cbn [store notifying queue worker leasing handled]; try done.
  - intros k o p' Hl. destruct (Hback k o p' Hl) as (p & Hp & Hpp). destruct (Hstore k o p Hp) as (Hd & Hk & Hst).
    pose proof Hpp as (Hmeta & _). split; [unfold delivered; by rewrite Hmeta|]. split; [by rewrite Hmeta|].
    unfold ours. rewrite Hmeta. intros Ho. by apply (same_pool_steady p), Hst.
  - intros e' He'%Hin. by apply Hwait.
  - intros e'. rewrite processing_Done, processing_Forget. intros [He' Hne]. apply Hproc in He'. rewrite Hw in He'. cbn in He'. congruence.
  - intros p' Hp'. destruct (decide (key e = target)) as [He|He].
    + destruct c; [right; by split; [eapply Hdone|]|left]. destruct (Hback _ _ _ Hp') as (p & Hp & _).
      destruct (Hnews p Hp) as [(e' & He' & Hcase)|[_ Hno]]; [|by destruct (Hno _ _ _ Hw)].
      exists e'. split; [done|]. cbn [notifying queue worker]. rewrite Hin, Hw in *. destruct Hcase as [?|[?|[?|[? ?]]]]; try done; [by left|by right; left].
    + destruct (Hback _ _ _ Hp') as (p & Hp & Hpp). destruct (Hnews p Hp) as [(e' & He' & Hcase)|[Hf _]].
      * left. exists e'. split; [done|]. cbn [notifying queue worker]. rewrite Hin, Hw in *.
        destruct Hcase as [?|[?|[?|[? [= -> _]]]]]; [by left|by right; left|done..].
      * right. split; [|done]. rewrite Hother by done. by eapply same_pool_follows.
Qed.

Lemma loop_inv_reachable σ :
  poolRef_Namespace agent ≠ EmptyString → rtc (loop_step (steady_if_ours owner) (steady_if_ours owner)) NewLoop σ → loop_inv σ.
Proof using Type.
  intros Hns. revert σ. apply (rtc_ind_r loop_inv); [apply loop_inv_start|]. intros σ1 σ2 _ Hstep IH.
  destruct Hstep as [Hh|[Hw|Hw|Hw|seed1 seed2 Hw]].
  - by eapply loop_inv_heard.
  - by eapply loop_inv_notify.
  - by eapply loop_inv_take.
  - by eapply loop_inv_fetch.
  - by eapply loop_inv_handle.
Qed.

(** *** Coming to rest *)

(** What the goroutines have left to do. *)
Definition left_to_do (σ : Loop) : nat :=
  (if notifying σ is Some _ then 4 else 0) + 3 * length (waiting (queue σ)) +
  match worker σ with Waiting => 0 | Handling _ => 2 | Holding _ _ _ => 1 end.

Lemma works_less σ σ' : loop_inv σ → works σ σ' → left_to_do σ' < left_to_do σ.
Proof using Type.
  intros Hinv [Hw|Hw|Hw|seed1 seed2 Hw]; unfold left_to_do.
  - unfold notify in Hw. destruct (notifying σ) as [e|]; [|done]. injection Hw as <-. cbn [store notifying queue worker].
    pose proof (Permutation_length (waiting_Add e (queue σ))) as Hl. case_bool_decide; cbn in Hl; rewrite Hl; lia.
  - unfold take in Hw. destruct (worker σ); [|done..]. destruct (queue_Get (queue σ)) as [[e q]|] eqn:Hg; [|done].
    injection Hw as <-. cbn [store notifying queue worker]. destruct (Get_Some _ _ _ Hg) as [Hl%Permutation_length _]. cbn in Hl. lia.
  - unfold fetch in Hw. destruct (worker σ); [done| |done]. injection Hw as <-. cbn [store notifying queue worker]. lia.
  - destruct (worker σ) as [|e|e obj c] eqn:Hwk; [by unfold handle in Hw; rewrite Hwk in Hw..|].
    destruct (handle_event σ seed1 seed2 e obj c Hinv Hwk) as (s' & store' & Hrun & _). rewrite Hrun in Hw. injection Hw as <-.
    cbn [store notifying queue worker]. rewrite waiting_Done, waiting_Forget. lia.
Qed.

(** Somebody can always go on until everything is done. *)
Lemma works_or_rest σ : loop_inv σ → at_rest σ ∨ ∃ σ', works σ σ'.
Proof using Type.
  intros Hinv. destruct (notifying σ) as [e|] eqn:Hn.
  { right. eexists. apply works_notify. unfold notify. by rewrite Hn. }
  destruct (worker σ) as [|e|e obj c] eqn:Hw.
  - destruct (queue_Get (queue σ)) as [[e q]|] eqn:Hg.
    + right. eexists. apply works_take. unfold take. by rewrite Hw, Hg.
    + left. split; [done|]. split; [done|]. destruct (waiting (queue σ)) as [|e l] eqn:Hl; [done|].
      assert (He : e ∈ processing (queue σ)) by (apply (Get_None _ _ Hg); rewrite Hl; by left).
      apply (inv_processing σ Hinv) in He. by rewrite Hw in He.
  - right. eexists. apply works_fetch. unfold fetch. by rewrite Hw.
  - right. destruct (handle_event σ 0 0 e obj c Hinv Hw) as (s' & store' & Hrun & _). eexists. by apply (works_handle _ _ 0 0).
Qed.
End steady.

Lemma worked_reachable added changed σ σ' : rtc (loop_step added changed) NewLoop σ → rtc works σ σ' → rtc (loop_step added changed) NewLoop σ'.
Proof using Type.
  intros Hr Hw. etrans; [exact Hr|]. eapply rtc_subrel; [|exact Hw]. intros σ1 σ2 Hstep. by right.
Qed.

(** ** An agent whose pool is not updated *)

Record untouched (σ : Loop) : Prop := {
  unt_state : leasing σ = NewAgentState;
  unt_events e : notifying σ = Some e ∨ e ∈ waiting (queue σ) ∨ handled (worker σ) = Some e →
    action e = UPDATE ∧ poolName e ≠ poolRef_Name agent;
}.

Lemma untouched_start : untouched NewLoop.
Proof using Type. constructor; [done|]. intros e. cbn. rewrite waiting_new. by intros [?|[?%elem_of_nil|?]]. Qed.

Lemma untouched_set_store σ k entry n :
  untouched σ → (∀ e, n = Some e → action e = UPDATE ∧ poolName e ≠ poolRef_Name agent) → untouched (set_store σ k entry n).
Proof using Type.
  intros [Hs He] Hn. constructor; [done|]. intros e. cbn [notifying queue worker set_store]. rewrite replaced_handled.
  intros [?|?]; [by apply Hn|]. apply He. by right.
Qed.

Lemma untouched_heard added σ σ' : untouched σ → heard added (λ p, ¬ ours p) σ σ' → untouched σ'.
Proof using Type.
  intros Hu [new _ _ Hrun|new _ Hours Hrun|k Hrun].
  - unfold OnAdd in Hrun. repeat case_match; try done. injection Hrun as <-. by apply untouched_set_store.
  - unfold OnUpdate, UpdateFunc in Hrun. repeat case_match; try done. injection Hrun as <-.
    apply untouched_set_store; [done|]. by intros e [= <-].
  - unfold OnDelete in Hrun. case_match; [done|]. injection Hrun as <-. by apply untouched_set_store.
Qed.

Lemma untouched_works σ σ' : untouched σ → works σ σ' → untouched σ'.
Proof using Type.
  intros [Hs He] [Hw|Hw|Hw|seed1 seed2 Hw].
  - unfold notify in Hw. destruct (notifying σ) as [e|] eqn:Hn; [|done]. injection Hw as <-. constructor; [done|].
    intros e'. cbn [notifying queue worker]. destruct (decide (e' = e)) as [->|Hne]; [intros _; apply He; by left|].
    rewrite waiting_Add. case_bool_decide; rewrite ?elem_of_cons; intros [?|[?|?]]; try done; apply He; by naive_solver.
  - unfold take in Hw. destruct (worker σ) eqn:Hwk; [|done..]. destruct (queue_Get (queue σ)) as [[e q]|] eqn:Hg; [|done].
    injection Hw as <-. destruct (Get_Some _ _ _ Hg) as [Hq _]. constructor; [done|]. intros e'. cbn [notifying queue worker handled].
    intros Hcase. apply He. rewrite Hq, elem_of_cons. destruct Hcase as [?|[?|[= <-]]]; tauto.
  - unfold fetch in Hw. destruct (worker σ) eqn:Hwk; [done| |done]. by injection Hw as <-.
  - destruct (worker σ) as [|e|e obj c] eqn:Hwk; [by unfold handle in Hw; rewrite Hwk in Hw..|].
    destruct (He e) as [Hact Hname]; [by right; right|]. unfold handle in Hw. rewrite Hwk in Hw.
    assert (Hsync : sync LookupIP seed1 seed2 (poolRef_Name agent) (inl obj) e (leasing σ) = (leasing σ, Val (inl obj, None))).
    { unfold sync. rewrite Hact. destruct (String.eqb_spec (poolName e) (poolRef_Name agent)); [done|]. by destruct obj. }
    rewrite Hsync in Hw. injection Hw as <-. constructor; [done|]. intros e'. cbn [notifying queue worker handled].
    cbn [handleErr app foldl queue_call]. rewrite waiting_Done, waiting_Forget. intros [?|[?|?]]; [..|done]; apply He; tauto.
Qed.

(** ** The DHCP server *)

Section served.
Context `{Dhcp.DHCPOptions} (NewReplyFromRequest : Dhcp.DHCPv4 → result Dhcp.DHCPv4).

(** The server answers the holders of the pool's leases with their addresses, and nobody
    else. *)
Definition serves (s : AgentState) (p : IPPool) : Prop :=
  (∀ ip mac msg base, lease_of p ip mac → asks mac msg → NewReplyFromRequest msg = inl base →
     ∃ r, Dhcp.dhcpHandler NewReplyFromRequest (dhcpAllocator s) (Some msg) = Some r ∧ Dhcp.YourIPAddr r = ParseIP ip) ∧
  (∀ msg r, Dhcp.dhcpHandler NewReplyFromRequest (dhcpAllocator s) (Some msg) = Some r →
     ∃ ip, lease_of p ip (Dhcp.HardwareAddr_String (Dhcp.ClientHWAddr msg)) ∧ Dhcp.YourIPAddr r = ParseIP ip).

Lemma follows_serves owner s p : in_step owner s → steady owner p → follows s p → serving p → serves s p.
Proof using Type.
  intros [Hs _] [_ Hkeys Hinj Hcidr] Hf Hserv. pose proof (Hf Hserv) as Hcache. destruct Hserv as [Hready [st Hst]].
  assert (Hl : ∀ ip mac, lease_of p ip mac ↔ lease_record (records_of p) ip mac).
  { intros ip mac. rewrite <-(filtered_lease_record st p ip mac Hst). unfold lease_of.
    split; [intros (st' & Hst' & ?); congruence|by exists st]. }
  split.
  - intros ip mac msg base Hlease Hasks Hbase.
    destruct (served_record NewReplyFromRequest p s ip mac) as [Hserved _];
      [intros ip' mac'; by rewrite Hcache, Hl|done| |by apply Hl|by apply (Hserved msg base)].
    constructor; [done..| |].
    + intros ip' mac' Hr%Hl. by apply Hkeys.
    + intros ip1 ip2 mac' Hr1%Hl Hr2%Hl. by eapply Hinj.
  - intros msg r Hr.
    destruct (DhcpFacts.dhcpHandler_answerable _ _ _ _ Hr) as (l & base & _ & (_ & Hl' & _) & [[Hyour _] _ _ _ _ _ _ _ _ _ _]).
    destruct (synced_entry _ Hs _ _ Hl') as [ip Hip]. exists ip. split; [by apply Hcache|].
    destruct (synced_lease _ Hs _ _ Hip) as (l2 & Hl2 & Hcl). rewrite Hyour. congruence.
Qed.

(** C14: whatever the informer and the worker are in the middle of, once the
    API is quiet they come to rest after a bounded number of steps, never getting stuck,
    and then, if the pool has been updated since the informer listed it, the DHCP server
    answers exactly the holders of the leases in the pool's status, each with its address.
    Conditions: the pool is marked ready and has a status ([serving]), its versions are
    [steady]: an address keeps one MAC through the whole history
    ([mac_change_keeps_old_lease] otherwise), the MACs are valid and distinct, the CIDR is
    valid; and an interface is a holder under the text its hardware address prints as. *)
Theorem agent_follows_pool (owner : string → string) (σ : Loop) :
  poolRef_Namespace agent ≠ EmptyString →
  rtc (loop_step (steady_if_ours owner) (steady_if_ours owner)) NewLoop σ →
  (∀ n σ', nsteps works n σ σ' → n ≤ left_to_do σ) ∧
  (∀ σ', rtc works σ σ' → at_rest σ' ∨ ∃ σ'', works σ' σ'') ∧
  ∀ σ' p, rtc works σ σ' → at_rest σ' → store σ' !! target = Some (Updated, p) → serving p → serves (leasing σ') p.
Proof using Type.
  intros Hns Hr. split; [|split].
  - intros n. revert σ Hr. induction n as [|n IH]; intros σ Hr σ' Hsteps; [lia|].
    inversion Hsteps as [|? ? σ1 ? Hw Hrest]; subst.
    pose proof (works_less owner σ σ1 (loop_inv_reachable owner σ Hns Hr) Hw) as Hless.
    assert (n ≤ left_to_do σ1); [|lia]. apply (IH σ1) with σ'; [|done]. eapply worked_reachable; [exact Hr|by apply rtc_once].
  - intros σ' Hw. by eapply works_or_rest, loop_inv_reachable, worked_reachable.
  - intros σ' p Hw (Hn & Hwork & Hwait) Hp Hserv.
    pose proof (loop_inv_reachable owner σ' Hns (worked_reachable _ _ _ _ Hr Hw)) as Hinv.
    destruct (inv_news owner σ' Hinv p Hp) as [(e & _ & Hcase)|[Hf _]].
    + rewrite Hn, Hwork, Hwait in Hcase. destruct Hcase as [?|[?%elem_of_nil|[?|[? ?]]]]; done.
    + destruct (inv_store owner σ' Hinv _ _ _ Hp) as (_ & Hk & Hsteady).
      eapply follows_serves; [by apply inv_step|apply Hsteady|done..].
      unfold ours. symmetry. by apply pool_key_inj.
Qed.

(** C24: an agent is in step only after an update: one that has
    (re)started answers no message of anybody, whatever leases the status of its pool
    records and however often other pools change, until its own pool is updated. *)
Theorem restarted_agent_serves_nobody (σ : Loop) (msg : option Dhcp.DHCPv4) :
  rtc (loop_step (λ _, True) (λ p, ¬ ours p)) NewLoop σ →
  leasing σ = NewAgentState ∧ Dhcp.dhcpHandler NewReplyFromRequest (dhcpAllocator (leasing σ)) msg = None.
Proof using Type.
  assert (Hall : ∀ σ, rtc (loop_step (λ _, True) (λ p, ¬ ours p)) NewLoop σ → untouched σ).
  { apply (rtc_ind_r untouched); [apply untouched_start|]. intros σ1 σ2 _ [Hh|Hw] IH; [by eapply untouched_heard|by eapply untouched_works]. }
  intros Hr. pose proof (unt_state σ (Hall σ Hr)) as Hs. split; [done|]. rewrite Hs.
  destruct (Dhcp.dhcpHandler _ _ _) as [r|] eqn:Hrun; [|done]. destruct msg as [m|]; [|done].
  apply DhcpFacts.dhcpHandler_answerable in Hrun as (l & base & _ & (_ & Hl & _) & _).
  cbn in Hl. by rewrite lookup_empty in Hl.
Qed.
End served.
End agent_loop.

(** ** A concrete run *)

Import FakeKube.Demo.

Definition plain_queue : WorkQueue.
Proof.
  refine {|
    Queue := list Event * list Event;
    NewQueue := ([], []);
    queue_Add e q := if bool_decide (e ∈ q.1) then q else (e :: q.1, q.2);
    queue_Get q := match list_find (λ e, e ∉ q.2) q.1 with
                   | Some (i, e) => Some (e, (delete i q.1, e :: q.2))
                   | None => None
                   end;
    queue_Done e q := (q.1, filter (λ e', e' ≠ e) q.2);
    queue_Forget _ q := q;
    queue_AddRateLimited e q := if bool_decide (e ∈ q.1) then q else (e :: q.1, q.2);
    queue_NumRequeues _ _ := 0;
    waiting q := q.1;
    processing q := q.2;
  |}; try done.
  - intros e q. by case_bool_decide.
  - intros e q. by case_bool_decide.
  - intros q e q' Hget. destruct (list_find _ _) as [[i e']|] eqn:Hf; [|done]. injection Hget as <- <-.
    apply list_find_Some in Hf as (Hl & _). split; [|done]. by apply delete_Permutation.
  - intros q e Hget He. destruct (list_find _ _) as [[i e']|] eqn:Hf; [done|].
    apply list_find_None in Hf. rewrite Forall_forall in Hf. apply dec_stable, (Hf e He).
  - intros e q e'. cbn [snd]. rewrite list_elem_of_filter. tauto.
Defined.

Definition plain_keys : KeyLib.
Proof.
  refine {| MetaNamespaceKeyFunc p :=
    inl (if String.eqb (Namespace (pool_Meta p)) EmptyString then Name (pool_Meta p)
         else Namespace (pool_Meta p) +:+ "/" +:+ Name (pool_Meta p)) |}.
  intros p Hns. by destruct (String.eqb_spec (Namespace (pool_Meta p)) EmptyString).
Defined.

Definition demo_pod : Agent := mkAgent false "eth1" "default" "pool-1".
#[local] Existing Instance canonical_range.
#[local] Existing Instance plain_conditions.
#[local] Existing Instance plain_queue.
#[local] Existing Instance plain_keys.
#[local] Existing Instance DhcpFacts.map_options.

Definition after (f : Loop → option Loop) (σ : Loop) : Loop := default σ (f σ).
Lemma after_runs f σ : bool_decide (is_Some (f σ)) = true → f σ = Some (after f σ).
Proof. unfold after. by destruct (f σ). Qed.

Definition empty_version : IPPool := demo_pool_object ∅.
Definition leased_version : IPPool := demo_pool_object demo_allocated.
Definition demo_owner (ip : string) : string := default EmptyString (demo_allocated !! ip).

Lemma empty_steady : steady demo_owner empty_version.
Proof.
  assert (Hno : ∀ ip mac, ¬ lease_of empty_version ip mac).
  { intros ip mac (st & [= <-] & Hl). cbn in Hl. unfold filterExcludedAndReserved in Hl. by rewrite map_filter_empty, lookup_empty in Hl. }
  constructor; [by intros ip mac ?%Hno..| |by vm_compute]. by intros ip ip' mac ?%Hno.
Qed.

Lemma leased_steady : steady demo_owner leased_version.
Proof.
  assert (Hl : ∀ ip mac, lease_of leased_version ip mac →
    (ip = "192.168.0.10" ∧ mac = mac1) ∨ (ip = "192.168.0.11" ∧ mac = mac2)).
  { intros ip mac (st & [= <-] & Hl). by apply demo_allocated_entries. }
  constructor.
  - by intros ip mac [[-> ->]|[-> ->]]%Hl.
  - intros ip mac [[-> ->]|[-> ->]]%Hl; (split; [by eexists|]).
    + exists (demo_net + 10)%Z. split; by vm_compute.
    + exists (demo_net + 11)%Z. split; by vm_compute.
  - by intros ip ip' mac [[-> ->]|[-> ->]]%Hl [[-> ?]|[-> ?]]%Hl.
  - by vm_compute.
Qed.

(** The pool is listed without leases, is updated, and the worker takes the update over. *)
Definition run_1 : Loop := after (OnAdd empty_version) NewLoop.
Definition run_2 : Loop := after (OnUpdate leased_version) run_1.
Definition no_names (n : string) : result (list (list Z)) := inr (OtherError n).
Definition run_3 : Loop := after (handle no_names demo_pod 0 1) (after fetch (after take (after notify run_2))).

Lemma run_2_reached :
  rtc (loop_step no_names demo_pod (steady_if_ours demo_pod demo_owner) (steady_if_ours demo_pod demo_owner)) NewLoop run_2.
Proof.
  eapply rtc_l; [left; apply (heard_add _ _ _ _ _ empty_version); [done|intros _; apply empty_steady|by apply after_runs]|].
  apply rtc_once. left. apply (heard_update _ _ _ _ _ leased_version); [done|intros _; apply leased_steady|by apply after_runs].
Qed.

Lemma run_3_worked : rtc (works no_names demo_pod) run_2 run_3.
Proof.
  eapply rtc_l; [apply works_notify, after_runs; by vm_compute|].
  eapply rtc_l; [apply works_take, after_runs; by vm_compute|].
  eapply rtc_l; [apply works_fetch, after_runs; by vm_compute|].
  apply rtc_once. apply (works_handle _ _ _ _ 0 1), after_runs. by vm_compute.
Qed.

Lemma agent_follows_pool_witness :
  at_rest run_3 ∧ ∃ p, store run_3 !! target demo_pod = Some (Updated, p) ∧
    serves DhcpFacts.demo_NewReply (leasing run_3) p.
Proof.
  assert (Hrest : at_rest run_3) by (by vm_compute).
  split; [exact Hrest|]. eexists. split; [vm_compute; reflexivity|].
  refine (proj2 (proj2 (agent_follows_pool no_names demo_pod DhcpFacts.demo_NewReply demo_owner run_2 _ run_2_reached))
            run_3 _ run_3_worked Hrest _ _); [done|by vm_compute|].
  split; [by vm_compute|by eexists].
Defined.

(** The pool is listed with two leases. *)
Definition restarted : Loop := after (OnAdd leased_version) NewLoop.

Lemma restarted_agent_serves_nobody_witness :
  serving (snd (default (Listed, empty_version) (store restarted !! target demo_pod))) ∧
  lease_of leased_version "192.168.0.10" mac1 ∧
  Dhcp.dhcpHandler DhcpFacts.demo_NewReply (dhcpAllocator (leasing restarted)) (Some discover) = None.
Proof.
  split; [split; [by vm_compute|by eexists]|]. split; [eexists; split; [reflexivity|by vm_compute]|].
  refine (proj2 (restarted_agent_serves_nobody no_names demo_pod DhcpFacts.demo_NewReply restarted (Some discover) (rtc_once _ _ _))).
  left. apply (heard_add _ _ _ _ _ leased_version); [reflexivity|exact I|by apply after_runs].
Defined.
