(* ===== verification/Process.v ===== *)
(** * The programs as processes

    How the controller and the agent run and stop ([cmd/controller/run.go],
    [cmd/agent/run.go], [pkg/agent/agent.go], and [Run], [stop] and [Cleanup] of
    [pkg/server] and [pkg/dhcp]).  The code has one shape for both levels: an errgroup of
    two goroutines, a cleanup goroutine that waits for the group's context, and a caller
    that waits for the group and then for the cleanup's channel.  [supervise] is that
    shape; [Agent_Run] is one instance of it and the programs are others, around it.  A
    step is a turn of one goroutine up to its next call; the outcome of a call, and the
    order of the turns, are the label of the step. *)

From S2P Require Import Prelude Util.
From S2P Require Dhcp.

(** ** Standard library *)

Definition ErrServerClosed : error := OtherError "http: Server closed".
Definition Canceled : error := OtherError "context canceled".

(** [errors.Is] against an error that wraps nothing. *)
Fixpoint Is (err target : error) : bool :=
  bool_decide (err = target) ||
  match err with
  | Wrapf _ _ cause => Is cause target
  | _ => false
  end.

(** ** [golang.org/x/sync/errgroup]

    [Wait] waits for the functions passed to [Go] and returns the first error; the derived
    context is canceled by the first error or when [Wait] returns. *)
Class ErrGroup := {
  Group : Type;
  WithContext : Group;
  Go : Group → Group;
  Return : option error → Group → Group;      (* a function returns *)
  Wait : Group → option (option error * Group); (* [None]: it waits *)
  canceled : Group → bool;
  pending : Group → nat;
  first_error : Group → option error;
  new_group : pending WithContext = 0 ∧ first_error WithContext = None ∧ canceled WithContext = false;
  Go_spec g : pending (Go g) = S (pending g) ∧ first_error (Go g) = first_error g ∧ canceled (Go g) = canceled g;
  Return_spec e g : pending (Return e g) = pred (pending g) ∧
    first_error (Return e g) = (match first_error g with Some f => Some f | None => e end) ∧
    canceled (Return e g) = canceled g || bool_decide (e ≠ None);
  Wait_spec g : match Wait g with
    | None => pending g ≠ 0
    | Some (e, g') => pending g = 0 ∧ e = first_error g ∧ canceled g' = true ∧
        pending g' = 0 ∧ first_error g' = first_error g
    end;
}.

(** ** Goroutines *)

(** Who takes the next turn, and how the call it makes ends: [Does o] with the error [o],
    [Busy] a look at a condition that does not hold yet, [Fails e] a failure nobody asked
    for, [Unanswered e] an answer to a probe that cannot be written. *)
Inductive Label : Type :=
| InFirst (l : Label) | InSecond (l : Label) | InCleanup (l : Label)
| FirstReturns | SecondReturns | Watch | Caller
| Does (o : option error) | Busy | Fails (e : error) | Unanswered (e : error).

(** A function run by a goroutine: where it is, the turns it can take when its context is
    done or not, on the state [X] it shares with others, which lead further or to the end of
    the process (a panic, [logrus.Fatal], [os.Exit]), and what it has returned.  A
    function that has returned may leave goroutines behind that still take turns. *)
Record Task (X : Type) : Type := mkTask {
  At : Type;
  begin : At;
  turn : bool → Label → X → At → option (X * (At + string));
  returned : At → option (option error);
}.
Arguments At {_} _.
Arguments begin {_} _.
Arguments turn {_} _ _ _ _ _.
Arguments returned {_} _ _.

(** What a function has returned stays. *)
Class Settled {X} (T : Task X) : Prop :=
  settled ctx l x a x' a' e : turn T ctx l x a = Some (x', inl a') → returned T a = Some e → returned T a' = Some e.

(** What no turn of a function changes. *)
Definition keeps {X Y} (f : X → Y) (T : Task X) : Prop :=
  ∀ ctx l x a x' a', turn T ctx l x a = Some (x', inl a') → f x' = f x.

(** Lifting a turn of a part to the whole. *)
Definition within {X A B} (f : A → B) (r : option (X * (A + string))) : option (X * (B + string)) :=
  match r with
  | Some (x, inl a) => Some (x, inl (f a))
  | Some (x, inr w) => Some (x, inr w)
  | None => None
  end.

Section supervise.
Context `{ErrGroup} {X : Type} (first second stop : Task X) (tolerated : error → bool).

(** The cleanup goroutine: before its context is done, in [stop] or sending what it
    returned, and after the caller has received that. *)
Inductive Cleanup_at : Type :=
| Watching
| Stopping (a : At stop)
| Closed (sent : option error).

Inductive Caller_at : Type :=
| InWait
| InReceive
| Left (e : option error).

#[export] Instance Caller_at_eq_dec : EqDecision Caller_at.
Proof. solve_decision. Defined.

Record Supervised : Type := mkSupervised {
  group : Group;
  at1 : At first;
  at2 : At second;
  collected1 : bool;      (* errgroup has seen the function return *)
  collected2 : bool;
  cleanup : Cleanup_at;
  caller : Caller_at;
}.

Definition supervise_begin : Supervised :=
  mkSupervised (Go (Go WithContext)) (begin first) (begin second) false false Watching InWait.

Definition set_at1 (σ : Supervised) a :=
  mkSupervised (group σ) a (at2 σ) (collected1 σ) (collected2 σ) (cleanup σ) (caller σ).
Definition set_at2 (σ : Supervised) a :=
  mkSupervised (group σ) (at1 σ) a (collected1 σ) (collected2 σ) (cleanup σ) (caller σ).
Definition set_cleanup (σ : Supervised) c :=
  mkSupervised (group σ) (at1 σ) (at2 σ) (collected1 σ) (collected2 σ) c (caller σ).
Definition collect1 (σ : Supervised) e :=
  mkSupervised (Return e (group σ)) (at1 σ) (at2 σ) true (collected2 σ) (cleanup σ) (caller σ).
Definition collect2 (σ : Supervised) e :=
  mkSupervised (Return e (group σ)) (at1 σ) (at2 σ) (collected1 σ) true (cleanup σ) (caller σ).
Definition set_caller (σ : Supervised) g c :=
  mkSupervised g (at1 σ) (at2 σ) (collected1 σ) (collected2 σ) (cleanup σ) c.

(** The context of the group, derived from the caller's. *)
Definition context (done : bool) (σ : Supervised) : bool := done || canceled (group σ).

(** [if err := eg.Wait(); err != nil && !tolerated(err) { return err }] and
    [if err := <-errCh; err != nil { return err }]: the channel has no buffer, so the
    caller takes the value while the cleanup goroutine sends it. *)
Definition caller_turn (σ : Supervised) : option Supervised :=
  match caller σ with
  | InWait =>
      '(err, g) ← Wait (group σ);
      Some (set_caller σ g
        match err with
        | Some e => if tolerated e then InReceive else Left (Some e)
        | None => InReceive
        end)
  | InReceive =>
      match cleanup σ with
      | Stopping a =>
          e ← returned stop a;
          Some (set_caller (set_cleanup σ (Closed e)) (group σ) (Left e))
      | _ => None
      end
  | Left _ => None
  end.

Definition supervise_turn (done : bool) (l : Label) (x : X) (σ : Supervised)
    : option (X * (Supervised + string)) :=
  let ctx := context done σ in
  match l with
  | InFirst l => within (set_at1 σ) (turn first ctx l x (at1 σ))
  | InSecond l => within (set_at2 σ) (turn second ctx l x (at2 σ))
  | FirstReturns =>
      if collected1 σ then None
      else e ← returned first (at1 σ); Some (x, inl (collect1 σ e))
  | SecondReturns =>
      if collected2 σ then None
      else e ← returned second (at2 σ); Some (x, inl (collect2 σ e))
  | Watch =>
      match cleanup σ with
      | Watching => if ctx then Some (x, inl (set_cleanup σ (Stopping (begin stop)))) else None
      | _ => None
      end
  | InCleanup l =>
      match cleanup σ with
      | Stopping a => within (λ a', set_cleanup σ (Stopping a')) (turn stop ctx l x a)
      | _ => None
      end
  | Caller => (λ σ', (x, inl σ')) <$> caller_turn σ
  | _ => None
  end.

Definition supervise : Task X :=
  mkTask X Supervised supervise_begin supervise_turn
    (λ σ, match caller σ with Left e => Some e | _ => None end).
End supervise.
Arguments Watching {_ _}.
Arguments Stopping {_ _} _.
Arguments Closed {_ _} _.
Arguments group {_ _ _ _ _} _.
Arguments at1 {_ _ _ _ _} _.
Arguments at2 {_ _ _ _ _} _.
Arguments collected1 {_ _ _ _ _} _.
Arguments collected2 {_ _ _ _ _} _.
Arguments cleanup {_ _ _ _ _} _.
Arguments caller {_ _ _ _ _} _.
Arguments set_at1 {_ _ _ _ _} _ _.
Arguments set_at2 {_ _ _ _ _} _ _.
Arguments set_cleanup {_ _ _ _ _} _ _.
Arguments set_caller {_ _ _ _ _} _ _ _.
Arguments collect1 {_ _ _ _ _} _ _.
Arguments collect2 {_ _ _ _ _} _ _.
Arguments context {_ _ _ _ _} _ _.

(** ** What the goroutines share *)

(** [http.Server] as far as [ListenAndServe] and [Shutdown] see it. *)
Record HttpSrv : Type := mkHttpSrv {
  inShutdown : bool;
  serving : bool;         (* its listener is open *)
}.

Record Shared : Type := mkShared {
  srv : option HttpSrv;                  (* [HTTPServer.srv], nil at first *)
  dhcpAllocator : Dhcp.DHCPAllocator;
  dhcp_open : bool;                      (* its socket is open; for the statements only *)
}.

Definition NewShared : Shared := mkShared None Dhcp.NewDHCPAllocator false.

Definition set_srv (x : Shared) s := mkShared s (dhcpAllocator x) (dhcp_open x).
Definition set_dhcp (x : Shared) d b := mkShared (srv x) d b.

(** ** [pkg/server] *)

(** Before [s.srv] is assigned, before [ListenAndServe], in [Serve], after it; [served] says
    whether there was a listener, so that requests may still be in flight.  Their handlers
    are the server's goroutines too; what matters of them here is a probe whose answer
    cannot be written, which ends the process ([probe] in [Server]). *)
Inductive Http_at : Type :=
| HttpStart
| HttpListen
| HttpServe
| HttpReturned (served : bool) (e : option error).

Definition HTTPServer_Run_turn (_ : bool) (l : Label) (x : Shared) (a : Http_at)
    : option (Shared * (Http_at + string)) :=
  match a, srv x, l with
  | HttpStart, _, Does None => Some (set_srv x (Some (mkHttpSrv false false)), inl HttpListen)
  | HttpListen, Some s, Does o =>
      if inShutdown s then Some (x, inl (HttpReturned false (Some ErrServerClosed)))
      else match o with
           | Some err => Some (x, inl (HttpReturned false (Some err)))
           | None => Some (set_srv x (Some (mkHttpSrv (inShutdown s) true)), inl HttpServe)
           end
  | HttpServe, Some s, Does None =>
      if inShutdown s then
        Some (set_srv x (Some (mkHttpSrv true false)), inl (HttpReturned true (Some ErrServerClosed)))
      else None
  | HttpServe, Some s, Fails err =>
      if inShutdown s then None
      else Some (set_srv x (Some (mkHttpSrv false false)), inl (HttpReturned true (Some err)))
  | HttpServe, _, Unanswered _ | HttpReturned true _, _, Unanswered _ => Some (x, inr "logrus.Fatal")
  | _, _, _ => None
  end.

Definition HTTPServer_Run : Task Shared :=
  mkTask Shared Http_at HttpStart HTTPServer_Run_turn
    (λ a, match a with HttpReturned _ e => Some e | _ => None end).

(** [stop]: [Shutdown] closes the listener, waits for [Serve] to leave it and then looks
    for connections: when there is none it returns, else it looks again later, unless its
    context, which is the one whose end started the cleanup, is done. *)
Inductive Shutdown_at : Type :=
| ShutdownStart
| ShutdownPoll
| ShutdownReturned (e : option error).

#[export] Instance Shutdown_at_eq_dec : EqDecision Shutdown_at.
Proof. solve_decision. Defined.

Definition HTTPServer_stop_turn (ctx : bool) (l : Label) (x : Shared) (a : Shutdown_at)
    : option (Shared * (Shutdown_at + string)) :=
  match a, srv x, l with
  | ShutdownStart, None, Does None =>
      Some (x, inr "runtime error: invalid memory address or nil pointer dereference")
  | ShutdownStart, Some s, Does None =>
      Some (set_srv x (Some (mkHttpSrv true (serving s))), inl ShutdownPoll)
  | ShutdownPoll, Some s, Does lnerr =>
      if serving s then None else Some (x, inl (ShutdownReturned lnerr))
  | ShutdownPoll, Some s, Busy =>
      if serving s then None
      else if ctx then Some (x, inl (ShutdownReturned (Some Canceled))) else None
  | _, _, _ => None
  end.

Definition HTTPServer_stop : Task Shared :=
  mkTask Shared Shutdown_at ShutdownStart HTTPServer_stop_turn
    (λ a, match a with ShutdownReturned e => Some e | _ => None end).

(** ** [pkg/dhcp] and [pkg/agent] *)

(** A function whose only call the others see is its last. *)
Inductive Once_at : Type :=
| NotYet
| Once (e : option error).

Definition once {X} (call : option error → X → X * option error) : Task X :=
  mkTask X Once_at NotYet
    (λ _ l x a, match a, l with
                | NotYet, Does o => let '(x', e) := call o x in Some (x', inl (Once e))
                | _, _ => None
                end)
    (λ a, match a with Once e => Some e | NotYet => None end).

(** [EventHandler] without what [NewEventHandler] passes on, and its [Init]. *)
Section init.
Context {Config Clientset : Type}.
Context (Stat : string → result bool) (IsNotExist : error → bool).
Context (InClusterConfig : result Config) (NewClientConfig : string → string → result Config).
Context (NewForConfig : Config → result Clientset).

Record EventHandler : Type := mkEventHandler {
  kubeConfig : string;
  kubeContext : string;
  kubeRestConfig : option Config;
  k8sClientset : option Clientset;
}.

Definition NewEventHandler (kubeConfig kubeContext : string) : EventHandler :=
  mkEventHandler kubeConfig kubeContext None None.

Definition set_kubeRestConfig (c : option Config) (e : EventHandler) : EventHandler :=
  mkEventHandler (kubeConfig e) (kubeContext e) c (k8sClientset e).
Definition set_k8sClientset (c : option Clientset) (e : EventHandler) : EventHandler :=
  mkEventHandler (kubeConfig e) (kubeContext e) (kubeRestConfig e) c.

Definition getKubeConfig (e : EventHandler) : res (result Config) :=
  exists_ ← FileExists Stat IsNotExist (kubeConfig e);
  mret (if (exists_ : bool) then NewClientConfig (kubeConfig e) (kubeContext e) else InClusterConfig).

Definition Init : GoM EventHandler (option error) :=
  e ← go_get;
  config ← go_pure (getKubeConfig e);
  match config with
  | inr err => _ ← go_modify (set_kubeRestConfig None); mret (Some err)
  | inl c =>
      _ ← go_modify (set_kubeRestConfig (Some c));
      match NewForConfig c with
      | inr err => _ ← go_modify (set_k8sClientset None); mret (Some err)
      | inl cs => _ ← go_modify (set_k8sClientset (Some cs)); mret None
      end
  end.
End init.

Section agent.
Context (dryRun : bool) (nic : string).

(** [a.DHCPAllocator.DryRun] or [Run], where opening the socket ends with [o]. *)
Definition serve_dhcp (o : option error) (x : Shared) : Shared * option error :=
  let '(d, e) :=
    if dryRun then Dhcp.DryRun nic (dhcpAllocator x)
    else Dhcp.Run (λ _, match o with Some err => inr err | None => inl 0 end) nic (dhcpAllocator x) in
  (set_dhcp x d (dhcp_open x || (negb dryRun && bool_decide (e = None))), e).

(** [dhcp.Cleanup]'s [a.stop(nic)], where closing the socket ends with [o]. *)
Definition stop_dhcp (o : option error) (x : Shared) : Shared * option error :=
  let e := Dhcp.stop (λ _, o) nic (dhcpAllocator x) in
  let closes := match Dhcp.servers (dhcpAllocator x) !! nic with Some (Some _) => bool_decide (o = None) | _ => false end in
  (set_dhcp x (dhcpAllocator x) (dhcp_open x && negb closes), e).

(** [ippoolEventHandler.Init], which makes three calls, and then [EventListener], which ends
    with its context. *)
Inductive Listener_at : Type :=
| ListenerStat
| ListenerConfig
| ListenerClient
| ListenerRuns
| ListenerReturned (e : option error).

Definition EventListener_turn (ctx : bool) (l : Label) (x : Shared) (a : Listener_at)
    : option (Shared * (Listener_at + string)) :=
  match a, l with
  | ListenerStat, Does (Some err) => Some (x, inr "nil pointer dereference")
  | ListenerStat, Does None => Some (x, inl ListenerConfig)
  | ListenerConfig, Does (Some err) => Some (x, inl (ListenerReturned (Some err)))
  | ListenerConfig, Does None => Some (x, inl ListenerClient)
  | ListenerClient, Does (Some err) => Some (x, inl (ListenerReturned (Some err)))
  | ListenerClient, Does None => Some (x, inl ListenerRuns)
  | ListenerRuns, Does None => if ctx then Some (x, inl (ListenerReturned None)) else None
  | _, _ => None
  end.

Definition EventListener : Task Shared :=
  mkTask Shared Listener_at ListenerStat EventListener_turn
    (λ a, match a with ListenerReturned e => Some e | _ => None end).

(** [Agent.Run]: every error of the group is returned. *)
Definition Agent_Run `{ErrGroup} : Task Shared :=
  supervise (once serve_dhcp) EventListener (once stop_dhcp) (λ _, false).
End agent.

(** ** [cmd/controller] *)

(** The callback: [Register] and [Start], whose errors are panics, then [<-ctx.Done()]. *)
Inductive Callback_at : Type :=
| Registering
| Starting
| Leading
| CallbackReturned.

Definition callback_turn (ctx : bool) (l : Label) (x : Shared) (a : Callback_at)
    : option (Shared * (Callback_at + string)) :=
  match a, l with
  | Registering, Does None => Some (x, inl Starting)
  | Registering, Does (Some err) => Some (x, inr "Register")
  | Starting, Does None => Some (x, inl Leading)
  | Starting, Does (Some err) => Some (x, inr "Start")
  | Leading, Does None => if ctx then Some (x, inl CallbackReturned) else None
  | _, _ => None
  end.

Definition callback : Task Shared :=
  mkTask Shared Callback_at Registering callback_turn
    (λ a, match a with CallbackReturned => Some None | _ => None end).

(** [leader.RunOrDie], which runs the callback once it is the leader and ends the process
    when it is no longer; the code relies on its not touching the HTTP server. *)
Class LeaderLib := {
  RunOrDie : Task Shared → Task Shared;
  RunOrDie_settled cb :: Settled (RunOrDie cb);
  RunOrDie_keeps cb : keeps srv cb → keeps srv (RunOrDie cb);
}.

(** ** [run] of both programs *)

Inductive Program : Type :=
| TheAgent (dryRun : bool) (nic : string)
| TheController (noLeaderElection : bool).

Definition body `{ErrGroup} `{LeaderLib} (p : Program) : Task Shared :=
  match p with
  | TheAgent dryRun nic => Agent_Run dryRun nic
  | TheController noLeaderElection => if noLeaderElection then callback else RunOrDie callback
  end.

Definition run `{ErrGroup} `{LeaderLib} (p : Program) : Task Shared :=
  supervise HTTPServer_Run (body p) HTTPServer_stop (λ err, Is err ErrServerClosed).

(** A process: [signals.SetupSignalContext]'s context is done once a signal has arrived;
    the return of [run], and a panic, [logrus.Fatal] or [os.Exit] of any goroutine, end the
    process. *)
Inductive Process `{ErrGroup} `{LeaderLib} (p : Program) : Type :=
| Running (signalled : bool) (x : Shared) (a : At (run p))
| Exited (signalled : bool) (x : Shared) (a : At (run p)) (e : option error)
| Crashed (why : string).
Arguments Running {_ _ _} _ _ _.
Arguments Exited {_ _ _} _ _ _ _.
Arguments Crashed {_ _ _} _.

Inductive Occurrence : Type :=
| Signal
| Turn (l : Label).

Definition start `{ErrGroup} `{LeaderLib} (p : Program) : Process p := Running false NewShared (begin (run p)).

Definition occurs `{ErrGroup} `{LeaderLib} {p : Program} (ev : Occurrence) (π : Process p) : option (Process p) :=
  match π, ev with
  | Running false x a, Signal => Some (Running true x a)
  | Running signalled x a, Turn l =>
      r ← turn (run p) signalled l x a;
      match r with
      | (x', inl a') =>
          Some match returned (run p) a' with
               | Some e => Exited signalled x' a' e
               | None => Running signalled x' a'
               end
      | (_, inr why) => Some (Crashed why)
      end
  | _, _ => None
  end.

Definition next `{ErrGroup} `{LeaderLib} {p : Program} (π π' : Process p) : Prop := ∃ ev, occurs ev π = Some π'.
Definition reachable `{ErrGroup} `{LeaderLib} {p : Program} (π : Process p) : Prop := rtc next (start p) π.

Fixpoint play `{ErrGroup} `{LeaderLib} {p : Program} (evs : list Occurrence) (π : Process p) : option (Process p) :=
  match evs with
  | [] => Some π
  | ev :: evs => π' ← occurs ev π; play evs π'
  end.
