(* ===== verification/ProcessFacts.v ===== *)
(** * The processes stop

    A generic part about [supervise]: every goroutine takes finitely many turns, and once
    the context is done somebody can always take one until the caller has returned.  Then
    the two programs, what their exit status says, and the runs where it says too little. *)

From S2P Require Import Prelude Util Process.
From S2P Require Dhcp.

(** ** Tasks that end *)

(** Every turn brings a task nearer to its end. *)
Class Terminating {X} (T : Task X) := {
  rank : At T → nat;
  rank_turn ctx l x a x' a' : turn T ctx l x a = Some (x', inl a') → rank a' < rank a;
}.

(** A turn that does not wait for something to fail. *)
Fixpoint prompt (l : Label) : bool :=
  match l with
  | InFirst l | InSecond l | InCleanup l => prompt l
  | Fails _ | Unanswered _ => false
  | _ => true
  end.

Definition can_turn {X} (T : Task X) (ctx : bool) (x : X) (a : At T) : Prop :=
  ∃ l r, prompt l = true ∧ turn T ctx l x a = Some r.

Lemma within_Val {X A B} (f : A → B) (r : option (X * (A + string))) x b :
  within f r = Some (x, inl b) → ∃ a, r = Some (x, inl a) ∧ b = f a.
Proof. destruct r as [[x' [a|w]]|]; intros [= <- <-]. by exists a. Qed.

Lemma within_Panic {X A B} (f : A → B) (r : option (X * (A + string))) x w :
  within f r = Some (x, inr w) → r = Some (x, inr w).
Proof. by destruct r as [[x' [a|w']]|]; intros [= <- <-]. Qed.

Lemma within_Some {X A B} (f : A → B) (r : option (X * (A + string))) :
  is_Some r → is_Some (within f r).
Proof. intros [[x [a|w]] ->]; eauto. Qed.

Section supervise.
Context `{ErrGroup} {X : Type} (first second stop : Task X) (tolerated : error → bool).
Context `{!Settled first} `{!Settled second} `{!Settled stop}.
Local Abbreviation Sup := (supervise first second stop tolerated).
Local Abbreviation State := (Supervised first second stop).
Implicit Types σ : State.

(** The turns that end without a panic, one by one. *)
Inductive moves (done : bool) (x : X) σ : X → State → Prop :=
| Moves_first l x' a : turn first (context done σ) l x (at1 σ) = Some (x', inl a) → moves done x σ x' (set_at1 σ a)
| Moves_second l x' a : turn second (context done σ) l x (at2 σ) = Some (x', inl a) → moves done x σ x' (set_at2 σ a)
| Moves_collect1 e : collected1 σ = false → returned first (at1 σ) = Some e → moves done x σ x (collect1 σ e)
| Moves_collect2 e : collected2 σ = false → returned second (at2 σ) = Some e → moves done x σ x (collect2 σ e)
| Moves_watch : cleanup σ = Watching → context done σ = true → moves done x σ x (set_cleanup σ (Stopping (begin stop)))
| Moves_stop l c x' a : cleanup σ = Stopping c → turn stop (context done σ) l x c = Some (x', inl a) →
    moves done x σ x' (set_cleanup σ (Stopping a))
| Moves_wait e g : caller σ = InWait → Wait (group σ) = Some (e, g) →
    moves done x σ x (set_caller σ g
      match e with Some e => if tolerated e then InReceive else Left (Some e) | None => InReceive end)
| Moves_receive c e : caller σ = InReceive → cleanup σ = Stopping c → returned stop c = Some e →
    moves done x σ x (set_caller (set_cleanup σ (Closed e)) (group σ) (Left e)).

Lemma supervise_moves done l x σ x' σ' : turn Sup done l x σ = Some (x', inl σ') → moves done x σ x' σ'.
Proof.
  destruct l as [l|l|l| | | | |o| |e|e]; cbn; try done.
  - intros (a & Ha & ->)%within_Val. by eapply Moves_first.
  - intros (a & Ha & ->)%within_Val. by eapply Moves_second.
  - destruct (cleanup σ) as [|c|] eqn:Hc; [done| |done]. intros (a & Ha & ->)%within_Val. by eapply Moves_stop.
  - destruct (collected1 σ) eqn:Hc; [done|]. destruct (returned first _) as [e|] eqn:He; intros [= <- <-]. by constructor.
  - destruct (collected2 σ) eqn:Hc; [done|]. destruct (returned second _) as [e|] eqn:He; intros [= <- <-]. by constructor.
  - destruct (cleanup σ) eqn:Hc; [|done..]. destruct (context done σ) eqn:Hd; intros [= <- <-]. by constructor.
  - intros (σ1 & Hσ & [= <- <-])%fmap_Some. revert Hσ. unfold caller_turn. destruct (caller σ) eqn:Hc; [| |done].
    + destruct (Wait (group σ)) as [[e g]|] eqn:Hw; intros [= <-]. by constructor.
    + destruct (cleanup σ) as [|c|] eqn:Hcl; [done| |done].
      destruct (returned stop c) as [e|] eqn:He; intros [= <-]. by eapply Moves_receive.
Qed.

#[export] Instance supervise_settled : Settled Sup.
Proof. intros done l x σ x' σ' e Hm%supervise_moves. cbn. destruct Hm; cbn; try done; by replace (caller σ). Qed.

(** ** What the group knows *)

Definition uncollected (b : bool) : nat := if b then 0 else 1.

Record group_inv σ : Prop := {
  inv_pending : pending (group σ) = uncollected (collected1 σ) + uncollected (collected2 σ);
  inv_collected1 : collected1 σ = true → is_Some (returned first (at1 σ));
  inv_collected2 : collected2 σ = true → is_Some (returned second (at2 σ));
  inv_error e : first_error (group σ) = Some e →
    returned first (at1 σ) = Some (Some e) ∨ returned second (at2 σ) = Some (Some e);
  inv_no_error : first_error (group σ) = None →
    (collected1 σ = true → returned first (at1 σ) = Some None) ∧
    (collected2 σ = true → returned second (at2 σ) = Some None);
  inv_canceled : first_error (group σ) ≠ None → canceled (group σ) = true;
  inv_waited : caller σ ≠ InWait → collected1 σ = true ∧ collected2 σ = true ∧ canceled (group σ) = true;
  inv_receive : caller σ = InReceive → ∀ e, first_error (group σ) = Some e → tolerated e = true;
  inv_left e : caller σ = Left e →
    (∃ err, e = Some err ∧ first_error (group σ) = Some err ∧ tolerated err = false) ∨
    (cleanup σ = Closed e ∧ ∀ err, first_error (group σ) = Some err → tolerated err = true);
  inv_closed e : cleanup σ = Closed e → caller σ = Left e;
}.

Lemma group_inv_begin : group_inv (begin Sup).
Proof.
  destruct new_group as (Hp & He & Hc). destruct (Go_spec WithContext) as (Hp1 & He1 & Hc1).
  destruct (Go_spec (Go WithContext)) as (Hp2 & He2 & Hc2).
  assert (He3 : first_error (Go (Go WithContext)) = None) by congruence.
  split; cbn; rewrite ?He3; try done. by rewrite Hp2, Hp1, Hp.
Qed.

(** A function returns to the group. *)
Lemma group_inv_collect1 σ e :
  group_inv σ → collected1 σ = false → returned first (at1 σ) = Some e → group_inv (collect1 σ e).
Proof.
  intros [Hp H1 H2 He Hn Hcan Hw Ht Hl Hcl] Hu Hret. destruct (Return_spec e (group σ)) as (Rp & Re & Rc).
  assert (Hin : caller σ = InWait) by (destruct (decide (caller σ = InWait)) as [?|[Hc _]%Hw]; congruence).
  split; cbn; rewrite ?Rp, ?Re, ?Hin; try done.
  - rewrite Hp, Hu. by destruct (collected2 σ).
  - intros e'. destruct (first_error (group σ)) as [f|]; [apply He|]. intros ->. by left.
  - destruct (first_error (group σ)) as [f|]; [done|]. intros ->. split; [done|]. by apply Hn.
  - rewrite Rc. destruct (first_error (group σ)) as [f|]; intros He'; [by rewrite Hcan|].
    by rewrite bool_decide_true, orb_true_r.
  - intros e' Hc%Hcl. congruence.
Qed.

Lemma group_inv_collect2 σ e :
  group_inv σ → collected2 σ = false → returned second (at2 σ) = Some e → group_inv (collect2 σ e).
Proof.
  intros [Hp H1 H2 He Hn Hcan Hw Ht Hl Hcl] Hu Hret. destruct (Return_spec e (group σ)) as (Rp & Re & Rc).
  assert (Hin : caller σ = InWait) by (destruct (decide (caller σ = InWait)) as [?|(_ & Hc & _)%Hw]; congruence).
  split; cbn; rewrite ?Rp, ?Re, ?Hin; try done.
  - rewrite Hp, Hu. by destruct (collected1 σ).
  - intros e'. destruct (first_error (group σ)) as [f|]; [apply He|]. intros ->. by right.
  - destruct (first_error (group σ)) as [f|]; [done|]. intros ->. split; [by apply Hn|done].
  - rewrite Rc. destruct (first_error (group σ)) as [f|]; intros He'; [by rewrite Hcan|].
    by rewrite bool_decide_true, orb_true_r.
  - intros e' Hc%Hcl. congruence.
Qed.

(** [Wait] returns. *)
Lemma group_inv_wait σ e g :
  group_inv σ → caller σ = InWait → Wait (group σ) = Some (e, g) →
  group_inv (set_caller σ g
    match e with Some e => if tolerated e then InReceive else Left (Some e) | None => InReceive end).
Proof.
  intros [Hp H1 H2 He Hn Hcan Hw Ht Hl Hcl] Hin Hwait. pose proof (Wait_spec (group σ)) as Hs. rewrite Hwait in Hs.
  destruct Hs as (Hp0 & -> & Hc & Hp' & He').
  assert (Hcol : collected1 σ = true ∧ collected2 σ = true).
  { rewrite Hp in Hp0. by destruct (collected1 σ), (collected2 σ). }
  split; cbn; rewrite ?He'; try done.
  - rewrite Hp'. by destruct Hcol as [-> ->].
  - by destruct Hcol.
  - intros Hr e' Hf. rewrite Hf in Hr. by destruct (tolerated e').
  - intros e'. destruct (first_error (group σ)) as [f|]; [|done]. destruct (tolerated f) eqn:Hf; [done|].
    intros [= <-]. left. eauto.
  - intros e' He1%Hcl. congruence.
Qed.

Lemma group_inv_moves done x σ x' σ' : group_inv σ → moves done x σ x' σ' → group_inv σ'.
Proof.
  intros Hinv Hm. destruct Hm as [l x' a Ht|l x' a Ht|e Hu Hret|e Hu Hret|Hc Hx|l c x' a Hc Ht|e g Hca Hwait|c e Hca Hc Hret].
  3: by apply group_inv_collect1.
  3: by apply group_inv_collect2.
  5: by apply group_inv_wait.
  all: destruct Hinv as [Hp H1 H2 He Hn Hcan Hw Htol Hl Hcl].
  - assert (Hk : ∀ e, returned first (at1 σ) = Some e → returned first a = Some e) by (intros e; by eapply settled).
    split; cbn; try done.
    + intros [e Hr]%H1. eauto.
    + intros e [Hr|Hr]%He; eauto.
    + intros [Hn1 Hn2]%Hn. eauto.
  - assert (Hk : ∀ e, returned second (at2 σ) = Some e → returned second a = Some e) by (intros e; by eapply settled).
    split; cbn; try done.
    + intros [e Hr]%H2. eauto.
    + intros e [Hr|Hr]%He; eauto.
    + intros [Hn1 Hn2]%Hn. eauto.
  - split; cbn; try done. intros e [?|[? _]]%Hl; [by left|congruence].
  - split; cbn; try done. intros e [?|[? _]]%Hl; [by left|congruence].
  - split; cbn; try done; [| |by intros e' [= <-]].
    + intros _. apply Hw. congruence.
    + intros e' [= <-]. right. split; [done|]. by apply Htol.
Qed.

(** ** Progress *)

Lemma can_first done x σ : can_turn first (context done σ) x (at1 σ) → can_turn Sup done x σ.
Proof.
  intros (l & r & Hp & Ht). destruct (within_Some (set_at1 σ) (turn first (context done σ) l x (at1 σ))) as [r' Hr].
  - by rewrite Ht.
  - by exists (InFirst l), r'.
Qed.

Lemma can_second done x σ : can_turn second (context done σ) x (at2 σ) → can_turn Sup done x σ.
Proof.
  intros (l & r & Hp & Ht). destruct (within_Some (set_at2 σ) (turn second (context done σ) l x (at2 σ))) as [r' Hr].
  - by rewrite Ht.
  - by exists (InSecond l), r'.
Qed.

Lemma can_stop done x σ c : cleanup σ = Stopping c → can_turn stop (context done σ) x c → can_turn Sup done x σ.
Proof.
  intros Hc (l & r & Hp & Ht).
  destruct (within_Some (λ a, set_cleanup σ (Stopping a)) (turn stop (context done σ) l x c)) as [r' Hr].
  - by rewrite Ht.
  - exists (InCleanup l), r'. split; [done|]. cbn. by rewrite Hc.
Qed.

(** When both functions can end and the cleanup can, so can the caller. *)
Lemma supervise_progress done x σ :
  group_inv σ → context done σ = true → returned Sup σ = None →
  (∀ c, cleanup σ = Stopping c →
     (returned first (at1 σ) = None → can_turn first true x (at1 σ) ∨ can_turn stop true x c) ∧
     (returned second (at2 σ) = None → can_turn second true x (at2 σ)) ∧
     (returned stop c = None → can_turn stop true x c ∨ can_turn first true x (at1 σ))) →
  can_turn Sup done x σ.
Proof.
  intros Hinv Hctx Hret Hlive.
  destruct (cleanup σ) as [|c|e] eqn:Hcl; [| |by apply Hinv in Hcl; cbn in Hret; rewrite Hcl in Hret].
  { exists Watch. eexists. split; [done|]. cbn. by rewrite Hcl, Hctx. }
  destruct (Hlive c eq_refl) as (Hl1 & Hl2 & Hl3). cbn in Hret. destruct (caller σ) as [| |e] eqn:Hca; [| |done].
  - destruct (collected1 σ) eqn:Hc1; [destruct (collected2 σ) eqn:Hc2|].
    + pose proof (Wait_spec (group σ)) as Hw. rewrite (inv_pending _ Hinv), Hc1, Hc2 in Hw.
      destruct (Wait (group σ)) as [[e g]|] eqn:Hwait; [|done].
      exists Caller. eexists. split; [done|]. cbn. unfold caller_turn. by rewrite Hca, Hwait.
    + destruct (returned second (at2 σ)) as [e|] eqn:He.
      * exists SecondReturns. eexists. split; [done|]. cbn. by rewrite Hc2, He.
      * apply can_second. rewrite Hctx. by apply Hl2.
    + destruct (returned first (at1 σ)) as [e|] eqn:He.
      * exists FirstReturns. eexists. split; [done|]. cbn. by rewrite Hc1, He.
      * destruct (Hl1 eq_refl); [apply can_first|eapply can_stop; [done|]]; by rewrite Hctx.
  - destruct (returned stop c) as [e|] eqn:He.
    + exists Caller. eexists. split; [done|]. cbn. unfold caller_turn. by rewrite Hca, Hcl, He.
    + destruct (Hl3 eq_refl); [eapply can_stop; [done|]|apply can_first]; by rewrite Hctx.
Qed.

(** What no part changes, the whole does not. *)
Lemma supervise_keeps {Y} (f : X → Y) : keeps f first → keeps f second → keeps f stop → keeps f Sup.
Proof.
  intros H1 H2 H3 ctx l x σ x' σ' Hm%supervise_moves. destruct Hm; try done; [by eapply H1|by eapply H2|by eapply H3].
Qed.
End supervise.

(** ** Every turn is one of finitely many *)

Section rank.
Context `{ErrGroup} {X : Type} (first second stop : Task X) (tolerated : error → bool).
Context `{!Terminating first} `{!Terminating second} `{!Terminating stop}.
Local Abbreviation Sup := (supervise first second stop tolerated).
Local Abbreviation State := (Supervised first second stop).
Implicit Types σ : State.

Definition cleanup_rank (c : Cleanup_at stop) : nat :=
  match c with
  | Watching => 2 + rank (begin stop)
  | Stopping a => 1 + rank a
  | Closed _ => 0
  end.

Definition caller_rank (c : Caller_at) : nat :=
  match c with InWait => 2 | InReceive => 1 | Left _ => 0 end.

Definition supervise_rank σ : nat :=
  rank (at1 σ) + rank (at2 σ) + uncollected (collected1 σ) + uncollected (collected2 σ) +
  cleanup_rank (cleanup σ) + caller_rank (caller σ).

#[export] Instance supervise_terminating : Terminating Sup.
Proof.
  refine {| rank := supervise_rank : At Sup → nat |}.
  intros done l x σ x' σ' Hm%supervise_moves. unfold supervise_rank.
  destruct Hm as [l' x' a Ht|l' x' a Ht|e Hc He|e Hc He|Hc Hx|l' c x' a Hc Ht|e g Hc Hw|c e Hc Hcl He]; cbn.
  1,2: apply rank_turn in Ht; lia.
  1,2: rewrite Hc; cbn; lia.
  - rewrite Hc. cbn. lia.
  - apply rank_turn in Ht. rewrite Hc. cbn. lia.
  - rewrite Hc. destruct e as [e|]; [destruct (tolerated e)|]; cbn; lia.
  - rewrite Hc, Hcl. cbn. lia.
Defined.
End rank.

(** ** The tasks of the programs *)

(** Going through the cases of a task's turn. *)
Ltac turn_cases :=
  repeat match goal with
  | |- context [match ?e with _ => _ end] => destruct e eqn:?
  end.

Ltac solve_task := intros ctx l x a x' a' *; cbn; turn_cases; intros [=]; subst; solve [lia|done].

#[export] Instance once_settled {X} (call : option error → X → X * option error) : Settled (once call).
Proof. solve_task. Qed.
#[export] Instance once_terminating {X} (call : option error → X → X * option error) : Terminating (once call).
Proof. refine {| rank := (λ a, match a with NotYet => 1 | Once _ => 0 end) : At (once call) → nat |}. solve_task. Defined.

#[export] Instance http_settled : Settled HTTPServer_Run.
Proof. intros ctx l x a x' a' e. cbn. unfold HTTPServer_Run_turn. turn_cases; intros [=]; by subst. Qed.
#[export] Instance http_terminating : Terminating HTTPServer_Run.
Proof.
  refine {| rank := (λ a, match a with HttpStart => 3 | HttpListen => 2 | HttpServe => 1 | HttpReturned _ _ => 0 end)
             : At HTTPServer_Run → nat |}.
  unfold HTTPServer_Run, HTTPServer_Run_turn. solve_task.
Defined.

#[export] Instance shutdown_settled : Settled HTTPServer_stop.
Proof. unfold HTTPServer_stop, HTTPServer_stop_turn. solve_task. Qed.
#[export] Instance shutdown_terminating : Terminating HTTPServer_stop.
Proof.
  refine {| rank := (λ a, match a with ShutdownStart => 2 | ShutdownPoll => 1 | ShutdownReturned _ => 0 end)
             : At HTTPServer_stop → nat |}.
  unfold HTTPServer_stop, HTTPServer_stop_turn. solve_task.
Defined.

#[export] Instance listener_settled : Settled EventListener.
Proof. unfold EventListener, EventListener_turn. solve_task. Qed.
#[export] Instance listener_terminating : Terminating EventListener.
Proof.
  refine {| rank := (λ a, match a with
                   | ListenerStat => 4 | ListenerConfig => 3 | ListenerClient => 2 | ListenerRuns => 1 | ListenerReturned _ => 0
                   end)
             : At EventListener → nat |}.
  unfold EventListener, EventListener_turn. solve_task.
Defined.

#[export] Instance callback_settled : Settled callback.
Proof. unfold callback, callback_turn. solve_task. Qed.
#[export] Instance callback_terminating : Terminating callback.
Proof.
  refine {| rank := (λ a, match a with Registering => 3 | Starting => 2 | Leading => 1 | CallbackReturned => 0 end)
             : At callback → nat |}.
  unfold callback, callback_turn. solve_task.
Defined.

#[export] Instance body_settled `{ErrGroup} `{LeaderLib} p : Settled (body p).
Proof. destruct p as [dryRun nic|[]]; cbn; unfold Agent_Run; apply _. Qed.

(** The programs whose goroutines are all the repository's: the agent, and the controller
    without leader election. *)
Definition own_goroutines (p : Program) : Prop :=
  match p with TheAgent _ _ => True | TheController noLeaderElection => noLeaderElection = true end.

Definition body_terminating `{ErrGroup} `{LeaderLib} p : own_goroutines p → Terminating (body p).
Proof. destruct p as [dryRun nic|[]]; cbn; unfold Agent_Run; intros Hp; [apply _..|done]. Defined.

(** ** The body of a program *)

Section programs.
Context `{ErrGroup} `{LeaderLib}.
Implicit Types p : Program.

Definition body_ok p : At (body p) → Prop :=
  match p with
  | TheAgent dryRun nic => group_inv (once (serve_dhcp dryRun nic)) EventListener (once (stop_dhcp nic)) (λ _, false)
  | TheController _ => λ _, True
  end.

Lemma body_ok_begin p : body_ok p (begin (body p)).
Proof. destruct p as [dryRun nic|]; [apply group_inv_begin|done]. Qed.

Lemma body_ok_turn p ctx l x a x' a' : body_ok p a → turn (body p) ctx l x a = Some (x', inl a') → body_ok p a'.
Proof.
  destruct p as [dryRun nic|]; [|done]. intros Hok Hm%supervise_moves.
  exact (group_inv_moves _ _ _ _ _ _ _ _ _ Hok Hm).
Qed.

Lemma once_live {X} (call : option error → X → X * option error) ctx x a :
  returned (once call) a = None → can_turn (once call) ctx x a.
Proof.
  destruct a; [|done]. exists (Does None). cbn. destruct (call None x) as [x' e]. eauto.
Qed.

Lemma listener_live x a : returned EventListener a = None → can_turn EventListener true x a.
Proof. destruct a; [..|done]; exists (Does None); cbn; eauto. Qed.

Lemma callback_live x a : returned callback a = None → can_turn callback true x a.
Proof. destruct a; [..|done]; exists (Does None); cbn; eauto. Qed.

(** Once its context is done, the body can always go on until it returns. *)
Lemma body_live p x a : own_goroutines p → body_ok p a → returned (body p) a = None → can_turn (body p) true x a.
Proof.
  destruct p as [dryRun nic|[]]; intros Hown; [|intros _ ?; by apply callback_live|done]. intros Hok Hret.
  apply supervise_progress; [done..|]. intros c _. split_and!; intros Hr.
  - left. by apply once_live.
  - by apply listener_live.
  - left. by apply once_live.
Qed.

Lemma once_keeps {X Y} (f : X → Y) call : (∀ o x, f (call o x).1 = f x) → keeps f (once call).
Proof.
  intros Hf ctx l x a x' a'. cbn. destruct a, l as [| | | | | | |o| | |]; try done.
  destruct (call o x) as [x1 e] eqn:Hc. intros [= <- <-]. specialize (Hf o x). by rewrite Hc in Hf.
Qed.

Lemma body_keeps_srv p : keeps srv (body p).
Proof.
  assert (Hcb : keeps srv callback).
  { intros ctx l x a x' a'. cbn. unfold callback_turn. turn_cases; intros [=]; by subst. }
  destruct p as [dryRun nic|[]]; cbn; [|done|by apply RunOrDie_keeps].
  apply supervise_keeps.
  - apply once_keeps. intros o x. unfold serve_dhcp. by destruct (if dryRun then _ else _).
  - intros ctx l x a x' a'. cbn. unfold EventListener_turn. turn_cases; intros [=]; by subst.
  - by apply once_keeps.
Qed.

(** ** The HTTP server and its shutdown *)

Definition http_inv (s : option HttpSrv) (a : Http_at) (c : Cleanup_at HTTPServer_stop) : Prop :=
  match a with
  | HttpStart => s = None
  | HttpListen => ∃ b, s = Some (mkHttpSrv b false)
  | HttpServe => ∃ b, s = Some (mkHttpSrv b true)
  | HttpReturned _ e => e ≠ None ∧ ∃ b, s = Some (mkHttpSrv b false)
  end ∧
  match c with
  | Watching | Stopping ShutdownStart => ∀ h, s = Some h → inShutdown h = false
  | Stopping ShutdownPoll => ∃ b, s = Some (mkHttpSrv true b)
  | Stopping (ShutdownReturned _) | Closed _ => s = Some (mkHttpSrv true false)
  end.

Lemma http_inv_run ctx l x a x' a' c :
  http_inv (srv x) a c → turn HTTPServer_Run ctx l x a = Some (x', inl a') → http_inv (srv x') a' c.
Proof.
  intros [Ha Hc]. cbn. unfold HTTPServer_Run_turn.
  destruct a as [| | |sv e]; [|destruct Ha as [b Hs]; rewrite Hs in Hc |- *..|by destruct sv, (srv x), l].
  - rewrite Ha in Hc. destruct l as [| | | | | | |[]| | |]; try done. intros [= <- <-]. cbn. split; [eauto|].
    destruct c as [|[| |]|]; [by intros h [= <-]|by intros h [= <-]|by destruct Hc|done..].
  - destruct l as [| | | | | | |o| | |]; try done. destruct b; cbn.
    + intros [= <- <-]. rewrite Hs. split; [split; [done|eauto]|done].
    + destruct o as [err|]; intros [= <- <-]; cbn; [rewrite Hs; split; [split; [done|eauto]|done]|split; [eauto|]].
      destruct c as [|[| |]|]; [by intros h [= <-]|by intros h [= <-]|by destruct Hc|done..].
  - destruct l as [| | | | | | |[]| | |]; try done; destruct b; cbn; try done; intros [= <- <-]; cbn; (split; [split; [done|eauto]|]).
    + destruct c as [|[| |]|]; [by specialize (Hc _ eq_refl)|by specialize (Hc _ eq_refl)|eauto|done..].
    + destruct c as [|[| |]|]; [by intros h [= <-]|by intros h [= <-]|by destruct Hc|done..].
Qed.

Lemma http_inv_stop ctx l x a c x' c' :
  http_inv (srv x) a (Stopping c) → turn HTTPServer_stop ctx l x c = Some (x', inl c') →
  http_inv (srv x') a (Stopping c').
Proof.
  intros [Ha Hc]. cbn. unfold HTTPServer_stop_turn.
  destruct c as [| |e]; [..|by destruct (srv x)].
  - destruct (srv x) as [[b v]|] eqn:Hs; destruct l as [| | | | | | |[]| | |]; try done. intros [= <- <-]. cbn.
    split; [|eauto]. destruct a as [| | |sv e]; [done| | |destruct Ha as [? Ha]; split; [done|]]; destruct Ha as [? [= -> ->]]; eauto.
  - destruct Hc as [b Hs]. rewrite Hs in Ha |- *. cbn. destruct b; [by destruct l|].
    destruct l as [| | | | | | |o| | |]; try done; [|destruct ctx; [|done]]; intros [= <- <-]; by rewrite Hs.
Qed.

(** Both can go on: [Shutdown] while somebody serves waits for [Serve], which does not wait. *)
Lemma http_live x a c :
  http_inv (srv x) a (Stopping c) →
  (returned HTTPServer_Run a = None → can_turn HTTPServer_Run true x a ∨ can_turn HTTPServer_stop true x c) ∧
  (returned HTTPServer_stop c = None → can_turn HTTPServer_stop true x c ∨ can_turn HTTPServer_Run true x a).
Proof.
  intros [Ha Hc]. assert (Hstop : c = ShutdownStart → can_turn HTTPServer_stop true x c).
  { intros ->. exists (Does None). cbn. destruct (srv x); eauto. }
  assert (Hsrv : c ≠ ShutdownStart → ∃ b, srv x = Some (mkHttpSrv true b)) by (destruct c; naive_solver).
  destruct (decide (c = ShutdownStart)) as [Hcs|Hcs]; [by auto|]. destruct (Hsrv Hcs) as [b Hs].
  assert (Hrun : returned HTTPServer_Run a = None → can_turn HTTPServer_Run true x a).
  { destruct a as [| | |sv e]; [|destruct Ha as [b' Hb]; rewrite Hs in Hb; injection Hb as -> ->..|done]; [congruence|..];
      intros _; exists (Does None); cbn; rewrite Hs; eauto. }
  split; intros Hr; [by auto|]. destruct b.
  - right. apply Hrun. destruct a as [| | |sv e]; [done..|]. destruct Ha as [_ [b' Hb]]. congruence.
  - left. destruct c; [done| |done]. exists (Does None). cbn. rewrite Hs. eauto.
Qed.

(** ** [Init] and the first turns of the event listener *)

Fixpoint turns {X} (T : Task X) (ctx : bool) (ls : list Label) (x : X) (a : At T) : option (X * (At T + string)) :=
  match ls with
  | [] => Some (x, inl a)
  | l :: ls =>
      r ← turn T ctx l x a;
      match r with
      | (x', inl a') => turns T ctx ls x' a'
      | (x', inr w) => Some (x', inr w)
      end
  end.

(** How a call ended. *)
Definition failure {A} (r : result A) : option error := match r with inl _ => None | inr err => Some err end.

(** The listener's turns are the calls of [Init], and it gets where [Init] says. *)
Lemma Init_turns {Config Clientset} (Stat : string → result bool) IsNotExist (InClusterConfig : result Config)
    NewClientConfig (NewForConfig : Config → result Clientset) (e : @EventHandler Config Clientset) ctx x :
  let run_init := Init Stat IsNotExist InClusterConfig NewClientConfig NewForConfig e in
  let stat := match failure (Stat (kubeConfig e)) with Some err => if IsNotExist err then None else Some err | None => None end in
  ∃ config client,
    match run_init.2 with
    | Val None => turns EventListener ctx [Does stat; Does config; Does client] x ListenerStat = Some (x, inl ListenerRuns) ∧
        is_Some (kubeRestConfig run_init.1) ∧ is_Some (k8sClientset run_init.1)
    | Val (Some err) => ∃ n, turns EventListener ctx (take n [Does stat; Does config; Does client]) x ListenerStat =
        Some (x, inl (ListenerReturned (Some err)))
    | Panic w => turns EventListener ctx [Does stat] x ListenerStat = Some (x, inr w)
    | Diverge => False
    end.
Proof.
  intros run_init stat. unfold run_init, stat, Init, getKubeConfig, mbind, GoM_bind, go_pure, go_get, FileExists. cbn.
  assert (Hrest : ∀ found : result Config, ∃ config client,
      match (match found with
             | inr err => _ ← go_modify (set_kubeRestConfig None); mret (Some err)
             | inl c =>
                 _ ← go_modify (set_kubeRestConfig (Some c));
                 match NewForConfig c with
                 | inr err => _ ← go_modify (set_k8sClientset None); mret (Some err)
                 | inl cs => _ ← go_modify (set_k8sClientset (Some cs)); mret None
                 end
             end : GoM EventHandler (option error)) e with
      | (e', Val None) => turns EventListener ctx [Does None; Does config; Does client] x ListenerStat =
            Some (x, inl ListenerRuns) ∧ is_Some (kubeRestConfig e') ∧ is_Some (k8sClientset e')
      | (_, Val (Some err)) => ∃ n, turns EventListener ctx (take n [Does None; Does config; Does client]) x ListenerStat =
          Some (x, inl (ListenerReturned (Some err)))
      | _ => False
      end).
  { intros [c|err]; [|exists (Some err), None; by exists 2]. destruct (NewForConfig c) as [cs|err].
    - exists None, None. unfold mbind, GoM_bind. cbn. eauto.
    - exists None, (Some err). unfold mbind, GoM_bind. cbn. by exists 3. }
  destruct (Stat (kubeConfig e)) as [dir|err]; [|destruct (IsNotExist err) eqn:Hn]; cbn;
    [| |exists None, None; by rewrite Hn].
  - specialize (Hrest (if negb dir then NewClientConfig (kubeConfig e) (kubeContext e) else InClusterConfig)).
    destruct (if negb dir then _ else _) as [c|err]; [|exact Hrest]. revert Hrest. unfold mbind, GoM_bind. cbn.
    by destruct (NewForConfig c).
  - rewrite Hn. specialize (Hrest InClusterConfig). destruct InClusterConfig as [c|err1]; [|exact Hrest].
    revert Hrest. unfold mbind, GoM_bind. cbn. by destruct (NewForConfig c).
Qed.

(** ** The whole process *)

Definition state_inv p (x : Shared) (a : At (run p)) : Prop :=
  group_inv HTTPServer_Run (body p) HTTPServer_stop (λ err, Is err ErrServerClosed) a ∧
  http_inv (srv x) (at1 a) (cleanup a) ∧ body_ok p (at2 a).

Lemma state_inv_begin p : state_inv p NewShared (begin (run p)).
Proof. split_and!; [apply group_inv_begin|by split|apply body_ok_begin]. Qed.

Lemma state_inv_turn p s l x a x' a' :
  state_inv p x a → turn (run p) s l x a = Some (x', inl a') → state_inv p x' a'.
Proof.
  intros (Hg & Hh & Hb) Hm%supervise_moves. pose proof (group_inv_moves _ _ _ _ _ _ _ _ _ Hg Hm) as Hg'.
  split; [done|]. clear Hg'.
  destruct Hm as [l' x' b Ht|l' x' b Ht|e Hu Hr|e Hu Hr|Hc Hx|l' c x' b Hc Ht|e g Hca Hw|c e Hca Hc Hr]; cbn; try done.
  - split; [by eapply http_inv_run|done].
  - split; [by rewrite (body_keeps_srv _ _ _ _ _ _ _ Ht)|by eapply body_ok_turn].
  - split; [|done]. destruct Hh as [Ha Hs]. rewrite Hc in Hs. by split.
  - split; [|done]. rewrite Hc in Hh. by eapply http_inv_stop.
  - split; [|done]. destruct Hh as [Ha Hs]. rewrite Hc in Hs. split; [done|]. by destruct c.
Qed.

Definition process_inv {p} (π : Process p) : Prop :=
  match π with
  | Running _ x a => state_inv p x a ∧ returned (run p) a = None
  | Exited _ x a e => state_inv p x a ∧ returned (run p) a = Some e
  | Crashed _ => True
  end.

Lemma occurs_turn p s x (a : At (run p)) l π :
  occurs (Turn l) (Running s x a) = Some π →
  (∃ x' a', turn (run p) s l x a = Some (x', inl a') ∧
     π = match returned (run p) a' with Some e => Exited s x' a' e | None => Running s x' a' end) ∨
  (∃ x' w, turn (run p) s l x a = Some (x', inr w) ∧ π = Crashed w).
Proof.
  intros Ho. assert (Ho' : (r ← turn (run p) s l x a;
      match r with
      | (x', inl a') => Some match returned (run p) a' with Some e => Exited s x' a' e | None => Running s x' a' end
      | (_, inr why) => Some (Crashed why)
      end) = Some π) by (by destruct s).
  destruct (turn (run p) s l x a) as [[x' [a'|w]]|]; try done; injection Ho' as <-; eauto 6.
Qed.

Lemma process_inv_reachable p (π : Process p) : reachable π → process_inv π.
Proof.
  revert π. apply (rtc_ind_r process_inv).
  { split; [apply state_inv_begin|done]. }
  intros π π' _ [ev Hev] Hinv. destruct π as [s x a|s x a e|w]; [|done..]. destruct Hinv as [Hinv Hret].
  destruct ev as [|l].
  - destruct s; [done|]. injection Hev as <-. by split.
  - apply occurs_turn in Hev as [(x' & a' & Ht & ->)|(x' & w & Ht & ->)]; [|done].
    apply state_inv_turn in Ht; [|done]. destruct (returned (run p) a') eqn:Hr; by split.
Qed.

Definition process_rank {p} `{!Terminating (body p)} (π : Process p) : nat :=
  match π with
  | Running s _ a => S (rank a) + (if s then 0 else 1)
  | _ => 0
  end.

Lemma next_less p `{!Terminating (body p)} (π π' : Process p) : next π π' → process_rank π' < process_rank π.
Proof.
  intros [ev Hev]. destruct π as [s x a|s x a e|w]; [|done..]. destruct ev as [|l].
  - destruct s; [done|]. injection Hev as <-. cbn. lia.
  - apply occurs_turn in Hev as [(x' & a' & Ht%rank_turn & ->)|(x' & w & Ht & ->)]; [|cbn; lia].
    destruct (returned (run p) a'); cbn -[rank]; lia.
Qed.

Lemma start_rank p (Hown : own_goroutines p) : process_rank (Terminating0 := body_terminating p Hown) (start p) ≤ 25.
Proof. destruct p as [dryRun nic|[]]; [cbn; lia..|done]. Qed.

(** Everything such a process does takes at most 25 turns. *)
Lemma next_bounded p n (π : Process p) : own_goroutines p → nsteps next n (start p) π → n ≤ 25.
Proof.
  intros Hown. pose proof (start_rank p Hown) as Hs. revert Hs. generalize (body_terminating p Hown). intros Hbody Hs Hn.
  assert (Hle : n + process_rank π ≤ process_rank (start p)); [|lia].
  clear Hs. revert Hn. generalize (start p). induction n as [|n IH]; intros π0 Hn; inversion Hn as [|? ? π1 ? H1 H2]; subst; [lia|].
  pose proof (next_less _ _ _ H1). apply IH in H2. lia.
Qed.

(** The functions of the group and the shutdown can always go on. *)
Lemma state_live p s x a :
  own_goroutines p → state_inv p x a → returned (run p) a = None → s = true ∨ first_error (group a) ≠ None →
  can_turn (run p) s x a.
Proof.
  intros Hown (Hg & Hh & Hb) Hret Hstop.
  assert (Hctx : context s a = true).
  { unfold context. destruct Hstop as [->|He]; [done|]. by rewrite (inv_canceled _ _ _ _ _ Hg), orb_true_r. }
  apply supervise_progress; [done..|]. intros c Hc. rewrite Hc in Hh. destruct (http_live _ _ _ Hh) as [Hl1 Hl2].
  split_and!; [done| |done]. by apply body_live.
Qed.

Lemma turn_occurs p s x (a : At (run p)) l r :
  turn (run p) s l x a = Some r → ∃ π, occurs (Turn l) (Running s x a) = Some π.
Proof.
  intros Ht. destruct r as [x' [a'|w]], s; eexists; cbn -[run]; by rewrite Ht.
Qed.

(** ** Panics *)

Lemma turn_panics p s x (a : At (run p)) l x' w :
  turn (run p) s l x a = Some (x', inr w) → occurs (Turn l) (Running s x a) = Some (Crashed w).
Proof. intros Ht. destruct s; cbn -[run]; by rewrite Ht. Qed.
End programs.

(** C15: a process stops, the agent's or the controller's without leader election: it
    takes at most 25 turns altogether, and once a signal has arrived or one of its two
    functions has returned an error to the errgroup, somebody can take a turn until the
    process has exited or crashed, without waiting for anything to fail.  In particular
    [Shutdown] does not wait for a [Serve] that does not end, nor the caller for a cleanup
    that never sends.  (With leader election the callback is run by [leader.RunOrDie],
    about whose turns nothing is assumed.) *)
Theorem processes_stop `{ErrGroup} `{LeaderLib} p (π : Process p) (Hown : own_goroutines p) (Hreach : reachable π) :
  (∀ n π', nsteps next n (start p) π' → n ≤ 25) ∧
  match π with
  | Running signalled x a =>
      signalled = true ∨ first_error (group a) ≠ None →
      ∃ l π', prompt l = true ∧ occurs (Turn l) π = Some π'
  | Exited _ _ _ _ | Crashed _ => ∀ ev, occurs ev π = None
  end.
Proof.
  split; [intros n π'; by apply next_bounded|]. apply process_inv_reachable in Hreach.
  destruct π as [s x a|s x a e|w]; [|by intros []..]. destruct Hreach as [Hinv Hret]. intros Hstop.
  destruct (state_live _ _ _ _ Hown Hinv Hret Hstop) as (l & r & Hp & Ht). exists l.
  destruct (turn_occurs _ _ _ _ _ _ Ht) as [π Ho]. by exists π.
Qed.

(** C26: when [run] returns, in either program and with leader election or without, both
    functions have returned and the errgroup holds the error of one of them; if that error
    is [ErrServerClosed] the HTTP server has been shut down and closed and the value is what
    [Shutdown] returned, otherwise the value is that error.  (The process may also end
    without [run] returning: by a panic, by [logrus.Fatal] in a probe that cannot be
    answered, or by what leader election does when it ends.) *)
Theorem exit_status `{ErrGroup} `{LeaderLib} p signalled x (a : At (run p)) e
    (Hreach : reachable (Exited signalled x a e)) :
  ∃ err, first_error (group a) = Some err ∧
    (returned HTTPServer_Run (at1 a) = Some (Some err) ∨ returned (body p) (at2 a) = Some (Some err)) ∧
    is_Some (returned HTTPServer_Run (at1 a)) ∧ is_Some (returned (body p) (at2 a)) ∧
    if Is err ErrServerClosed then cleanup a = Closed e ∧ srv x = Some (mkHttpSrv true false) else e = Some err.
Proof.
  apply process_inv_reachable in Hreach as [(Hg & [Ha Hs] & _) Hret].
  assert (Hleft : caller a = Left e) by (cbn in Hret; destruct (caller a); congruence).
  destruct (inv_waited _ _ _ _ _ Hg) as (Hc1 & Hc2 & _); [by rewrite Hleft|].
  assert (H1 := inv_collected1 _ _ _ _ _ Hg Hc1). assert (H2 := inv_collected2 _ _ _ _ _ Hg Hc2).
  destruct (first_error (group a)) as [err|] eqn:He.
  - exists err. split_and!; [done|by eapply inv_error|done..|].
    destruct (inv_left _ _ _ _ _ Hg _ Hleft) as [(err' & -> & He' & Ht)|[Hcl Ht]].
    + rewrite He in He'. injection He' as <-. by rewrite Ht.
    + rewrite (Ht _ He). rewrite Hcl in Hs. done.
  - destruct (inv_no_error _ _ _ _ _ Hg He) as [Hr _]. specialize (Hr Hc1). cbn in Hr.
    destruct (at1 a); [done..|]. injection Hr as ->. by destruct Ha.
Qed.

(** An errgroup: how many functions run, the first error, the context. *)
Record CountedGroup : Type := mkCountedGroup { g_pending : nat; g_error : option error; g_canceled : bool }.

#[refine] Instance counted : ErrGroup := {|
  Group := CountedGroup;
  WithContext := mkCountedGroup 0 None false;
  Go g := mkCountedGroup (S (g_pending g)) (g_error g) (g_canceled g);
  Return e g := mkCountedGroup (pred (g_pending g)) (match g_error g with Some f => Some f | None => e end)
                  (g_canceled g || bool_decide (e ≠ None));
  Wait g := match g_pending g with
            | 0 => Some (g_error g, mkCountedGroup 0 (g_error g) true)
            | S _ => None
            end;
  canceled := g_canceled;
  pending := g_pending;
  first_error := g_error;
|}.
Proof.
  - done.
  - done.
  - done.
  - intros [[|n] e c]; by split_and?.
Defined.

(** The runs below: the cleanup starts at once; the goroutines of the agent in turn. *)
Definition early : list Occurrence := [Signal; Turn Watch; Turn (InCleanup (Does None))].

Definition agent_fails (err : error) : list Occurrence :=
  Turn ∘ InSecond <$>
    [InFirst (Does (Some err)); FirstReturns; Watch; InCleanup (Does None); InSecond (Does None); InSecond (Does None);
     InSecond (Does None); InSecond (Does None); SecondReturns; Caller].

Definition crash_report : list Occurrence := [Turn SecondReturns; Turn Watch; Turn (InCleanup (Does None))].

(** The agent runs, a signal arrives, and both its functions end: closing the DHCP server
    with [closed], and the HTTP server's connections seen by the turn [poll]. *)
Definition stopped_agent (closed : option error) (poll : Label) : list Occurrence :=
  (Turn <$> [InFirst (Does None); InFirst (Does None); InSecond (InFirst (Does None)); InSecond FirstReturns;
             InSecond (InSecond (Does None)); InSecond (InSecond (Does None)); InSecond (InSecond (Does None))]) ++
  [Signal] ++
  (Turn <$> [Watch; InCleanup (Does None); InFirst (Does None); FirstReturns;
             InSecond Watch; InSecond (InCleanup (Does closed)); InSecond (InSecond (Does None));
             InSecond SecondReturns; InSecond Caller; InSecond Caller; SecondReturns;
             InCleanup poll; Caller; Caller]).

(** The exit value, what the program's own function returned, and whether the DHCP socket
    is still open. *)
Definition outcome `{ErrGroup} `{LeaderLib} {p} (π : Process p) : option (option error * option error * bool) :=
  match π with
  | Exited _ x a e => e' ← returned (body p) (at2 a); Some (e, e', dhcp_open x)
  | _ => None
  end.

Definition nil_dereference : string := "runtime error: invalid memory address or nil pointer dereference".

Lemma stop_panics x c w ctx :
  (∃ l x', turn HTTPServer_stop ctx l x c = Some (x', inr w)) ↔ c = ShutdownStart ∧ srv x = None ∧ w = nil_dereference.
Proof.
  split.
  - intros (l & x' & Ht). revert Ht. cbn. unfold HTTPServer_stop_turn. turn_cases; try done. by intros [= _ <-].
  - intros (-> & Hx & ->). exists (Does None), x. cbn. by rewrite Hx.
Qed.

(** C25: the cleanup calls [Shutdown] on an HTTP server that may not exist yet: at any
    moment of any run of either program, a turn of the cleanup goroutine ends the process
    exactly when the cleanup has begun before the goroutine that makes the server had its
    first turn, and it ends it with a nil dereference.  It happens to both programs when a
    signal arrives early, and to the agent without a signal when its DHCP server cannot be
    started: the error that would tell why is not reported.  (Panics of other goroutines
    are another matter: of the handlers, of the controller's callback, of the agent's look
    at its kubeconfig.) *)
Theorem early_stop_crashes `{ErrGroup} `{LeaderLib} :
  (∀ p s x (a : At (run p)) w, reachable (Running s x a) →
     (∃ l, occurs (Turn (InCleanup l)) (Running s x a) = Some (Crashed w)) ↔
     at1 a = HttpStart ∧ cleanup a = Stopping (ShutdownStart : At HTTPServer_stop) ∧ w = nil_dereference) ∧
  (∀ p, play early (start p) = Some (Crashed nil_dereference)) ∧
  (∀ nic err, @play counted _ _ (agent_fails err ++ crash_report) (start (TheAgent false nic)) =
     Some (Crashed nil_dereference)).
Proof.
  split_and!; [|done|done]. intros p s x a w Hreach.
  apply process_inv_reachable in Hreach as [(Hg & [Ha Hs] & Hb) Hret]. split.
  - intros (l & Ho). apply occurs_turn in Ho as [(x' & a' & _ & Hr)|(x' & w' & Ht & Hr)].
    { by destruct (returned (run p) a'). }
    injection Hr as <-. cbn in Ht. destruct (cleanup a) as [|c|] eqn:Hc; [done| |done]. apply within_Panic in Ht.
    destruct (proj1 (stop_panics x c w (context s a))) as (-> & Hx & ->); [eauto|]. split; [|done].
    destruct (at1 a); [done|..]; naive_solver.
  - intros (H1 & H2 & ->). rewrite H1 in Ha. exists (Does None). destruct s; cbn; rewrite H2; cbn; by rewrite Ha.
Qed.

(** The exit value does not tell whether the agent stopped in order.
    When closing the DHCP server fails after a signal, [Agent.Run] returns the error, but
    the errgroup keeps the HTTP server's [ErrServerClosed], if that comes first, and [run]
    returns nil.  And [Shutdown] gets the context whose end caused it: one request that is
    still being answered makes it return at once, and [run] fails although nothing did. *)
Theorem exit_code_misleads `{LeaderLib} (err : error) :
  let outcome_of closed poll :=
    @play counted _ _ (stopped_agent closed poll) (start (TheAgent false "eth1")) ≫= outcome in
  outcome_of (Some err) (Does None) = Some (None, Some err, true) ∧
  outcome_of None (Does None) = Some (None, None, false) ∧
  outcome_of None Busy = Some (Some Canceled, None, false).
Proof. split_and!; vm_compute; reflexivity. Qed.

(** ** Witnesses *)

Lemma play_reaches_process `{ErrGroup} `{LeaderLib} {p} evs (π π' : Process p) : play evs π = Some π' → rtc next π π'.
Proof.
  revert π. induction evs as [|ev evs IH]; intros π; cbn [play]; [by intros [= ->]|].
  destruct (occurs ev π) as [π1|] eqn:Ho; [|done]. intros Hp. eapply rtc_l; [by exists ev|by apply IH].
Qed.

Lemma outcome_exited `{ErrGroup} `{LeaderLib} {p} evs e b o :
  play evs (start p) ≫= outcome = Some (e, b, o) → ∃ s x (a : At (run p)), reachable (Exited s x a e).
Proof.
  destruct (play evs (start p)) as [[|s x a e'|]|] eqn:Hp; try done. cbn. destruct (returned (body p) (at2 a)); [|done].
  intros [=]; subst. exists s, x, a. by eapply play_reaches_process.
Qed.

(** Leader election that runs the callback once it is elected and exits when that has
    returned. *)
Definition elected (cb : Task Shared) : Task Shared :=
  mkTask Shared (option (At cb)) None
    (λ ctx l x a, match a with
       | None => match l with Does None => Some (x, inl (Some (begin cb))) | _ => None end
       | Some a => match returned cb a with
                   | Some _ => Some (x, inr "os.Exit")
                   | None => within Some (turn cb ctx l x a)
                   end
       end)
    (λ _, None).

#[refine] Instance demo_election : LeaderLib := {| RunOrDie := elected |}.
Proof.
  - done.
  - intros cb Hcb ctx l x a x' a' Ht. cbn in Ht. destruct a as [a|]; [destruct (returned cb a); [done|]|].
    + apply within_Val in Ht as (a1 & Ha & _). by apply Hcb in Ha.
    + destruct l as [| | | | | | |[]| | |]; try done. by injection Ht as <- _.
Defined.

Lemma processes_stop_witness :
  let π := Running (p := TheAgent false "eth1") true NewShared (begin (run (TheAgent false "eth1"))) in
  reachable π ∧ ∃ l π', prompt l = true ∧ occurs (Turn l) π = Some π'.
Proof.
  intros π. assert (Hr : reachable π) by (by apply (play_reaches_process [Signal])). split; [done|].
  apply (proj2 (processes_stop _ π I Hr)). by left.
Defined.

Lemma exit_status_witness :
  ∃ s x (a : At (run (TheAgent false "eth1"))), reachable (Exited s x a None) ∧
    cleanup a = Closed None ∧ srv x = Some (mkHttpSrv true false).
Proof.
  destruct (outcome_exited (p := TheAgent false "eth1") (stopped_agent None (Does None)) None None false)
    as (s & x & a & Hr); [vm_compute; reflexivity|].
  exists s, x, a. split; [done|]. destruct (exit_status _ _ _ _ _ Hr) as (err & _ & _ & _ & _ & He).
  by destruct (Is err ErrServerClosed).
Defined.

(** The controller as it is started by default. *)
Lemma early_stop_crashes_witness :
  ∃ (a : At (run (TheController false))), reachable (Running true NewShared a) ∧
    ∃ l, occurs (Turn (InCleanup l)) (Running true NewShared a) = Some (Crashed nil_dereference).
Proof.
  exists (set_cleanup (begin (run (TheController false))) (Stopping (begin HTTPServer_stop))).
  assert (Hr : reachable (p := TheController false) (Running true NewShared
    (set_cleanup (begin (run (TheController false))) (Stopping (begin HTTPServer_stop)))))
    by (by apply (play_reaches_process [Signal; Turn Watch])).
  split; [done|]. by apply (proj1 early_stop_crashes _ _ _ _ _ Hr).
Defined.
