(* ===== verification/Assets.v ===== *)
(** * Embedded manifests ([pkg/data]) and their upload ([pkg/crd])

    The CRDs are compiled into the controller as compressed texts, which can be found by
    name in a table and by path in a tree.  gzip and the YAML parser are parameters, and so
    are the texts.  [RestoreAsset] and [RestoreAssets], which write the files to a directory,
    are not called by the programs and are left out. *)

From S2P Require Import Prelude GoNet GoText GoTextFacts.
From Stdlib Require Import Ascii.
Local Open Scope go_scope.
Local Open Scope Z_scope.

(** ** [strings] *)

(** [strings.Split] at a separator of one byte. *)
Fixpoint Split (s : string) (sep : ascii) : list string :=
  match s with
  | EmptyString => [EmptyString]
  | String c rest =>
      if ascii_dec c sep then EmptyString :: Split rest sep
      else match Split rest sep with
           | part :: parts => String c part :: parts
           | [] => [char1 c]
           end
  end.

(** [strings.Replace(s, old, new, -1)] of one byte. *)
Fixpoint ReplaceAll (s : string) (old new : ascii) : string :=
  match s with
  | EmptyString => EmptyString
  | String c rest => String (if ascii_dec c old then new else c) (ReplaceAll rest old new)
  end.

(** ** [pkg/data] *)

(** [os.FileInfo] of an embedded file. *)
Record bindataFileInfo : Type := mkFileInfo {
  fi_Name : string;
  fi_Size : Z;
  fi_Mode : Z;
  fi_ModTime : Z;   (* seconds of [time.Unix] *)
}.

Definition ModeDir : Z := 2 ^ 31.
Definition fi_IsDir (fi : bindataFileInfo) : bool := negb (Z.land (fi_Mode fi) ModeDir =? 0).

Record asset : Type := mkAsset {
  asset_bytes : string;
  asset_info : bindataFileInfo;
}.

(** A node has a file or children; Go's map of children as an association list. *)
Inductive bintree : Type :=
| Bintree (Func : option (result asset)) (Children : list (string * bintree)).

Definition node_Func (t : bintree) : option (result asset) := let 'Bintree f _ := t in f.
Definition node_Children (t : bintree) : gmap string bintree := let 'Bintree _ cs := t in list_to_map cs.

Section assets.
Context `{MapRange}.
Context {Reader : Type} (gzip_NewReader : string → result Reader).
Context (io_Copy : Reader → string * option error) (gzip_Close : Reader → option error).
Context (Error : error → string).
Context (ippoolsYaml virtualmachinenetworkconfigsYaml : string).

(** The error of [Close] is looked at, but the one of [Copy] is returned. *)
Definition bindataRead (data name : string) : string * option error :=
  match gzip_NewReader data with
  | inr err => (EmptyString, Some (Errorf "read %q: %v" [name; Error err]))
  | inl gz =>
      let '(buf, err) := io_Copy gz in
      let clErr := gzip_Close gz in
      match err, clErr with
      | Some e, _ => (EmptyString, Some (Errorf "read %q: %v" [name; Error e]))
      | None, Some _ => (EmptyString, err)
      | None, None => (buf, None)
      end
  end.

Definition ippools_name : string := "chart/crds/network.harvesterhci.io_ippools.yaml".
Definition vmnetcfgs_name : string := "chart/crds/network.harvesterhci.io_virtualmachinenetworkconfigs.yaml".

Definition ippoolsYamlBytes : string * option error := bindataRead ippoolsYaml ippools_name.

Definition chartCrds_ippoolsYaml : result asset :=
  match ippoolsYamlBytes with
  | (_, Some err) => inr err
  | (bytes, None) => inl (mkAsset bytes (mkFileInfo ippools_name 7603 420 1769152639))
  end.

Definition virtualmachinenetworkconfigsYamlBytes : string * option error :=
  bindataRead virtualmachinenetworkconfigsYaml vmnetcfgs_name.

Definition chartCrds_virtualmachinenetworkconfigsYaml : result asset :=
  match virtualmachinenetworkconfigsYamlBytes with
  | (_, Some err) => inr err
  | (bytes, None) => inl (mkAsset bytes (mkFileInfo vmnetcfgs_name 4603 420 1769152639))
  end.

(** [_bindata] *)
Definition bindata : gmap string (result asset) :=
  list_to_map [(ippools_name, chartCrds_ippoolsYaml); (vmnetcfgs_name, chartCrds_virtualmachinenetworkconfigsYaml)].

Definition canonical (name : string) : string := ReplaceAll name backslash "/".

Definition Asset (name : string) : result string :=
  match bindata !! canonical name with
  | Some f =>
      match f with
      | inr err => inr (Errorf "Asset %s can't read by error: %v" [name; Error err])
      | inl a => inl (asset_bytes a)
      end
  | None => inr (Errorf "Asset %s not found" [name])
  end.

Definition MustAsset (name : string) : res string :=
  match Asset name with
  | inr err => Panic ("asset: Asset(" +:+ name +:+ "): " +:+ Error err)
  | inl a => Val a
  end.

Definition AssetInfo (name : string) : result bindataFileInfo :=
  match bindata !! canonical name with
  | Some f =>
      match f with
      | inr err => inr (Errorf "AssetInfo %s can't read by error: %v" [name; Error err])
      | inl a => inl (asset_info a)
      end
  | None => inr (Errorf "AssetInfo %s not found" [name])
  end.

Definition AssetNames (seed : nat) : list string := (range seed bindata).*1.

(** [_bintree] *)
Definition tree : bintree :=
  Bintree None [("chart", Bintree None [("crds", Bintree None
    [("network.harvesterhci.io_ippools.yaml", Bintree (Some chartCrds_ippoolsYaml) []);
     ("network.harvesterhci.io_virtualmachinenetworkconfigs.yaml",
        Bintree (Some chartCrds_virtualmachinenetworkconfigsYaml) [])])])].

(** [for _, p := range pathList { node = node.Children[p] }], leaving at a nil node. *)
Fixpoint descend (node : bintree) (pathList : list string) : option bintree :=
  match pathList with
  | [] => Some node
  | p :: rest => node' ← node_Children node !! p; descend node' rest
  end.

Definition AssetDir (seed : nat) (name : string) : result (list string) :=
  let node := if decide (name = EmptyString) then Some tree else descend tree (Split (canonical name) "/") in
  match node with
  | None => inr (Errorf "Asset %s not found" [name])
  | Some node =>
      match node_Func node with
      | Some _ => inr (Errorf "Asset %s not found" [name])
      | None => inl (range seed (node_Children node)).*1
      end
  end.

(** ** [pkg/crd] *)

Context {Object : Type} (ToObjects : string → result (list Object)).

Definition add_objects (v : string) (objs : list Object) : result (list Object) :=
  match Asset v with
  | inr err => inr err
  | inl content =>
      match ToObjects content with
      | inr err => inr err
      | inl obj => inl (objs ++ obj)
      end
  end.

Fixpoint objects_of (names : list string) (objs : list Object) : result (list Object) :=
  match names with
  | [] => inl objs
  | v :: names => objs' ← add_objects v objs; objects_of names objs'
  end.

Definition generateObjects (seed : nat) : result (list Object) := objects_of (AssetNames seed) [].

(** ** Paths *)

Lemma Split_nonempty s sep : Split s sep ≠ [].
Proof. destruct s as [|c s]; cbn; [done|]. destruct (ascii_dec c sep); [done|]. by destruct (Split s sep). Qed.

Lemma Join_Split s sep : Join (Split s sep) (char1 sep) = s.
Proof.
  induction s as [|c s IH]; [done|]. cbn. destruct (ascii_dec c sep) as [->|Hc].
  - destruct (Split s sep) as [|p ps] eqn:Hs; [by apply Split_nonempty in Hs|].
    change (EmptyString +:+ char1 sep +:+ Join (p :: ps) (char1 sep) = String sep s). by rewrite IH.
  - destruct (Split s sep) as [|p ps] eqn:Hs; [by apply Split_nonempty in Hs|].
    assert (Hj : Join (String c p :: ps) (char1 sep) = String c (Join (p :: ps) (char1 sep))) by (by destruct ps).
    by rewrite Hj, IH.
Qed.

(** The children of a node of the tree are found by their names only. *)
Lemma child_inv (cs : list (string * bintree)) p node :
  (list_to_map cs : gmap string bintree) !! p = Some node → (p, node) ∈ cs.
Proof. apply elem_of_list_to_map_2. Qed.

Lemma descend_leaf f path node : descend (Bintree f []) path = Some node → path = [] ∧ node = Bintree f [].
Proof. destruct path as [|p path]; [by intros [= <-]|]. done. Qed.

(** The files of the tree, by path. *)
Lemma descend_files path f cs :
  descend tree path = Some (Bintree (Some f) cs) →
  (path = ["chart"; "crds"; "network.harvesterhci.io_ippools.yaml"] ∧ f = chartCrds_ippoolsYaml) ∨
  (path = ["chart"; "crds"; "network.harvesterhci.io_virtualmachinenetworkconfigs.yaml"] ∧
     f = chartCrds_virtualmachinenetworkconfigsYaml).
Proof.
  destruct path as [|p1 path]; [done|]. intros (n1 & H1%child_inv & Hd)%bind_Some.
  apply list_elem_of_singleton in H1 as [= -> ->].
  destruct path as [|p2 path]; [done|]. apply bind_Some in Hd as (n2 & H2%child_inv & Hd).
  apply list_elem_of_singleton in H2 as [= -> ->].
  destruct path as [|p3 path]; [done|]. apply bind_Some in Hd as (n3 & H3%child_inv & Hd).
  apply elem_of_cons in H3 as [[= -> ->]|[= -> ->]%list_elem_of_singleton];
    apply descend_leaf in Hd as [-> [= -> ->]]; auto.
Qed.

Lemma bindata_inv n f :
  bindata !! n = Some f →
  (n = ippools_name ∧ f = chartCrds_ippoolsYaml) ∨ (n = vmnetcfgs_name ∧ f = chartCrds_virtualmachinenetworkconfigsYaml).
Proof.
  unfold bindata. intros Hn%elem_of_list_to_map_2.
  apply elem_of_cons in Hn as [[= -> ->]|[= -> ->]%list_elem_of_singleton]; auto.
Qed.

(** ** The objects applied to the cluster *)

Lemma objects_of_inv names acc objs :
  objects_of names acc = inl objs → ∃ parts, Forall2 (λ v o, add_objects v [] = inl o) names parts ∧ objs = acc ++ concat parts.
Proof.
  revert acc. induction names as [|v names IH]; intros acc; cbn [objects_of].
  - intros [= <-]. exists []. split; [done|]. by rewrite app_nil_r.
  - unfold add_objects at 1. destruct (Asset v) as [content|e] eqn:Ha; [|done].
    destruct (ToObjects content) as [obj|e] eqn:Ho; [|done]. intros (parts & Hp & ->)%IH.
    exists (obj :: parts). split; [|cbn; by rewrite app_assoc]. constructor; [|done]. unfold add_objects. by rewrite Ha, Ho.
Qed.

(** The objects applied are those of both files, the files in some order. *)
Lemma generateObjects_inv seed objs :
  generateObjects seed = inl objs →
  ∃ o1 o2, add_objects ippools_name [] = inl o1 ∧ add_objects vmnetcfgs_name [] = inl o2 ∧ objs ≡ₚ o1 ++ o2.
Proof.
  unfold generateObjects. intros (parts & Hp & ->)%objects_of_inv. cbn.
  assert (Hn : AssetNames seed ≡ₚ [ippools_name; vmnetcfgs_name]).
  { unfold AssetNames. rewrite range_perm. change [ippools_name; vmnetcfgs_name] with
      ([(ippools_name, chartCrds_ippoolsYaml); (vmnetcfgs_name, chartCrds_virtualmachinenetworkconfigsYaml)].*1).
    apply fmap_Permutation, map_to_list_to_map. apply NoDup_cons. split; [|apply NoDup_singleton].
    intros [=]%list_elem_of_singleton. }
  symmetry in Hn. apply Permutation_length_2_inv in Hn. destruct Hn as [Hn|Hn]; rewrite Hn in Hp;
    apply Forall2_cons_inv_l in Hp as (o1 & ps & Ho1 & Hp & ->);
    apply Forall2_cons_inv_l in Hp as (o2 & ps' & Ho2 & ->%Forall2_nil_inv_l & ->); cbn; rewrite app_nil_r.
  - by exists o1, o2.
  - exists o2, o1. split_and!; [done..|]. apply Permutation_app_comm.
Qed.
End assets.

(** The table and the tree of the embedded files describe the same files:
    a name, with slashes or backslashes, is in the table exactly if its path leads to a leaf
    of the tree, with the same contents. *)
Theorem asset_tree_agrees {Reader} (gzip_NewReader : string → result Reader) io_Copy gzip_Close Error yaml1 yaml2 name f :
  (bindata gzip_NewReader io_Copy gzip_Close Error yaml1 yaml2 !! canonical name = Some f ↔
   ∃ cs, descend (tree gzip_NewReader io_Copy gzip_Close Error yaml1 yaml2) (Split (canonical name) "/") =
     Some (Bintree (Some f) cs)).
Proof.
  split.
  - intros [[-> ->]|[-> ->]]%bindata_inv; exists []; vm_compute; reflexivity.
  - intros [cs Hd]. pose proof (Join_Split (canonical name) "/") as Hj.
    apply descend_files in Hd as [[Hp ->]|[Hp ->]]; rewrite Hp in Hj; by rewrite <-Hj.
Qed.
