(* ===== verification/Startup.v ===== *)
(** * Starting the programs

    What the controller and the webhook do before they serve: [SetupManagement],
    [Management.Register] and [Start] ([pkg/config/context.go]), the [Register] of each
    controller, [crd.Create], and [run] of [cmd/controller] and [cmd/webhook].  It is a
    sequence of calls of libraries; a run leaves the calls it has made, and how each call
    ends is up to an environment that may look at all calls before. *)

From S2P Require Import Prelude GoNet GoText Api Util Metrics Webhook Kube Image VmNetCfg IpPool Vm StatusHandler System Assets.
Local Open Scope go_scope.

(** ** Calls *)

Inductive Factory : Type := HarvesterNetworkFactory | CoreFactory | CniFactory | KubeVirtFactory.

Inductive Resource : Type := IPPools | VmNetCfgs | Pods | NADs | VirtualMachines.

Definition factory_of (r : Resource) : Factory :=
  match r with
  | IPPools | VmNetCfgs => HarvesterNetworkFactory
  | Pods => CoreFactory
  | NADs => CniFactory
  | VirtualMachines => KubeVirtFactory
  end.

Inductive OperationType : Type := Create | Update | Delete.

(** [admission.Resource] as far as it is filled in; the scope is always the namespace. *)
Record AdmissionResource : Type := mkAdmissionResource {
  Names : list string;
  APIGroup : string;
  APIVersion : string;
  OperationTypes : list OperationType;
}.

Inductive BootCall (Object : Type) : Type :=
| ClientConfig
| NewSharedControllerFactory
| NewFactory (f : Factory) (shared : bool)   (* on the shared controller factory *)
| NewForConfig
| NewApply
| ApplyObjects (setID : string) (objs : list Object)
| Cache (r : Resource)
| AddIndexer (r : Resource) (name : string)
| StatusHandlerFor (r : Resource) (condition name : string)
| OnChangeOf (r : Resource) (name : string)
| OnRemoveOf (r : Resource) (name : string)
| WatchRelated (name : string) (enqueue watched : Resource)
| StartAll (threadiness : Z) (starters : list Factory)
| RegisterValidators (rs : list AdmissionResource)
| RegisterMutators (rs : list AdmissionResource)
| StartServer.
Arguments ClientConfig {_}.
Arguments NewSharedControllerFactory {_}.
Arguments NewFactory {_} _ _.
Arguments NewForConfig {_}.
Arguments NewApply {_}.
Arguments ApplyObjects {_} _ _.
Arguments Cache {_} _.
Arguments AddIndexer {_} _ _.
Arguments StatusHandlerFor {_} _ _ _.
Arguments OnChangeOf {_} _ _.
Arguments OnRemoveOf {_} _ _.
Arguments WatchRelated {_} _ _ _.
Arguments StartAll {_} _ _.
Arguments RegisterValidators {_} _.
Arguments RegisterMutators {_} _.
Arguments StartServer {_}.

(** ** The admission resources ([pkg/webhook]) *)

Definition Version : string := "v1alpha1".

Definition ippool_Validator_Resource : AdmissionResource :=
  mkAdmissionResource ["ippools"] GroupName Version [Create; Update; Delete].
Definition ippool_Mutator_Resource : AdmissionResource :=
  mkAdmissionResource ["ippools"] GroupName Version [Create].
Definition vmnetcfg_Validator_Resource : AdmissionResource :=
  mkAdmissionResource ["virtualmachinenetworkconfigs"] GroupName Version [Create].

Section startup.
Context {Object : Type} (generateObjects : result (list Object)) (Error : error → string).
(** How the next call ends, after the calls before it. *)
Context (fails : list (BootCall Object) → BootCall Object → option error).

Local Abbreviation Boot := (GoM (list (BootCall Object))).

Definition boot_call (c : BootCall Object) : Boot (option error) := λ made, (made ++ [c], Val (fails made c)).
(** A call without an error result. *)
Definition boot_note (c : BootCall Object) : Boot unit := λ made, (made ++ [c], Val tt).

(** ** [pkg/crd] *)

Definition crd_Create : Boot (option error) :=
  do! boot_call NewApply orelse err => mret (Some err) in
  match generateObjects with
  | inr err => mret (Some (Errorf "error generating objects: %v" [Error err]))
  | inl objs => boot_call (ApplyObjects "vm-dhcp-controller-crd" objs)
  end.

(** ** [Register] of the controllers *)

Definition RegisterFunc : Type := Boot (option error).

Definition ippool_Register_calls : RegisterFunc :=
  _ ← boot_note (Cache IPPools);
  _ ← boot_note (Cache Pods);
  _ ← boot_note (Cache NADs);
  _ ← boot_note (StatusHandlerFor IPPools Registered "ippool-register");
  _ ← boot_note (StatusHandlerFor IPPools CacheReady "ippool-cache-builder");
  _ ← boot_note (StatusHandlerFor IPPools AgentReady "ippool-agent-monitor");
  _ ← boot_note (WatchRelated "ippool-trigger" IPPools Pods);
  _ ← boot_note (OnChangeOf IPPools "vm-dhcp-ippool-controller");
  _ ← boot_note (OnRemoveOf IPPools "vm-dhcp-ippool-controller");
  mret None.

Definition vm_Register_calls : RegisterFunc :=
  _ ← boot_note (Cache VirtualMachines);
  _ ← boot_note (Cache VmNetCfgs);
  _ ← boot_note (OnChangeOf VirtualMachines "vm-dhcp-vm-controller");
  mret None.

Definition vmnetcfg_Register_calls : RegisterFunc :=
  _ ← boot_note (Cache VmNetCfgs);
  _ ← boot_note (Cache IPPools);
  _ ← boot_note (Cache NADs);
  _ ← boot_note (StatusHandlerFor VmNetCfgs Allocated "vmnetcfg-allocate");
  _ ← boot_note (StatusHandlerFor VmNetCfgs InSynced "vmnetcfg-sync");
  _ ← boot_note (OnChangeOf VmNetCfgs "vm-dhcp-vmnetcfg-controller");
  _ ← boot_note (OnRemoveOf VmNetCfgs "vm-dhcp-vmnetcfg-controller");
  mret None.

Definition RegisterFuncList : list RegisterFunc :=
  [ippool_Register_calls; vm_Register_calls; vmnetcfg_Register_calls].

(** ** [config.Management] *)

(** The starters, in the order of [append]. *)
Definition SetupManagement : Boot (result (list Factory)) :=
  do! boot_call NewSharedControllerFactory orelse err => mret (inr err) in
  do! boot_call (NewFactory HarvesterNetworkFactory true) orelse err => mret (inr err) in
  let starters := [HarvesterNetworkFactory] in
  do! boot_call (NewFactory CoreFactory true) orelse err => mret (inr err) in
  let starters := starters ++ [CoreFactory] in
  do! boot_call (NewFactory CniFactory true) orelse err => mret (inr err) in
  let starters := starters ++ [CniFactory] in
  do! boot_call (NewFactory KubeVirtFactory true) orelse err => mret (inr err) in
  let starters := starters ++ [KubeVirtFactory] in
  do! boot_call NewForConfig orelse err => mret (inr err) in
  mret (inl starters).

Fixpoint register_all (registerFuncList : list RegisterFunc) : Boot (option error) :=
  match registerFuncList with
  | [] => mret None
  | f :: fs => do! f orelse err => mret (Some err) in register_all fs
  end.

Definition Management_Register (registerFuncList : list RegisterFunc) : Boot (option error) :=
  do! crd_Create orelse err => mret (Some err) in register_all registerFuncList.

Definition Management_Start (starters : list Factory) (threadiness : Z) : Boot (option error) :=
  boot_call (StartAll threadiness starters).

(** ** [cmd/controller] *)

Definition threadiness : Z := 1.

Definition controller_callback (starters : list Factory) : Boot (option error) :=
  do! Management_Register RegisterFuncList orelse err => go_panic (Error err) in
  do! Management_Start starters threadiness orelse err => go_panic (Error err) in
  mret None.

(** Up to [<-ctx.Done()], without leader election; [Fatal] is an error result here. *)
Definition controller_run : Boot (option error) :=
  do! boot_call ClientConfig orelse err => mret (Some err) in
  do! boot_call NewForConfig orelse err =>
    mret (Some (Errorf "Error get client from kubeconfig: %s" [Error err])) in
  try! starters := SetupManagement catch err => mret (Some (Errorf "Error building controllers: %s" [Error err])) in
  controller_callback starters.

(** ** [cmd/webhook] *)

(** [NewFactoryFromConfigOrDie] *)
Definition NewFactoryOrDie (f : Factory) (starters : list Factory) : Boot (list Factory) :=
  do! boot_call (NewFactory f false) orelse err => go_panic (Error err) in mret (starters ++ [f]).

Definition newCaches (threads : Z) : Boot (option error) :=
  starters ← NewFactoryOrDie CoreFactory [];
  starters ← NewFactoryOrDie KubeVirtFactory starters;
  starters ← NewFactoryOrDie CniFactory starters;
  starters ← NewFactoryOrDie HarvesterNetworkFactory starters;
  _ ← boot_note (Cache IPPools);
  _ ← boot_note (Cache VmNetCfgs);
  _ ← boot_note (Cache NADs);
  _ ← boot_note (Cache VirtualMachines);
  _ ← boot_note (AddIndexer VmNetCfgs VmNetCfgByNetworkIndex);
  boot_call (StartAll threads starters).

Definition webhook_run (threads : Z) : Boot (option error) :=
  do! newCaches threads orelse err => mret (Some err) in
  do! boot_call (RegisterValidators [ippool_Validator_Resource; vmnetcfg_Validator_Resource]) orelse err =>
    mret (Some err) in
  do! boot_call (RegisterMutators [ippool_Mutator_Resource]) orelse err => mret (Some err) in
  do! boot_call StartServer orelse err => mret (Some err) in
  mret None.

(** ** Scripts

    [m] makes the calls of a script in order; it stops at the first one that fails, and
    it has made all of them when its result is [good]. *)
Definition returns_error (c : BootCall Object) : bool :=
  match c with
  | Cache _ | AddIndexer _ _ | StatusHandlerFor _ _ _ | OnChangeOf _ _ | OnRemoveOf _ _ | WatchRelated _ _ _ => false
  | _ => true
  end.

Fixpoint play_script (script made : list (BootCall Object)) : list (BootCall Object) * bool :=
  match script with
  | [] => (made, true)
  | c :: rest =>
      if returns_error c && bool_decide (fails made c ≠ None) then (made ++ [c], false)
      else play_script rest (made ++ [c])
  end.

Definition scripted {A} (good : A → Prop) (m : Boot A) (script : list (BootCall Object)) : Prop :=
  ∀ made, (m made).1 = (play_script script made).1 ∧
    ((∃ a, (m made).2 = Val a ∧ good a) ↔ (play_script script made).2 = true).

Definition none (e : option error) : Prop := e = None.

(** A result that is not good and comes without further calls. *)
Definition gives_up {A} (good : A → Prop) (m : Boot A) : Prop :=
  ∀ made, (m made).1 = made ∧ ∀ a, (m made).2 = Val a → ¬ good a.

Lemma play_app s1 s2 made :
  play_script (s1 ++ s2) made =
  if (play_script s1 made).2 then play_script s2 (play_script s1 made).1 else play_script s1 made.
Proof.
  revert made. induction s1 as [|c s1 IH]; intros made; [done|]. cbn [app play_script].
  by destruct (returns_error c && _).
Qed.

Lemma scripted_ret {A} (good : A → Prop) a : good a → scripted good (mret a) [].
Proof. intros Ha made. cbn. split; [done|]. naive_solver. Qed.

Lemma scripted_call c : returns_error c = true → scripted none (boot_call c) [c].
Proof.
  intros Hc made. unfold boot_call, none. cbn. rewrite Hc. cbn. case_bool_decide as Hf; cbn; (split; [done|]); naive_solver.
Qed.

Lemma scripted_note c : returns_error c = false → scripted (λ _, True) (boot_note c) [c].
Proof. intros Hc made. cbn. rewrite Hc. cbn. split; [done|]. naive_solver. Qed.

Lemma gives_up_ret {A} (good : A → Prop) a : ¬ good a → gives_up good (mret a).
Proof. intros Ha made. split; [done|]. by intros a' [= <-]. Qed.

Lemma gives_up_panic {A} (good : A → Prop) w : gives_up good (go_panic w).
Proof. by intros made. Qed.

Lemma script_failed {A} (good : A → Prop) (made made' : list (BootCall Object)) (r : res A) script :
  ((∃ a, r = Val a ∧ good a) ↔ (play_script script made).2 = true) → (∀ a, r ≠ Val a) →
  (play_script script made).2 = false.
Proof. intros Hiff Hr. destruct (play_script script made).2; [|done]. destruct (proj2 Hiff eq_refl) as (a & Ha & _). by apply Hr in Ha. Qed.

(** The results of [m] are good ones and bad ones; after a bad one no more calls are made. *)
Definition tells {A} (good bad : A → Prop) (m : Boot A) : Prop := ∀ made a, (m made).2 = Val a → good a ∨ bad a.

Lemma scripted_bind {A B} (good bad : A → Prop) (good' : B → Prop) (m : Boot A) (k : A → Boot B) s1 s2 :
  scripted good m s1 → tells good bad m → (∀ a, good a → scripted good' (k a) s2) →
  (∀ a, bad a → gives_up good' (k a)) → scripted good' (m ≫= k) (s1 ++ s2).
Proof.
  intros Hm Ht Hk Hg made. rewrite play_app. destruct (Hm made) as [H1 H2]. specialize (Ht made).
  unfold mbind, GoM_bind. destruct (m made) as [made' r]. cbn [fst snd] in H1, H2, Ht. destruct r as [a|w|].
  2,3: rewrite (script_failed _ _ made' _ _ H2) by done; cbn; split; [done|];
    rewrite (script_failed _ _ made' _ _ H2) by done; naive_solver.
  destruct (play_script s1 made).2 eqn:Hp.
  - destruct (proj2 H2 eq_refl) as (a' & [= <-] & Ha). rewrite <-H1. by apply Hk.
  - destruct (Ht a eq_refl) as [Ha|Ha]; [by assert (false = true) by (apply H2; eauto)|].
    destruct (Hg a Ha made') as [Hs Hn]. rewrite Hs, Hp. split; [done|]. split; [|done].
    intros (b & Hb & Hgood). by apply Hn in Hb.
Qed.

Lemma tells_error (m : Boot (option error)) : tells none (λ e, e ≠ None) m.
Proof. intros made [e|] _; [by right|by left]. Qed.

(** [if err := m; err != nil { r }; k], and a call without error before [k]. *)
Lemma scripted_do {A} (good : A → Prop) (m : Boot (option error)) (r : error → Boot A) k s1 s2 :
  scripted none m s1 → scripted good k s2 → (∀ e, gives_up good (r e)) →
  scripted good (do! m orelse e => r e in k) (s1 ++ s2).
Proof.
  intros Hm Hk Hr. eapply scripted_bind; [done|apply tells_error|by intros a ->|].
  intros [e|] Ha; [apply Hr|done].
Qed.

Lemma scripted_then {A} (good : A → Prop) c (k : Boot A) s :
  returns_error c = false → scripted good k s → scripted good (_ ← boot_note c; k) (c :: s).
Proof.
  intros Hc Hk. apply (scripted_bind (λ _, True) (λ _, False) _ _ _ [c] s); [by apply scripted_note|by left|done|done].
Qed.

(** Code that makes the calls of a script but has no good result. *)
Definition fruitless {A} (good : A → Prop) (m : Boot A) (script : list (BootCall Object)) : Prop :=
  ∀ made, (m made).1 = (play_script script made).1 ∧ ∀ a, (m made).2 = Val a → ¬ good a.

Lemma fruitless_bind {A} (good : A → Prop) (m : Boot (option error)) (r : error → Boot A) k s :
  fruitless none m s → (∀ e, gives_up good (r e)) → fruitless good (do! m orelse e => r e in k) s.
Proof.
  intros Hm Hr made. destruct (Hm made) as [H1 H2]. unfold mbind, GoM_bind.
  destruct (m made) as [made' [a|w|]]; cbn in *; [|done..]. destruct a as [e|]; [|by destruct (H2 None eq_refl)].
  destruct (Hr e made') as [Hs Hn]. by rewrite Hs.
Qed.

Lemma fruitless_after {A B} (good bad : A → Prop) (good' : B → Prop) (m : Boot A) (k : A → Boot B) s1 s2 :
  scripted good m s1 → tells good bad m → (∀ a, good a → fruitless good' (k a) s2) →
  (∀ a, bad a → gives_up good' (k a)) → fruitless good' (m ≫= k) (s1 ++ s2).
Proof.
  intros Hm Ht Hk Hg made. rewrite play_app. destruct (Hm made) as [H1 H2]. specialize (Ht made).
  unfold mbind, GoM_bind. destruct (m made) as [made' r]. cbn [fst snd] in H1, H2, Ht. destruct r as [a|w|].
  2,3: by rewrite (script_failed _ _ made' _ _ H2).
  destruct (play_script s1 made).2 eqn:Hp.
  - destruct (proj2 H2 eq_refl) as (a' & [= <-] & Ha). rewrite <-H1. by apply Hk.
  - destruct (Ht a eq_refl) as [Ha|Ha]; [by assert (false = true) by (apply H2; eauto)|].
    destruct (Hg a Ha made') as [Hs Hn]. by rewrite Hs.
Qed.

Lemma fruitless_do {A} (good : A → Prop) (m : Boot (option error)) (r : error → Boot A) k s1 s2 :
  scripted none m s1 → fruitless good k s2 → (∀ e, gives_up good (r e)) →
  fruitless good (do! m orelse e => r e in k) (s1 ++ s2).
Proof.
  intros Hm Hk Hr. eapply fruitless_after; [done|apply tells_error|by intros a ->|].
  intros [e|] Ha; [apply Hr|done].
Qed.

(** What a script's run looks like. *)
Lemma play_prefix s made : ∃ n, (play_script s made).1 = made ++ take n s.
Proof.
  revert made. induction s as [|c s IH]; intros made; cbn [play_script]; [exists 0; by rewrite app_nil_r|].
  destruct (returns_error c && _); [by exists 1|]. destruct (IH (made ++ [c])) as [n ->]. exists (S n).
  by rewrite <-app_assoc.
Qed.

Lemma play_success s made : (play_script s made).2 = true → (play_script s made).1 = made ++ s.
Proof.
  revert made. induction s as [|c s IH]; intros made; cbn [play_script]; [by rewrite app_nil_r|].
  destruct (returns_error c && _); [done|]. intros ->%IH. by rewrite <-app_assoc.
Qed.

Lemma play_succeeded s1 c s2 made :
  (play_script (s1 ++ c :: s2) made).2 = true → returns_error c = true → fails (made ++ s1) c = None.
Proof.
  rewrite play_app. destruct (play_script s1 made).2 eqn:Hp; [|by rewrite Hp].
  rewrite (play_success _ _ Hp). cbn [play_script]. intros Hs Hc. rewrite Hc in Hs. cbn in Hs.
  case_bool_decide as Hf; [done|]. by destruct (fails (made ++ s1) c).
Qed.

(** A call that the script makes at one place only. *)
Lemma play_reached (P : BootCall Object → Prop) s1 c s2 l1 c' l2 :
  P c' → Forall (λ x, ¬ P x) s1 → Forall (λ x, ¬ P x) s2 →
  (play_script (s1 ++ c :: s2) []).1 = l1 ++ c' :: l2 →
  l1 = s1 ∧ c' = c ∧ (play_script s1 []).2 = true ∧ ∃ n, l2 = take n s2.
Proof.
  intros HP H1 H2 Hrun. rewrite play_app in Hrun.
  assert (Hnot : ∀ l n, Forall (λ x, ¬ P x) l → ¬ c' ∈ take n l).
  { intros l n Hl Hin. eapply Forall_forall in Hl; [|by eapply subseteq_take]. done. }
  destruct (play_script s1 []).2 eqn:Hp.
  - rewrite (play_success _ _ Hp) in Hrun. destruct (play_prefix (c :: s2) ([] ++ s1)) as [n Hn].
    rewrite Hn in Hrun. cbn [app] in Hrun. destruct n as [|n]; cbn [take] in Hrun.
    + exfalso. apply (Hnot s1 (length s1) H1). rewrite take_ge by lia. rewrite <-(app_nil_r s1), Hrun. set_solver.
    + apply app_eq_inv in Hrun as [(k & -> & Hk)|(k & -> & Hk)].
      * destruct k as [|x k]; cbn in Hk; [|].
        -- rewrite app_nil_r. injection Hk as -> ->. split_and!; [done..|by exists n].
        -- injection Hk as <- Hk. by apply Forall_app in H1 as [_ [? _]%Forall_cons].
      * destruct k as [|x k]; cbn in Hk; [injection Hk as <- <-; rewrite app_nil_r; split_and!; [done..|by exists n]|].
        injection Hk as -> Hk. exfalso. apply (Hnot s2 n H2). rewrite Hk. set_solver.
  - destruct (play_prefix s1 []) as [n Hn]. rewrite Hn in Hrun. cbn in Hrun. exfalso. apply (Hnot s1 n H1).
    rewrite Hrun. set_solver.
Qed.

(** ** The scripts of the programs *)

Definition ippool_registrations : list (BootCall Object) :=
  [Cache IPPools; Cache Pods; Cache NADs;
   StatusHandlerFor IPPools Registered "ippool-register"; StatusHandlerFor IPPools CacheReady "ippool-cache-builder";
   StatusHandlerFor IPPools AgentReady "ippool-agent-monitor"; WatchRelated "ippool-trigger" IPPools Pods;
   OnChangeOf IPPools "vm-dhcp-ippool-controller"; OnRemoveOf IPPools "vm-dhcp-ippool-controller"].

Definition vm_registrations : list (BootCall Object) :=
  [Cache VirtualMachines; Cache VmNetCfgs; OnChangeOf VirtualMachines "vm-dhcp-vm-controller"].

Definition vmnetcfg_registrations : list (BootCall Object) :=
  [Cache VmNetCfgs; Cache IPPools; Cache NADs; StatusHandlerFor VmNetCfgs Allocated "vmnetcfg-allocate";
   StatusHandlerFor VmNetCfgs InSynced "vmnetcfg-sync"; OnChangeOf VmNetCfgs "vm-dhcp-vmnetcfg-controller";
   OnRemoveOf VmNetCfgs "vm-dhcp-vmnetcfg-controller"].

Definition registrations : list (BootCall Object) :=
  ippool_registrations ++ vm_registrations ++ vmnetcfg_registrations.

Definition setup_script : list (BootCall Object) :=
  [NewSharedControllerFactory; NewFactory HarvesterNetworkFactory true; NewFactory CoreFactory true;
   NewFactory CniFactory true; NewFactory KubeVirtFactory true; NewForConfig].

Definition all_starters : list Factory := [HarvesterNetworkFactory; CoreFactory; CniFactory; KubeVirtFactory].

Definition apply_crds (objs : list Object) : BootCall Object := ApplyObjects "vm-dhcp-controller-crd" objs.

Lemma setup_scripted : scripted (λ r, r = inl all_starters) SetupManagement setup_script.
Proof.
  unfold SetupManagement, setup_script.
  repeat (apply (scripted_do _ _ _ _ [_]); [by apply scripted_call| |by intros e; apply gives_up_ret]).
  by apply scripted_ret.
Qed.

(** A sequence of calls without error results. *)
Ltac notes := repeat (apply scripted_then; [done|]); by apply scripted_ret.

Lemma register_scripted : scripted none (register_all RegisterFuncList) registrations.
Proof.
  unfold registrations. rewrite <-(app_nil_r vmnetcfg_registrations). cbn [register_all RegisterFuncList].
  repeat (apply scripted_do; [| |by intros e; apply gives_up_ret]); [notes..|by apply scripted_ret].
Qed.

Lemma crd_scripted objs :
  generateObjects = inl objs → scripted none crd_Create [NewApply; apply_crds objs].
Proof.
  intros Hg. unfold crd_Create. rewrite Hg.
  apply (scripted_do _ _ _ _ [_] [_]); [by apply scripted_call..|by intros e; apply gives_up_ret].
Qed.

Lemma crd_fruitless e : generateObjects = inr e → fruitless none crd_Create [NewApply].
Proof.
  intros Hg. unfold crd_Create. rewrite Hg.
  apply (fruitless_do _ _ _ _ [_] []); [by apply scripted_call| |by intros e'; apply gives_up_ret].
  intros made. split; [done|]. by intros a' [= <-].
Qed.

(** The controller, up to the call that starts the informers. *)
Definition controller_script (objs : list Object) : list (BootCall Object) :=
  [ClientConfig; NewForConfig] ++ setup_script ++ ([NewApply; apply_crds objs] ++ registrations) ++
  [StartAll threadiness all_starters].

Lemma callback_scripted objs :
  generateObjects = inl objs →
  scripted none (controller_callback all_starters)
    (([NewApply; apply_crds objs] ++ registrations) ++ [StartAll threadiness all_starters]).
Proof.
  intros Hg. unfold controller_callback, Management_Register, Management_Start.
  apply scripted_do; [| |by intros e; apply gives_up_panic].
  - apply scripted_do; [by apply crd_scripted|apply register_scripted|by intros e; apply gives_up_ret].
  - apply (scripted_do _ _ _ _ [_] []); [by apply scripted_call|by apply scripted_ret|by intros e; apply gives_up_panic].
Qed.

Lemma setup_tells : tells (λ r, r = inl all_starters) (λ r, ∃ e, r = inr e) SetupManagement.
Proof.
  intros made a. unfold SetupManagement, mbind, GoM_bind, boot_call. cbn.
  repeat match goal with |- context [fails ?l ?c] => destruct (fails l c) end; intros [= <-]; eauto.
Qed.

Lemma controller_scripted objs :
  generateObjects = inl objs → scripted none controller_run (controller_script objs).
Proof.
  intros Hg. unfold controller_run, controller_script.
  do 2 (apply (scripted_do _ _ _ _ [_]); [by apply scripted_call| |by intros e; apply gives_up_ret]).
  eapply scripted_bind; [apply setup_scripted|apply setup_tells|..].
  - intros a ->. by apply callback_scripted.
  - intros a [e ->]. by apply gives_up_ret.
Qed.

Lemma controller_fruitless e :
  generateObjects = inr e → fruitless none controller_run ([ClientConfig; NewForConfig] ++ setup_script ++ [NewApply]).
Proof.
  intros Hg. unfold controller_run.
  do 2 (apply (fruitless_do _ _ _ _ [_]); [by apply scripted_call| |by intros e'; apply gives_up_ret]).
  eapply fruitless_after; [apply setup_scripted|apply setup_tells|..].
  - intros a ->. unfold controller_callback, Management_Register.
    apply fruitless_bind; [|by intros e'; apply gives_up_panic].
    apply fruitless_bind; [by eapply crd_fruitless|by intros e'; apply gives_up_ret].
  - intros a [e' ->]. by apply gives_up_ret.
Qed.

Definition is_start (c : BootCall Object) : Prop := match c with StartAll _ _ => True | _ => False end.

(** A script without a [StartAll]. *)
Ltac no_start := repeat (apply Forall_cons; split; [by intros []|]); apply Forall_nil; done.

Lemma controller_reached l1 threads starters l2 :
  (controller_run []).1 = l1 ++ StartAll threads starters :: l2 →
  ∃ objs, generateObjects = inl objs ∧ (play_script l1 []).2 = true ∧
    l1 ++ [StartAll threads starters] = controller_script objs ∧ l2 = [].
Proof.
  intros Hrun. destruct generateObjects as [objs|e] eqn:Hg.
  - exists objs. split; [done|]. rewrite (proj1 (controller_scripted objs Hg [])) in Hrun.
    assert (Hs : controller_script objs = (([ClientConfig; NewForConfig] ++ setup_script ++
        ([NewApply; apply_crds objs] ++ registrations))) ++ StartAll threadiness all_starters :: [])
      by (unfold controller_script; by rewrite <-!app_assoc).
    rewrite Hs in Hrun |- *. apply (play_reached is_start) in Hrun as (-> & [= -> ->] & Hp & n & ->); [|done|no_start|done].
    split_and!; [done..|]. by rewrite take_nil.
  - exfalso. rewrite (proj1 (controller_fruitless e Hg [])) in Hrun.
    destruct (play_prefix ([ClientConfig; NewForConfig] ++ setup_script ++ [NewApply]) []) as [n Hn].
    rewrite Hn in Hrun. cbn [app] in Hrun.
    assert (Hin : StartAll threads starters ∈ [ClientConfig; NewForConfig] ++ setup_script ++ [NewApply]).
    { apply (subseteq_take n). cbn [app]. rewrite Hrun. set_solver. }
    revert Hin. unfold setup_script. cbn [app]. rewrite !elem_of_cons, elem_of_nil. naive_solver.
Qed.

(** The webhook. *)
Definition webhook_caches : list (BootCall Object) :=
  [NewFactory CoreFactory false; NewFactory KubeVirtFactory false; NewFactory CniFactory false;
   NewFactory HarvesterNetworkFactory false; Cache IPPools; Cache VmNetCfgs; Cache NADs; Cache VirtualMachines;
   AddIndexer VmNetCfgs VmNetCfgByNetworkIndex].

Definition webhook_starters : list Factory := [CoreFactory; KubeVirtFactory; CniFactory; HarvesterNetworkFactory].

Definition webhook_hooks : list (BootCall Object) :=
  [RegisterValidators [ippool_Validator_Resource; vmnetcfg_Validator_Resource]; RegisterMutators [ippool_Mutator_Resource]].

Definition webhook_script (threads : Z) : list (BootCall Object) :=
  (webhook_caches ++ [StartAll threads webhook_starters]) ++ webhook_hooks ++ [StartServer].

Lemma factory_scripted f starters :
  scripted (λ r, r = starters ++ [f]) (NewFactoryOrDie f starters) [NewFactory f false].
Proof.
  apply (scripted_do _ _ _ _ [_] []); [by apply scripted_call|by apply scripted_ret|by intros e; apply gives_up_panic].
Qed.

Lemma factory_tells f starters : tells (λ r, r = starters ++ [f]) (λ _, False) (NewFactoryOrDie f starters).
Proof.
  intros made a. unfold NewFactoryOrDie, mbind, GoM_bind, boot_call. cbn.
  destruct (fails made _); [done|]. intros [= <-]. by left.
Qed.

Lemma caches_scripted threads :
  scripted none (newCaches threads) (webhook_caches ++ [StartAll threads webhook_starters]).
Proof.
  unfold newCaches, webhook_caches. cbn [app].
  do 4 (apply (scripted_bind _ _ _ _ _ [_] _ (factory_scripted _ _) (factory_tells _ _)); [intros ? ->|done]).
  repeat (apply scripted_then; [done|]). by apply scripted_call.
Qed.

Lemma webhook_scripted threads : scripted none (webhook_run threads) (webhook_script threads).
Proof.
  unfold webhook_run, webhook_script, webhook_hooks. cbn [app].
  apply scripted_do; [apply caches_scripted| |by intros e; apply gives_up_ret].
  repeat (apply (scripted_do _ _ _ _ [_]); [by apply scripted_call| |by intros e; apply gives_up_ret]).
  by apply scripted_ret.
Qed.

Lemma webhook_reached threads l1 l2 :
  (webhook_run threads []).1 = l1 ++ StartServer :: l2 →
  (play_script l1 []).2 = true ∧ l1 = webhook_caches ++ StartAll threads webhook_starters :: webhook_hooks ∧ l2 = [].
Proof.
  intros Hrun. rewrite (proj1 (webhook_scripted threads [])) in Hrun. unfold webhook_script in Hrun.
  rewrite app_assoc in Hrun. apply (play_reached (λ c, c = StartServer)) in Hrun as (-> & _ & Hp & n & ->); [|done| |done].
  - split_and!; [done| |by rewrite take_nil]. by rewrite <-app_assoc.
  - repeat (apply Forall_cons; split; [done|]). by apply Forall_nil.
Qed.

(** A call of a run that came so far has succeeded. *)
Lemma reached_succeeded l1 c l2 :
  (play_script (l1 ++ c :: l2) []).2 = true → returns_error c = true → fails l1 c = None.
Proof. intros Hp Hc. by apply (play_succeeded l1 c l2 []). Qed.
End startup.
Arguments registrations {_}.
Arguments apply_crds {_} _.
Arguments webhook_caches {_}.
Arguments webhook_hooks {_}.

(** ** The handlers of the transition system are the registered ones *)

Section registered.
Context `{MapRange} `{ConditionLib} `{KvLib} `{PromLib} `{Kube} `{RetryLib}.
Context `{!SemanticEq IPPool IPPoolStatus} `{!SemanticEq VmNetCfg VmNetCfgStatus}.
Context (h : Handler) (AnnotationMacAddressName : string).

(** Whether a handler is for removed objects, and its name. *)
Definition reg_label {Obj} (r : registration Obj) : bool * string :=
  match r with Changed _ name _ => (false, name) | Removed _ name _ => (true, name) end.

Definition call_label {Object} (c : BootCall Object) : option (bool * string) :=
  match c with
  | StatusHandlerFor _ _ name | OnChangeOf _ name => Some (false, name)
  | OnRemoveOf _ name => Some (true, name)
  | _ => None
  end.

Lemma registered_labels {Object} :
  omap call_label (@registrations Object) =
  (reg_label <$> ippool_Register h) ++ (reg_label <$> vm_Register AnnotationMacAddressName) ++
  (reg_label <$> vmnetcfg_Register).
Proof. reflexivity. Qed.
End registered.

(** C27: the programs start in order, however their calls end.  When the
    controller starts its informers it has applied the CRDs of both embedded files and
    registered all handlers, every cache they use belongs to a factory it starts, and nothing
    is registered later.  When the webhook's server starts, the index has been added before
    the informers were started, and these and the registration of all hooks succeeded. *)
Theorem startup_order `{MapRange} {Reader Object} (gzip_NewReader : string → result Reader) io_Copy gzip_Close Error
    yaml1 yaml2 (ToObjects : string → result (list Object)) seed fails :
  let generate := generateObjects gzip_NewReader io_Copy gzip_Close Error yaml1 yaml2 ToObjects seed in
  let objects_of_file name := add_objects gzip_NewReader io_Copy gzip_Close Error yaml1 yaml2 ToObjects name [] in
  (∀ l1 threads starters l2,
     (controller_run generate Error fails []).1 = l1 ++ StartAll threads starters :: l2 →
     ∃ o1 o2 objs l0, objects_of_file ippools_name = inl o1 ∧ objects_of_file vmnetcfgs_name = inl o2 ∧
       objs ≡ₚ o1 ++ o2 ∧ l1 = l0 ++ apply_crds objs :: registrations ∧ fails l0 (apply_crds objs) = None ∧
       (∀ r, Cache r ∈ l1 → factory_of r ∈ starters) ∧ l2 = []) ∧
  (∀ threads l1 l2,
     (webhook_run Error fails threads []).1 = l1 ++ StartServer :: l2 →
     ∃ starters, l1 = webhook_caches ++ StartAll threads starters :: webhook_hooks ∧
       fails webhook_caches (StartAll threads starters) = None ∧
       (∀ r, Cache r ∈ l1 → factory_of r ∈ starters) ∧
       (∀ pre rs post, l1 = pre ++ RegisterValidators rs :: post → fails pre (RegisterValidators rs) = None) ∧ l2 = []).
Proof.
  intros generate objects_of_file. split.
  - intros l1 threads starters l2 Hrun. apply controller_reached in Hrun as (objs & Hg & Hp & Hs & ->).
    destruct (generateObjects_inv _ _ _ _ _ _ _ _ _ Hg) as (o1 & o2 & H1 & H2 & Hperm).
    set (l0 := ([ClientConfig; NewForConfig] ++ setup_script ++ [NewApply] : list (BootCall Object))).
    apply (app_inj_tail l1 (l0 ++ apply_crds objs :: registrations)) in Hs as [-> [= -> ->]].
    exists o1, o2, objs, l0. split_and!; [done..| | |done].
    + by apply (reached_succeeded fails _ _ _ Hp).
    + intros r _. clear. destruct r; set_solver.
  - intros threads l1 l2 Hrun. apply webhook_reached in Hrun as (Hp & -> & ->). exists webhook_starters.
    split_and!; [done| | | |done].
    + by apply (reached_succeeded fails _ _ _ Hp).
    + intros r _. clear. destruct r; set_solver.
    + intros pre rs post Heq. rewrite Heq in Hp. by apply (reached_succeeded fails _ _ _ Hp).
Qed.

(** ** A run *)

(** gzip that stores, one object per file, no call fails. *)
Definition run_controller `{MapRange} : list (BootCall string) :=
  (controller_run (generateObjects inl (λ r, (r, None)) (λ _, None) (λ _, EmptyString) "pools" "configs" (λ s, inl [s]) 0)
     (λ _, EmptyString) (λ _ _, None) []).1.

Definition stored_objects : string → list string → result (list string) :=
  add_objects inl (λ r, (r, None)) (λ _ : string, None) (λ _, EmptyString) "pools" "configs" (λ s, inl [s]).

Lemma stored_files :
  stored_objects ippools_name [] = inl ["pools"] ∧ stored_objects vmnetcfgs_name [] = inl ["configs"].
Proof. split; vm_compute; reflexivity. Qed.

Lemma controller_starts : ∃ l1, run_controller (H := canonical_range) = l1 ++ [StartAll 1 all_starters].
Proof. eexists (_ :: _ :: _ :: _ :: _ :: _ :: _ :: _ :: _ :: _ :: registrations). vm_compute. reflexivity. Qed.

Lemma startup_order_witness :
  ∃ objs l0, run_controller (H := canonical_range) = l0 ++ apply_crds objs :: registrations ++ [StartAll 1 all_starters] ∧
    objs ≡ₚ ["pools"; "configs"].
Proof.
  destruct controller_starts as [l1 Hr], stored_files as [Hf1 Hf2].
  destruct (proj1 (startup_order (H := canonical_range) inl (λ r, (r, None)) (λ _, None) (λ _, EmptyString) "pools" "configs"
    (λ s, inl [s]) 0 (λ _ _, None)) l1 1%Z all_starters [] Hr) as (o1 & o2 & objs & l0 & H1 & H2 & Hp & Hl & _).
  exists objs, l0. split; [rewrite Hr, Hl, <-app_assoc; exact eq_refl|].
  assert (Ho1 : inl o1 = inl ["pools"]) by exact (eq_trans (eq_sym H1) Hf1).
  assert (Ho2 : inl o2 = inl ["configs"]) by exact (eq_trans (eq_sym H2) Hf2).
  injection Ho1 as ->. injection Ho2 as ->. exact Hp.
Defined.
