(* ===== verification/Lifecycle.v ===== *)
(** * A machine's MAC changes: the three controllers in turn

    The VM controller marks the VirtualMachineNetworkConfig out of sync and changes
    its spec when it sees the mark; the VirtualMachineNetworkConfig controller
    releases what left the spec and clears the mark.  Which of the two reacts to
    the mark first decides the outcome; both orders are run here on the API server
    of [FakeKube]. *)

From S2P Require Import Prelude GoNet GoText Api Util Ipam IpamSpec MacCache Metrics Leases Webhook Fakes Kube FakeKube Image VmNetCfg VmNetCfgFacts IpPool IpPoolFacts Vm VmFacts StatusHandler System.
Local Open Scope go_scope.

#[local] Existing Instance mem_kube.

Section lifecycle.
Context `{MapRange} `{ConditionLib} `{KvLib} `{PromLib} `{RetryLib} `{!SemanticEq VmNetCfg VmNetCfgStatus}.
Context (AnnotationMacAddressName : string).
Implicit Types m : Management.

(** The [vmnetcfg-sync] handler on the stored object of the machine. *)
Definition reconcile (handler : StatusHandler) (c time namespace name : string)
    : GoM Management (option error) :=
  try! v := ask_world (λ w, vmnetcfgCache_Get w namespace name) catch err => mret (Some err) in
  '(_, err) ← sync (mkStatusHandler vmnetcfgClient_UpdateStatus c handler) time (Some v);
  mret err.

(** The VM controller, then the VirtualMachineNetworkConfig controller. *)
Definition change_then_sync (vm : VirtualMachine) (call : Call) : GoM Management unit :=
  _ ← Vm.OnChange AnnotationMacAddressName (call_seed call) (Some vm);
  _ ← reconcile (Sync_handler (call_now call)) InSynced (call_time call) (Namespace (vm_Meta vm)) (Name (vm_Meta vm));
  mret tt.

(** The object's spec is [ncs] and its leases are those of the spec. *)
Record settled_on (namespace name : string) (ncs : list NetworkConfig) (v : VmNetCfg) : Prop := {
  um_key : obj_key (vnc_Meta v) = (namespace, name);
  um_spec : NetworkConfigs (vnc_Spec v) = ncs;
  um_active : is_paused (vnc_Paused (vnc_Spec v)) = false;
  um_leases : ∀ s, s ∈ st_NetworkConfigs (vnc_Status v) →
    ncs_MACAddress s ∈ spec_macs v ∧ State s ≠ StaleState;
}.

Definition stored (vm : VirtualMachine) (ncs : list NetworkConfig) (synced : string) (m : Management) : Prop :=
  ∃ v, api_vmnetcfgs (world m) !! (Namespace (vm_Meta vm), Name (vm_Meta vm)) = Some v ∧
    settled_on (Namespace (vm_Meta vm)) (Name (vm_Meta vm)) ncs v ∧
    GetStatus InSynced (vnc_Conditions (vnc_Status v)) = synced.

Lemma update_vmnetcfg_status (w : ApiServer) v old :
  api_vmnetcfgs w !! obj_key (vnc_Meta v) = Some old → vnc_Meta v = vnc_Meta old →
  let o := vnc_rv (set_vnc_Status old (vnc_Status v)) (ResourceVersion (vnc_Meta old) + 1)%Z in
  vmnetcfgClient_UpdateStatus v w =
    (with_vmnetcfgs w (<[obj_key (vnc_Meta v) := o]> (api_vmnetcfgs w)), inl o).
Proof using Type.
  intros Hold Hmeta. cbn [vmnetcfgClient_UpdateStatus mem_kube]. unfold update_in. rewrite Hold.
  by rewrite decide_True by (by rewrite Hmeta).
Qed.

(** With nothing to give up [Sync] answers the status as it is. *)
Lemma Sync_nothing now v m :
  is_paused (vnc_Paused (vnc_Spec v)) = false → IsTrue InSynced (vnc_Conditions (vnc_Status v)) = false →
  (∀ s, s ∈ st_NetworkConfigs (vnc_Status v) → ncs_MACAddress s ∈ spec_macs v ∧ State s ≠ StaleState) →
  ∃ v', Sync_handler now v (vnc_Status v) m = (m, Val (v', vnc_Status v, None)) ∧ vnc_Meta v' = vnc_Meta v.
Proof using Type.
  intros Hp Hs Hall. unfold Sync_handler, Sync. rewrite Hp, Hs. cbv zeta. fold (spec_macs v).
  assert (Hmark : mark_stale (spec_macs v) <$> st_NetworkConfigs (vnc_Status v) = st_NetworkConfigs (vnc_Status v)).
  { rewrite <-(list_fmap_id (st_NetworkConfigs (vnc_Status v))) at 2. apply list_fmap_ext. intros i s Hi.
    apply list_elem_of_lookup_2 in Hi. unfold mark_stale. rewrite bool_decide_eq_true_2; [done|by apply Hall]. }
  rewrite Hmark. set (v1 := set_vnc_Status v _). exists v1. split; [|done].
  unfold mbind, GoM_bind. rewrite cleanup_nothing by (intros s Hin; by apply Hall). cbn [orb].
  replace (filter _ _) with (st_NetworkConfigs (vnc_Status v)); [by destruct v as [? ? ? []]|].
  symmetry. apply filter_all. intros s Hin. by apply Hall.
Qed.

Lemma settled_on_status ns name ncs v st rv :
  settled_on ns name ncs v → st_NetworkConfigs st = st_NetworkConfigs (vnc_Status v) →
  settled_on ns name ncs (vnc_rv (set_vnc_Status v st) rv).
Proof using Type. intros [Hk Hs Ha Hl] Hst. constructor; [done..|]. cbn. rewrite Hst. exact Hl. Qed.

(** [OnChange] of a machine whose configs are not those of the spec sets the mark,
    unless it is set, and leaves the spec. *)
Lemma OnChange_marks vm ncm ncs synced seed m :
  DeletionTimestamp (vm_Meta vm) = None → configs_of AnnotationMacAddressName vm = Some ncm → ncm ≠ ∅ →
  ¬ ncs ≡ₚ (map_to_list ncm).*2 → stored vm ncs synced m → synced ≠ "False" →
  ∃ m1, Vm.OnChange AnnotationMacAddressName seed (Some vm) m = (m1, Val (Some vm, None)) ∧
    same_leases m m1 ∧ stored vm ncs "False" m1.
Proof using Type.
  intros Hdel Hc Hne Hperm (v & Hv & Hset & Hsync) Hmark. pose proof Hset as [Hk Hs _ _].
  unfold Vm.OnChange, configs_of in *. rewrite Hdel, from_annotation_spec.
  destruct (annotation_macs AnnotationMacAddressName vm) as [macs|]; [|done].
  destruct (Template vm) as [[interfaces networks]|]; [|done].
  cbn [fmap option_fmap option_map mbind option_bind] in *. injection Hc as ->.
  rewrite bool_decide_eq_false_2 by done. unfold update_vmnetcfg.
  rewrite (bind_run _ _ m m (inl v)) by (unfold ask_world, go_gets; cbn; by rewrite (proj2 (get_in_inl _ _ _ _) Hv)).
  unfold DeepEqual. rewrite bool_decide_eq_false_2.
  2: { cbn [vnc_Spec set_vnc_Spec NetworkConfigs prepareVmNetCfg]. rewrite Hs. intros Heq. apply Hperm.
       by rewrite <-Heq, range_perm. }
  cbn [negb]. rewrite IsFalse_spec, Hsync. rewrite (proj2 (String.eqb_neq _ _) Hmark).
  set (cpy := vnc_cond _ _). assert (Hkey : obj_key (vnc_Meta cpy) = (Namespace (vm_Meta vm), Name (vm_Meta vm))) by done.
  pose proof (update_vmnetcfg_status (world m) cpy v) as Hup. rewrite Hkey in Hup. specialize (Hup Hv eq_refl).
  eexists. split.
  { unfold mbind, GoM_bind, request, go_state. rewrite Hup. reflexivity. }
  split; [done|]. eexists. cbn [world set_world api_vmnetcfgs with_vmnetcfgs].
  split; [apply lookup_insert_eq|]. split; [by apply settled_on_status|].
  cbn. unfold set_condition. autorewrite with go_cond. by rewrite String.eqb_refl.
Qed.

(** [Sync] of an object that gives nothing up clears the mark, whatever the machine says. *)
Lemma Sync_clears vm ncs call m :
  stored vm ncs "False" m →
  ∃ m1, reconcile (Sync_handler (call_now call)) InSynced (call_time call) (Namespace (vm_Meta vm)) (Name (vm_Meta vm)) m =
    (m1, Val None) ∧ same_leases m m1 ∧ stored vm ncs "True" m1.
Proof using Type.
  intros (v & Hv & Hset & Hsync). pose proof Hset as [Hk Hs Ha Hl]. unfold reconcile.
  rewrite (bind_run _ _ m m (inl v)) by (unfold ask_world, go_gets; cbn; by rewrite (proj2 (get_in_inl _ _ _ _) Hv)).
  unfold sync. cbv zeta. cbn [handler condition obj_Status VmNetCfg_object].
  destruct (Sync_nothing (call_now call) v m Ha) as (v1 & Hrun & Hmeta); [by rewrite IsTrue_spec, Hsync|done|].
  unfold mbind at 1, GoM_bind. unfold mbind at 1. rewrite Hrun. cbn [from_option].
  set (st1 := record_outcome InSynced None (vnc_Status v)).
  assert (Hst1 : GetStatus InSynced (vnc_Conditions st1) = "True").
  { unfold st1, record_outcome. cbn. autorewrite with go_cond. by rewrite String.eqb_refl. }
  assert (Hneq : Semantic_DeepEqual (vnc_Status v) st1 = false).
  { destruct (Semantic_DeepEqual _ _) eqn:Heq; [|done]. apply Semantic_conditions in Heq.
    change (vnc_Conditions (vnc_Status v) = vnc_Conditions st1) in Heq. congruence. }
  rewrite Hneq. cbn [negb String.eqb InSynced].
  set (o := put_Status v1 _). assert (Hko : obj_key (vnc_Meta o) = (Namespace (vm_Meta vm), Name (vm_Meta vm))) by (cbn; by rewrite Hmeta).
  pose proof (update_vmnetcfg_status (world m) o v) as Hup. rewrite Hko in Hup. specialize (Hup Hv Hmeta).
  eexists. split.
  { unfold mbind, GoM_bind, request, go_state. cbn [client_UpdateStatus]. rewrite Hup. reflexivity. }
  split; [done|]. eexists. cbn [world set_world api_vmnetcfgs with_vmnetcfgs].
  split; [apply lookup_insert_eq|]. split; [by apply settled_on_status|].
  cbn. unfold on_conditions. cbn. autorewrite with go_cond. by rewrite String.eqb_refl.
Qed.

(** C28: the mark the VM controller sets does not by itself bring
    the change through.  As long as the VirtualMachineNetworkConfig controller
    reacts to it before the VM controller comes back, it finds nothing to release,
    since the spec still is the old one, and clears the mark: after any number of such
    rounds spec and leases are as before, although the machine asks for others. *)
Theorem mark_cleared_forever (vm : VirtualMachine) (ncm : gmap string NetworkConfig) (ncs : list NetworkConfig)
    (synced : string) (rounds : list Call) (m : Management) :
  DeletionTimestamp (vm_Meta vm) = None → configs_of AnnotationMacAddressName vm = Some ncm → ncm ≠ ∅ →
  ¬ ncs ≡ₚ (map_to_list ncm).*2 → stored vm ncs synced m → synced ≠ "False" →
  let m' := foldl (λ m call, (change_then_sync vm call m).1) m rounds in
  same_leases m m' ∧ ∃ synced', synced' ≠ "False" ∧ stored vm ncs synced' m'.
Proof using Type.
  intros Hdel Hc Hne Hperm. revert synced m. induction rounds as [|call rounds IH]; intros synced m Hst Hs; cbn [foldl].
  { split; [done|]. by exists synced. }
  destruct (OnChange_marks vm ncm ncs synced (call_seed call) m Hdel Hc Hne Hperm Hst Hs) as (m1 & Hrun1 & Hl1 & Hst1).
  destruct (Sync_clears vm ncs call m1 Hst1) as (m2 & Hrun2 & Hl2 & Hst2).
  assert (Hround : (change_then_sync vm call m).1 = m2).
  { unfold change_then_sync. rewrite (bind_run _ _ _ _ _ Hrun1), (bind_run _ _ _ _ _ Hrun2). done. }
  rewrite Hround. destruct (IH "True" m2 Hst2 ltac:(done)) as [Hl Hfin]. split; [|exact Hfin].
  eapply same_leases_trans; [exact Hl1|]. by eapply same_leases_trans.
Qed.
End lifecycle.

(** ** Concrete runs *)

Import FakeKube.Demo.

#[local] Instance plain_equality : SemanticEq VmNetCfg VmNetCfgStatus := plain_semantic_eq.
#[local] Instance plain_pool_equality : SemanticEq IPPool IPPoolStatus := plain_semantic_eq.

(** The machine's NIC had mac1, which holds .10; it has mac2 now. *)
Definition changed_machine : VirtualMachine :=
  machine [mkInterface "nic-1" mac2] [mkVmNetwork "nic-1" (Some "default/net-1")].
Definition old_spec : list NetworkConfig := [nic mac1 None].
Definition one_held : Management :=
  with_lease mac1 "192.168.0.10" (management
    (api [pool "True" (Some {[ "192.168.0.10" := mac1 ]})] [synced_1])).

Lemma changed_configs : configs_of mac_annotation changed_machine = Some {[ "nic-1" := nic mac2 None ]}.
Proof. vm_compute; reflexivity. Qed.

Definition a_call : Call := mkCall 0 0 "2024-01-01T00:00:00Z".

Lemma mark_cleared_forever_witness :
  let m' := foldl (λ m call, (change_then_sync mac_annotation changed_machine call m).1) one_held [a_call; a_call; a_call] in
  same_leases one_held m' ∧ ∃ synced', synced' ≠ "False" ∧ stored changed_machine old_spec synced' m'.
Proof.
  refine (mark_cleared_forever mac_annotation changed_machine {[ "nic-1" := nic mac2 None ]} old_spec "True"
    [a_call; a_call; a_call] one_held eq_refl changed_configs _ _ _ _).
  - intros Heq. by apply (f_equal (.!! "nic-1")) in Heq.
  - rewrite map_to_list_singleton. intros [=]%Permutation_singleton_inj.
  - exists synced_1. split; [vm_compute; reflexivity|]. split; [|reflexivity]. constructor; [done..|].
    intros s Hs. cbn in Hs. apply list_elem_of_singleton in Hs as ->. split; [|done].
    apply elem_of_list_to_set. by left.
  - done.
Defined.

(** The VM controller comes back before the mark is cleared. *)
Definition mac_change : GoM Management unit :=
  _ ← Vm.OnChange mac_annotation 0 (Some changed_machine);
  _ ← Vm.OnChange mac_annotation 1 (Some changed_machine);
  _ ← reconcile (Sync_handler 0) InSynced "2024-01-01T00:00:00Z" "default" "vm-1";
  _ ← reconcile (only_status (Allocate 0 0)) Allocated "2024-01-01T00:00:01Z" "default" "vm-1";
  mret tt.

(** In the other order the change comes through: after mark,
    spec update, [Sync] and [Allocate] the old MAC holds nothing, the new one holds
    an address, and the pool's records and the object's status name just that
    lease. *)
Theorem mac_change_completes :
  let m' := (mac_change one_held).1 in
  ∃ ip, (∀ mac ip', holds m' "default/net-1" mac ip' ↔ mac = mac2 ∧ ip' = ip) ∧
    (∃ p, get_in (api_pools (world m')) "default" "pool-1" = inl p ∧
       records_of p = {[ ip := mac2 ]}) ∧
    ∃ v, get_in (api_vmnetcfgs (world m')) "default" "vm-1" = inl v ∧
      NetworkConfigs (vnc_Spec v) = [nic mac2 None] ∧ st_NetworkConfigs (vnc_Status v) = [lease mac2 ip].
Proof.
  intros m'. exists "192.168.0.11". split; [|split].
  - assert (Hc : CacheAllocator_ m' = {[ "default/net-1" := mkMACSet {[ mac2 := ParseIP "192.168.0.11" ]} ]})
      by (vm_compute; reflexivity).
    clearbody m'. intros mac ip. unfold holds, cached_text, cached_ip. rewrite Hc, lookup_singleton_eq. cbn [mbind option_bind macs].
    destruct (decide (mac = mac2)) as [->|Hne].
    + rewrite lookup_singleton_eq. cbn [fmap option_fmap option_map].
      replace (IP_String (ParseIP "192.168.0.11")) with "192.168.0.11" by (vm_compute; reflexivity).
      split; [by intros [= <-]|by intros [_ ->]].
    + rewrite lookup_singleton_ne by done. split; [done|by intros [? _]].
  - exists (default (pool "True" None) (api_pools (world m') !! ("default", "pool-1"))).
    split; vm_compute; reflexivity.
  - exists (default synced_1 (api_vmnetcfgs (world m') !! ("default", "vm-1"))).
    split_and!; vm_compute; reflexivity.
Qed.

(** A pool is loaded into a fresh process. *)
Definition at_start : @World mem_kube := api [restarted] [].
Definition cache_builder : KeyHandler IPPool := λ call _ obj,
  sync (mkStatusHandler ippoolClient_UpdateStatus CacheReady (only_status (BuildCache (call_seed call))))
    (call_time call) obj.
Definition loaded : Management := (cache_builder a_call "default/pool-1" (Some restarted) (SetupManagement at_start)).1.
Definition a_handler : Handler := mkHandler "harvester-system" (mkImage "agent" "v1") "sa" true false.

Lemma loadable_restarted : loadable restarted.
Proof.
  split; [vm_compute; reflexivity|].
  intros ip mac [-> ->]%restarted_leases. split; [vm_compute; reflexivity|discriminate].
Qed.

Lemma cache_builder_registered :
  Changed IPPool "ippool-cache-builder" cache_builder ∈ ippool_Register a_handler.
Proof. right. left. Qed.

Lemma system_coherent_witness :
  well_formed (IPAllocator_ loaded) ∧
  ∀ networkName mac mac' ip, holds loaded networkName mac ip →
    is_allocated (IPAllocator_ loaded) networkName ip ∧ (holds loaded networkName mac' ip → mac = mac').
Proof.
  refine (system_coherent a_handler mac_annotation at_start loaded (rtc_once _ _ _)).
  refine (step_ippool a_handler mac_annotation _ cache_builder a_call "default/pool-1" (Some restarted) _
    cache_builder_registered _).
  intros p Hp. injection Hp as <-. exact loadable_restarted.
Defined.

(** A paused pool is refused by [BuildCache]: its condition says so. *)
Definition paused_pool : IPPool := pool_Paused restarted.

Lemma sync_reports_witness :
  ∃ sent, put_Conditions sent (pool_Conditions (pool_Status paused_pool)) = pool_Status paused_pool ∧
    GetStatus CacheReady (pool_Conditions sent) = "False" ∧
    (sync (mkStatusHandler ippoolClient_UpdateStatus CacheReady (only_status (BuildCache 0))) "now" (Some paused_pool)
       (management at_start)).2 ≠ Diverge.
Proof.
  pose proof (sync_reports (mkStatusHandler ippoolClient_UpdateStatus CacheReady (only_status (BuildCache 0))) "now"
    paused_pool paused_pool (pool_Status paused_pool) (Some (pool_disabled_error paused_pool))
    (management at_start) (management at_start)) as Hspec. cbv zeta in Hspec.
  destruct Hspec as (Hst & Hrun); [done|reflexivity|].
  destruct (Hst _ (or_intror eq_refl)) as (Hbase & Htext & _).
  eexists. split; [exact Hbase|]. split; [exact Htext|].
  destruct (Semantic_DeepEqual _ _); [by destruct Hrun as [-> _]|]. cbn [client_UpdateStatus] in Hrun.
  destruct (ippoolClient_UpdateStatus _ _) as [w [o|e]]; by rewrite Hrun.
Defined.
